(* ===== verification/_CoqProject ===== *)
-Q . S2P
Prelude.v
Text.v
Error.v
Net.v
Http.v
Lru.v
Float64.v
Wire.v
Circuit.v
CircuitRace.v
CacheControl.v
Cache.v
Acl.v
Retry.v
Router.v
Identity.v
Headers.v
TunnelProtocol.v
Balancer.v
Queue.v
IngressProtocol.v
Udp.v
Registry.v
Park.v
Revocation.v
Pool.v
Body.v
Handler.v
Config.v
Reload.v
Registration.v
CompressBody.v
Relay.v
RawRelay.v
TcpIngress.v
Lifecycle.v
Acme.v
Tls.v
TlsApi.v
QuicListener.v
TunnelListener.v
TcpListener.v
UdpListener.v
HealthFeed.v
EndToEnd.v
Startup.v
Ledger.v
Inflight.v
Traffic.v
