(* ===== verification/Prelude.v ===== *)
(** * Reduction: a verification development for the reverse proxy

    Reduction is a TLS-terminating reverse proxy in Rust.  Clients reach it over TCP or QUIC with
    mutual TLS; a request is admitted, routed by longest prefix, balanced over a pool and
    forwarded over pooled connections.  Backends behind a firewall dial out and register a
    tunnel, through which requests reach them.  Next to HTTP it relays raw streams, and takes
    UDP datagrams and TCP connections in for backends.  Configuration, certificates, trust
    anchors and the denylist are reloaded while it runs.  The development is a shallow
    embedding of that program.  Paths below are those of the crate, whose sources are under
    [src/src/] of the repository.

    ** How the parts fit together

    [run] (startup/mod.rs) builds the shared [ProxyState], spawns the background tasks and
    serves a transport.  A listener turns a handshake into an identity and a stream; the HTTP
    server calls [proxy_handler] for every request, the raw relay [handle_raw_stream] for every
    raw stream.  Both ask the access list, the limiter and the denylist, choose a backend with
    the balancer, pass its breaker and take its connection permit, and dial through the
    [ConnPool], which goes through the [TunnelRegistry] for tunnel backends.  The tunnel
    listener fills the registry; the denylist sweep empties it of revoked peers; a reload
    replaces routes, pools and access list under the requests in flight.

    ** Conventions

    Machine integers are [Z] in their range, with wrapping, checked and saturating operations
    written out where the source names them.  Text is a [string] of bytes, time a number of
    nanoseconds (seconds in Acme), [f64] the binary64 of the Standard Library.  Fallible code
    returns [result E A]; [Result] has the crate's error type.  Stateful code passes its state;
    shared objects that outlive their map entry (breakers, queues) are locations of a heap, so
    that a guard or a permit keeps the object it came from.  Tasks that run concurrently are
    step relations: a step is what runs under one lock or between two awaits.  What is not in
    the sources (the network, a clock, a file system, a library) is an argument, a record of
    answers or a class; what the code relies on is a class of laws, and an instance shows that
    the laws can hold.

    ** The files, what they model and what they show

    Foundations:
    - Prelude, Text, Error (error.rs), Net (addresses, the ipnet crate), Http (the http crate),
      Lru (the lru crate), Float64, Wire (byte streams, frames, the bitcode crate).

    Policies and data structures, each with its functional specification:
    - Circuit (circuit.rs): breakers behind references, probes and their guards, each call one
      step.  CircuitRace: the same calls from several threads, one atomic operation or lock at a
      time; what still holds however they interleave, and where the calls get in each other's
      way.  A call that runs alone is the call of Circuit.
    - CacheControl, Cache (cache_control.rs, cache.rs): what a lookup may return, injective keys.
    - Acl (acl.rs, ratelimit.rs): the lists mean what they say on the one space of 128-bit
      hosts; Retry (retry.rs), Router (proxy/router.rs).
    - Identity (tls/identity.rs, tunnel/revocation.rs, proxy/raw_authz.rs): well-formed
      identities, the two policies keyed on them.
    - Headers (proxy/handler/headers.rs, policy.rs).
    - Balancer (balancer/, health/state.rs): the selected backend is eligible and its score
      maximal; Queue (balancer/queue.rs and the map of queues); HealthFeed
      (health/subscriber.rs, balancer/jitter.rs).
    - Config (config/types/, validation): validation accepts exactly the meaningful
      configurations.

    Tunnels:
    - TunnelProtocol (tunnel/protocol.rs): a stream of frames is read back as written.
    - Registry (tunnel/registry.rs): caps and non-empty buckets in every reachable state.
    - Park (waiting requests, proxy/handler/attempt/wake.rs): no wake-up is lost between a look
      and a registration.
    - Revocation (the sweep of startup/background.rs): it is shard by shard what one atomic pass
      would be, and leaves no gap for a registration that races with it.
    - Registration (tunnel/listener/registration.rs) and TunnelListener (the accept loop of
      tunnel/listener.rs): who is acknowledged, that a connection leaves nothing behind and a
      silent one ends.

    The request path:
    - Pool (proxy/pool.rs, pool/): a connection is used only for the server name it was verified
      for; permits are exact.
    - Body (proxy/handler/body.rs, guarded_body.rs, compression.rs) and CompressBody
      (proxy/compress_body.rs): bounded replay, a compressed body is faithful and ends.
    - Handler (proxy/handler.rs, handler/): one request, whole; guards released exactly once on
      every path, refused clients isolated, sends bounded, cache filled with consent only.
    - Ledger, Inflight, Traffic: any number of requests at once.  [Inflight.resume] is the
      handler from one await to the next; [Traffic.traffic_step] interleaves arrivals,
      resumptions, dropped clients, ended bodies, raw relays, reloads and drains.  Every request
      is a run of [proxy_handler] in the environment the others make, ends after a bounded
      number of resumptions and has been sent no more often, and nowhere else, than its
      arrival allowed; the shared limits are exact in every reachable state, whatever limits
      the configurations loaded meanwhile set.

    Raw streams and ingress:
    - Relay, RawRelay (proxy/relay.rs, proxy/raw_relay.rs, raw_relay/): no byte for a peer that
      is not entitled, nothing left behind, a pipe torn down when its peer is denied.
    - IngressProtocol, Udp, UdpListener, TcpIngress (ingress/): every datagram and every
      connection accounted for, also the batch a writer holds while it dials or writes.

    Reloading, certificates and the process:
    - Reload (config_reload.rs, config/watcher.rs, config/mod.rs, startup/balancing.rs,
      tunnel/revocation_reload.rs): the live state refines one published, valid configuration.
    - Lifecycle (redirect.rs, health_endpoint.rs, fs_watch.rs, the handshake routing of
      transport/tcp.rs, shutdown): no save is lost by the debouncing, whose workers are threads
      that look, choose and call on their own.
    - Acme (tls/acme.rs, tls/secret_state.rs, [atomic_write] of fs_util.rs): provisioning
      survives a restart, failures are paced, the attempt of the startup included.
    - Tls, TlsApi (tls/certs.rs, tls/reload.rs, tls/reload/, startup/tls.rs): trust is only
      replaced by trust, although the callbacks of a watcher overlap, the client-authentication policy holds for as long as the process runs,
      the builders agree.
    - QuicListener, TcpListener (transport/): bounded front doors; a stream carries the identity
      of the connection it came on.
    - EndToEnd (startup/serve.rs): what a backend receives states the identity one handshake
      proved.
    - Startup (startup/mod.rs, background.rs): everything configured is wired, in order, the
      watchers included.

    Examples ending a file run the definitions on concrete inputs.  Some show behaviour that
    contradicts a comment or a document of the repository, among them
    [CircuitRace.race_wedges_breaker], [Tls.overtaken_reload_stale], [Traffic.woken_post_fails],
    [Acme.restart_first_hour_five], [Queue.readded_queue_doubles] and [TlsApi.revocation_lost].

    ** Bounds and fuel

    Recursion is structural where it can be.  [Handler.retry_loop] and [Inflight.loop_head]
    recurse on the attempts left, which is the bound of the source's loop.
    [CompressBody.poll_loop], [run_passes] and [finish_passes] take the number of answers in
    the scripts, or of passes the encoder needs, as fuel; running out stands for a loop that
    does not return, and is shown not to happen.  [CircuitRace.run_alone] takes [CALL_OPS], the
    seven operations of the longest call, as [calls_alone] shows;
    [Park.wait_for_reachable_tcp] returns within [probe_turns] turns.  A request is resumed at
    most once for its body and four times for each attempt ([Traffic.requests_terminate]).

    ** Not modelled, and why

    - main.rs, lib.rs, tracing_init.rs: command line, logging and the exporter's set-up.
    - The instruments of metrics.rs other than the gauge of active connections: they are the
      exporter's; what the code adds to them appears as recorded values.
    - Sockets, TLS and QUIC, X.509, the certificate authority, zstd, TOML, JSON and the token
      buckets of the limiter are libraries and services: parameters.
    - The awaits inside the establishment of one TCP or tunnel connection: it is one step of a
      request.  Opening a stream on a QUIC connection is a step of its own.
    - Memory exhaustion and panics of libraries.  Panics the source could raise are error values
      where they matter.
    - Module roots, [Debug] output, test support, examples, benches and tests. *)

From stdpp Require Export base gmap strings list pretty numbers sorting.
From Stdlib Require Export ZArith Lia.

(** ** Machine integers

    A [u8], [u16], [u32], [u64] or [usize] value is a [Z] in its range; [usize]
    is 64 bits wide (the deployment targets of the crate).  Arithmetic that the
    source leaves to the default operators stays exact here and the bounds that
    make it exact are theorems; the wrapping, checked and saturating operations
    the source names are written out. *)

Definition U8_MAX : Z := 255.
Definition U16_MAX : Z := 65535.
Definition U32_MAX : Z := 4294967295.
Definition U64_MAX : Z := 18446744073709551615.
Definition USIZE_MAX : Z := U64_MAX.

(** [AtomicU32::fetch_add] and [fetch_sub] wrap around on overflow. *)
Definition wrap32 (z : Z) : Z := z `mod` 4294967296.
Definition wrap64 (z : Z) : Z := z `mod` 18446744073709551616.

(** [u64::saturating_add], [saturating_mul] and [saturating_sub]. *)
Definition saturating_add (a b : Z) : Z := Z.min (a + b) U64_MAX.
Definition saturating_mul (a b : Z) : Z := Z.min (a * b) U64_MAX.
Definition saturating_sub (a b : Z) : Z := Z.max (a - b) 0.

(** [1u64.checked_shl(n)]: [None] once the shift reaches the width. *)
Definition checked_shl1 (n : Z) : option Z :=
  if (n <? 64)%Z then Some (2 ^ n)%Z else None.

(** The length of a string or of a vector as a [usize]. *)
Definition zlen {A} (l : list A) : Z := Z.of_nat (length l).
Lemma zlen_cons {A} (x : A) (l : list A) : zlen (x :: l) = (zlen l + 1)%Z.
Proof. unfold zlen. cbn [length]. lia. Qed.
Lemma zlen_app {A} (l k : list A) : zlen (l ++ k) = (zlen l + zlen k)%Z.
Proof. unfold zlen. rewrite length_app. lia. Qed.

Definition slen (s : string) : Z := Z.of_nat (String.length s).

(** ** Results

    [std::result::Result]; the error type comes first so that [result E] is a
    monad and the [?] operator of the source is stdpp's bind notation. *)

Inductive result (E A : Type) : Type :=
| Ok (a : A)
| Err (e : E).
Arguments Ok {_ _} _.
Arguments Err {_ _} _.

#[export] Instance result_ret E : MRet (result E) := λ A a, Ok a.
#[export] Instance result_bind E : MBind (result E) := λ A B f r,
  match r with Ok a => f a | Err e => Err e end.
#[export] Instance result_fmap E : FMap (result E) := λ A B f r,
  match r with Ok a => Ok (f a) | Err e => Err e end.

Definition ok_or {E A} (o : option A) (e : E) : result E A :=
  match o with Some a => Ok a | None => Err e end.

Definition is_ok {E A} (r : result E A) : bool :=
  match r with Ok _ => true | Err _ => false end.
Definition is_err {E A} (r : result E A) : bool := negb (is_ok r).

Lemma result_bind_ok {E A B} (f : A → result E B) (r : result E A) (b : B) :
  r ≫= f = Ok b ↔ ∃ a, r = Ok a ∧ f a = Ok b.
Proof. destruct r; naive_solver. Qed.

(** Injectivity, for the equations that [injection] would also simplify. *)
#[export] Instance Ok_inj E A : Inj (=) (=) (@Ok E A).
Proof. by intros a b [=]. Qed.

Lemma is_err_false {E A} (r : result E A) : is_err r = false ↔ ∃ a, r = Ok a.
Proof. destruct r; naive_solver. Qed.

(** ** Time

    [Instant] is a number of nanoseconds since an arbitrary origin and
    [Duration] a non-negative number of nanoseconds; [Instant::now()] is an
    argument of the operations that call it.  [Instant::elapsed] saturates at
    zero. *)

Definition NANOS_PER_SEC : Z := 1000000000.
Definition NANOS_PER_MILLI : Z := 1000000.
Definition from_secs (s : Z) : Z := s * NANOS_PER_SEC.
Definition from_millis (ms : Z) : Z := ms * NANOS_PER_MILLI.
Definition elapsed (now since : Z) : Z := Z.max (now - since) 0.

(** ** Automation shared by the components *)

Create HintDb reduction.

(** Case analysis on every [match] and [if] of the goal and the hypotheses. *)
Ltac crush_match := repeat (case_match; simplify_eq/=); try done.

(** A closed decidable goal, by evaluation. *)
Ltac by_decide := apply (bool_decide_unpack _); vm_compute; exact I.

(** Split conjunctions of the goal and of the boolean hypotheses. *)
Ltac bool_hyps :=
  repeat match goal with
  | H : (_ && _) = true |- _ => apply andb_true_iff in H as [? ?]
  | H : (_ || _) = false |- _ => apply orb_false_iff in H as [? ?]
  | H : negb _ = true |- _ => apply negb_true_iff in H
  | H : negb _ = false |- _ => apply negb_false_iff in H
  | H : bool_decide _ = true |- _ => apply bool_decide_eq_true in H
  | H : bool_decide _ = false |- _ => apply bool_decide_eq_false in H
  | H : (_ <? _)%Z = true |- _ => apply Z.ltb_lt in H
  | H : (_ <? _)%Z = false |- _ => apply Z.ltb_ge in H
  | H : (_ <=? _)%Z = true |- _ => apply Z.leb_le in H
  | H : (_ <=? _)%Z = false |- _ => apply Z.leb_gt in H
  | H : (_ =? _)%Z = true |- _ => apply Z.eqb_eq in H
  | H : (_ =? _)%Z = false |- _ => apply Z.eqb_neq in H
  end.

(** ** Facts on machine integers *)

Lemma wrap32_small z : (0 ≤ z ≤ U32_MAX)%Z → wrap32 z = z.
Proof. unfold wrap32, U32_MAX. intros. apply Z.mod_small. lia. Qed.

Lemma wrap32_range z : (0 ≤ wrap32 z ≤ U32_MAX)%Z.
Proof.
  unfold wrap32, U32_MAX.
  pose proof (Z.mod_pos_bound z 4294967296 ltac:(lia)). lia.
Qed.

Lemma wrap64_range z : (0 ≤ wrap64 z ≤ U64_MAX)%Z.
Proof.
  unfold wrap64, U64_MAX.
  pose proof (Z.mod_pos_bound z 18446744073709551616 ltac:(lia)). lia.
Qed.

Lemma wrap32_sub_add z : (0 ≤ z ≤ U32_MAX)%Z → wrap32 (wrap32 (z + 1) - 1) = z.
Proof.
  intros. unfold wrap32. rewrite Zminus_mod_idemp_l.
  replace (z + 1 - 1)%Z with z by lia. apply wrap32_small. done.
Qed.

#[export] Hint Resolve wrap32_range wrap64_range : reduction.

(** ** Facts on lists *)

Lemma find_some_split {A} (f : A → bool) (l : list A) (x : A) :
  List.find f l = Some x →
  ∃ l1 l2, l = l1 ++ x :: l2 ∧ f x = true ∧ Forall (λ y, f y = false) l1.
Proof.
  induction l as [|y l IH]; simpl; [done|].
  destruct (f y) eqn:Hy; intros Hf; simplify_eq.
  - exists [], l. eauto.
  - destruct (IH Hf) as (l1 & l2 & -> & Hx & Hall).
    exists (y :: l1), l2. split_and!; [done..|by constructor].
Qed.

Lemma existsb_elem_of {A} (f : A → bool) (l : list A) :
  existsb f l = true ↔ ∃ x, x ∈ l ∧ f x = true.
Proof.
  rewrite existsb_exists. split; intros (x & Hx & Hf); exists x;
    rewrite list_elem_of_In in *; done.
Qed.

Lemma existsb_elem_of_false {A} (f : A → bool) (l : list A) :
  existsb f l = false ↔ ∀ x, x ∈ l → f x = false.
Proof.
  rewrite <-not_true_iff_false, existsb_elem_of. split.
  - intros Hn x Hx. destruct (f x) eqn:?; [|done]. destruct Hn; eauto.
  - intros Hall (x & Hx & Hf). rewrite (Hall x Hx) in Hf. done.
Qed.

Lemma forallb_elem_of {A} (f : A → bool) (l : list A) :
  forallb f l = true ↔ ∀ x, x ∈ l → f x = true.
Proof.
  rewrite forallb_forall. by setoid_rewrite list_elem_of_In.
Qed.

(** ** Sums over a map *)

Section msum.
  Context {A : Type} (f : A → Z).

Definition msum (m : gmap string A) : Z := map_fold (λ _ a acc, (f a + acc)%Z) 0%Z m.

Lemma msum_empty : msum ∅ = 0%Z.
Proof. apply map_fold_empty. Qed.

Lemma msum_insert_None m k a : m !! k = None → msum (<[k := a]> m) = (f a + msum m)%Z.
Proof. intros Hk. unfold msum. rewrite map_fold_insert_L; [done| |done]. intros. lia. Qed.

Lemma msum_delete m k a : m !! k = Some a → msum (delete k m) = (msum m - f a)%Z.
Proof.
  intros Hk. rewrite <-(insert_delete_id m k a Hk) at 2.
  rewrite msum_insert_None by apply lookup_delete_eq. lia.
Qed.

Lemma msum_insert m k a :
  msum (<[k := a]> m) = (msum m + f a - match m !! k with Some b => f b | None => 0 end)%Z.
Proof.
  destruct (m !! k) as [b|] eqn:Hk; [|rewrite msum_insert_None by done; lia].
  rewrite <-insert_delete_eq, msum_insert_None by apply lookup_delete_eq.
  rewrite (msum_delete m k b Hk). lia.
Qed.
End msum.

(** ** Congruence modulo the width of a 64-bit counter *)

Definition cong64 (a b : Z) : Prop := ∃ k, a = (b + k * 18446744073709551616)%Z.

Lemma wrap64_cong a : cong64 (wrap64 a) a.
Proof.
  exists (- (a `div` 18446744073709551616))%Z. unfold wrap64.
  pose proof (Z.div_mod a 18446744073709551616). lia.
Qed.

#[export] Instance cong64_equiv : Equivalence cong64.
Proof.
  split.
  - intros a. exists 0%Z. lia.
  - intros a b [k ->]. exists (- k)%Z. lia.
  - intros a b c [k ->] [j ->]. exists (k + j)%Z. lia.
Qed.

#[export] Instance cong64_add : Proper (cong64 ==> cong64 ==> cong64) Z.add.
Proof. intros a b [k ->] c d [j ->]. exists (k + j)%Z. lia. Qed.

#[export] Instance cong64_sub : Proper (cong64 ==> cong64 ==> cong64) Z.sub.
Proof. intros a b [k ->] c d [j ->]. exists (k - j)%Z. lia. Qed.

Lemma cong64_of_eq a b : a = b → cong64 a b.
Proof. intros ->. reflexivity. Qed.

Lemma cong64_wrap a b : cong64 a b → wrap64 a = wrap64 b.
Proof. intros [k ->]. unfold wrap64. apply Z.mod_add. lia. Qed.

(** ** Lists with distinct keys *)

Lemma elem_of_map {A B} (f : A → B) l y : y ∈ map f l ↔ ∃ x, y = f x ∧ x ∈ l.
Proof. apply list_elem_of_fmap. Qed.

Lemma elem_of_filter_bool {A} (p : A → bool) l x : x ∈ List.filter p l ↔ x ∈ l ∧ p x = true.
Proof. by rewrite !list_elem_of_In, filter_In. Qed.

Lemma NoDup_map_filter {A B} (f : A → B) (p : A → bool) l :
  NoDup (map f l) → NoDup (map f (List.filter p l)).
Proof.
  induction l as [|x l IH]; [done|]. cbn [map List.filter]. intros [Hx Hl]%NoDup_cons.
  destruct (p x); [|by apply IH]. cbn [map]. apply NoDup_cons. split; [|by apply IH].
  intros (y & Hy & Hin)%elem_of_map. apply Hx. apply elem_of_map. exists y.
  by apply elem_of_filter_bool in Hin as [? _].
Qed.

Lemma NoDup_map_inj {A B} (f : A → B) l x y :
  NoDup (map f l) → x ∈ l → y ∈ l → f x = f y → x = y.
Proof.
  induction l as [|z l IH]; [by intros _ ?%elem_of_nil|].
  cbn [map]. rewrite NoDup_cons, !elem_of_cons, elem_of_map. naive_solver.
Qed.
