(* ===== verification/Text.v ===== *)
(** * Text: the [str] operations the proxy uses

    A [&str], [String] or [ArrayString] is a [string] of bytes, so [len] is the
    byte length.  The text the modelled code trims, splits and compares comes
    from HTTP header values that passed [HeaderValue::to_str] and from the
    configuration; the definitions below are those of the standard library on
    such ASCII text ([trim] strips the ASCII white space, [eq_ignore_ascii_case]
    folds [A-Z]). *)

From Stdlib Require Import Ascii.
From S2P Require Import Prelude.
Local Open Scope Z_scope.

Definition byte_of (a : ascii) : Z := Z.of_nat (nat_of_ascii a).

Definition bytes_of (s : string) : list Z :=
  map byte_of (String.list_ascii_of_string s).

(** [u8::to_ascii_lowercase] and [str::to_ascii_lowercase]. *)
Definition lower_char (a : ascii) : ascii :=
  let n := nat_of_ascii a in
  if (65 <=? n)%nat && (n <=? 90)%nat then ascii_of_nat (n + 32) else a.

Fixpoint to_ascii_lowercase (s : string) : string :=
  match s with
  | EmptyString => EmptyString
  | String a s => String (lower_char a) (to_ascii_lowercase s)
  end.

(** [str::eq_ignore_ascii_case]. *)
Definition eq_ignore_ascii_case (s t : string) : bool :=
  String.eqb (to_ascii_lowercase s) (to_ascii_lowercase t).

(** [str::split] on one character: always at least one piece. *)
Fixpoint split (c : ascii) (s : string) : list string :=
  match s with
  | EmptyString => [EmptyString]
  | String a s =>
      if Ascii.eqb a c then EmptyString :: split c s
      else match split c s with
           | p :: ps => String a p :: ps
           | [] => [String a EmptyString]
           end
  end.

(** ASCII white space: tab, line feed, vertical tab, form feed, carriage return
    and space. *)
Definition is_whitespace (a : ascii) : bool :=
  let n := nat_of_ascii a in
  ((9 <=? n)%nat && (n <=? 13)%nat) || (n =? 32)%nat.

Fixpoint trim_start (s : string) : string :=
  match s with
  | EmptyString => EmptyString
  | String a s' => if is_whitespace a then trim_start s' else s
  end.

Fixpoint trim_end (s : string) : string :=
  match s with
  | EmptyString => EmptyString
  | String a s =>
      match trim_end s with
      | EmptyString => if is_whitespace a then EmptyString else String a EmptyString
      | t => String a t
      end
  end.

Definition trim (s : string) : string := trim_end (trim_start s).

(** [str::split_at_checked]: [None] past the end (the text is ASCII, so every
    position is a character boundary). *)
Fixpoint split_at_checked (n : nat) (s : string) : option (string * string) :=
  match n, s with
  | O, _ => Some (EmptyString, s)
  | S n, EmptyString => None
  | S n, String a s =>
      match split_at_checked n s with
      | Some (h, r) => Some (String a h, r)
      | None => None
      end
  end.

(** [str::starts_with]. *)
Fixpoint starts_with (s p : string) {struct p} : bool :=
  match p, s with
  | EmptyString, _ => true
  | String b p, String a s => Ascii.eqb a b && starts_with s p
  | String _ _, EmptyString => false
  end.

(** [str::ends_with] on one character. *)
Fixpoint ends_with_char (s : string) (c : ascii) : bool :=
  match s with
  | EmptyString => false
  | String a EmptyString => Ascii.eqb a c
  | String _ s => ends_with_char s c
  end.

(** [str::contains] on a substring. *)
Fixpoint contains (s p : string) : bool :=
  starts_with s p ||
  match s with EmptyString => false | String _ s => contains s p end.

(** A decimal digit of a byte, and [str::parse::<u64>]: an optional [+], at
    least one digit, no overflow. *)
Definition digit_of (a : ascii) : option Z :=
  let n := byte_of a in
  if (48 <=? n) && (n <=? 57) then Some (n - 48) else None.

Fixpoint parse_digits (max acc : Z) (s : string) : option Z :=
  match s with
  | EmptyString => Some acc
  | String a s =>
      match digit_of a with
      | None => None
      | Some d =>
          if max <? acc * 10 + d then None else parse_digits max (acc * 10 + d) s
      end
  end.

Definition parse_uint (max : Z) (s : string) : option Z :=
  match s with
  | EmptyString => None
  | String "+" EmptyString => None
  | String "+" s => parse_digits max 0 s
  | _ => parse_digits max 0 s
  end.

Definition parse_u64 : string → option Z := parse_uint U64_MAX.
Definition parse_u32 : string → option Z := parse_uint U32_MAX.

(** [ArrayString::<CAP>::from]: fails on text longer than the capacity. *)
Definition array_string_from (cap : Z) (s : string) : option string :=
  if cap <? slen s then None else Some s.

(** A lower-case hexadecimal digit. *)
Definition HEX_ALPHABET : string := "0123456789abcdef".

Definition hex_digit (n : Z) : string :=
  match String.get (Z.to_nat n) HEX_ALPHABET with
  | Some c => String c ""
  | None => ""
  end.

(** ** Facts *)

Lemma byte_of_range a : 0 ≤ byte_of a ≤ 255.
Proof. unfold byte_of. pose proof (nat_ascii_bounded a). lia. Qed.

Lemma byte_of_inj a b : byte_of a = byte_of b → a = b.
Proof.
  unfold byte_of. intros H. rewrite <-(ascii_nat_embedding a), <-(ascii_nat_embedding b).
  f_equal. lia.
Qed.

Lemma slen_app s t : slen (s +:+ t) = slen s + slen t.
Proof.
  unfold slen. rewrite <-Nat2Z.inj_add. f_equal.
  induction s as [|a s IH]; [done|].
  change (S (String.length (s +:+ t)) = S (String.length s + String.length t)).
  by rewrite IH.
Qed.

Lemma slen_nonneg s : 0 ≤ slen s.
Proof. unfold slen. lia. Qed.

Lemma slen_cons a s : slen (String a s) = 1 + slen s.
Proof. unfold slen. cbn [String.length]. lia. Qed.

Lemma slen_zero s : slen s = 0 → s = "".
Proof. destruct s as [|a s]; [done|]. rewrite slen_cons. pose proof (slen_nonneg s). lia. Qed.

Lemma lower_char_idem a : lower_char (lower_char a) = lower_char a.
Proof. destruct a as [[] [] [] [] [] [] [] []]; reflexivity. Qed.

Lemma to_ascii_lowercase_idem s :
  to_ascii_lowercase (to_ascii_lowercase s) = to_ascii_lowercase s.
Proof. induction s as [|a s IH]; simpl; [done|]. by rewrite lower_char_idem, IH. Qed.

Lemma to_ascii_lowercase_app s t :
  to_ascii_lowercase (s +:+ t) = to_ascii_lowercase s +:+ to_ascii_lowercase t.
Proof. induction s as [|a s IH]; [done|]. change (String (lower_char a) (to_ascii_lowercase (s +:+ t)) =
  String (lower_char a) (to_ascii_lowercase s +:+ to_ascii_lowercase t)). by rewrite IH. Qed.

Lemma eq_ignore_ascii_case_spec s t :
  eq_ignore_ascii_case s t = true ↔ to_ascii_lowercase s = to_ascii_lowercase t.
Proof. unfold eq_ignore_ascii_case. apply String.eqb_eq. Qed.

Lemma eq_ignore_ascii_case_lower s t :
  eq_ignore_ascii_case (to_ascii_lowercase s) t = eq_ignore_ascii_case s t.
Proof. unfold eq_ignore_ascii_case. by rewrite to_ascii_lowercase_idem. Qed.

Lemma is_whitespace_lower a : is_whitespace (lower_char a) = is_whitespace a.
Proof. destruct a as [[] [] [] [] [] [] [] []]; reflexivity. Qed.

Lemma digit_of_lower a : digit_of (lower_char a) = digit_of a.
Proof. destruct a as [[] [] [] [] [] [] [] []]; reflexivity. Qed.

Lemma trim_lower s : trim (to_ascii_lowercase s) = to_ascii_lowercase (trim s).
Proof.
  unfold trim. assert (∀ t, trim_end (to_ascii_lowercase t) = to_ascii_lowercase (trim_end t)) as He.
  { intros t. induction t as [|a t IH]; simpl; [done|].
    rewrite IH, is_whitespace_lower.
    destruct (trim_end t); simpl; [by destruct (is_whitespace a)|done]. }
  rewrite <-He. f_equal.
  induction s as [|a s IH]; simpl; [done|]. rewrite is_whitespace_lower.
  by destruct (is_whitespace a).
Qed.

(** [c] is its own lower case and no other character is folded onto it. *)
Lemma split_lower c s :
  (∀ a, Ascii.eqb (lower_char a) c = Ascii.eqb a c) →
  split c (to_ascii_lowercase s) = map to_ascii_lowercase (split c s).
Proof.
  intros Hc. induction s as [|a s IH]; simpl; [done|].
  rewrite Hc. destruct (Ascii.eqb a c); simpl; [by rewrite IH|].
  rewrite IH. by destruct (split c s).
Qed.

Lemma split_at_checked_lower n s :
  split_at_checked n (to_ascii_lowercase s) =
  (λ p, (to_ascii_lowercase p.1, to_ascii_lowercase p.2)) <$> split_at_checked n s.
Proof.
  revert s. induction n as [|n IH]; intros [|a s]; simpl; try done.
  rewrite IH. by destruct (split_at_checked n s) as [[h r]|].
Qed.

Lemma parse_digits_lower max acc s :
  parse_digits max acc (to_ascii_lowercase s) = parse_digits max acc s.
Proof.
  revert acc. induction s as [|a s IH]; intros acc; simpl; [done|].
  rewrite digit_of_lower. destruct (digit_of a) as [d|]; [|done].
  destruct (max <? acc * 10 + d); [done|]. apply IH.
Qed.

Lemma parse_uint_lower max s :
  parse_uint max (to_ascii_lowercase s) = parse_uint max s.
Proof.
  destruct s as [|a s]; [done|].
  pose proof (parse_digits_lower max 0 s) as Hs.
  pose proof (parse_digits_lower max 0 (String a s)) as Hd.
  destruct s as [|b s].
  - destruct a as [[] [] [] [] [] [] [] []]; try reflexivity; exact Hd.
  - destruct a as [[] [] [] [] [] [] [] []]; solve [exact Hd | exact Hs].
Qed.

Lemma parse_digits_bounds max acc s n :
  0 ≤ acc ≤ max → parse_digits max acc s = Some n → 0 ≤ n ≤ max.
Proof.
  revert acc. induction s as [|a s IH]; intros acc Hacc; simpl; [naive_solver|].
  destruct (digit_of a) as [d|] eqn:Hd; [|done].
  assert (0 ≤ d) by (unfold digit_of in Hd;
    destruct ((48 <=? byte_of a) && (byte_of a <=? 57)) eqn:?; simplify_eq; lia).
  destruct (max <? acc * 10 + d) eqn:Hlt; [done|]. apply IH. lia.
Qed.

Lemma parse_uint_bounds max s n :
  0 ≤ max → parse_uint max s = Some n → 0 ≤ n ≤ max.
Proof.
  intros Hm H. assert (∃ t, parse_digits max 0 t = Some n) as [t Ht].
  { destruct s as [|a s]; [done|]. destruct (Ascii.eqb a "+"%char) eqn:Ha.
    - apply Ascii.eqb_eq in Ha as ->. destruct s; [done|]. by eexists.
    - exists (String a s). rewrite <-H.
      destruct a as [[] [] [] [] [] [] [] []]; try reflexivity. done. }
  eapply parse_digits_bounds; [|exact Ht]. lia.
Qed.

Lemma split_at_checked_app n s h r : split_at_checked n s = Some (h, r) → s = h +:+ r.
Proof.
  revert s h r. induction n as [|n IH]; intros [|a s] h r; simpl; try (by intros; simplify_eq).
  destruct (split_at_checked n s) as [[h' r']|] eqn:Hs; intros; simplify_eq.
  by rewrite (IH _ _ _ Hs).
Qed.

(** ** Decimal prefixes *)

Fixpoint lacks (c : ascii) (s : string) : bool :=
  match s with
  | EmptyString => true
  | String a s => negb (Ascii.eqb a c) && lacks c s
  end.

Lemma pretty_N_go_lacks x s : lacks ":" s = true → lacks ":" (pretty_N_go x s) = true.
Proof.
  revert s. induction (N.lt_wf_0 x) as [x _ IH]; intros s Hs.
  assert (x = 0 ∨ 0 < x)%N as [->|Hx] by lia; [by rewrite pretty_N_go_0|].
  rewrite pretty_N_go_step by done. apply IH; [by apply N.div_lt|].
  unfold pretty_N_char. simpl. rewrite Hs. by repeat case_match.
Qed.

Lemma pretty_nat_lacks (n : nat) : lacks ":" (pretty n) = true.
Proof.
  unfold pretty, pretty_nat, pretty, pretty_N. case_decide; [done|].
  by apply pretty_N_go_lacks.
Qed.

(** A string without [c] ends at the first [c] that follows it. *)
Lemma lacks_app_inj c s1 s2 t1 t2 :
  lacks c s1 = true → lacks c s2 = true →
  s1 +:+ String c t1 = s2 +:+ String c t2 → s1 = s2 ∧ t1 = t2.
Proof.
  unfold String.append. revert s2. induction s1 as [|a s1 IH]; intros [|b s2] H1 H2 Heq; cbn in *.
  - by simplify_eq.
  - simplify_eq. by rewrite Ascii.eqb_refl in H2.
  - simplify_eq. by rewrite Ascii.eqb_refl in H1.
  - apply andb_prop in H1 as [_ H1], H2 as [_ H2]. injection Heq as -> Heq.
    destruct (IH s2) as [-> ->]; done.
Qed.

Lemma app_length_inj s1 s2 t1 t2 :
  String.length s1 = String.length s2 →
  s1 +:+ t1 = s2 +:+ t2 → s1 = s2 ∧ t1 = t2.
Proof.
  unfold String.append. revert s2. induction s1 as [|a s1 IH]; intros [|b s2] Hl Heq; cbn in *; try done.
  injection Heq as -> Heq. destruct (IH s2) as [-> ->]; [lia|done|done].
Qed.

(** [<len>:<text>] is a self-delimiting encoding of [text]. *)
Definition length_prefixed (s : string) : string := pretty (String.length s) +:+ ":" +:+ s.

Lemma string_app_assoc (s t u : string) : (s +:+ t) +:+ u = s +:+ (t +:+ u).
Proof. unfold String.append. induction s as [|a s IH]; cbn; [done|]. by rewrite IH. Qed.

Lemma string_app_nil_r (s : string) : s +:+ "" = s.
Proof. unfold String.append. induction s as [|a s IH]; cbn; [done|]. by rewrite IH. Qed.

Lemma length_prefixed_inj s1 s2 t1 t2 :
  length_prefixed s1 +:+ t1 = length_prefixed s2 +:+ t2 → s1 = s2 ∧ t1 = t2.
Proof.
  unfold length_prefixed. rewrite !string_app_assoc.
  intros Heq. apply lacks_app_inj in Heq as [Hl Heq]; [|apply pretty_nat_lacks..].
  apply (inj pretty) in Hl. by apply app_length_inj in Heq.
Qed.
