(* ===== verification/Error.v ===== *)
(** * Error: [src/error.rs]

    The crate's error type, one constructor per variant; the payload of a variant
    that wraps a foreign error is its message. *)

From S2P Require Import Prelude.

Inductive ReductionError :=
  | Config (msg : string)
  | ConfigParse (msg : string)
  | Tls (msg : string)
  | Identity (msg : string)
  | Io (msg : string)
  | Transport (msg : string)
  | BackendUnavailable
  | QueueFull
  | RateLimited
  | AccessDenied
  | Forward (msg : string)
  | CircuitOpen (id : string)
  | ConnectTunnel (msg : string)
  | Tunnel (msg : string)
  | NoBackendSession (id : string)
  | Ingress (msg : string)
  | Acme (msg : string).

#[export] Instance ReductionError_eq_dec : EqDecision ReductionError.
Proof. solve_decision. Defined.

(** The [Display] of an error, from the [#[error]] attributes. *)
Definition error_to_string (e : ReductionError) : string :=
  match e with
  | Config m => "config: " +:+ m
  | ConfigParse m => "config parse: " +:+ m
  | Tls m => "tls: " +:+ m
  | Identity m => "identity: " +:+ m
  | Io m => "io: " +:+ m
  | Transport m => "transport: " +:+ m
  | BackendUnavailable => "backend unavailable"
  | QueueFull => "queue full"
  | RateLimited => "rate limited"
  | AccessDenied => "access denied"
  | Forward m => "forward: " +:+ m
  | CircuitOpen id => "circuit open for backend " +:+ id
  | ConnectTunnel m => "connect tunnel: " +:+ m
  | Tunnel m => "tunnel: " +:+ m
  | NoBackendSession id => "no tunnel sessions for backend " +:+ id
  | Ingress m => "ingress: " +:+ m
  | Acme m => "acme: " +:+ m
  end.

Definition is_transport_miss (e : ReductionError) : bool :=
  match e with
  | NoBackendSession _ | BackendUnavailable | Forward _ => true
  | _ => false
  end.

Abbreviation Result := (result ReductionError).
