(* ===== verification/Net.v ===== *)
(** * Net: IP addresses and networks

    [std::net] addresses as integers of their width, and the [ipnet] crate as the
    class [IpNetLib] with its documented membership test. *)

From S2P Require Import Prelude Text.
Local Open Scope Z_scope.

Inductive IpAddr :=
  | V4 (addr : Z)
  | V6 (addr : Z).

#[export] Instance IpAddr_eq_dec : EqDecision IpAddr.
Proof. solve_decision. Defined.

#[export] Instance IpAddr_countable : Countable IpAddr.
Proof.
  refine (inj_countable' (λ ip, match ip with V4 a => inl a | V6 a => inr a end)
    (λ s, match s with inl a => V4 a | inr a => V6 a end) _).
  by intros [].
Defined.

Definition ip_wf (ip : IpAddr) : Prop :=
  match ip with
  | V4 a => 0 ≤ a < 2 ^ 32
  | V6 a => 0 ≤ a < 2 ^ 128
  end.

(** [Ipv6Addr::to_ipv4_mapped]: the address when it lies in [::ffff:0:0/96]. *)
Definition to_ipv4_mapped (a : Z) : option Z :=
  if Z.shiftr a 32 =? 0xffff then Some (Z.land a 0xffffffff) else None.

Arguments to_ipv4_mapped : simpl never.

(** [IpAddr::to_canonical]. *)
Definition to_canonical (ip : IpAddr) : IpAddr :=
  match ip with
  | V4 a => V4 a
  | V6 a => match to_ipv4_mapped a with Some a4 => V4 a4 | None => V6 a end
  end.

(** The IPv4-mapped IPv6 form of an IPv4 address. *)
Definition mapped (a : Z) : Z := 0xffff * 2 ^ 32 + a.
Arguments mapped : simpl never.

Lemma to_ipv4_mapped_spec a a4 :
  to_ipv4_mapped a = Some a4 → a = mapped a4 ∧ 0 ≤ a4 < 2 ^ 32.
Proof.
  unfold to_ipv4_mapped, mapped. destruct (Z.eqb_spec (Z.shiftr a 32) 0xffff) as [Hs|]; [|done].
  intros Heq. injection Heq as <-. rewrite Z.shiftr_div_pow2 in Hs by lia.
  change 0xffffffff with (Z.ones 32). rewrite Z.land_ones by lia.
  pose proof (Z.div_mod a (2 ^ 32) ltac:(lia)). pose proof (Z.mod_pos_bound a (2 ^ 32) ltac:(lia)).
  split; lia.
Qed.

Lemma to_ipv4_mapped_mapped a : 0 ≤ a < 2 ^ 32 → to_ipv4_mapped (mapped a) = Some a.
Proof.
  intros Ha. unfold to_ipv4_mapped, mapped. rewrite Z.shiftr_div_pow2 by lia.
  rewrite Z.div_add_l, Z.div_small by lia. cbn [Z.add Z.eqb Pos.eqb]. f_equal.
  change 0xffffffff with (Z.ones 32). rewrite Z.land_ones by lia.
  rewrite Z.add_comm, Z.mod_add by lia. by apply Z.mod_small.
Qed.

Lemma to_canonical_idem ip : to_canonical (to_canonical ip) = to_canonical ip.
Proof.
  destruct ip as [a|a]; [done|]. unfold to_canonical.
  destruct (to_ipv4_mapped a) as [a4|] eqn:Hm; [reflexivity|]. rewrite Hm. reflexivity.
Qed.

(** A socket address; [sa_ip] and [sa_port] are what the proxy reads of it. *)
Record SocketAddr := {
  sa_ip : IpAddr;
  sa_port : Z;
}.

#[export] Instance SocketAddr_eq_dec : EqDecision SocketAddr.
Proof. solve_decision. Defined.

#[export] Instance SocketAddr_countable : Countable SocketAddr.
Proof.
  refine (inj_countable' (λ a, (sa_ip a, sa_port a)) (λ p, Build_SocketAddr p.1 p.2) _).
  by intros [].
Defined.

(** ** Printing an address *)

Definition octet (a : Z) (i : Z) : Z := Z.land (Z.shiftr a (8 * i)) 0xff.

Definition v4_to_string (a : Z) : string :=
  pretty (octet a 3) +:+ "." +:+ pretty (octet a 2) +:+ "." +:+
  pretty (octet a 1) +:+ "." +:+ pretty (octet a 0).

(** The eight segments of an IPv6 address, in order, and one of them in [{:x}]. *)
Definition segments (a : Z) : list Z :=
  map (λ i, Z.land (Z.shiftr a (16 * i)) 0xffff) [7; 6; 5; 4; 3; 2; 1; 0].

Definition segment_to_string (n : Z) : string :=
  let d i := hex_digit (Z.land (Z.shiftr n (4 * i)) 0xf) in
  if n <? 16 then d 0
  else if n <? 256 then d 1 +:+ d 0
  else if n <? 4096 then d 2 +:+ d 1 +:+ d 0
  else d 3 +:+ d 2 +:+ d 1 +:+ d 0.

(** The first longest run of zero segments, as start and length. *)
Fixpoint longest_zeros (l : list Z) (i cur_start cur_len start len : nat) : nat * nat :=
  match l with
  | [] => (start, len)
  | n :: l =>
      if n =? 0 then
        let cur_start := if (cur_len =? 0)%nat then i else cur_start in
        let cur_len := S cur_len in
        if (len <? cur_len)%nat then longest_zeros l (S i) cur_start cur_len cur_start cur_len
        else longest_zeros l (S i) cur_start cur_len start len
      else longest_zeros l (S i) 0 0 start len
  end.

Definition join_segments (l : list Z) : string :=
  String.concat ":" (map segment_to_string l).

Definition v6_to_string (a : Z) : string :=
  match to_ipv4_mapped a with
  | Some a4 => "::ffff:" +:+ v4_to_string a4
  | None =>
      let segs := segments a in
      let '(start, len) := longest_zeros segs 0 0 0 0 0 in
      if (1 <? len)%nat
      then join_segments (take start segs) +:+ "::" +:+ join_segments (drop (start + len) segs)
      else join_segments segs
  end.

Definition ip_to_string (ip : IpAddr) : string :=
  match ip with V4 a => v4_to_string a | V6 a => v6_to_string a end.

(** ** Networks *)

Class IpNetLib := {
  Ipv4Net : Type;
  Ipv6Net : Type;
  v4_new : Z → Z → option Ipv4Net;
  v4_addr : Ipv4Net → Z;
  v4_prefix_len : Ipv4Net → Z;
  v4_contains : Ipv4Net → Z → bool;
  v6_addr : Ipv6Net → Z;
  v6_prefix_len : Ipv6Net → Z;
  v6_contains : Ipv6Net → Z → bool;
}.

(** [a] and [b] agree on the first [p] of [w] bits. *)
Definition agree (w p a b : Z) : bool := Z.shiftr a (w - p) =? Z.shiftr b (w - p).

Class IpNetLaws `{IpNetLib} := {
  v4_new_ok a p : 0 ≤ a < 2 ^ 32 → 0 ≤ p ≤ 32 →
    ∃ n, v4_new a p = Some n ∧ v4_addr n = a ∧ v4_prefix_len n = p;
  v4_contains_spec n a :
    v4_contains n a = agree 32 (v4_prefix_len n) (v4_addr n) a;
  v6_contains_spec n a :
    v6_contains n a = agree 128 (v6_prefix_len n) (v6_addr n) a;
  v4_wf n : 0 ≤ v4_addr n < 2 ^ 32 ∧ 0 ≤ v4_prefix_len n ≤ 32;
  v6_wf n : 0 ≤ v6_addr n < 2 ^ 128 ∧ 0 ≤ v6_prefix_len n ≤ 128;
}.

Inductive IpNet `{IpNetLib} :=
  | Net4 (n : Ipv4Net)
  | Net6 (n : Ipv6Net).

(** [IpNet::contains] on an address: membership within one family only. *)
Definition net_contains `{IpNetLib} (net : IpNet) (ip : IpAddr) : bool :=
  match net, ip with
  | Net4 n, V4 a => v4_contains n a
  | Net6 n, V6 a => v6_contains n a
  | _, _ => false
  end.

Lemma agree_mapped p a b :
  0 ≤ p ≤ 32 → agree 128 (96 + p) (mapped a) (mapped b) = agree 32 p a b.
Proof.
  intros Hp. unfold agree, mapped. replace (128 - (96 + p)) with (32 - p) by lia.
  rewrite !Z.shiftr_div_pow2 by lia.
  assert (0xffff * 2 ^ 32 = (0xffff * 2 ^ p) * 2 ^ (32 - p)) as ->.
  { rewrite <-Z.mul_assoc, <-Z.pow_add_r by lia. repeat f_equal. lia. }
  rewrite !Z.div_add_l by (apply Z.pow_nonzero; lia).
  destruct (Z.eqb_spec (a `div` 2 ^ (32 - p)) (b `div` 2 ^ (32 - p))) as [->|Hne];
    [by rewrite Z.eqb_refl|]. apply Z.eqb_neq. lia.
Qed.

(** A network as an address and a prefix length in range. *)
Record checked_net (w : Z) := {
  cn_addr : Z;
  cn_prefix : Z;
  cn_ok : (0 <=? cn_addr) && (cn_addr <? 2 ^ w) && (0 <=? cn_prefix) && (cn_prefix <=? w) = true;
}.

Definition checked_new (w a p : Z) : option (checked_net w) :=
  match decide ((0 <=? a) && (a <? 2 ^ w) && (0 <=? p) && (p <=? w) = true) with
  | left H => Some (Build_checked_net w a p H)
  | right _ => None
  end.

#[export] Instance checked_ipnet : IpNetLib := {|
  Ipv4Net := checked_net 32;
  Ipv6Net := checked_net 128;
  v4_new := checked_new 32;
  v4_addr := cn_addr 32;
  v4_prefix_len := cn_prefix 32;
  v4_contains n a := agree 32 (cn_prefix 32 n) (cn_addr 32 n) a;
  v6_addr := cn_addr 128;
  v6_prefix_len := cn_prefix 128;
  v6_contains n a := agree 128 (cn_prefix 128 n) (cn_addr 128 n) a;
|}.

Lemma checked_net_wf w (n : checked_net w) :
  0 ≤ cn_addr w n < 2 ^ w ∧ 0 ≤ cn_prefix w n ≤ w.
Proof. destruct n as [a p Hok]; simpl. bool_hyps. lia. Qed.

#[export] Instance checked_ipnet_laws : IpNetLaws.
Proof.
  split; simpl; try done; [|apply checked_net_wf..].
  intros a p Ha Hp. unfold checked_new. case_decide as Hd; [by eexists|].
  destruct Hd. rewrite !andb_true_iff. lia.
Qed.
