(* ===== verification/Http.v ===== *)
(** * Http: requests, responses and the header map

    The [http] crate is not part of the sources: its header map is the class
    [Http], and what the proxy relies on is the class [HttpLaws].  A header
    name is its canonical lower-case spelling and a [HeaderValue] its bytes.
    The list instance at the end of the file shows that the laws can hold. *)

From Stdlib Require Import Ascii.
From S2P Require Import Prelude Text.
Local Open Scope Z_scope.

(** [get_all] is [HeaderMap::get_all]; [hm_insert] is [HeaderMap::insert]
    (which replaces every value of the name), [hm_remove] is
    [HeaderMap::remove] (which drops every value of the name), and [invalid_value]
    is the message of [InvalidHeaderValue]. *)
Class Http := {
  HeaderMap : Type;
  hm_new : HeaderMap;
  get_all : HeaderMap → string → list string;
  hm_insert : string → string → HeaderMap → HeaderMap;
  hm_remove : string → HeaderMap → HeaderMap;
  to_str : string → option string;
  value_from_str : string → option string;
  name_from_bytes : string → option string;
  invalid_value : string;
}.

Definition is_visible (a : ascii) : bool :=
  ((32 <=? byte_of a) && (byte_of a <? 127)) || (byte_of a =? 9).

Fixpoint forall_chars (f : ascii → bool) (s : string) : bool :=
  match s with
  | EmptyString => true
  | String a s => f a && forall_chars f s
  end.

Class HttpLaws `{Http} := {
  get_all_new n : get_all hm_new n = [];
  get_all_insert n v h m :
    get_all (hm_insert n v h) m = if String.eqb n m then [v] else get_all h m;
  get_all_remove n h m :
    get_all (hm_remove n h) m = if String.eqb n m then [] else get_all h m;
  to_str_exact v s : to_str v = Some s → s = v;
  to_str_visible v : forall_chars is_visible v = true → to_str v = Some v;
  value_from_str_exact s v : value_from_str s = Some v → v = s;
  value_from_str_visible s : forall_chars is_visible s = true → value_from_str s = Some s;
  name_from_bytes_lower s n : name_from_bytes s = Some n → n = to_ascii_lowercase s;
}.

Section headers.
  Context `{HttpLaws}.

(** [HeaderMap::get] (the first value of the name) and [contains_key]. *)
Definition hm_get (h : HeaderMap) (n : string) : option string := head (get_all h n).

Definition contains_key (h : HeaderMap) (n : string) : bool :=
  match get_all h n with [] => false | _ => true end.

(** The idiom [headers.get(n).and_then(|v| v.to_str().ok())]. *)
Definition get_str (h : HeaderMap) (n : string) : option string :=
  hm_get h n ≫= to_str.

Definition remove_all (ns : list string) (h : HeaderMap) : HeaderMap :=
  foldl (λ h n, hm_remove n h) h ns.

Lemma get_all_insert_eq n v h : get_all (hm_insert n v h) n = [v].
Proof. by rewrite get_all_insert, String.eqb_refl. Qed.

Lemma get_all_insert_ne n v h m : n ≠ m → get_all (hm_insert n v h) m = get_all h m.
Proof. intros Hn. rewrite get_all_insert. by apply String.eqb_neq in Hn as ->. Qed.

Lemma get_all_remove_eq n h : get_all (hm_remove n h) n = [].
Proof. by rewrite get_all_remove, String.eqb_refl. Qed.

Lemma get_all_remove_ne n h m : n ≠ m → get_all (hm_remove n h) m = get_all h m.
Proof. intros Hn. rewrite get_all_remove. by apply String.eqb_neq in Hn as ->. Qed.

Lemma get_all_remove_all ns h m :
  get_all (remove_all ns h) m = if decide (m ∈ ns) then [] else get_all h m.
Proof.
  unfold remove_all. revert h.
  induction ns as [|n ns IH]; intros h; [by rewrite decide_False by set_solver|].
  cbn [foldl]. rewrite IH, get_all_remove. destruct (decide (m ∈ ns)) as [Hm|Hm].
  - rewrite decide_True by set_solver. done.
  - destruct (String.eqb n m) eqn:Hn.
    + apply String.eqb_eq in Hn as ->. by rewrite decide_True by set_solver.
    + apply String.eqb_neq in Hn. by rewrite decide_False by set_solver.
Qed.

Lemma contains_key_get_all h n : contains_key h n = true ↔ get_all h n ≠ [].
Proof. unfold contains_key. by destruct (get_all h n). Qed.

End headers.

Create Rewrite HintDb headers.
#[export] Hint Rewrite @get_all_insert_eq @get_all_remove_eq using apply _ : headers.

(** [http::Response] and [http::request]; the body is a type of its own since
    the proxy only moves it.  A status is its number, a method its name, and a
    URI the parts the proxy reads. *)
Record Response `{Http} (B : Type) := {
  res_status : Z;
  res_headers : HeaderMap;
  res_body : B;
}.
Arguments res_status {_ B} _.
Arguments res_headers {_ B} _.
Arguments res_body {_ B} _.
Arguments Build_Response {_ B} _ _ _.

Record Uri := {
  uri_path : string;
  uri_path_and_query : option string;
}.

Record Request `{Http} (B : Type) := {
  req_method : string;
  req_uri : Uri;
  req_headers : HeaderMap;
  req_body : B;
}.
Arguments req_method {_ B} _.
Arguments req_uri {_ B} _.
Arguments req_headers {_ B} _.
Arguments req_body {_ B} _.
Arguments Build_Request {_ B} _ _ _ _.

(** ** A header map as a list of pairs *)

Definition is_token_char (a : ascii) : bool :=
  let b := byte_of a in
  ((48 <=? b) && (b <=? 57)) || ((65 <=? b) && (b <=? 90)) ||
  ((97 <=? b) && (b <=? 122)) || (b =? 45) || (b =? 95).

#[export] Instance list_http : Http := {|
  HeaderMap := list (string * string);
  hm_new := [];
  get_all h n := map snd (filter (λ p, p.1 = n) h);
  hm_insert n v h := (n, v) :: filter (λ p, p.1 ≠ n) h;
  hm_remove n h := filter (λ p, p.1 ≠ n) h;
  to_str v := if forall_chars is_visible v then Some v else None;
  value_from_str v := if forall_chars is_visible v then Some v else None;
  name_from_bytes s :=
    if forall_chars is_token_char s && negb (String.eqb s "")
    then Some (to_ascii_lowercase s) else None;
  invalid_value := "failed to parse header value";
|}.

Lemma filter_filter_ne (n m : string) (h : list (string * string)) :
  filter (λ p, p.1 = m) (filter (λ p, p.1 ≠ n) h) =
  if String.eqb n m then [] else filter (λ p, p.1 = m) h.
Proof.
  induction h as [|[k v] h IH]; [by destruct (String.eqb n m)|].
  rewrite (filter_cons (λ p, p.1 ≠ n)). destruct (decide _) as [Hk|Hk]; simpl in Hk.
  - rewrite filter_cons, (filter_cons _ (k, v) h), IH; simpl.
    destruct (String.eqb n m) eqn:E; [|done].
    apply String.eqb_eq in E as ->. by rewrite decide_False.
  - rewrite IH. apply dec_stable in Hk as ->. destruct (String.eqb n m) eqn:E; [done|].
    apply String.eqb_neq in E. by rewrite filter_cons_False.
Qed.

#[export] Instance list_http_laws : HttpLaws.
Proof.
  split; simpl; try (intros; by case_match; simplify_eq).
  - done.
  - intros n v h m. rewrite filter_cons. simpl. rewrite filter_filter_ne.
    destruct (String.eqb n m) eqn:E.
    + apply String.eqb_eq in E as ->. by rewrite decide_True.
    + apply String.eqb_neq in E. by rewrite decide_False.
  - intros n h m. rewrite filter_filter_ne. by destruct (String.eqb n m).
Qed.
