(* ===== verification/Lru.v ===== *)
(** * Lru: the [lru] crate

    The bounded map the response cache and the health state use.  The crate is not
    part of the sources: its operations are the class [Lru], its documented
    behaviour the class [LruLaws], and the list instance shows the laws can hold. *)

From Stdlib Require Import Ascii.
From S2P Require Import Prelude.
Local Open Scope Z_scope.

(** [lru_peek] is [LruCache::peek]: the entry, its recency left alone. *)
Class Lru (V : Type) := {
  LruCache : Type;
  lru_new : Z → LruCache;
  lru_peek : string → LruCache → option V;
  lru_get : string → LruCache → option V * LruCache;
  lru_put : string → V → LruCache → LruCache;
  lru_pop : string → LruCache → LruCache;
  lru_clear : LruCache → LruCache;
  lru_len : LruCache → Z;
}.
Arguments LruCache V {_}.

Class LruLaws V `{Lru V} := {
  peek_new cap k : lru_peek k (lru_new cap) = None;
  get_peek k c : (lru_get k c).1 = lru_peek k c;
  peek_get k k' c : lru_peek k' (lru_get k c).2 = lru_peek k' c;
  peek_put k v c : lru_peek k (lru_put k v c) = Some v;
  peek_put_ne k k' v w c :
    k ≠ k' → lru_peek k' (lru_put k v c) = Some w → lru_peek k' c = Some w;
  peek_pop k c : lru_peek k (lru_pop k c) = None;
  peek_pop_ne k k' c : k ≠ k' → lru_peek k' (lru_pop k c) = lru_peek k' c;
  peek_clear k c : lru_peek k (lru_clear c) = None;
  len_clear c : lru_len (lru_clear c) = 0;
}.

(** ** An LRU list, the most recent entry first *)

#[export] Instance list_lru V : Lru V := {|
  LruCache := Z * list (string * V);
  lru_new cap := (cap, []);
  lru_peek k c := snd <$> find (λ p, String.eqb k p.1) c.2;
  lru_get k c :=
    match find (λ p, String.eqb k p.1) c.2 with
    | Some p => (Some p.2, (c.1, p :: List.filter (λ q, negb (String.eqb k q.1)) c.2))
    | None => (None, c)
    end;
  lru_put k v c :=
    (c.1, (k, v) :: take (Z.to_nat (c.1 - 1)) (List.filter (λ q, negb (String.eqb k q.1)) c.2));
  lru_pop k c := (c.1, List.filter (λ q, negb (String.eqb k q.1)) c.2);
  lru_clear c := (c.1, []);
  lru_len c := zlen c.2;
|}.

Section list_lru.
  Context {V : Type}.

Lemma find_filter_ne (k k' : string) (l : list (string * V)) :
  find (λ p, String.eqb k' p.1) (List.filter (λ q, negb (String.eqb k q.1)) l) =
  if String.eqb k k' then None else find (λ p, String.eqb k' p.1) l.
Proof.
  induction l as [|[n v] l IH]; simpl; [by destruct (String.eqb k k')|].
  destruct (String.eqb_spec k n), (String.eqb_spec k' n), (String.eqb_spec k k'); simpl; subst;
    rewrite ?IH, ?String.eqb_refl; try done;
    repeat match goal with H : ?a ≠ ?b |- context [String.eqb ?a ?b] =>
      rewrite (proj2 (String.eqb_neq a b) H) end; congruence.
Qed.

Lemma find_take_some (f : string * V → bool) n l p :
  find f (take n l) = Some p → find f l = Some p.
Proof.
  revert l. induction n as [|n IH]; intros [|q l]; simpl; try done.
  destruct (f q); [done|apply IH].
Qed.

#[export] Instance list_lru_laws : LruLaws V.
Proof.
  split; simpl; try done.
  - intros k [cap l]. simpl. by destruct (find _ l) as [[? ?]|].
  - intros k k' [cap l]. simpl. destruct (find (λ p, String.eqb k p.1) l) as [[n v]|] eqn:Hf; [|done].
    simpl. rewrite find_filter_ne. pose proof (find_some _ _ Hf) as [_ Hn]. simpl in Hn.
    apply String.eqb_eq in Hn as <-. destruct (String.eqb_spec k' k) as [->|Hk]; [by rewrite Hf|].
    by destruct (String.eqb_spec k k') as [->|].
  - intros k v c. by rewrite String.eqb_refl.
  - intros k k' v w [cap l] Hk. simpl. destruct (String.eqb_spec k' k) as [->|_]; [done|].
    destruct (find _ (take _ _)) as [p|] eqn:Hf; [|done]. apply find_take_some in Hf.
    rewrite find_filter_ne in Hf. destruct (String.eqb_spec k k'); [done|]. by rewrite Hf.
  - intros k [cap l]. simpl. by rewrite find_filter_ne, String.eqb_refl.
  - intros k k' [cap l] Hk. simpl. rewrite find_filter_ne.
    by destruct (String.eqb_spec k k').
Qed.
End list_lru.
