(* ===== verification/Float64.v ===== *)
(** * Float64: the [f64] arithmetic of the balancer

    An [f64] is a [spec_float] of the Standard Library at the parameters of
    binary64, so the definitions compute.  Comparison is shown to be the
    lexicographic order of a rank, which gives the order laws the selection
    needs. *)

From Stdlib Require Export SpecFloat.
From S2P Require Import Prelude.
Local Open Scope Z_scope.

Abbreviation f64 := spec_float.

Definition PREC : Z := 53.
Definition EMAX : Z := 1024.

(** The cast [n as f64] of an unsigned integer: rounded to nearest, ties to even. *)
Definition f64_of_Z (n : Z) : f64 := binary_normalize PREC EMAX n 0 false.

Definition f64_zero : f64 := S754_zero false.
Definition f64_one : f64 := f64_of_Z 1.
Definition f64_half : f64 := binary_normalize PREC EMAX 1 (-1) false.
Definition f64_neg_infinity : f64 := S754_infinity true.

Definition f64_add : f64 → f64 → f64 := SFadd PREC EMAX.
Definition f64_sub : f64 → f64 → f64 := SFsub PREC EMAX.
Definition f64_mul : f64 → f64 → f64 := SFmul PREC EMAX.
Definition f64_div : f64 → f64 → f64 := SFdiv PREC EMAX.
Definition f64_neg : f64 → f64 := SFopp.

(** [a <= b], [a < b] and [a > b]; every comparison with a NaN is false. *)
Definition f64_le (a b : f64) : bool := SFleb a b.
Definition f64_lt (a b : f64) : bool := SFltb a b.
Definition f64_gt (a b : f64) : bool := SFltb b a.

Definition is_nan (a : f64) : bool := match a with S754_nan => true | _ => false end.
Definition is_infinite (a : f64) : bool := match a with S754_infinity _ => true | _ => false end.

(** [f64::clamp]: a NaN stays a NaN. *)
Definition f64_clamp (x lo hi : f64) : f64 :=
  if f64_lt x lo then lo else if f64_lt hi x then hi else x.

(** ** Order *)

Definition rank (a : f64) : Z * Z * Z :=
  match a with
  | S754_infinity true => (-2, 0, 0)
  | S754_finite true m e => (-1, - e, Z.neg m)
  | S754_zero _ => (0, 0, 0)
  | S754_finite false m e => (1, e, Z.pos m)
  | S754_infinity false => (2, 0, 0)
  | S754_nan => (3, 0, 0)
  end.

Definition rank_lt (p q : Z * Z * Z) : Prop :=
  let '(a, b, c) := p in let '(a', b', c') := q in
  a < a' ∨ (a = a' ∧ (b < b' ∨ (b = b' ∧ c < c'))).

Lemma f64_lt_rank a b :
  is_nan a = false → is_nan b = false → f64_lt a b = true ↔ rank_lt (rank a) (rank b).
Proof.
  unfold f64_lt, SFltb, rank_lt.
  destruct a as [[]|[]| |[] m1 e1], b as [[]|[]| |[] m2 e2]; intros Ha Hb; try discriminate; cbn;
    try (split; [intros; lia|intros; (reflexivity || lia)]).
  - destruct (Z.compare_spec e1 e2); cbn.
    + change (Pos.compare_cont Eq m1 m2) with (Pos.compare m1 m2).
      destruct (Pos.compare_spec m1 m2); cbn; split; intros; (discriminate || lia || reflexivity).
    + split; intros; (discriminate || lia || reflexivity).
    + split; intros; (discriminate || lia || reflexivity).
  - destruct (Z.compare_spec e1 e2); cbn.
    + change (Pos.compare_cont Eq m1 m2) with (Pos.compare m1 m2).
      destruct (Pos.compare_spec m1 m2); cbn; split; intros; (discriminate || lia || reflexivity).
    + split; intros; (discriminate || lia || reflexivity).
    + split; intros; (discriminate || lia || reflexivity).
Qed.

Lemma f64_lt_nan_l b : f64_lt S754_nan b = false.
Proof. done. Qed.

Lemma f64_lt_nan_r a : f64_lt a S754_nan = false.
Proof. by destruct a as [[]|[]| |[] ]. Qed.

Lemma f64_lt_no_nan a b : f64_lt a b = true → is_nan a = false ∧ is_nan b = false.
Proof.
  intros Hlt. split.
  - by destruct a.
  - destruct b; try done. by rewrite f64_lt_nan_r in Hlt.
Qed.

Lemma rank_lt_trans p q r : rank_lt p q → rank_lt q r → rank_lt p r.
Proof. destruct p as [[??]?], q as [[??]?], r as [[??]?]. unfold rank_lt. lia. Qed.

Lemma f64_lt_trans a b c : f64_lt a b = true → f64_lt b c = true → f64_lt a c = true.
Proof.
  intros H1 H2. destruct (f64_lt_no_nan _ _ H1), (f64_lt_no_nan _ _ H2).
  apply f64_lt_rank in H1; [|done..]. apply f64_lt_rank in H2; [|done..].
  apply f64_lt_rank; [done..|]. by eapply rank_lt_trans.
Qed.

Lemma f64_lt_irrefl a : f64_lt a a = false.
Proof.
  destruct (is_nan a) eqn:Hn; [by destruct a|].
  destruct (f64_lt a a) eqn:Hlt; [|done]. apply f64_lt_rank in Hlt; [|done..].
  destruct (rank a) as [[??]?]. unfold rank_lt in Hlt. lia.
Qed.

(** Without NaNs, "not less" is transitive with "less" on either side. *)
Lemma f64_lt_le_trans a b c :
  is_nan a = false → is_nan b = false → is_nan c = false →
  f64_lt a b = true → f64_lt c b = false → f64_lt a c = true.
Proof.
  intros Ha Hb Hc Hab Hcb. apply f64_lt_rank in Hab; [|done..]. apply f64_lt_rank; [done..|].
  destruct (f64_lt c b) eqn:Hd; [done|]. clear Hcb.
  assert (¬ rank_lt (rank c) (rank b)) as Hn by (rewrite <-f64_lt_rank by done; congruence).
  destruct (rank a) as [[??]?], (rank b) as [[??]?], (rank c) as [[??]?]. unfold rank_lt in *. lia.
Qed.

(** Two numbers that are not NaN are ordered. *)
Lemma f64_le_lt a b : is_nan a = false → is_nan b = false → f64_le a b = negb (f64_lt b a).
Proof.
  unfold f64_le, f64_lt, SFleb, SFltb.
  destruct a as [[]|[]| |[] m1 e1], b as [[]|[]| |[] m2 e2]; intros Ha Hb; try discriminate; cbn; try done;
    rewrite (Z.compare_antisym e1 e2); destruct (e1 ?= e2); cbn; try done;
    change (Pos.compare_cont Eq ?x ?y) with (Pos.compare x y); rewrite (Pos.compare_antisym m1 m2);
    by destruct (m1 ?= m2)%positive.
Qed.

(** [a <= b] fails for a larger number and for a NaN on either side. *)
Lemma f64_le_false a b : is_nan b = false → f64_le a b = false ↔ f64_lt b a = true ∨ is_nan a = true.
Proof.
  intros Hb. destruct (is_nan a) eqn:Ha; [destruct a; try discriminate; split; [by right|done]|].
  rewrite f64_le_lt, negb_false_iff by done. naive_solver.
Qed.
