(* ===== verification/Wire.v ===== *)
(** * Wire: byte streams, big-endian integers and the frame codec

    What [src/tunnel/protocol.rs] and [src/ingress/protocol.rs] share: a reader is
    the bytes still to come before the stream ends, a writer is the bytes sent so
    far and how many more the peer takes before it goes away.  [bitcode] is the
    class [Codec] with its round-trip law. *)

From Stdlib Require Import Ascii.
From S2P Require Import Prelude Text.
Local Open Scope Z_scope.

(** [AsyncReadExt::read_exact]: [n] bytes, or an error at the end of the stream,
    which is then exhausted. *)
Definition read_exact (n : nat) (r : list Z) : result string (list Z) * list Z :=
  if (n <=? length r)%nat then (Ok (take n r), drop n r)
  else (Err "early eof", []).

Record Writer := {
  sent : list Z;
  room : option nat;
}.

(** [AsyncWriteExt::write_all]: everything, or an error after the bytes the peer
    still took; [flush] fails only when the peer is gone. *)
Definition write_all (bytes : list Z) (w : Writer) : result string unit * Writer :=
  match room w with
  | None => (Ok (), {| sent := sent w ++ bytes; room := None |})
  | Some k =>
      if (length bytes <=? k)%nat
      then (Ok (), {| sent := sent w ++ bytes; room := Some (k - length bytes)%nat |})
      else (Err "broken pipe", {| sent := sent w ++ take k bytes; room := Some 0%nat |})
  end.

Definition flush (w : Writer) : result string unit :=
  match room w with Some O => Err "broken pipe" | _ => Ok () end.

Lemma write_all_none bytes w :
  room w = None → write_all bytes w = (Ok (), {| sent := sent w ++ bytes; room := None |}).
Proof. intros Hr. unfold write_all. by rewrite Hr. Qed.

(** [to_be_bytes] and [from_be_bytes] of a [k]-byte integer. *)
Fixpoint to_be_bytes (k : nat) (n : Z) : list Z :=
  match k with
  | O => []
  | S k => to_be_bytes k (n `div` 256) ++ [n `mod` 256]
  end.

Definition from_be_bytes (l : list Z) : Z := foldl (λ acc b, acc * 256 + b) 0 l.

Lemma to_be_bytes_length k n : length (to_be_bytes k n) = k.
Proof. revert n. induction k; intros n; cbn; [done|]. rewrite length_app, IHk. cbn. lia. Qed.

Lemma from_to_be_bytes k n :
  0 ≤ n < 256 ^ Z.of_nat k → from_be_bytes (to_be_bytes k n) = n.
Proof.
  revert n. induction k as [|k IH]; intros n Hn; [cbn in *; lia|].
  cbn [to_be_bytes]. unfold from_be_bytes in *. rewrite foldl_app. cbn [foldl].
  rewrite Nat2Z.inj_succ, Z.pow_succ_r in Hn by lia.
  rewrite IH by (split; [apply Z.div_pos; lia|apply Z.div_lt_upper_bound; lia]).
  pose proof (Z.div_mod n 256). lia.
Qed.

Lemma from_be_bytes_bounds l :
  Forall (λ b, 0 ≤ b ≤ 255) l → 0 ≤ from_be_bytes l < 256 ^ zlen l.
Proof.
  unfold from_be_bytes, zlen. induction l as [|b l IH] using rev_ind; intros Hl; [cbn; lia|].
  apply Forall_app in Hl as [Hl Hb]. apply Forall_cons_1 in Hb as [Hb _].
  rewrite foldl_app, length_app. cbn [foldl length].
  replace (Z.of_nat (length l + 1)) with (Z.succ (Z.of_nat (length l))) by lia.
  rewrite Z.pow_succ_r by lia. specialize (IH Hl). lia.
Qed.

Lemma to_be_bytes_inj k n m :
  0 ≤ n < 256 ^ Z.of_nat k → 0 ≤ m < 256 ^ Z.of_nat k → to_be_bytes k n = to_be_bytes k m → n = m.
Proof.
  intros Hn Hm Heq. rewrite <-(from_to_be_bytes k n), <-(from_to_be_bytes k m) by done. by rewrite Heq.
Qed.

Lemma read_exact_app n l r : length l = n → read_exact n (l ++ r) = (Ok l, r).
Proof.
  intros <-. unfold read_exact. rewrite length_app.
  rewrite (proj2 (Nat.leb_le _ _)) by lia. by rewrite take_app_length, drop_app_length.
Qed.

Lemma read_exact_short n r : (length r < n)%nat → read_exact n r = (Err "early eof", []).
Proof. intros Hl. unfold read_exact. by rewrite (proj2 (Nat.leb_gt _ _)) by lia. Qed.

(** ** [bitcode] *)

(** What [bitcode::decode] does on arbitrary bytes: a value, an error, or a panic
    (an array type that refuses an oversized field), which the callers catch. *)
Inductive outcome (A : Type) :=
  | Decoded (a : A)
  | DecodeError (msg : string)
  | DecodePanic.
Arguments Decoded {A} _.
Arguments DecodeError {A} _.
Arguments DecodePanic {A}.

Class Codec (A : Type) := {
  bc_encode : A → list Z;
  bc_decode : list Z → outcome A;
}.

Class CodecLaws A `{Codec A} := {
  bc_decode_encode a : bc_decode (bc_encode a) = Decoded a;
}.

(** ** A codec for countable types: the bits of the code, the lowest first *)

Fixpoint pos_bits (p : positive) : list Z :=
  match p with
  | xH => [1]
  | xO p => 0 :: pos_bits p
  | xI p => 1 :: pos_bits p
  end.

Fixpoint bits_pos (l : list Z) : option positive :=
  match l with
  | [] => None
  | [b] => if b =? 1 then Some xH else None
  | b :: l => (λ p, if b =? 0 then xO p else xI p) <$> bits_pos l
  end.

Lemma bits_pos_bits p : bits_pos (pos_bits p) = Some p.
Proof.
  induction p as [p IH|p IH|]; [..|done]; cbn; destruct (pos_bits p) eqn:Hp; try done; by rewrite IH.
Qed.

Definition countable_codec A `{Countable A} : Codec A := {|
  bc_encode a := pos_bits (encode a);
  bc_decode l :=
    match bits_pos l ≫= decode with
    | Some a => Decoded a
    | None => DecodeError "invalid"
    end;
|}.

Lemma countable_codec_laws A `{Countable A} : @CodecLaws A (countable_codec A).
Proof. split. intros a. cbn. rewrite bits_pos_bits. cbn. by rewrite decode_encode. Qed.
