(* ===== verification/Circuit.v ===== *)
(** * The per-backend circuit breaker (src/circuit.rs)

    [CircuitBreakers] keeps one [BackendBreaker] per backend id behind an
    [Arc]: the map holds a reference, and a [HalfOpenGuard] handed to a probe
    holds another one that survives [remove_backend].  The model keeps that
    sharing: [arcs] is the heap of breakers, [breakers] maps an id to an index
    of the heap, and a guard is an index too.

    Each public method is one definition, for a call that no other call
    overlaps; the methods are composed by the transition system [sys_step],
    whose states also carry the guards that are alive, and whose invariants are
    proved by rule induction.  [CircuitRace] has the same calls as sequences of
    atomic operations that interleave. *)

From S2P Require Import Prelude.
Local Open Scope Z_scope.

Definition STATE_CLOSED : Z := 0.
Definition STATE_OPEN : Z := 1.
Definition STATE_HALF_OPEN : Z := 2.

Inductive CircuitState := Closed | Open | HalfOpen.

#[export] Instance CircuitState_eq_dec : EqDecision CircuitState.
Proof. solve_decision. Defined.

(** [impl From<u8> for CircuitState]. *)
Definition CircuitState_from (v : Z) : CircuitState :=
  if v =? STATE_OPEN then Open
  else if v =? STATE_HALF_OPEN then HalfOpen
  else Closed.

Record BackendBreaker := mkBreaker {
  br_state : Z;
  consecutive_failures : Z;
  half_open_inflight : Z;
  opened_at : option Z;
}.

Definition BackendBreaker_new : BackendBreaker :=
  mkBreaker STATE_CLOSED 0 0 None.

#[export] Instance BackendBreaker_inhabited : Inhabited BackendBreaker :=
  populate BackendBreaker_new.

(** A guard is the [Arc] it holds: an index of the heap. *)
Record HalfOpenGuard := mkGuard { guard_breaker : nat }.

Record CircuitBreakerConfig := {
  cfg_failure_threshold : Z;
  cfg_recovery_timeout_secs : Z;
  cfg_half_open_max_requests : Z;
}.

Record CircuitBreakers := mkCircuit {
  breakers : gmap string nat;
  arcs : list BackendBreaker;
  failure_threshold : Z;
  recovery_timeout : Z;
  half_open_max_requests : Z;
}.

Definition CircuitBreakers_new (config : CircuitBreakerConfig) : CircuitBreakers :=
  mkCircuit ∅ [] (cfg_failure_threshold config)
    (from_secs (cfg_recovery_timeout_secs config))
    (cfg_half_open_max_requests config).

(** The capacity of the [ArrayString<256>] keys: [ArrayString::from] fails on a
    longer id. *)
Definition BACKEND_ID_CAP : Z := 256.

Definition with_arcs (cb : CircuitBreakers) (l : list BackendBreaker) : CircuitBreakers :=
  mkCircuit (breakers cb) l (failure_threshold cb) (recovery_timeout cb)
    (half_open_max_requests cb).

(** [entry(key).or_insert_with(|| Arc::new(BackendBreaker::new())).clone()]. *)
Definition entry_or_insert (cb : CircuitBreakers) (id : string) : CircuitBreakers * nat :=
  match breakers cb !! id with
  | Some l => (cb, l)
  | None =>
      let l := length (arcs cb) in
      (mkCircuit (<[id := l]> (breakers cb)) (arcs cb ++ [BackendBreaker_new])
         (failure_threshold cb) (recovery_timeout cb) (half_open_max_requests cb), l)
  end.

(** Read and write through an [Arc]; a held [Arc] is always allocated. *)
Definition deref (cb : CircuitBreakers) (l : nat) : BackendBreaker :=
  arcs cb !!! l.
Definition store (cb : CircuitBreakers) (l : nat) (b : BackendBreaker) : CircuitBreakers :=
  with_arcs cb (<[l := b]> (arcs cb)).

(** [CircuitBreakers::check]. *)
Definition check (cb : CircuitBreakers) (now : Z) (backend_id : string) :
    CircuitBreakers * (CircuitState * option HalfOpenGuard) :=
  if BACKEND_ID_CAP <? slen backend_id then (cb, (Open, None))
  else
    let '(cb, l) := entry_or_insert cb backend_id in
    let b := deref cb l in
    match CircuitState_from (br_state b) with
    | Closed => (cb, (Closed, None))
    | Open =>
        let should_transition :=
          match opened_at b with
          | Some t => recovery_timeout cb <=? elapsed now t
          | None => false
          end in
        if should_transition then
          (store cb l (mkBreaker STATE_HALF_OPEN (consecutive_failures b) 1 (opened_at b)),
           (HalfOpen, Some (mkGuard l)))
        else (cb, (Open, None))
    | HalfOpen =>
        let inflight := half_open_inflight b in
        let b := mkBreaker (br_state b) (consecutive_failures b)
                   (wrap32 (inflight + 1)) (opened_at b) in
        if half_open_max_requests cb <=? inflight then
          (store cb l (mkBreaker (br_state b) (consecutive_failures b)
                         (wrap32 (half_open_inflight b - 1)) (opened_at b)),
           (Open, None))
        else (store cb l b, (HalfOpen, Some (mkGuard l)))
    end.

(** [CircuitBreakers::record_success]. *)
Definition record_success (cb : CircuitBreakers) (backend_id : string) : CircuitBreakers :=
  match breakers cb !! backend_id with
  | None => cb
  | Some l =>
      let b := deref cb l in
      match CircuitState_from (br_state b) with
      | HalfOpen => store cb l (mkBreaker STATE_CLOSED 0 0 None)
      | Closed => store cb l (mkBreaker (br_state b) 0 (half_open_inflight b) (opened_at b))
      | Open => cb
      end
  end.

(** [CircuitBreakers::record_failure]; [failures] is the value returned by
    [fetch_add] plus one. *)
Definition record_failure (cb : CircuitBreakers) (now : Z) (backend_id : string) : CircuitBreakers :=
  if BACKEND_ID_CAP <? slen backend_id then cb
  else
    let '(cb, l) := entry_or_insert cb backend_id in
    let b := deref cb l in
    match CircuitState_from (br_state b) with
    | Closed =>
        let failures := consecutive_failures b + 1 in
        let b := mkBreaker (br_state b) (wrap32 (consecutive_failures b + 1))
                   (half_open_inflight b) (opened_at b) in
        if failure_threshold cb <=? failures then
          store cb l (mkBreaker STATE_OPEN (consecutive_failures b)
                        (half_open_inflight b) (Some now))
        else store cb l b
    | HalfOpen =>
        store cb l (mkBreaker STATE_OPEN (consecutive_failures b) 0 (Some now))
    | Open => cb
    end.

(** [CircuitBreakers::state]. *)
Definition state (cb : CircuitBreakers) (backend_id : string) : CircuitState :=
  match breakers cb !! backend_id with
  | Some l => CircuitState_from (br_state (deref cb l))
  | None => Closed
  end.

(** [CircuitBreakers::remove_backend]: live guards keep the removed breaker. *)
Definition remove_backend (cb : CircuitBreakers) (backend_id : string) : CircuitBreakers :=
  mkCircuit (delete backend_id (breakers cb)) (arcs cb) (failure_threshold cb)
    (recovery_timeout cb) (half_open_max_requests cb).

(** [impl Drop for HalfOpenGuard]. *)
Definition drop_guard (cb : CircuitBreakers) (g : HalfOpenGuard) : CircuitBreakers :=
  let b := deref cb (guard_breaker g) in
  match CircuitState_from (br_state b) with
  | HalfOpen =>
      store cb (guard_breaker g)
        (mkBreaker (br_state b) (consecutive_failures b)
           (wrap32 (half_open_inflight b - 1)) (opened_at b))
  | _ => cb
  end.

(** ** The transition system

    One transition per call of a method; [sys_guards] are the guards alive, one
    entry per guard.  A guard is handed out by [check] and dropped once. *)

Record sys := mkSys { sys_cb : CircuitBreakers; sys_guards : list HalfOpenGuard }.

Inductive event :=
| ECheck (now : Z) (id : string)
| ESuccess (id : string)
| EFailure (now : Z) (id : string)
| EDrop (i : nat)
| ERemove (id : string).

Definition sys_step (s : sys) (e : event) : sys :=
  let cb := sys_cb s in
  match e with
  | ECheck now id =>
      let '(cb', (_, g)) := check cb now id in
      mkSys cb' (match g with Some g => g :: sys_guards s | None => sys_guards s end)
  | ESuccess id => mkSys (record_success cb id) (sys_guards s)
  | EFailure now id => mkSys (record_failure cb now id) (sys_guards s)
  | EDrop i =>
      match sys_guards s !! i with
      | Some g => mkSys (drop_guard cb g) (delete i (sys_guards s))
      | None => s
      end
  | ERemove id => mkSys (remove_backend cb id) (sys_guards s)
  end.

(** Every state reached from a fresh table by a sequence of calls. *)
Inductive reachable (config : CircuitBreakerConfig) : sys → Prop :=
| reach_init : reachable config (mkSys (CircuitBreakers_new config) [])
| reach_step s e : reachable config s → reachable config (sys_step s e).

(** The configuration types are [NonZeroU32] and [u64]. *)
Definition config_ok (config : CircuitBreakerConfig) : Prop :=
  1 ≤ cfg_failure_threshold config ≤ U32_MAX ∧
  0 ≤ cfg_recovery_timeout_secs config ∧
  1 ≤ cfg_half_open_max_requests config ≤ U32_MAX.

(** ** The invariant of a breaker and of the table *)

Record breaker_wf (threshold : Z) (b : BackendBreaker) : Prop := {
  wf_inflight : 0 ≤ half_open_inflight b ≤ U32_MAX;
  wf_failures : 0 ≤ consecutive_failures b ≤ threshold;
  wf_state :
    (br_state b = STATE_CLOSED ∧ consecutive_failures b < threshold ∧
       half_open_inflight b = 0 ∧ opened_at b = None) ∨
    (br_state b = STATE_OPEN ∧ half_open_inflight b = 0 ∧ is_Some (opened_at b)) ∨
    (br_state b = STATE_HALF_OPEN ∧ is_Some (opened_at b));
}.

Record circuit_wf (cb : CircuitBreakers) : Prop := {
  wf_threshold : 1 ≤ failure_threshold cb ≤ U32_MAX;
  wf_max : 1 ≤ half_open_max_requests cb ≤ U32_MAX;
  wf_arcs : Forall (breaker_wf (failure_threshold cb)) (arcs cb);
  wf_live : ∀ id l, breakers cb !! id = Some l → (l < length (arcs cb))%nat;
  wf_unshared : ∀ id1 id2 l,
    breakers cb !! id1 = Some l → breakers cb !! id2 = Some l → id1 = id2;
}.

Definition sys_wf (s : sys) : Prop :=
  circuit_wf (sys_cb s) ∧
  Forall (λ g, (guard_breaker g < length (arcs (sys_cb s)))%nat) (sys_guards s).

Lemma breaker_new_wf threshold : 1 ≤ threshold → breaker_wf threshold BackendBreaker_new.
Proof.
  split; simpl; unfold U32_MAX; [lia..|]. left; repeat split; auto; lia.
Qed.

Lemma deref_wf cb l : circuit_wf cb → (l < length (arcs cb))%nat →
  breaker_wf (failure_threshold cb) (deref cb l).
Proof.
  intros Hwf Hl. unfold deref.
  destruct (lookup_lt_is_Some_2 (arcs cb) l Hl) as [b Hb].
  rewrite (list_lookup_total_correct _ _ _ Hb).
  eapply Forall_lookup_1; [apply Hwf|done].
Qed.

Lemma store_wf cb l b : circuit_wf cb → breaker_wf (failure_threshold cb) b →
  circuit_wf (store cb l b).
Proof.
  intros [] Hb. split; simpl; auto.
  - by apply Forall_insert.
  - intros. rewrite length_insert. eauto.
Qed.

Lemma length_store cb l b : length (arcs (store cb l b)) = length (arcs cb).
Proof. apply length_insert. Qed.

Lemma deref_store cb l b : (l < length (arcs cb))%nat → deref (store cb l b) l = b.
Proof. intros. by apply list_lookup_total_insert_eq. Qed.

Lemma deref_store_ne cb l l' b : l ≠ l' → deref (store cb l b) l' = deref cb l'.
Proof. intros. by apply list_lookup_total_insert_ne. Qed.

Lemma entry_lookup cb id cb' l :
  entry_or_insert cb id = (cb', l) → breakers cb' !! id = Some l.
Proof. unfold entry_or_insert. intros. crush_match. by rewrite lookup_insert_eq. Qed.

Lemma entry_wf cb id cb' l :
  circuit_wf cb → entry_or_insert cb id = (cb', l) →
  circuit_wf cb' ∧ (l < length (arcs cb'))%nat ∧ (length (arcs cb) ≤ length (arcs cb'))%nat.
Proof.
  intros Hwf. unfold entry_or_insert. destruct (breakers cb !! id) eqn:Hid; intros; simplify_eq/=.
  - split_and!; [done|by eapply wf_live|lia].
  - destruct Hwf as [? ? Harcs Hlive Hshare]. rewrite length_app; simpl.
    split_and!; [|lia..]. split; simpl; auto.
    + apply Forall_app_2; [done|]. constructor; [|done]. apply breaker_new_wf; lia.
    + intros id' l'. rewrite length_app, lookup_insert. case_decide; intros; simplify_eq/=; [lia|].
      match goal with H : breakers _ !! _ = Some _ |- _ => apply Hlive in H; lia end.
    + intros id1 id2 l'. rewrite !lookup_insert.
      repeat case_decide; intros; simplify_eq/=; eauto;
        match goal with H : breakers _ !! _ = Some _ |- _ => apply Hlive in H; lia end.
Qed.

Lemma entry_known cb id l : breakers cb !! id = Some l → entry_or_insert cb id = (cb, l).
Proof. unfold entry_or_insert. by intros ->. Qed.

Lemma state_from_cases b threshold :
  breaker_wf threshold b →
  match CircuitState_from (br_state b) with
  | Closed => br_state b = STATE_CLOSED ∧ consecutive_failures b < threshold ∧
                half_open_inflight b = 0 ∧ opened_at b = None
  | Open => br_state b = STATE_OPEN ∧ half_open_inflight b = 0 ∧ is_Some (opened_at b)
  | HalfOpen => br_state b = STATE_HALF_OPEN ∧ is_Some (opened_at b)
  end.
Proof.
  intros [_ _ [(Hs & ?)|[(Hs & ?)|(Hs & ?)]]]; rewrite Hs; simpl; auto.
Qed.

(** Expose the breaker an operation works on, with its invariant split by
    state. *)
Ltac with_breaker Hwf :=
  match goal with
  | |- context [deref ?cb ?l] =>
      let Hb := fresh "Hb" in
      pose proof (deref_wf cb l Hwf ltac:(eauto)) as Hb;
      pose proof (state_from_cases _ _ Hb);
      destruct Hb as [Hinfl Hfail _];
      destruct (CircuitState_from (br_state (deref cb l))) eqn:?
  end.

Ltac solve_breaker :=
  split; simpl; rewrite ?wrap32_small by (unfold U32_MAX in *; lia); unfold U32_MAX in *;
  [lia|lia|naive_solver (eauto; lia)].

Lemma check_wf cb now id cb' r :
  circuit_wf cb → check cb now id = (cb', r) →
  circuit_wf cb' ∧ (length (arcs cb) ≤ length (arcs cb'))%nat ∧
  ∀ st g, r = (st, Some g) → (guard_breaker g < length (arcs cb'))%nat.
Proof.
  intros Hwf. unfold check. case_match; [intros; simplify_eq; naive_solver lia|].
  destruct (entry_or_insert cb id) as [cb1 l] eqn:He.
  destruct (entry_wf _ _ _ _ Hwf He) as (Hwf1 & Hl & Hlen).
  pose proof (wf_threshold _ Hwf1). pose proof (wf_max _ Hwf1).
  with_breaker Hwf1; repeat case_match; intros; simplify_eq; rewrite ?length_store;
    (split_and!; [first [done | apply store_wf; [done|]]|lia|naive_solver]).
  - solve_breaker.
  - bool_hyps. split; simpl; auto using wrap32_range; naive_solver.
  - bool_hyps. split; simpl; auto using wrap32_range; naive_solver.
Qed.

Lemma record_success_wf cb id : circuit_wf cb →
  circuit_wf (record_success cb id) ∧ length (arcs (record_success cb id)) = length (arcs cb).
Proof.
  intros Hwf. unfold record_success. destruct (breakers cb !! id) as [l|] eqn:Hid; [|done].
  pose proof (wf_live _ Hwf _ _ Hid). pose proof (wf_threshold _ Hwf).
  with_breaker Hwf; rewrite ?length_store; split; try done; (apply store_wf; [done|]).
  all: split; simpl; unfold U32_MAX in *; [lia|lia|left; naive_solver lia].
Qed.

Lemma record_failure_wf cb now id : circuit_wf cb →
  circuit_wf (record_failure cb now id) ∧
  (length (arcs cb) ≤ length (arcs (record_failure cb now id)))%nat.
Proof.
  intros Hwf. unfold record_failure. case_match; [done|].
  destruct (entry_or_insert cb id) as [cb1 l] eqn:He.
  destruct (entry_wf _ _ _ _ Hwf He) as (Hwf1 & Hl & Hlen).
  pose proof (wf_threshold _ Hwf1).
  with_breaker Hwf1; repeat case_match; bool_hyps; rewrite ?length_store;
    (split; [first [done | apply store_wf; [done|]]|lia]).
  all: split; simpl; rewrite ?wrap32_small by (unfold U32_MAX in *; lia); unfold U32_MAX in *;
    [lia|lia|naive_solver (eauto; lia)].
Qed.

Lemma drop_guard_wf cb g : circuit_wf cb → (guard_breaker g < length (arcs cb))%nat →
  circuit_wf (drop_guard cb g) ∧ length (arcs (drop_guard cb g)) = length (arcs cb).
Proof.
  intros Hwf Hg. unfold drop_guard.
  with_breaker Hwf; rewrite ?length_store; split; try done. apply store_wf; [done|].
  split; simpl; auto using wrap32_range; naive_solver.
Qed.

Lemma remove_backend_wf cb id : circuit_wf cb → circuit_wf (remove_backend cb id).
Proof.
  intros []. split; simpl; auto.
  - intros ? ? [_ ?]%lookup_delete_Some. eauto.
  - intros ? ? ? [_ ?]%lookup_delete_Some [_ ?]%lookup_delete_Some. eauto.
Qed.

Lemma sys_step_wf s e : sys_wf s → sys_wf (sys_step s e).
Proof.
  intros [Hwf Hg]. destruct e as [now id|id|now id|i|id]; simpl.
  - destruct (check (sys_cb s) now id) as [cb' [st g]] eqn:Hc.
    destruct (check_wf _ _ _ _ _ Hwf Hc) as (? & Hlen & Hnew). split; simpl; [done|].
    assert (Forall (λ g, (guard_breaker g < length (arcs cb'))%nat) (sys_guards s))
      by (eapply Forall_impl; [done|]; simpl; lia).
    destruct g; eauto.
  - destruct (record_success_wf _ id Hwf) as [? Hlen]. split; simpl; [done|]. by rewrite Hlen.
  - destruct (record_failure_wf _ now id Hwf) as [? Hlen]. split; simpl; [done|].
    eapply Forall_impl; [done|]; simpl; lia.
  - destruct (sys_guards s !! i) as [g|] eqn:Hi; [|done].
    destruct (drop_guard_wf _ g Hwf) as [? Hlen]; [by eapply (Forall_lookup_1 _ _ _ _ Hg)|].
    split; simpl; [done|]. rewrite Hlen. by apply Forall_delete.
  - split; simpl; [by apply remove_backend_wf|done].
Qed.

Lemma reachable_wf config s : config_ok config → reachable config s → sys_wf s.
Proof.
  intros (? & ? & ?). induction 1; [|by apply sys_step_wf].
  split; [|constructor]. split; simpl; auto; by intros; simplify_map_eq.
Qed.

(** In every state that calls made one at a time can reach, each breaker satisfies its type
    invariant: the state byte is one of the three constants; a closed breaker
    has counted fewer failures than the threshold, has no probe in flight and
    no opening time; an open or half-open breaker has an opening time, so an
    open breaker can always recover; the failure counter never exceeds the
    threshold, so [fetch_add(1) + 1] never overflows a [u32]; distinct ids
    never share a breaker and every live guard refers to an allocated one. *)
Theorem circuit_invariant config s :
  config_ok config → reachable config s → sys_wf s.
Proof. apply reachable_wf. Qed.

Definition example_config : CircuitBreakerConfig := {|
  cfg_failure_threshold := 3; cfg_recovery_timeout_secs := 60;
  cfg_half_open_max_requests := 2 |}.

Definition example_trip (t : Z) : list event :=
  [EFailure t "api"; EFailure t "api"; EFailure t "api"].

Definition run (config : CircuitBreakerConfig) (es : list event) : sys :=
  foldl sys_step (mkSys (CircuitBreakers_new config) []) es.

Lemma run_reachable config es : reachable config (run config es).
Proof.
  unfold run. generalize (reach_init config).
  generalize (mkSys (CircuitBreakers_new config) []).
  induction es as [|e es IH]; intros s Hs; simpl; [done|]. apply IH. by constructor.
Qed.

Lemma circuit_invariant_witness :
  sys_wf (run example_config (example_trip 0 ++ [ECheck (from_secs 61) "api"])).
Proof.
  apply (circuit_invariant example_config); [|apply run_reachable].
  unfold config_ok, U32_MAX; simpl; lia.
Defined.

(** ** Functional behaviour of the operations *)

Lemma record_failure_known cb id l now :
  breakers cb !! id = Some l → slen id ≤ BACKEND_ID_CAP →
  record_failure cb now id =
    match CircuitState_from (br_state (deref cb l)) with
    | Closed =>
        if failure_threshold cb <=? consecutive_failures (deref cb l) + 1 then
          store cb l (mkBreaker STATE_OPEN (wrap32 (consecutive_failures (deref cb l) + 1))
                        (half_open_inflight (deref cb l)) (Some now))
        else
          store cb l (mkBreaker (br_state (deref cb l))
                        (wrap32 (consecutive_failures (deref cb l) + 1))
                        (half_open_inflight (deref cb l)) (opened_at (deref cb l)))
    | HalfOpen =>
        store cb l (mkBreaker STATE_OPEN (consecutive_failures (deref cb l)) 0 (Some now))
    | Open => cb
    end.
Proof.
  intros Hid Hlen. unfold record_failure.
  rewrite (proj2 (Z.ltb_ge _ _) Hlen), (entry_known _ _ _ Hid). done.
Qed.

(** The failures recorded by a run of [record_failure] calls at given times. *)
Definition record_failures (cb : CircuitBreakers) (id : string) (times : list Z) : CircuitBreakers :=
  foldl (λ cb now, record_failure cb now id) cb times.

(** What a closed breaker looks like after failures at [times] in a row: the
    failure that reaches the threshold opens it and sets the opening time. *)
Definition after_failures (threshold : Z) (b : BackendBreaker) (times : list Z) : BackendBreaker :=
  match times !! Z.to_nat (threshold - consecutive_failures b - 1) with
  | Some t => mkBreaker STATE_OPEN threshold (half_open_inflight b) (Some t)
  | None => mkBreaker (br_state b) (consecutive_failures b + zlen times)
              (half_open_inflight b) (opened_at b)
  end.

Lemma record_failures_open cb id l times :
  breakers cb !! id = Some l → slen id ≤ BACKEND_ID_CAP →
  br_state (deref cb l) = STATE_OPEN → record_failures cb id times = cb.
Proof.
  intros Hid Hlen Hopen. induction times as [|t times IH]; simpl; [done|].
  rewrite (record_failure_known _ _ _ _ Hid Hlen), Hopen. apply IH.
Qed.

Lemma store_store cb l b b' : store (store cb l b) l b' = store cb l b'.
Proof. unfold store, with_arcs; simpl. by rewrite list_insert_insert_eq. Qed.

Lemma store_deref cb l : store cb l (deref cb l) = cb.
Proof.
  unfold store, deref, with_arcs. destruct cb as [m a ? ? ?]; simpl. f_equal.
  destruct (decide (l < length a)%nat) as [Hl|Hl].
  - apply list_insert_id. by apply list_lookup_lookup_total_lt.
  - apply list_insert_ge. lia.
Qed.

Lemma closed_breaker cb l :
  circuit_wf cb → (l < length (arcs cb))%nat → br_state (deref cb l) = STATE_CLOSED →
  0 ≤ consecutive_failures (deref cb l) < failure_threshold cb ∧ failure_threshold cb ≤ U32_MAX.
Proof.
  intros Hwf Hl Hcl. pose proof (deref_wf _ _ Hwf Hl) as Hb.
  pose proof (state_from_cases _ _ Hb) as Hst. rewrite Hcl in Hst. simpl in Hst.
  pose proof (wf_failures _ _ Hb). pose proof (wf_threshold _ Hwf). lia.
Qed.

Lemma record_failures_closed cb id l times :
  circuit_wf cb → breakers cb !! id = Some l → slen id ≤ BACKEND_ID_CAP →
  br_state (deref cb l) = STATE_CLOSED →
  record_failures cb id times =
    store cb l (after_failures (failure_threshold cb) (deref cb l) times).
Proof.
  revert cb. induction times as [|t times IH]; intros cb Hwf Hid Hlen Hcl.
  { unfold after_failures, zlen; simpl. rewrite Z.add_0_r.
    rewrite <-(store_deref cb l) at 1. by destruct (deref cb l). }
  pose proof (wf_live _ Hwf _ _ Hid) as Hl.
  pose proof (closed_breaker _ _ Hwf Hl Hcl) as Hc. simpl.
  pose proof (record_failure_wf cb t id Hwf) as [Hwf' _].
  rewrite (record_failure_known _ _ _ _ Hid Hlen), Hcl in Hwf' |- *. simpl in Hwf' |- *.
  rewrite wrap32_small in Hwf' |- * by (unfold U32_MAX in *; lia).
  unfold after_failures. destruct (_ <=? _) eqn:Hthr; bool_hyps.
  - replace (Z.to_nat _) with 0%nat by lia. simpl.
    rewrite record_failures_open with (l := l); [do 2 f_equal; lia|done|done|].
    by rewrite deref_store.
  - rewrite IH by (done || by rewrite deref_store). rewrite store_store, deref_store by done.
    f_equal. unfold after_failures, zlen; simpl.
    replace (Z.to_nat (failure_threshold cb - consecutive_failures (deref cb l) - 1))
      with (S (Z.to_nat (failure_threshold cb - (consecutive_failures (deref cb l) + 1) - 1))) by lia.
    simpl. case_match; [done|]. f_equal; [done|lia].
Qed.

Lemma entry_fresh cb id cb' l :
  breakers cb !! id = None → entry_or_insert cb id = (cb', l) →
  deref cb' l = BackendBreaker_new ∧ failure_threshold cb' = failure_threshold cb.
Proof.
  unfold entry_or_insert. intros ->. intros; simplify_eq/=. unfold deref; simpl.
  by rewrite list_lookup_total_middle.
Qed.

Lemma record_failure_entry cb id now cb' l :
  slen id ≤ BACKEND_ID_CAP → entry_or_insert cb id = (cb', l) →
  record_failure cb now id = record_failure cb' now id.
Proof.
  intros Hlen He. unfold record_failure.
  rewrite (proj2 (Z.ltb_ge _ _) Hlen), He, (entry_known cb' id l); [done|].
  by eapply entry_lookup.
Qed.

Lemma record_failures_entry cb id t times cb' l :
  slen id ≤ BACKEND_ID_CAP → entry_or_insert cb id = (cb', l) →
  record_failures cb id (t :: times) = record_failures cb' id (t :: times).
Proof.
  intros Hlen He. unfold record_failures; simpl.
  by rewrite (record_failure_entry _ _ _ _ _ Hlen He).
Qed.

(** A backend that was never seen opens its circuit at exactly the
    configured number of consecutive failures: a shorter run leaves it closed,
    and once open it stays open with the time of the failure that crossed the
    threshold, later failures changing nothing. *)
Theorem opens_at_threshold cb id times :
  circuit_wf cb → breakers cb !! id = None → slen id ≤ BACKEND_ID_CAP →
  let cb' := record_failures cb id times in
  state cb' id = (if failure_threshold cb <=? zlen times then Open else Closed) ∧
  (failure_threshold cb ≤ zlen times → ∃ l,
     breakers cb' !! id = Some l ∧
     opened_at (deref cb' l) = times !! Z.to_nat (failure_threshold cb - 1)).
Proof.
  intros Hwf Hnone Hlen. pose proof (wf_threshold _ Hwf) as Hthr.
  destruct times as [|t times].
  { unfold state, zlen; simpl. rewrite Hnone. case_match; bool_hyps; [lia|]. split; [done|lia]. }
  destruct (entry_or_insert cb id) as [cb1 l] eqn:He.
  destruct (entry_wf _ _ _ _ Hwf He) as (Hwf1 & Hl & _).
  destruct (entry_fresh _ _ _ _ Hnone He) as [Hnew Hthr1].
  pose proof (entry_lookup _ _ _ _ He) as Hid.
  cbv zeta. rewrite (record_failures_entry _ _ _ _ _ _ Hlen He).
  rewrite (record_failures_closed _ _ _ _ Hwf1 Hid Hlen) by (by rewrite Hnew).
  unfold state; simpl. rewrite Hid, deref_store, Hnew, Hthr1 by done.
  unfold after_failures; simpl. rewrite Z.sub_0_r.
  destruct ((t :: times) !! _) as [u|] eqn:Hu.
  - pose proof (lookup_lt_Some _ _ _ Hu). rewrite (proj2 (Z.leb_le _ _)) by (unfold zlen; lia).
    split; [done|]. intros _. exists l. by rewrite deref_store.
  - apply lookup_ge_None in Hu. rewrite (proj2 (Z.leb_gt _ _)) by (unfold zlen; lia).
    split; [done|unfold zlen; lia].
Qed.

Lemma opens_at_threshold_witness :
  state (record_failures (CircuitBreakers_new example_config) "api" [5; 6; 7; 8]) "api" = Open.
Proof.
  destruct (opens_at_threshold (CircuitBreakers_new example_config) "api" [5; 6; 7; 8])
    as [Hs _]; [|done|vm_compute; discriminate|by rewrite Hs].
  apply (reachable_wf example_config _ ltac:(unfold config_ok, U32_MAX; simpl; lia)
           (reach_init example_config)).
Defined.

Lemma record_success_known cb id l :
  circuit_wf cb → breakers cb !! id = Some l → br_state (deref cb l) ≠ STATE_OPEN →
  record_success cb id = store cb l (mkBreaker STATE_CLOSED 0 0 None).
Proof.
  intros Hwf Hid Hno. unfold record_success. rewrite Hid.
  pose proof (state_from_cases _ _ (deref_wf _ _ Hwf (wf_live _ Hwf _ _ Hid))) as Hst.
  destruct (CircuitState_from (br_state (deref cb l))); [|naive_solver..].
  destruct Hst as (-> & _ & -> & ->). done.
Qed.

(** A success reported for a circuit that is not open (a probe that
    answered, or an ordinary request) forgets the failures counted so far: the
    circuit is closed and opens again only after a full threshold of further
    consecutive failures. *)
Theorem success_restarts_count cb id l times :
  circuit_wf cb → breakers cb !! id = Some l → slen id ≤ BACKEND_ID_CAP →
  state cb id ≠ Open →
  state (record_failures (record_success cb id) id times) id =
    (if failure_threshold cb <=? zlen times then Open else Closed).
Proof.
  intros Hwf Hid Hlen Hst. pose proof (wf_live _ Hwf _ _ Hid) as Hl.
  pose proof (record_success_wf _ id Hwf) as [Hwf' _].
  assert (br_state (deref cb l) ≠ STATE_OPEN) as Hno.
  { intros Hopen. apply Hst. unfold state. by rewrite Hid, Hopen. }
  rewrite (record_success_known _ _ _ Hwf Hid Hno) in Hwf' |- *.
  rewrite (record_failures_closed _ id l _ Hwf') by (done || by rewrite deref_store).
  unfold state; simpl. rewrite Hid, store_store, !deref_store by done.
  unfold after_failures; simpl. pose proof (wf_threshold _ Hwf). rewrite Z.sub_0_r.
  destruct (times !! _) as [u|] eqn:Hu.
  - pose proof (lookup_lt_Some _ _ _ Hu). by rewrite (proj2 (Z.leb_le _ _)) by (unfold zlen; lia).
  - apply lookup_ge_None in Hu. by rewrite (proj2 (Z.leb_gt _ _)) by (unfold zlen; lia).
Qed.

Lemma success_restarts_count_witness :
  state (record_failures (record_success
    (record_failures (CircuitBreakers_new example_config) "api" [1; 2]) "api") "api" [3; 4]) "api"
  = Closed.
Proof.
  rewrite (success_restarts_count _ "api" 0%nat); [done| |done|vm_compute; discriminate|vm_compute; discriminate].
  apply (reachable_wf example_config (run example_config [EFailure 1 "api"; EFailure 2 "api"])).
  - unfold config_ok, U32_MAX; simpl; lia.
  - apply run_reachable.
Defined.

(** *** Recovery: how many probes a half-open circuit admits *)

(** The answers of a run of [check] calls with nothing recorded in between. *)
Fixpoint run_checks (cb : CircuitBreakers) (id : string) (times : list Z) :
    list (CircuitState * option HalfOpenGuard) :=
  match times with
  | [] => []
  | now :: times => let '(cb', r) := check cb now id in r :: run_checks cb' id times
  end.

Lemma check_known cb id l now :
  breakers cb !! id = Some l → slen id ≤ BACKEND_ID_CAP →
  check cb now id =
    match CircuitState_from (br_state (deref cb l)) with
    | Closed => (cb, (Closed, None))
    | Open =>
        if match opened_at (deref cb l) with
           | Some t => recovery_timeout cb <=? elapsed now t | None => false end then
          (store cb l (mkBreaker STATE_HALF_OPEN (consecutive_failures (deref cb l)) 1
                         (opened_at (deref cb l))), (HalfOpen, Some (mkGuard l)))
        else (cb, (Open, None))
    | HalfOpen =>
        if half_open_max_requests cb <=? half_open_inflight (deref cb l) then
          (store cb l (mkBreaker (br_state (deref cb l)) (consecutive_failures (deref cb l))
             (wrap32 (wrap32 (half_open_inflight (deref cb l) + 1) - 1))
             (opened_at (deref cb l))), (Open, None))
        else
          (store cb l (mkBreaker (br_state (deref cb l)) (consecutive_failures (deref cb l))
             (wrap32 (half_open_inflight (deref cb l) + 1)) (opened_at (deref cb l))),
           (HalfOpen, Some (mkGuard l)))
    end.
Proof.
  intros Hid Hlen. unfold check.
  rewrite (proj2 (Z.ltb_ge _ _) Hlen), (entry_known _ _ _ Hid). done.
Qed.

Lemma half_open_refuses cb id l now :
  circuit_wf cb → breakers cb !! id = Some l → slen id ≤ BACKEND_ID_CAP →
  br_state (deref cb l) = STATE_HALF_OPEN →
  half_open_max_requests cb ≤ half_open_inflight (deref cb l) →
  check cb now id = (cb, (Open, None)).
Proof.
  intros Hwf Hid Hlen Hho Hfull.
  pose proof (deref_wf _ _ Hwf (wf_live _ Hwf _ _ Hid)) as Hb.
  rewrite (check_known _ _ _ _ Hid Hlen), Hho. simpl.
  rewrite (proj2 (Z.leb_le _ _) Hfull), wrap32_sub_add by apply Hb.
  rewrite <-Hho. replace (mkBreaker _ _ _ _) with (deref cb l) by (by destruct (deref cb l)).
  by rewrite store_deref.
Qed.

Lemma run_checks_half_open cb id l times :
  circuit_wf cb → breakers cb !! id = Some l → slen id ≤ BACKEND_ID_CAP →
  br_state (deref cb l) = STATE_HALF_OPEN →
  half_open_inflight (deref cb l) ≤ half_open_max_requests cb →
  let room := Z.to_nat (half_open_max_requests cb - half_open_inflight (deref cb l)) in
  run_checks cb id times =
    replicate (length times `min` room) (HalfOpen, Some (mkGuard l)) ++
    replicate (length times - room) (Open, None).
Proof.
  revert cb. induction times as [|now times IH]; intros cb Hwf Hid Hlen Hho Hle; [done|].
  pose proof (wf_live _ Hwf _ _ Hid) as Hl. pose proof (wf_max _ Hwf) as Hmax.
  destruct (decide (half_open_inflight (deref cb l) = half_open_max_requests cb)) as [Heq|Hne].
  - simpl. rewrite (half_open_refuses cb id l) by (done || lia). rewrite IH by done.
    rewrite Heq, Z.sub_diag. simpl. by rewrite !Nat.min_0_r, !Nat.sub_0_r.
  - pose proof (deref_wf _ _ Hwf Hl) as [Hi _ _].
    destruct (check cb now id) as [cb' r] eqn:Hc. simpl. rewrite Hc.
    destruct (check_wf _ _ _ _ _ Hwf Hc) as (Hwf' & _).
    rewrite (check_known _ _ _ _ Hid Hlen), Hho in Hc. simpl in Hc.
    rewrite (proj2 (Z.leb_gt _ _)), wrap32_small in Hc by (unfold U32_MAX in *; lia). simplify_eq.
    rewrite IH; try done; rewrite deref_store by done; simpl; [|done|lia].
    replace (Z.to_nat (half_open_max_requests cb - half_open_inflight (deref cb l)))
      with (S (Z.to_nat (half_open_max_requests cb - (half_open_inflight (deref cb l) + 1)))) by lia.
    done.
Qed.

(** Recovery of an open circuit.  Calls made before the recovery timeout
    has elapsed since the opening are all refused; of the calls made from the
    first one after it, exactly the first [half_open_max_requests] are admitted
    as probes, each with a guard on this breaker, and all the others are
    refused until an outcome is recorded. *)
Theorem recovery_probes cb id l t early late :
  circuit_wf cb → breakers cb !! id = Some l → slen id ≤ BACKEND_ID_CAP →
  br_state (deref cb l) = STATE_OPEN → opened_at (deref cb l) = Some t →
  Forall (λ now, elapsed now t < recovery_timeout cb) early →
  (∀ now, head late = Some now → recovery_timeout cb ≤ elapsed now t) →
  let probes := Z.to_nat (half_open_max_requests cb) in
  run_checks cb id (early ++ late) =
    replicate (length early) (Open, None) ++
    replicate (length late `min` probes) (HalfOpen, Some (mkGuard l)) ++
    replicate (length late - probes) (Open, None).
Proof.
  intros Hwf Hid Hlen Hopen Hat Hearly Hlate. cbv zeta.
  assert (∀ now, check cb now id =
    if recovery_timeout cb <=? elapsed now t then
      (store cb l (mkBreaker STATE_HALF_OPEN (consecutive_failures (deref cb l)) 1 (Some t)),
       (HalfOpen, Some (mkGuard l)))
    else (cb, (Open, None))) as Hchk.
  { intros now. by rewrite (check_known _ _ _ _ Hid Hlen), Hopen, Hat. }
  induction Hearly as [|now early Hnow Hearly IH]; simpl.
  - destruct late as [|now late]; [done|]. specialize (Hlate now eq_refl).
    destruct (check cb now id) as [cb' r] eqn:Hc. simpl. rewrite Hc.
    destruct (check_wf _ _ _ _ _ Hwf Hc) as (Hwf' & _).
    rewrite Hchk, (proj2 (Z.leb_le _ _) Hlate) in Hc. simplify_eq.
    pose proof (wf_live _ Hwf _ _ Hid) as Hl. pose proof (wf_max _ Hwf).
    rewrite (run_checks_half_open _ id l _ Hwf'); try done; rewrite deref_store by done; simpl; [|done|lia].
    replace (Z.to_nat (half_open_max_requests cb))
      with (S (Z.to_nat (half_open_max_requests cb - 1))) by lia. done.
  - rewrite Hchk, (proj2 (Z.leb_gt _ _) Hnow). by rewrite IH.
Qed.

Lemma example_wf es : circuit_wf (sys_cb (run example_config es)).
Proof.
  apply (reachable_wf example_config); [|apply run_reachable].
  unfold config_ok, U32_MAX; simpl; lia.
Qed.

Lemma recovery_probes_witness :
  map fst (run_checks (sys_cb (run example_config (example_trip 0))) "api"
    ([from_secs 1; from_secs 59] ++ [from_secs 60; from_secs 60; from_secs 61])) =
  [Open; Open; HalfOpen; HalfOpen; Open].
Proof.
  rewrite (recovery_probes _ "api" 0%nat 0 [from_secs 1; from_secs 59]
    [from_secs 60; from_secs 60; from_secs 61] (example_wf _)).
  - vm_compute. reflexivity.
  - vm_compute. reflexivity.
  - vm_compute. discriminate.
  - vm_compute. reflexivity.
  - vm_compute. reflexivity.
  - repeat constructor.
  - intros now [= <-]. vm_compute. discriminate.
Defined.

(** *** The probe cap over arbitrary interleavings of calls

    A guard decrements the counter of whatever half-open phase its breaker is
    in when it is dropped.  [punctual] are the runs in which no guard of an
    earlier half-open phase is still alive when the breaker half-opens again;
    over them the counter is exact. *)

Definition live (l : nat) (gs : list HalfOpenGuard) : Z :=
  zlen (filter (λ g, guard_breaker g = l) gs).

Definition no_stale_guard (s : sys) (e : event) : Prop := ∀ l,
  (l < length (arcs (sys_cb s)))%nat →
  br_state (deref (sys_cb s) l) = STATE_OPEN →
  br_state (deref (sys_cb (sys_step s e)) l) = STATE_HALF_OPEN →
  live l (sys_guards s) = 0.

Inductive punctual (config : CircuitBreakerConfig) : sys → Prop :=
| punctual_init : punctual config (mkSys (CircuitBreakers_new config) [])
| punctual_step s e :
    punctual config s → no_stale_guard s e → punctual config (sys_step s e).

Lemma punctual_reachable config s : punctual config s → reachable config s.
Proof. induction 1; constructor; done. Qed.

Lemma live_cons l g gs :
  live l (g :: gs) = live l gs + (if decide (guard_breaker g = l) then 1 else 0).
Proof. unfold live, zlen. rewrite filter_cons. case_decide; simpl; lia. Qed.

Lemma live_delete l gs i g : gs !! i = Some g →
  live l gs = live l (delete i gs) + (if decide (guard_breaker g = l) then 1 else 0).
Proof.
  intros Hi. rewrite <-live_cons. unfold live, zlen.
  rewrite <-(delete_Permutation gs i g Hi). done.
Qed.

Lemma live_nonneg l gs : 0 ≤ live l gs.
Proof. unfold live, zlen. lia. Qed.

Lemma live_unallocated l gs :
  Forall (λ g, (guard_breaker g < l)%nat) gs → live l gs = 0.
Proof.
  unfold live, zlen. induction 1; [done|]. rewrite filter_cons. case_decide; [lia|done].
Qed.

Definition exact (s : sys) (l : nat) : Prop :=
  br_state (deref (sys_cb s) l) = STATE_HALF_OPEN →
  half_open_inflight (deref (sys_cb s) l) = live l (sys_guards s) ∧
  live l (sys_guards s) ≤ half_open_max_requests (sys_cb s).

Definition probes_exact (s : sys) : Prop :=
  ∀ l, (l < length (arcs (sys_cb s)))%nat → exact s l.

(** The breaker an entry lookup adds is closed; the others are unchanged. *)
Lemma entry_deref cb id cb' l l' :
  entry_or_insert cb id = (cb', l) → (l' < length (arcs cb'))%nat →
  (l' < length (arcs cb))%nat ∧ deref cb' l' = deref cb l' ∨
  l' = length (arcs cb) ∧ deref cb' l' = BackendBreaker_new.
Proof.
  unfold entry_or_insert. destruct (breakers cb !! id); intros; simplify_eq/=; [by left|].
  rewrite length_app in *; simpl in *. unfold deref; simpl.
  destruct (decide (l' < length (arcs cb))%nat); [left|right].
  - by rewrite lookup_total_app_l.
  - assert (l' = length (arcs cb)) as -> by lia. by rewrite list_lookup_total_middle.
Qed.

Lemma entry_config cb id cb' l :
  entry_or_insert cb id = (cb', l) →
  half_open_max_requests cb' = half_open_max_requests cb ∧
  recovery_timeout cb' = recovery_timeout cb.
Proof. unfold entry_or_insert. intros. by crush_match. Qed.

Lemma probes_exact_entry cb gs id cb' l :
  probes_exact (mkSys cb gs) → entry_or_insert cb id = (cb', l) → probes_exact (mkSys cb' gs).
Proof.
  intros Hex He l' Hl' Hho; simpl in *.
  destruct (entry_config _ _ _ _ He) as [-> _].
  destruct (entry_deref _ _ _ _ _ He Hl') as [[? Hd]|[_ Hd]]; rewrite Hd in *; [|done].
  by apply Hex.
Qed.

(** An operation that stores one breaker and hands out or drops guards of that
    breaker only keeps the other counters exact. *)
Lemma probes_exact_store cb gs l b gs' :
  probes_exact (mkSys cb gs) → (l < length (arcs cb))%nat →
  (∀ l', l ≠ l' → live l' gs' = live l' gs) →
  exact (mkSys (store cb l b) gs') l → probes_exact (mkSys (store cb l b) gs').
Proof.
  intros Hex Hl Hgs Hat l' Hl'; simpl in *. rewrite length_insert in Hl'.
  destruct (decide (l = l')) as [<-|Hne]; [done|].
  intros Hho; simpl in *. rewrite deref_store_ne, Hgs in * by done. by apply Hex.
Qed.

Lemma check_exact cb gs now id cb' st g :
  circuit_wf cb → probes_exact (mkSys cb gs) → check cb now id = (cb', (st, g)) →
  (∀ l, (l < length (arcs cb))%nat → br_state (deref cb l) = STATE_OPEN →
     br_state (deref cb' l) = STATE_HALF_OPEN → live l gs = 0) →
  probes_exact (mkSys cb' (match g with Some g => g :: gs | None => gs end)).
Proof.
  intros Hwf Hex Hc Hns. unfold check in Hc. case_match; [by simplify_eq|].
  destruct (entry_or_insert cb id) as [cb1 l] eqn:He.
  destruct (entry_wf _ _ _ _ Hwf He) as (Hwf1 & Hl & Hlen). pose proof (wf_max _ Hwf1).
  pose proof (probes_exact_entry _ _ _ _ _ Hex He) as Hex1.
  pose proof (deref_wf _ _ Hwf1 Hl) as Hb. pose proof (state_from_cases _ _ Hb) as Hst.
  assert (∀ l', l ≠ l' → live l' (mkGuard l :: gs) = live l' gs) as Hne.
  { intros l' ?. rewrite live_cons; simpl. rewrite decide_False by done. lia. }
  assert (live l (mkGuard l :: gs) = live l gs + 1) as Hplus.
  { rewrite live_cons; simpl. by rewrite decide_True. }
  destruct (CircuitState_from (br_state (deref cb1 l))).
  - by simplify_eq.
  - destruct Hst as (Hop & _). case_match; simplify_eq; [|done].
    eapply probes_exact_store; [done..|]. intros _; simpl.
    rewrite deref_store, Hplus by done; simpl.
    destruct (entry_deref _ _ _ _ _ He Hl) as [[? Hd]|[_ Hd]]; [|by rewrite Hd in Hop].
    rewrite (Hns l); [lia|done|by rewrite <-Hd|by rewrite deref_store].
  - case_match; simplify_eq; bool_hyps.
    + eapply probes_exact_store; [done..|]. intros Hho; simpl in *.
      rewrite deref_store in * by done. simpl in *. rewrite wrap32_sub_add by apply Hb. by apply Hex1.
    + eapply probes_exact_store; [done..|]. intros Hho; simpl in *.
      rewrite deref_store, Hplus in * by done; simpl in *.
      destruct (Hex1 l Hl Hho) as [Heq _]; simpl in *. pose proof (live_nonneg l gs).
      rewrite wrap32_small by (unfold U32_MAX in *; lia). lia.
Qed.

(** Storing a breaker that is not half-open, with the guards unchanged. *)
Lemma store_idle_exact cb gs l b :
  probes_exact (mkSys cb gs) → (l < length (arcs cb))%nat → br_state b ≠ STATE_HALF_OPEN →
  probes_exact (mkSys (store cb l b) gs).
Proof.
  intros Hex Hl Hb. eapply probes_exact_store; [done..|].
  intros Hho; simpl in *. rewrite deref_store in Hho by done. done.
Qed.

Lemma record_success_exact cb gs id :
  circuit_wf cb → probes_exact (mkSys cb gs) → probes_exact (mkSys (record_success cb id) gs).
Proof.
  intros Hwf Hex. unfold record_success. destruct (breakers cb !! id) as [l|] eqn:Hid; [|done].
  pose proof (wf_live _ Hwf _ _ Hid) as Hl.
  pose proof (state_from_cases _ _ (deref_wf _ _ Hwf Hl)) as Hst.
  destruct (CircuitState_from _); [| done |by apply store_idle_exact].
  destruct Hst as (Hcl & _). apply store_idle_exact; simpl; [done..|by rewrite Hcl].
Qed.

Lemma record_failure_exact cb gs now id :
  circuit_wf cb → probes_exact (mkSys cb gs) → probes_exact (mkSys (record_failure cb now id) gs).
Proof.
  intros Hwf Hex. unfold record_failure. case_match; [done|].
  destruct (entry_or_insert cb id) as [cb1 l] eqn:He.
  destruct (entry_wf _ _ _ _ Hwf He) as (Hwf1 & Hl & Hlen).
  pose proof (probes_exact_entry _ _ _ _ _ Hex He) as Hex1.
  pose proof (state_from_cases _ _ (deref_wf _ _ Hwf1 Hl)) as Hst.
  destruct (CircuitState_from _); [|done|by apply store_idle_exact].
  destruct Hst as (Hcl & _). case_match; apply store_idle_exact; simpl; try done. by rewrite Hcl.
Qed.

Lemma drop_guard_exact cb gs i g :
  circuit_wf cb → Forall (λ g, (guard_breaker g < length (arcs cb))%nat) gs →
  probes_exact (mkSys cb gs) → gs !! i = Some g →
  probes_exact (mkSys (drop_guard cb g) (delete i gs)).
Proof.
  intros Hwf Hg Hex Hi. destruct g as [l].
  pose proof (Forall_lookup_1 _ _ _ _ Hg Hi) as Hl; simpl in Hl.
  assert (∀ l', l ≠ l' → live l' (delete i gs) = live l' gs) as Hne.
  { intros l' ?. rewrite (live_delete l' gs i _ Hi); simpl. rewrite decide_False by done. lia. }
  pose proof (live_delete l gs i _ Hi) as Hd; simpl in Hd. rewrite decide_True in Hd by done.
  unfold drop_guard; simpl. pose proof (state_from_cases _ _ (deref_wf _ _ Hwf Hl)) as Hst.
  assert (br_state (deref cb l) ≠ STATE_HALF_OPEN → probes_exact (mkSys cb (delete i gs))) as Hidle.
  { intros Hno l' Hl' Hho; simpl in *.
    rewrite Hne by (intros ->; done). by apply Hex. }
  destruct (CircuitState_from _); [by apply Hidle; destruct Hst as [-> _]..|].
  eapply probes_exact_store; [done..|]. intros Hho; simpl in *.
  rewrite deref_store in * by done; simpl in *. destruct (Hex l Hl Hho) as [Heq ?]; simpl in *.
  pose proof (live_nonneg l (delete i gs)). pose proof (wf_max _ Hwf).
  rewrite wrap32_small by (unfold U32_MAX in *; lia). lia.
Qed.

Lemma sys_step_exact s e :
  sys_wf s → no_stale_guard s e → probes_exact s → probes_exact (sys_step s e).
Proof.
  destruct s as [cb gs]. intros [Hwf Hg] Hns Hex; simpl in *.
  destruct e as [now id|id|now id|i|id]; unfold no_stale_guard in Hns; simpl in *.
  - destruct (check cb now id) as [cb' [st g]] eqn:Hc. by eapply check_exact.
  - by apply record_success_exact.
  - by apply record_failure_exact.
  - destruct (gs !! i) eqn:Hi; [by apply drop_guard_exact|done].
  - done.
Qed.

(** Along every run in which no guard outlives its half-open phase, the
    in-flight counter of a half-open breaker is exactly the number of its live
    guards, and that number never exceeds [half_open_max_requests]: the cap on
    concurrent probes holds for every interleaving of checks, outcomes, guard
    drops and removals, over every backend. *)
Theorem probe_cap config s l :
  config_ok config → punctual config s → (l < length (arcs (sys_cb s)))%nat →
  br_state (deref (sys_cb s) l) = STATE_HALF_OPEN →
  half_open_inflight (deref (sys_cb s) l) = live l (sys_guards s) ∧
  live l (sys_guards s) ≤ half_open_max_requests (sys_cb s).
Proof.
  intros Hok Hp. revert l. change (probes_exact s). induction Hp as [|s e Hp IH Hns].
  - intros l Hl; simpl in Hl. lia.
  - apply sys_step_exact; [|done|done].
    by eapply reachable_wf, punctual_reachable.
Qed.

(** A closed witness trace: three failures, recovery, two probes in flight. *)
Definition example_probing : list event :=
  example_trip 0 ++ [ECheck (from_secs 60) "api"; ECheck (from_secs 60) "api"].

Lemma probe_cap_witness :
  half_open_inflight (deref (sys_cb (run example_config example_probing)) 0) = 2 ∧
  live 0 (sys_guards (run example_config example_probing)) ≤ 2.
Proof.
  apply (probe_cap example_config).
  - unfold config_ok, U32_MAX; simpl; lia.
  - unfold run, example_probing, example_trip. cbn [foldl app].
    do 5 (apply punctual_step; [|intros [|l] Hl Hop Hho; [|vm_compute in Hl; lia];
      first [vm_compute; reflexivity | vm_compute in Hop; discriminate]]).
    constructor.
  - vm_compute. lia.
  - vm_compute. reflexivity.
Defined.

(** The run behind C6: the circuit trips; two probes A and B are admitted; A
    fails and re-opens the circuit; after the recovery timeout a third probe C
    is admitted while B is still in flight; B and then C are cancelled, that is
    their guards are dropped with no outcome recorded. *)
Definition stale_guard_run : list event :=
  example_trip 0 ++
  [ECheck (from_secs 60) "api"; ECheck (from_secs 60) "api";
   EFailure (from_secs 60) "api"; EDrop 1;
   ECheck (from_secs 120) "api"; EDrop 1; EDrop 0].

(** The guard's [Drop] decrements the counter of a later half-open phase
    than the one that counted it: a reachable run drives the [u32] in-flight
    counter below zero.  It wraps to [u32::MAX], no guard is left, and from
    then on the half-open circuit refuses every call at any time without
    changing state, so no probe can ever report an outcome. *)
Theorem stale_guard_wedges :
  reachable example_config (run example_config stale_guard_run) ∧
  sys_guards (run example_config stale_guard_run) = [] ∧
  state (sys_cb (run example_config stale_guard_run)) "api" = HalfOpen ∧
  half_open_inflight (deref (sys_cb (run example_config stale_guard_run)) 0) = U32_MAX ∧
  ∀ now, check (sys_cb (run example_config stale_guard_run)) now "api" =
         (sys_cb (run example_config stale_guard_run), (Open, None)).
Proof.
  split_and!; [apply run_reachable|vm_compute; reflexivity..|]. intros now.
  apply (half_open_refuses _ "api" 0%nat now (example_wf _)).
  - vm_compute. reflexivity.
  - vm_compute. discriminate.
  - vm_compute. reflexivity.
  - vm_compute. discriminate.
Qed.
