(* ===== verification/CircuitRace.v ===== *)
(** * CircuitRace: the calls of [src/circuit.rs] in parallel

    [Circuit] models each call on a breaker as one step.  In the source a call is a sequence of
    atomic operations on the fields of a shared [BackendBreaker], and the calls of several
    tasks interleave between them.  Here a call is the operation it does next; the calls that
    run alone do what [Circuit] says, and the invariant of the breakers is proved of every
    interleaving. *)

From S2P Require Import Prelude Circuit.
Local Open Scope Z_scope.

(** ** Calls *)

(** A call, by the operation it does next.  [record_success] holds its reference into the map,
    and with it the map's lock, until it returns. *)
Inductive Task :=
  | CheckEntry (now : Z) (id : string)
  | CheckLoad (now : Z) (l : nat)
  | CheckOpenedAt (now : Z) (l : nat)
  | CheckArm (l : nat)
  | CheckHalfOpen (l : nat)
  | CheckAdd (l : nat)
  | CheckSub (l : nat)
  | SuccessGet (id : string)
  | SuccessLoad (id : string) (l : nat)
  | SuccessFailures (id : string) (l : nat)
  | SuccessInflight (id : string) (l : nat)
  | SuccessClose (id : string) (l : nat)
  | SuccessClear (id : string) (l : nat)
  | SuccessReset (id : string) (l : nat)
  | FailureEntry (now : Z) (id : string)
  | FailureLoad (now : Z) (l : nat)
  | FailureAdd (now : Z) (l : nat)
  | FailureInflight (now : Z) (l : nat)
  | FailureOpen (now : Z) (l : nat)
  | FailureStamp (now : Z) (l : nat)
  | DropLoad (g : HalfOpenGuard)
  | DropSub (g : HalfOpenGuard)
  | Done (answer : option (CircuitState * option HalfOpenGuard)).

(** What the invariant speaks of: a failure counted, the count reset, and the opening time
    cleared, with the state byte of that moment. *)
Inductive Event :=
  | Counted (l : nat)
  | ResetCount (l : nat)
  | Cleared (l : nat) (state : Z).

Definition set_state (v : Z) (b : BackendBreaker) : BackendBreaker :=
  mkBreaker v (consecutive_failures b) (half_open_inflight b) (opened_at b).
Definition set_failures (v : Z) (b : BackendBreaker) : BackendBreaker :=
  mkBreaker (br_state b) v (half_open_inflight b) (opened_at b).
Definition set_inflight (v : Z) (b : BackendBreaker) : BackendBreaker :=
  mkBreaker (br_state b) (consecutive_failures b) v (opened_at b).
Definition set_opened_at (v : option Z) (b : BackendBreaker) : BackendBreaker :=
  mkBreaker (br_state b) (consecutive_failures b) (half_open_inflight b) v.

Definition modify (cb : CircuitBreakers) (l : nat) (f : BackendBreaker → BackendBreaker) : CircuitBreakers :=
  store cb l (f (deref cb l)).

(** [CircuitBreakers::check], one operation. *)
Definition check_op (cb : CircuitBreakers) (t : Task) : CircuitBreakers * Task * option Event :=
  match t with
  | CheckEntry now id =>
      if BACKEND_ID_CAP <? slen id then (cb, Done (Some (Open, None)), None)
      else let '(cb, l) := entry_or_insert cb id in (cb, CheckLoad now l, None)
  | CheckLoad now l =>
      (cb, match CircuitState_from (br_state (deref cb l)) with
           | Closed => Done (Some (Closed, None))
           | Open => CheckOpenedAt now l
           | HalfOpen => CheckAdd l
           end, None)
  | CheckOpenedAt now l =>
      let should_transition :=
        match opened_at (deref cb l) with Some t => recovery_timeout cb <=? elapsed now t | None => false end in
      (cb, if should_transition then CheckArm l else Done (Some (Open, None)), None)
  | CheckArm l => (modify cb l (set_inflight 1), CheckHalfOpen l, None)
  | CheckHalfOpen l => (modify cb l (set_state STATE_HALF_OPEN), Done (Some (HalfOpen, Some (mkGuard l))), None)
  | CheckAdd l =>
      let inflight := half_open_inflight (deref cb l) in
      (modify cb l (set_inflight (wrap32 (inflight + 1))),
       if half_open_max_requests cb <=? inflight then CheckSub l else Done (Some (HalfOpen, Some (mkGuard l))), None)
  | CheckSub l =>
      (modify cb l (λ b, set_inflight (wrap32 (half_open_inflight b - 1)) b), Done (Some (Open, None)), None)
  | _ => (cb, t, None)
  end.

(** [CircuitBreakers::record_success], one operation. *)
Definition success_op (cb : CircuitBreakers) (t : Task) : CircuitBreakers * Task * option Event :=
  match t with
  | SuccessGet id =>
      (cb, match breakers cb !! id with Some l => SuccessLoad id l | None => Done None end, None)
  | SuccessLoad id l =>
      (cb, match CircuitState_from (br_state (deref cb l)) with
           | HalfOpen => SuccessFailures id l
           | Closed => SuccessReset id l
           | Open => Done None
           end, None)
  | SuccessFailures id l => (modify cb l (set_failures 0), SuccessInflight id l, Some (ResetCount l))
  | SuccessInflight id l => (modify cb l (set_inflight 0), SuccessClose id l, None)
  | SuccessClose id l => (modify cb l (set_state STATE_CLOSED), SuccessClear id l, None)
  | SuccessClear id l => (modify cb l (set_opened_at None), Done None, Some (Cleared l (br_state (deref cb l))))
  | SuccessReset id l => (modify cb l (set_failures 0), Done None, Some (ResetCount l))
  | _ => (cb, t, None)
  end.

(** [CircuitBreakers::record_failure], one operation. *)
Definition failure_op (cb : CircuitBreakers) (t : Task) : CircuitBreakers * Task * option Event :=
  match t with
  | FailureEntry now id =>
      if BACKEND_ID_CAP <? slen id then (cb, Done None, None)
      else let '(cb, l) := entry_or_insert cb id in (cb, FailureLoad now l, None)
  | FailureLoad now l =>
      (cb, match CircuitState_from (br_state (deref cb l)) with
           | Closed => FailureAdd now l
           | HalfOpen => FailureInflight now l
           | Open => Done None
           end, None)
  | FailureAdd now l =>
      let failures := consecutive_failures (deref cb l) + 1 in
      (modify cb l (set_failures (wrap32 failures)),
       if failure_threshold cb <=? failures then FailureOpen now l else Done None, Some (Counted l))
  | FailureInflight now l => (modify cb l (set_inflight 0), FailureOpen now l, None)
  | FailureOpen now l => (modify cb l (set_state STATE_OPEN), FailureStamp now l, None)
  | FailureStamp now l => (modify cb l (set_opened_at (Some now)), Done None, None)
  | _ => (cb, t, None)
  end.

(** The drop of a guard, one operation. *)
Definition drop_op (cb : CircuitBreakers) (t : Task) : CircuitBreakers * Task * option Event :=
  match t with
  | DropLoad g =>
      (cb, match CircuitState_from (br_state (deref cb (guard_breaker g))) with
           | HalfOpen => DropSub g
           | _ => Done None
           end, None)
  | DropSub g =>
      (modify cb (guard_breaker g) (λ b, set_inflight (wrap32 (half_open_inflight b - 1)) b), Done None, None)
  | _ => (cb, t, None)
  end.

Definition task_op (cb : CircuitBreakers) (t : Task) : CircuitBreakers * Task * option Event :=
  match t with
  | CheckEntry _ _ | CheckLoad _ _ | CheckOpenedAt _ _ | CheckArm _ | CheckHalfOpen _ | CheckAdd _ | CheckSub _ =>
      check_op cb t
  | SuccessGet _ | SuccessLoad _ _ | SuccessFailures _ _ | SuccessInflight _ _ | SuccessClose _ _
  | SuccessClear _ _ | SuccessReset _ _ => success_op cb t
  | FailureEntry _ _ | FailureLoad _ _ | FailureAdd _ _ | FailureInflight _ _ | FailureOpen _ _ | FailureStamp _ _ =>
      failure_op cb t
  | DropLoad _ | DropSub _ => drop_op cb t
  | Done _ => (cb, t, None)
  end.

(** A call that runs alone, to its end: no call has more than seven operations. *)
Fixpoint run_alone (fuel : nat) (cb : CircuitBreakers) (t : Task) : CircuitBreakers * Task :=
  match fuel, t with
  | O, _ => (cb, t)
  | _, Done _ => (cb, t)
  | S fuel, _ => let '(cb, t, _) := task_op cb t in run_alone fuel cb t
  end.

Definition CALL_OPS : nat := 7.

(** ** Interleaved calls *)

Record Race := {
  rc_cb : CircuitBreakers;
  rc_tasks : list Task;
  rc_trace : list Event;
}.

Inductive RaceStep :=
  | Calls (t : Task)
  | Operates (i : nat)
  | DropsGuard (i : nat)
  | Removes (id : string).

(** Where a call may start. *)
Definition is_call (t : Task) : bool :=
  match t with CheckEntry _ _ | SuccessGet _ | FailureEntry _ _ => true | _ => false end.

(** A task that holds the map's lock for [id]. *)
Definition holds_lock (id : string) (t : Task) : bool :=
  match t with
  | SuccessLoad i _ | SuccessFailures i _ | SuccessInflight i _ | SuccessClose i _ | SuccessClear i _
  | SuccessReset i _ => String.eqb i id
  | _ => false
  end.

Definition locked (r : Race) (id : string) : bool := existsb (holds_lock id) (rc_tasks r).

(** An operation on the map waits for the lock. *)
Definition blocked (r : Race) (t : Task) : bool :=
  match t with CheckEntry _ id | FailureEntry _ id => locked r id | _ => false end.

(** Task [i] has done an operation and goes on as [t]. *)
Definition moved (r : Race) (i : nat) (cb : CircuitBreakers) (t : Task) (ev : option Event) : Race :=
  {| rc_cb := cb; rc_tasks := <[i := t]> (rc_tasks r); rc_trace := option_list ev ++ rc_trace r |}.

Definition race_step (r : Race) (s : RaceStep) : Race :=
  match s with
  | Calls t =>
      if is_call t then {| rc_cb := rc_cb r; rc_tasks := rc_tasks r ++ [t]; rc_trace := rc_trace r |} else r
  | Operates i =>
      match rc_tasks r !! i with
      | None => r
      | Some t =>
          if blocked r t then r
          else
            let '(cb, t, ev) := task_op (rc_cb r) t in moved r i cb t ev
      end
  | DropsGuard i =>
      match rc_tasks r !! i with
      | Some (Done (Some (_, Some g))) => moved r i (rc_cb r) (DropLoad g) None
      | _ => r
      end
  | Removes id =>
      if locked r id then r
      else {| rc_cb := remove_backend (rc_cb r) id; rc_tasks := rc_tasks r; rc_trace := rc_trace r |}
  end.

Definition Race_new (config : CircuitBreakerConfig) : Race :=
  {| rc_cb := CircuitBreakers_new config; rc_tasks := []; rc_trace := [] |}.

Inductive race_reachable (config : CircuitBreakerConfig) : Race → Prop :=
  | race_start : race_reachable config (Race_new config)
  | race_next r s : race_reachable config r → race_reachable config (race_step r s).

(** ** Calls that run alone *)

Lemma deref_modify cb l f : (l < length (arcs cb))%nat → deref (modify cb l f) l = f (deref cb l).
Proof. intros Hl. by apply deref_store. Qed.

Lemma length_modify cb l f : length (arcs (modify cb l f)) = length (arcs cb).
Proof. apply length_store. Qed.

Lemma modify_modify cb l f g : (l < length (arcs cb))%nat → modify (modify cb l f) l g = modify cb l (λ b, g (f b)).
Proof. intros Hl. unfold modify at 1. rewrite deref_modify by done. apply store_store. Qed.

(** The map never holds a reference to nothing. *)
Definition live_refs (cb : CircuitBreakers) : Prop := ∀ id l, breakers cb !! id = Some l → (l < length (arcs cb))%nat.

Lemma entry_live cb id cb' l :
  live_refs cb → entry_or_insert cb id = (cb', l) →
  live_refs cb' ∧ (l < length (arcs cb'))%nat ∧ (length (arcs cb) ≤ length (arcs cb'))%nat.
Proof.
  intros Hlive. unfold entry_or_insert. destruct (breakers cb !! id) eqn:Hid; intros [= <- <-].
  - split_and!; [done|by eapply Hlive|lia].
  - cbn. unfold live_refs. cbn. rewrite length_app. cbn. split_and!; [|lia..].
    intros id' l'. rewrite lookup_insert. case_decide; [intros [= <-]; lia|]. intros Hl%Hlive. lia.
Qed.

Definition is_done (t : Task) : bool := match t with Done _ => true | _ => false end.

Lemma run_op fuel cb t :
  is_done t = false → run_alone (S fuel) cb t = let '(cb, t, _) := task_op cb t in run_alone fuel cb t.
Proof. by destruct t. Qed.

Lemma run_done fuel cb answer : run_alone fuel cb (Done answer) = (cb, Done answer).
Proof. by destruct fuel. Qed.

(** The next operation of a call that runs alone, on the breaker at [l]. *)
Ltac operate := rewrite run_op by done; cbn [task_op check_op success_op failure_op drop_op].
Ltac finish_alone Hl :=
  repeat operate; rewrite run_done; 
  repeat first [rewrite deref_modify by (rewrite ?length_modify; exact Hl) | rewrite modify_modify by (rewrite ?length_modify; exact Hl)].

Lemma check_alone cb now id :
  live_refs cb →
  run_alone CALL_OPS cb (CheckEntry now id) = ((check cb now id).1, Done (Some (check cb now id).2)).
Proof.
  intros Hlive. unfold check, CALL_OPS. operate. destruct (BACKEND_ID_CAP <? slen id); [by rewrite run_done|].
  destruct (entry_or_insert cb id) as [cb1 l] eqn:He. destruct (entry_live _ _ _ _ Hlive He) as (_ & Hl & _).
  operate. destruct (CircuitState_from _) eqn:Hst; [by rewrite run_done|..].
  - operate. destruct (match opened_at _ with Some _ => _ | None => _ end); [|by rewrite run_done]. by finish_alone Hl.
  - operate. destruct (_ <=? _); by finish_alone Hl.
Qed.

Lemma success_alone cb id :
  live_refs cb → run_alone CALL_OPS cb (SuccessGet id) = (record_success cb id, Done None).
Proof.
  intros Hlive. unfold record_success, CALL_OPS. operate.
  destruct (breakers cb !! id) as [l|] eqn:Hid; [|by rewrite run_done]. pose proof (Hlive _ _ Hid) as Hl.
  operate. destruct (CircuitState_from _) eqn:Hst; by finish_alone Hl.
Qed.

Lemma failure_alone cb now id :
  live_refs cb → run_alone CALL_OPS cb (FailureEntry now id) = (record_failure cb now id, Done None).
Proof.
  intros Hlive. unfold record_failure, CALL_OPS. operate. destruct (BACKEND_ID_CAP <? slen id); [by rewrite run_done|].
  destruct (entry_or_insert cb id) as [cb1 l] eqn:He. destruct (entry_live _ _ _ _ Hlive He) as (_ & Hl & _).
  operate. destruct (CircuitState_from _) eqn:Hst; [|by finish_alone Hl..].
  operate. destruct (_ <=? _); by finish_alone Hl.
Qed.

Lemma drop_alone cb g : run_alone CALL_OPS cb (DropLoad g) = (drop_guard cb g, Done None).
Proof.
  unfold drop_guard, CALL_OPS. operate. destruct (CircuitState_from _) eqn:Hst; [by rewrite run_done..|].
  operate. by rewrite run_done.
Qed.

(** ** The invariant of the interleavings *)

Definition event_breaker (e : Event) : nat := match e with Counted l | ResetCount l | Cleared l _ => l end.

(** The failures counted in a row on the breaker at [l], the latest event first. *)
Fixpoint streak (l : nat) (trace : list Event) : Z :=
  match trace with
  | [] => 0
  | Counted k :: trace => if decide (k = l) then streak l trace + 1 else streak l trace
  | ResetCount k :: trace => if decide (k = l) then 0 else streak l trace
  | Cleared _ _ :: trace => streak l trace
  end.

(** At some moment [threshold] failures in a row had been counted. *)
Definition tripped (threshold : Z) (l : nat) (trace : list Event) : Prop := ∃ k, threshold ≤ streak l (drop k trace).

(** A failure has opened the breaker at [l] and is about to note the time. *)
Definition stamping (l : nat) (tasks : list Task) : Prop := ∃ now, FailureStamp now l ∈ tasks.

(** A success that found the breaker at [l] half-open cleared its opening time after a failure
    had opened it again. *)
Definition late_clear (l : nat) (trace : list Event) : Prop := Cleared l STATE_OPEN ∈ trace.

Definition breaker_ok (threshold : Z) (tasks : list Task) (trace : list Event) (l : nat) (b : BackendBreaker) : Prop :=
  (br_state b = STATE_CLOSED ∨ br_state b = STATE_OPEN ∨ br_state b = STATE_HALF_OPEN) ∧
  consecutive_failures b = wrap32 (streak l trace) ∧ 0 ≤ half_open_inflight b ≤ U32_MAX ∧
  (br_state b ≠ STATE_CLOSED → tripped threshold l trace) ∧
  (br_state b = STATE_OPEN → opened_at b = None → stamping l tasks ∨ late_clear l trace).

(** The breaker a call has got hold of, and whether it saw it tripped. *)
Definition task_breaker (t : Task) : option nat :=
  match t with
  | CheckEntry _ _ | SuccessGet _ | FailureEntry _ _ => None
  | CheckLoad _ l | CheckOpenedAt _ l | CheckArm l | CheckHalfOpen l | CheckAdd l | CheckSub l
  | SuccessLoad _ l | SuccessFailures _ l | SuccessInflight _ l | SuccessClose _ l | SuccessClear _ l | SuccessReset _ l
  | FailureLoad _ l | FailureAdd _ l | FailureInflight _ l | FailureOpen _ l | FailureStamp _ l => Some l
  | DropLoad g | DropSub g => Some (guard_breaker g)
  | Done (Some (_, Some g)) => Some (guard_breaker g)
  | Done _ => None
  end.

Definition saw_tripped (t : Task) : bool :=
  match t with
  | CheckOpenedAt _ _ | CheckArm _ | CheckHalfOpen _ | FailureInflight _ _ | FailureOpen _ _ | FailureStamp _ _ => true
  | _ => false
  end.

Definition task_ok (threshold : Z) (n : nat) (trace : list Event) (t : Task) : Prop :=
  ∀ l, task_breaker t = Some l → (l < n)%nat ∧ (saw_tripped t = true → tripped threshold l trace).

Record race_ok (threshold : Z) (r : Race) : Prop := {
  ro_threshold : failure_threshold (rc_cb r) = threshold;
  ro_live : live_refs (rc_cb r);
  ro_unshared : ∀ id1 id2 l, breakers (rc_cb r) !! id1 = Some l → breakers (rc_cb r) !! id2 = Some l → id1 = id2;
  ro_breakers : ∀ l b, arcs (rc_cb r) !! l = Some b → breaker_ok threshold (rc_tasks r) (rc_trace r) l b;
  ro_tasks : Forall (task_ok threshold (length (arcs (rc_cb r))) (rc_trace r)) (rc_tasks r);
  ro_trace : Forall (λ e, (event_breaker e < length (arcs (rc_cb r)))%nat) (rc_trace r);
}.

Lemma streak_nonneg l trace : 0 ≤ streak l trace.
Proof. induction trace as [|[] trace IH]; cbn; try case_decide; lia. Qed.

Lemma streak_other l e trace : event_breaker e ≠ l → streak l (e :: trace) = streak l trace.
Proof. destruct e; cbn; intros Hne; [by rewrite decide_False|by rewrite decide_False|done]. Qed.

Lemma streak_fresh l trace : Forall (λ e, event_breaker e ≠ l) trace → streak l trace = 0.
Proof. induction 1 as [|e trace He _ IH]; [done|]. by rewrite streak_other. Qed.

Lemma tripped_more threshold l e trace : tripped threshold l trace → tripped threshold l (e :: trace).
Proof. intros [k Hk]. by exists (S k). Qed.

Lemma task_ok_more threshold n n' ev trace t :
  (n ≤ n')%nat → task_ok threshold n trace t → task_ok threshold n' (option_list ev ++ trace) t.
Proof.
  intros Hn Ht l Hl. destruct (Ht l Hl) as [? Hs]. split; [lia|]. intros Htr%Hs.
  destruct ev; [by apply tripped_more|done].
Qed.

Lemma stamping_insert l i t t' tasks :
  tasks !! i = Some t → (∀ now, t ≠ FailureStamp now l) → stamping l tasks → stamping l (<[i := t']> tasks).
Proof.
  intros Hi Hne [now [j Hj]%list_elem_of_lookup]. exists now. apply list_elem_of_lookup. exists j.
  rewrite list_lookup_insert_ne; [done|]. intros ->. rewrite Hi in Hj. injection Hj as ->. by destruct (Hne now).
Qed.

(** A breaker that an operation of another breaker, or an operation that writes nothing, leaves
    as it is. *)
Lemma breaker_ok_frame threshold tasks trace i t t' ev l b :
  tasks !! i = Some t → (∀ now, t ≠ FailureStamp now l) → (∀ e, ev = Some e → event_breaker e ≠ l) →
  breaker_ok threshold tasks trace l b → breaker_ok threshold (<[i := t']> tasks) (option_list ev ++ trace) l b.
Proof.
  intros Hi Hne Hev (Hs & Hf & Hb & Ht & Ho).
  assert (streak l (option_list ev ++ trace) = streak l trace) as Hst.
  { destruct ev as [e|]; [|done]. cbn. by apply streak_other, Hev. }
  split_and!; [done|by rewrite Hst|lia|lia| |].
  - intros Htr%Ht. destruct ev; [by apply tripped_more|done].
  - intros H1 H2. destruct (Ho H1 H2) as [?|?]; [left; by eapply stamping_insert|right]. unfold late_clear in *. set_solver.
Qed.

(** An operation of task [i] on the breaker at [l]. *)
Lemma modify_ok threshold r i t t' ev l f :
  race_ok threshold r → rc_tasks r !! i = Some t → (l < length (arcs (rc_cb r)))%nat →
  (∀ now k, t = FailureStamp now k → k = l) → (∀ e, ev = Some e → event_breaker e = l) →
  (∀ b, breaker_ok threshold (rc_tasks r) (rc_trace r) l b → deref (rc_cb r) l = b →
     breaker_ok threshold (<[i := t']> (rc_tasks r)) (option_list ev ++ rc_trace r) l (f b) ∧
     task_ok threshold (length (arcs (rc_cb r))) (option_list ev ++ rc_trace r) t') →
  race_ok threshold {| rc_cb := modify (rc_cb r) l f; rc_tasks := <[i := t']> (rc_tasks r);
                       rc_trace := option_list ev ++ rc_trace r |}.
Proof.
  intros [] Hi Hl Hstamp Hev Hb. destruct (lookup_lt_is_Some_2 _ _ Hl) as [b Hlb].
  assert (deref (rc_cb r) l = b) as Hd by (by apply list_lookup_total_correct).
  destruct (Hb b) as [Hb' Ht']; [by apply ro_breakers0|done|].
  split; cbn; rewrite ?length_insert; [done| |done| | |].
  - intros id k Hk. cbn. rewrite length_insert. by eapply ro_live0.
  - intros k b' [(-> & <- & _)|[Hne Hk]]%list_lookup_insert_Some; [by rewrite Hd|].
    eapply breaker_ok_frame; [done| | |by apply ro_breakers0].
    + intros now ->. apply Hne. symmetry. by apply (Hstamp now).
    + intros e ->. rewrite (Hev e); done.
  - apply Forall_insert; [|done]. eapply Forall_impl; [done|]. intros x Hx. by apply (task_ok_more _ (length (arcs (rc_cb r)))).
  - apply Forall_app. split; [|done]. destruct ev as [e|]; [|done]. apply Forall_singleton. by rewrite (Hev e).
Qed.

(** An operation that reads the breaker at [l]. *)
Lemma read_ok threshold r i t t' l :
  race_ok threshold r → rc_tasks r !! i = Some t → task_breaker t = Some l → (∀ now, t ≠ FailureStamp now l) →
  (∀ b, deref (rc_cb r) l = b → breaker_ok threshold (rc_tasks r) (rc_trace r) l b →
     task_ok threshold (length (arcs (rc_cb r))) (rc_trace r) t') →
  race_ok threshold {| rc_cb := rc_cb r; rc_tasks := <[i := t']> (rc_tasks r); rc_trace := rc_trace r |}.
Proof.
  intros Hr Hi Htl Hne Ht'. pose proof (Forall_lookup_1 _ _ _ _ (ro_tasks _ _ Hr) Hi l Htl) as [Hl _].
  pose proof (modify_ok threshold r i t t' None l (λ b, b) Hr Hi Hl) as Hm.
  unfold modify in Hm. rewrite store_deref in Hm. apply Hm; [|done|].
  - intros now k ->. injection Htl as ->. by destruct (Hne now).
  - intros b Hb Hd. split; [|by eapply Ht']. by eapply (breaker_ok_frame _ _ _ _ _ _ None).
Qed.

(** A call that gets its breaker from the map, which may allocate it. *)
Lemma entry_ok threshold r i t t' id cb l :
  race_ok threshold r → rc_tasks r !! i = Some t → task_breaker t = None →
  entry_or_insert (rc_cb r) id = (cb, l) → task_breaker t' = Some l → saw_tripped t' = false →
  race_ok threshold {| rc_cb := cb; rc_tasks := <[i := t']> (rc_tasks r); rc_trace := rc_trace r |}.
Proof.
  intros [] Hi Ht He Ht' Hs. destruct (entry_live _ _ _ _ ro_live0 He) as (Hlive & Hl & Hlen).
  assert (∀ k b, breaker_ok threshold (rc_tasks r) (rc_trace r) k b →
            breaker_ok threshold (<[i := t']> (rc_tasks r)) (rc_trace r) k b) as Hframe.
  { intros k b. apply (breaker_ok_frame _ _ _ _ t t' None); [done| |done]. by intros now ->. }
  assert (task_ok threshold (length (arcs cb)) (rc_trace r) t') as Hok by (intros k Hk; rewrite Ht' in Hk; injection Hk as <-; by rewrite Hs).
  assert (Forall (task_ok threshold (length (arcs cb)) (rc_trace r)) (rc_tasks r)) as Htasks
    by (eapply Forall_impl; [done|]; intros x Hx; by apply (task_ok_more _ (length (arcs (rc_cb r))) _ None)).
  unfold entry_or_insert in He. destruct (breakers (rc_cb r) !! id) eqn:Hid; injection He as <- <-.
  - split; cbn; [done|done|done| |by apply Forall_insert|done]. intros k b Hk. by apply Hframe, ro_breakers0.
  - split; cbn; [done|done| | |by apply Forall_insert|].
    + intros id1 id2 k. rewrite !lookup_insert. repeat case_decide; intros; simplify_eq; eauto;
        match goal with H : breakers _ !! _ = Some _ |- _ => apply ro_live0 in H; lia end.
    + intros k b [Hk|[Hk Hb]]%lookup_app_Some; [by apply Hframe, ro_breakers0|].
      apply list_lookup_singleton_Some in Hb as [Hk0 <-]. assert (streak k (rc_trace r) = 0) as Hst.
      { apply streak_fresh. eapply Forall_impl; [done|]. cbn. lia. }
      split_and!; cbn; try done; [by left|by rewrite Hst].
    + eapply Forall_impl; [done|]. intros e. cbn. rewrite length_app. cbn. lia.
Qed.

Lemma wrap32_le z : 0 ≤ z → wrap32 z ≤ z.
Proof. intros Hz. unfold wrap32. apply Z.mod_le; lia. Qed.

Lemma wrap32_succ z : wrap32 (wrap32 z + 1) = wrap32 (z + 1).
Proof. unfold wrap32. by rewrite Zplus_mod_idemp_l. Qed.

(** What a task knows of a breaker it reads as open or half-open. *)
Lemma read_tripped threshold tasks trace l b :
  breaker_ok threshold tasks trace l b → CircuitState_from (br_state b) ≠ Closed → tripped threshold l trace.
Proof. intros (Hs & _ & _ & Ht & _) Hne. apply Ht. intros E. by rewrite E in Hne. Qed.

Lemma task_at threshold n trace t l :
  task_breaker t = Some l → (l < n)%nat → (saw_tripped t = true → tripped threshold l trace) → task_ok threshold n trace t.
Proof. intros Ht Hl Hs k Hk. rewrite Ht in Hk. by injection Hk as <-. Qed.

Lemma task_none threshold n trace t : task_breaker t = None → task_ok threshold n trace t.
Proof. intros Ht k Hk. by rewrite Ht in Hk. Qed.

(** A breaker whose state, count and opening time an operation leaves alone. *)
Lemma breaker_ok_inflight threshold tasks trace i t t' l b v :
  tasks !! i = Some t → (∀ now, t ≠ FailureStamp now l) → 0 ≤ v ≤ U32_MAX →
  breaker_ok threshold tasks trace l b → breaker_ok threshold (<[i := t']> tasks) trace l (set_inflight v b).
Proof.
  intros Hi Hne Hv Hb. apply (breaker_ok_frame _ _ _ i t t' None) in Hb as (? & ? & ? & ? & ?); [|done..].
  split_and!; cbn; auto; lia.
Qed.

Lemma reset_ok threshold tasks trace i t t' l b :
  tasks !! i = Some t → (∀ now, t ≠ FailureStamp now l) → breaker_ok threshold tasks trace l b →
  breaker_ok threshold (<[i := t']> tasks) (ResetCount l :: trace) l (set_failures 0 b).
Proof.
  intros Hi Hne (? & ? & ? & Ht & Ho). split_and!; cbn; [done|by rewrite decide_True|lia|lia| |].
  - intros Hs. by apply tripped_more, Ht.
  - intros Hst1 Hop. destruct (Ho Hst1 Hop); [left; by eapply stamping_insert|right]. unfold late_clear in *. set_solver.
Qed.

(** A failure counted: the counter follows the streak, and a count at the threshold is a trip. *)
Lemma count_ok threshold tasks trace i t now l b :
  tasks !! i = Some t → (∀ now, t ≠ FailureStamp now l) → breaker_ok threshold tasks trace l b →
  let failures := consecutive_failures b + 1 in
  let t' := if threshold <=? failures then FailureOpen now l else Done None in
  breaker_ok threshold (<[i := t']> tasks) (Counted l :: trace) l (set_failures (wrap32 failures) b) ∧
  (saw_tripped t' = true → tripped threshold l (Counted l :: trace)).
Proof.
  intros Hi Hne (? & Hf & ? & Ht & Ho). cbn zeta. assert (streak l (Counted l :: trace) = streak l trace + 1) as Hst.
  { cbn. by rewrite decide_True. }
  split; [split_and!|].
  - done.
  - rewrite Hst. cbn [consecutive_failures set_failures]. by rewrite Hf, wrap32_succ.
  - cbn. lia.
  - cbn. lia.
  - intros Hs. by apply tripped_more, Ht.
  - intros Hst1 Hop. destruct (Ho Hst1 Hop); [left; by eapply stamping_insert|right]. unfold late_clear in *. set_solver.
  - destruct (threshold <=? _) eqn:Hle; [|done]. intros _. exists 0%nat. rewrite drop_0, Hst. bool_hyps.
    rewrite Hf in Hle. pose proof (wrap32_le (streak l trace) (streak_nonneg _ _)). lia.
Qed.

Section operations.
  Context (threshold : Z) (r : Race) (i : nat).
  Context (Hr : race_ok threshold r).

Lemma idle_ok t : rc_tasks r !! i = Some t → race_ok threshold (moved r i (rc_cb r) t None).
Proof. intros Hi. unfold moved. rewrite list_insert_id by done. by destruct r. Qed.

(** An operation that writes nothing. *)
Lemma frame_ok t t' :
  rc_tasks r !! i = Some t → (∀ now l, t ≠ FailureStamp now l) →
  task_ok threshold (length (arcs (rc_cb r))) (rc_trace r) t' → race_ok threshold (moved r i (rc_cb r) t' None).
Proof.
  intros Hi Hne Ht'. destruct Hr. split; cbn; [done..| |by apply Forall_insert|done].
  intros l b Hb. apply (breaker_ok_frame _ _ _ i t t' None); [done..|]. by apply ro_breakers0.
Qed.

(** An operation of task [t] that reads its breaker, and one that sets the probes of it. *)
Lemma reads_ok t t' l :
  rc_tasks r !! i = Some t → task_breaker t = Some l → (∀ now l, t ≠ FailureStamp now l) →
  (task_breaker t' = None ∨ task_breaker t' = Some l) →
  (saw_tripped t' = true → saw_tripped t = true ∨ CircuitState_from (br_state (deref (rc_cb r) l)) ≠ Closed) →
  race_ok threshold (moved r i (rc_cb r) t' None).
Proof.
  intros Hi Hl Hne Ht' Hs. apply (frame_ok t); [done..|].
  destruct (Forall_lookup_1 _ _ _ _ (ro_tasks _ _ Hr) Hi l Hl) as [Hlt Hknown].
  destruct Ht' as [?|?]; [by apply task_none|]. apply (task_at _ _ _ _ l); [done..|]. intros [Hw|Hst]%Hs; [auto|].
  destruct (lookup_lt_is_Some_2 _ _ Hlt) as [b Hb].
  rewrite (list_lookup_total_correct _ _ _ Hb : deref _ _ = b) in Hst. eapply read_tripped; [|done]. by apply (ro_breakers _ _ Hr).
Qed.

(** An operation of task [t] that writes its breaker and goes on to [t']. *)
Lemma writes_ok t t' l f ev :
  rc_tasks r !! i = Some t → task_breaker t = Some l → (∀ e, ev = Some e → event_breaker e = l) →
  (task_breaker t' = None ∨ task_breaker t' = Some l) →
  (∀ b, deref (rc_cb r) l = b → breaker_ok threshold (rc_tasks r) (rc_trace r) l b →
     (saw_tripped t = true → tripped threshold l (rc_trace r)) →
     breaker_ok threshold (<[i := t']> (rc_tasks r)) (option_list ev ++ rc_trace r) l (f b) ∧
     (saw_tripped t' = true → tripped threshold l (option_list ev ++ rc_trace r))) →
  race_ok threshold (moved r i (modify (rc_cb r) l f) t' ev).
Proof.
  intros Hi Hl Hev Ht' Hb. destruct (Forall_lookup_1 _ _ _ _ (ro_tasks _ _ Hr) Hi l Hl) as [Hlt Hknown].
  apply (modify_ok _ _ _ t); [done..| |done|]; [intros now k ->; by injection Hl as ->|].
  intros b Hok Hd. destruct (Hb b Hd Hok Hknown) as [? ?]. split; [done|].
  destruct Ht' as [?|?]; [by apply task_none|]. by apply (task_at _ _ _ _ l).
Qed.

Lemma inflight_ok t t' l f :
  rc_tasks r !! i = Some t → task_breaker t = Some l → (∀ now l, t ≠ FailureStamp now l) →
  (task_breaker t' = None ∨ task_breaker t' = Some l) → (saw_tripped t' = true → saw_tripped t = true) →
  (∀ b, ∃ v, 0 ≤ v ≤ U32_MAX ∧ f b = set_inflight v b) →
  race_ok threshold (moved r i (modify (rc_cb r) l f) t' None).
Proof.
  intros Hi Hl Hne Ht' Hs Hf. apply (writes_ok t); [done..|]. intros b _ Hb Hknown.
  destruct (Hf b) as (v & Hv & ->). split; [by eapply breaker_ok_inflight|]. intros Hw. by apply Hknown, Hs.
Qed.

Lemma check_op_ok t cb t' ev :
  rc_tasks r !! i = Some t → check_op (rc_cb r) t = (cb, t', ev) → race_ok threshold (moved r i cb t' ev).
Proof.
  intros Hi. pose proof (idle_ok t Hi) as Hidle.
  destruct t as [now id|now l|now l|l|l|l|l| | | | | | | | | | | | | | | | ]; cbn [check_op]; try (by intros [= <- <- <-]).
  - destruct (_ <? _).
    + intros [= <- <- <-]. apply (frame_ok (CheckEntry now id)); [done..|]. by apply task_none.
    + destruct (entry_or_insert _ _) as [cb1 l] eqn:He. intros [= <- <- <-]. by eapply entry_ok.
  - intros [= <- <- <-]. apply (reads_ok (CheckLoad now l) _ l); [done..| |]; destruct (CircuitState_from _); cbn; auto.
  - intros [= <- <- <-]. apply (reads_ok (CheckOpenedAt now l) _ l); [done..| |];
      destruct (match opened_at _ with Some _ => _ | None => _ end); cbn; auto.
  - intros [= <- <- <-]. apply (inflight_ok (CheckArm l)); cbn; auto. intros b. exists 1. by unfold U32_MAX.
  - intros [= <- <- <-]. apply (writes_ok (CheckHalfOpen l)); cbn; [done..|by right|].
    intros b _ Hb Hk. specialize (Hk eq_refl). split; [|done].
    apply (breaker_ok_frame _ _ _ i (CheckHalfOpen l) (Done (Some (HalfOpen, Some (mkGuard l)))) None) in Hb as (? & ? & ? & ? & ?); [|done..].
    split_and!; cbn; auto; (done || lia).
  - intros [= <- <- <-]. apply (inflight_ok (CheckAdd l)); [done..| | |]; try (destruct (_ <=? _); cbn; auto; done).
    intros b. eexists. split; [apply wrap32_range|done].
  - intros [= <- <- <-]. apply (inflight_ok (CheckSub l)); cbn; auto. intros b. eexists. split; [apply wrap32_range|done].
Qed.

Lemma success_op_ok t cb t' ev :
  rc_tasks r !! i = Some t → success_op (rc_cb r) t = (cb, t', ev) → race_ok threshold (moved r i cb t' ev).
Proof.
  intros Hi. pose proof (idle_ok t Hi) as Hidle.
  destruct t as [ | | | | | | |id|id l|id l|id l|id l|id l|id l| | | | | | | | | ]; cbn [success_op]; try (by intros [= <- <- <-]).
  - intros [= <- <- <-]. apply (frame_ok (SuccessGet id)); [done..|].
    destruct (breakers (rc_cb r) !! id) as [l|] eqn:Hid; [|by apply task_none]. by apply (task_at _ _ _ _ l); [|apply (ro_live _ _ Hr id)|].
  - intros [= <- <- <-]. apply (reads_ok (SuccessLoad id l) _ l); [done..| |]; destruct (CircuitState_from _); cbn; auto.
  - intros [= <- <- <-]. apply (writes_ok (SuccessFailures id l)); cbn; [done|done|by intros e [= <-]|by right|].
    intros b _ Hb _. split; [|done]. by eapply reset_ok.
  - intros [= <- <- <-]. apply (inflight_ok (SuccessInflight id l)); cbn; auto. intros b. exists 0. by unfold U32_MAX.
  - intros [= <- <- <-]. apply (writes_ok (SuccessClose id l)); cbn; [done..|by right|]. intros b _ Hb _. split; [|done].
    apply (breaker_ok_frame _ _ _ i (SuccessClose id l) (SuccessClear id l) None) in Hb as (? & ? & ? & ? & ?); [|done..]. split_and!; cbn; auto; (done || lia).
  - intros [= <- <- <-]. apply (writes_ok (SuccessClear id l)); [done|done|by intros e [= <-]|by left|].
    intros b -> (? & ? & ? & Ht & Ho) _. split; [|done]. split_and!; cbn; [done|done|lia|lia| |].
    + intros Hs. by apply tripped_more, Ht.
    + intros Hs _. right. unfold late_clear. rewrite Hs. left.
  - intros [= <- <- <-]. apply (writes_ok (SuccessReset id l)); cbn; [done|done|by intros e [= <-]|by left|].
    intros b _ Hb _. split; [|done]. by eapply reset_ok.
Qed.

Lemma failure_op_ok t cb t' ev :
  rc_tasks r !! i = Some t → failure_op (rc_cb r) t = (cb, t', ev) → race_ok threshold (moved r i cb t' ev).
Proof.
  intros Hi. pose proof (idle_ok t Hi) as Hidle.
  destruct t as [ | | | | | | | | | | | | | |now id|now l|now l|now l|now l|now l| | | ]; cbn [failure_op]; try (by intros [= <- <- <-]).
  - destruct (_ <? _).
    + intros [= <- <- <-]. apply (frame_ok (FailureEntry now id)); [done..|]. by apply task_none.
    + destruct (entry_or_insert _ _) as [cb1 l] eqn:He. intros [= <- <- <-]. by eapply entry_ok.
  - intros [= <- <- <-]. apply (reads_ok (FailureLoad now l) _ l); [done..| |]; destruct (CircuitState_from _); cbn; auto.
  - intros [= <- <- <-]. rewrite (ro_threshold _ _ Hr). apply (writes_ok (FailureAdd now l)); [done|done|by intros e [= <-]|by destruct (_ <=? _); cbn; auto|].
    intros b -> Hb _. by apply (count_ok _ _ _ _ (FailureAdd now l)).
  - intros [= <- <- <-]. apply (inflight_ok (FailureInflight now l)); cbn; auto. intros b. exists 0. by unfold U32_MAX.
  - intros [= <- <- <-]. apply (writes_ok (FailureOpen now l)); cbn; [done..|by right|].
    intros b _ (? & ? & ? & ? & ?) Hk. specialize (Hk eq_refl). split; [|done]. split_and!; cbn; auto; try lia.
    intros _ _. left. exists now. apply list_elem_of_lookup. exists i. apply list_lookup_insert_eq. by eapply lookup_lt_Some.
  - intros [= <- <- <-]. apply (writes_ok (FailureStamp now l)); cbn; [done..|by left|].
    intros b _ (? & ? & ? & ? & ?) _. split; [|done]. split_and!; cbn; auto; (done || lia).
Qed.

Lemma drop_op_ok t cb t' ev :
  rc_tasks r !! i = Some t → drop_op (rc_cb r) t = (cb, t', ev) → race_ok threshold (moved r i cb t' ev).
Proof.
  intros Hi. pose proof (idle_ok t Hi) as Hidle.
  destruct t as [ | | | | | | | | | | | | | | | | | | | |g|g| ]; cbn [drop_op]; try (by intros [= <- <- <-]).
  - intros [= <- <- <-]. apply (reads_ok (DropLoad g) _ (guard_breaker g)); [done..| |]; destruct (CircuitState_from _); cbn; auto.
  - intros [= <- <- <-]. apply (inflight_ok (DropSub g)); cbn; auto. intros b. eexists. split; [apply wrap32_range|done].
Qed.

Lemma task_op_ok t cb t' ev :
  rc_tasks r !! i = Some t → task_op (rc_cb r) t = (cb, t', ev) → race_ok threshold (moved r i cb t' ev).
Proof.
  intros Hi. destruct t; cbn [task_op]; (by apply check_op_ok) || (by apply success_op_ok) || (by apply failure_op_ok) ||
    (by apply drop_op_ok) || idtac. intros [= <- <- <-]. by apply idle_ok.
Qed.
End operations.

Lemma race_step_ok threshold r s : race_ok threshold r → race_ok threshold (race_step r s).
Proof.
  intros Hr. destruct s as [t|i|i|id]; cbn [race_step].
  - destruct (is_call t) eqn:Hc; [|done]. destruct Hr. split; cbn; [done..| | |done].
    + intros l b Hb. destruct (ro_breakers0 l b Hb) as (? & ? & ? & ? & Ho). split_and!; auto; try lia.
      intros Hst1 Hop. destruct (Ho Hst1 Hop) as [[now Hn]|?]; [left|by right]. exists now. apply elem_of_app. by left.
    + apply Forall_app. split; [done|]. apply Forall_singleton, task_none. by destruct t.
  - destruct (rc_tasks r !! i) as [t|] eqn:Hi; [|done]. destruct (blocked r t); [done|].
    destruct (task_op (rc_cb r) t) as [[cb t'] ev] eqn:Ho. by eapply task_op_ok.
  - destruct (rc_tasks r !! i) as [[]|] eqn:Hi; try done. destruct answer as [[st [g|]]|]; try done.
    apply (reads_ok threshold r i Hr _ _ (guard_breaker g) Hi); cbn; auto.
  - destruct (locked r id); [done|]. destruct Hr. split; cbn; [done| | |done..].
    + intros id' l Hl. cbn in Hl. apply lookup_delete_Some in Hl as [_ Hl]. by apply (ro_live0 id').
    + intros id1 id2 l [_ ?]%lookup_delete_Some [_ ?]%lookup_delete_Some. eauto.
Qed.

Lemma race_reachable_ok config r : race_reachable config r → race_ok (cfg_failure_threshold config) r.
Proof. induction 1; [|by apply race_step_ok]. by split. Qed.

(** Calls that overlap no other are the atomic calls of [Circuit]: each ends within its seven
    operations, with the breakers and the answer that its definition there gives. *)
Theorem calls_alone cb now id g :
  live_refs cb →
  run_alone CALL_OPS cb (CheckEntry now id) = ((check cb now id).1, Done (Some (check cb now id).2)) ∧
  run_alone CALL_OPS cb (SuccessGet id) = (record_success cb id, Done None) ∧
  run_alone CALL_OPS cb (FailureEntry now id) = (record_failure cb now id, Done None) ∧
  run_alone CALL_OPS cb (DropLoad g) = (drop_guard cb g, Done None).
Proof.
  intros Hlive. split_and!; [by apply check_alone|by apply success_alone|by apply failure_alone|apply drop_alone].
Qed.

(** C3. However the atomic operations of concurrent calls interleave: the state byte of a breaker is
    one of the three constants; its counter is the number of failures counted in a row since
    the last reset, modulo its 32 bits; it is open or half-open only if at some moment the
    configured number of failures in a row had been counted, so no race opens the circuit of a
    healthy backend; an open breaker has an opening time, and so recovers, or a failure is
    about to note it, or a success that had found the breaker half-open cleared it after a
    failure had opened it again; distinct ids never share a breaker, and every call and every
    guard refers to an allocated one. *)
Theorem circuit_race_invariant config r l b :
  race_reachable config r → arcs (rc_cb r) !! l = Some b →
  (br_state b = STATE_CLOSED ∨ br_state b = STATE_OPEN ∨ br_state b = STATE_HALF_OPEN) ∧
  consecutive_failures b = wrap32 (streak l (rc_trace r)) ∧
  (br_state b ≠ STATE_CLOSED → tripped (cfg_failure_threshold config) l (rc_trace r)) ∧
  (br_state b = STATE_OPEN → opened_at b = None → stamping l (rc_tasks r) ∨ late_clear l (rc_trace r)) ∧
  (∀ id1 id2 k, breakers (rc_cb r) !! id1 = Some k → breakers (rc_cb r) !! id2 = Some k → id1 = id2) ∧
  (∀ t k, t ∈ rc_tasks r → task_breaker t = Some k → is_Some (arcs (rc_cb r) !! k)).
Proof.
  intros []%race_reachable_ok Hb. destruct (ro_breakers0 l b Hb) as (? & ? & _ & ? & ?). split_and!; [done..|].
  intros t k Ht Hk. rewrite Forall_forall in ro_tasks0. destruct (ro_tasks0 t Ht k Hk) as [? _]. by apply lookup_lt_is_Some.
Qed.

(** A breaker left open without an opening time never leaves that state by a later call. *)
Lemma wedged_stuck cb id l now :
  breakers cb !! id = Some l → br_state (deref cb l) = STATE_OPEN → opened_at (deref cb l) = None →
  check cb now id = (cb, (Open, None)) ∧ record_success cb id = cb ∧ record_failure cb now id = cb.
Proof.
  intros Hid Hs Ho. unfold check, record_success, record_failure. rewrite (entry_known _ _ _ Hid), Hid, Hs, Ho. cbn.
  by destruct (BACKEND_ID_CAP <? slen id).
Qed.

(** ** Races *)

Definition race_config : CircuitBreakerConfig :=
  {| cfg_failure_threshold := 1; cfg_recovery_timeout_secs := 30; cfg_half_open_max_requests := 1 |}.

Definition race_run (config : CircuitBreakerConfig) (steps : list RaceStep) : Race := foldl race_step (Race_new config) steps.

Lemma race_run_reachable config steps : race_reachable config (race_run config steps).
Proof.
  unfold race_run. generalize (race_start config). generalize (Race_new config).
  induction steps as [|s steps IH]; intros r Hr; [done|]. apply IH. by constructor.
Qed.

(** Task [i] does [n] operations. *)
Definition does (n i : nat) : list RaceStep := repeat (Operates i) n.

(** A failure opens the breaker, and a check after the recovery time makes it half-open. *)
Definition half_opened : list RaceStep :=
  [Calls (FailureEntry 0 "a")] ++ does 5 0 ++ [Calls (CheckEntry (from_secs 31) "a")] ++ does 5 1.

(** Two probes end, one with a failure and one with a success, and both have found the breaker
    half-open.  The failure opens it and notes the time between the two last writes of the
    success, which then clears it. *)
Definition wedging : list RaceStep :=
  half_opened ++
  [Calls (FailureEntry (from_secs 32) "a"); Operates 2; Calls (SuccessGet "a")] ++ does 2 3 ++ [Operates 2] ++
  does 3 3 ++ does 3 2 ++ [Operates 3].

Lemma circuit_race_invariant_witness :
  let r := race_run race_config wedging in
  arcs (rc_cb r) = [mkBreaker STATE_OPEN 0 0 None] ∧ (stamping 0 (rc_tasks r) ∨ late_clear 0 (rc_trace r)).
Proof.
  split; [reflexivity|].
  apply (circuit_race_invariant race_config (race_run race_config wedging) 0 (mkBreaker STATE_OPEN 0 0 None)).
  - apply race_run_reachable.
  - reflexivity.
  - reflexivity.
  - reflexivity.
Defined.

Lemma calls_alone_witness :
  run_alone CALL_OPS (rc_cb (race_run race_config half_opened)) (SuccessGet "a") =
    (record_success (rc_cb (race_run race_config half_opened)) "a", Done None).
Proof.
  pose proof (ro_live _ _ (race_reachable_ok _ _ (race_run_reachable race_config half_opened))) as Hlive.
  exact (proj1 (proj2 (calls_alone _ 0 "a" (mkGuard 0) Hlive))).
Defined.

(** The breaker is wedged: every call has returned, it is open without an opening time, and it
    stays so at whatever later time it is checked. *)
Example race_wedges_breaker :
  let cb := rc_cb (race_run race_config wedging) in
  forallb is_done (rc_tasks (race_run race_config wedging)) = true ∧ state cb "a" = Open ∧
  ∀ now, check cb now "a" = (cb, (Open, None)) ∧ record_success cb "a" = cb ∧ record_failure cb now "a" = cb.
Proof. split; [reflexivity|]. split; [reflexivity|]. intros now. by apply (wedged_stuck _ "a" 0). Qed.

(** Two checks that both find the breaker open and its recovery time over both become probes,
    where one is allowed. *)
Example race_exceeds_probes :
  let r := race_run race_config
    ([Calls (FailureEntry 0 "a")] ++ does 5 0 ++
     [Calls (CheckEntry (from_secs 31) "a"); Calls (CheckEntry (from_secs 31) "a")] ++
     does 3 1 ++ does 3 2 ++ does 2 1 ++ does 2 2) in
  half_open_max_requests (rc_cb r) = 1 ∧
  drop 1 (rc_tasks r) = repeat (Done (Some (HalfOpen, Some (mkGuard 0)))) 2 ∧
  half_open_inflight (deref (rc_cb r) 0) = 1.
Proof. vm_compute. done. Qed.
