(* ===== verification/CacheControl.v ===== *)
(** * CacheControl: [src/cache_control.rs]

    The directives of a [Cache-Control] response header.  [parse] is the loop of
    the source; [parse_spec] shows that its accumulator computes what the list of
    comma-separated parts says, directive by directive. *)

From Stdlib Require Import Ascii.
From S2P Require Import Prelude Text Http.
Local Open Scope Z_scope.

Record CacheDirectives := {
  no_store : bool;
  no_transform : bool;
  is_private : bool;
  is_public : bool;
  max_age : option Z;
}.

Definition CacheDirectives_default : CacheDirectives :=
  {| no_store := false; no_transform := false; is_private := false;
     is_public := false; max_age := None |}.

Definition strip_prefix_ci (s prefix : string) : option string :=
  '(head, rest) ← split_at_checked (String.length prefix) s;
  if eq_ignore_ascii_case head prefix then Some rest else None.

(** The body of the [for part in header.split(',')] loop. *)
Definition parse_part (directives : CacheDirectives) (part : string) : CacheDirectives :=
  let trimmed := trim part in
  let '{| no_store := ns; no_transform := nt; is_private := pr;
          is_public := pu; max_age := ma |} := directives in
  if eq_ignore_ascii_case trimmed "no-store" then
    {| no_store := true; no_transform := nt; is_private := pr; is_public := pu; max_age := ma |}
  else if eq_ignore_ascii_case trimmed "no-transform" then
    {| no_store := ns; no_transform := true; is_private := pr; is_public := pu; max_age := ma |}
  else if eq_ignore_ascii_case trimmed "private" then
    {| no_store := ns; no_transform := nt; is_private := true; is_public := pu; max_age := ma |}
  else if eq_ignore_ascii_case trimmed "public" then
    {| no_store := ns; no_transform := nt; is_private := pr; is_public := true; max_age := ma |}
  else match strip_prefix_ci trimmed "max-age=" with
       | Some value =>
           {| no_store := ns; no_transform := nt; is_private := pr; is_public := pu;
              max_age := parse_u64 (trim value) |}
       | None => directives
       end.

Definition parse (header : string) : CacheDirectives :=
  foldl parse_part CacheDirectives_default (split "," header).

Definition from_response `{Http} {B} (response : Response B) : CacheDirectives :=
  match hm_get (res_headers response) "cache-control" with
  | Some v =>
      match to_str v with
      | Some s => parse s
      | None => CacheDirectives_default
      end
  | None => CacheDirectives_default
  end.

(** ** The declarative reading of a header *)

(** [part] is the directive [name], up to case and surrounding white space. *)
Definition names (name part : string) : bool :=
  eq_ignore_ascii_case (trim part) name.

(** The text after [max-age=] when [part] is such a directive. *)
Definition max_age_value (part : string) : option string :=
  strip_prefix_ci (trim part) "max-age=".

(** The directives a list of parts asks for: a flag is set when some part names
    it, and the last [max-age] wins, an unreadable value counting as absent. *)
Definition directives_of (parts : list string) : CacheDirectives :=
  {| no_store := existsb (names "no-store") parts;
     no_transform := existsb (names "no-transform") parts;
     is_private := existsb (names "private") parts;
     is_public := existsb (names "public") parts;
     max_age := last (omap max_age_value parts) ≫= λ v, parse_u64 (trim v) |}.

(** A part that is one of the plain words is neither another one nor a
    [max-age]. *)
Lemma names_exclusive w w' part :
  to_ascii_lowercase w ≠ to_ascii_lowercase w' → names w part = true → names w' part = false.
Proof.
  unfold names, eq_ignore_ascii_case. rewrite String.eqb_eq, String.eqb_neq. congruence.
Qed.

Lemma names_max_age w part :
  starts_with (to_ascii_lowercase w) "max-age=" = false →
  names w part = true → max_age_value part = None.
Proof.
  unfold names, max_age_value, strip_prefix_ci. intros Hw Hn.
  apply eq_ignore_ascii_case_spec in Hn.
  destruct (split_at_checked _ _) as [[h r]|] eqn:Hs; [simpl|done].
  destruct (eq_ignore_ascii_case h _) eqn:Hh; [|done].
  apply eq_ignore_ascii_case_spec in Hh.
  apply split_at_checked_app in Hs. rewrite Hs, to_ascii_lowercase_app, Hh in Hn.
  by rewrite <-Hn in Hw.
Qed.

Lemma parse_part_snoc parts part :
  parse_part (directives_of parts) part = directives_of (parts ++ [part]).
Proof.
  unfold directives_of, parse_part. rewrite !existsb_app, omap_app. cbn [existsb omap list_omap].
  change (eq_ignore_ascii_case (trim part)) with (λ w, names w part). cbv beta.
  change (strip_prefix_ci (trim part) "max-age=") with (max_age_value part).
  destruct (names "no-store" part) eqn:H1; [|destruct (names "no-transform" part) eqn:H2;
    [|destruct (names "private" part) eqn:H3; [|destruct (names "public" part) eqn:H4]]];
  repeat match goal with
  | H : names ?w part = true |- context [max_age_value part] =>
      rewrite (names_max_age w part eq_refl H)
  | H : names ?w part = true |- context [names ?w' part] =>
      rewrite (names_exclusive w w' part) by (done || exact H)
  end; rewrite ?orb_false_r, ?orb_true_r, ?app_nil_r; try done.
  destruct (max_age_value part); [by rewrite last_snoc|by rewrite app_nil_r].
Qed.

(** The parser computes exactly the directives its header asks for:
    each flag is set when one of the comma-separated parts names it, whatever the
    case and the surrounding white space, and [max_age] is the value of the last
    [max-age] part. *)
Theorem parse_spec (header : string) :
  parse header = directives_of (split "," header).
Proof.
  unfold parse. assert (∀ parts acc,
    foldl parse_part (directives_of acc) parts = directives_of (acc ++ parts)) as Hgen.
  { intros parts. induction parts as [|p parts IH]; intros acc; [by rewrite app_nil_r|].
    cbn [foldl]. by rewrite parse_part_snoc, IH, <-app_assoc. }
  apply (Hgen _ []).
Qed.

(** What the directives of a response say about its first [Cache-Control] line; the others are
    not read. *)
Lemma from_response_public `{Http} {B} (response : Response B) :
  is_public (from_response response) = true →
  ∃ v line, head (get_all (res_headers response) "cache-control") = Some v ∧ to_str v = Some line ∧
    from_response response = directives_of (split "," line).
Proof.
  unfold from_response, hm_get. destruct (head _) as [v|]; [|done]. destruct (to_str v) as [line|] eqn:E; [|done].
  intros _. exists v, line. by rewrite parse_spec.
Qed.
