(* ===== verification/Cache.v ===== *)
(** * Cache: [src/cache.rs]

    The response cache: its collision-free keys, the headers it refuses to store,
    and the operations on the store, an [LruCache] (file Lru).  A body is its bytes,
    time is an argument. *)

From Stdlib Require Import Ascii.
From S2P Require Import Prelude Text Http Lru CacheControl.
Local Open Scope Z_scope.

Definition UNCACHEABLE_HEADERS : list string :=
  ["set-cookie"; "set-cookie2"; "connection"; "keep-alive"; "proxy-authenticate";
   "proxy-authorization"; "te"; "trailer"; "transfer-encoding"; "upgrade"].

Definition sanitized_for_cache `{Http} (headers : HeaderMap) : HeaderMap :=
  remove_all UNCACHEABLE_HEADERS headers.

Record CachedResponse `{Http} := {
  cr_status : Z;
  cr_headers : HeaderMap;
  cr_body : string;
  cr_inserted_at : Z;
  cr_ttl : Z;
}.

Definition is_expired `{Http} (now : Z) (e : CachedResponse) : bool :=
  cr_ttl e <? elapsed now (cr_inserted_at e).

Record CacheKeyRef := {
  key_method : string;
  key_path : string;
  key_identity : string;
}.

Definition CACHE_KEY_STACK_CAP : Z := 512.

(** [fmt::Write::write_str] into a [String] ([None]) or into an [ArrayString] of
    the given capacity, which refuses a piece that does not fit. *)
Definition write_str (cap : option Z) (buf s : string) : option string :=
  match cap with
  | None => Some (buf +:+ s)
  | Some cap => if cap <? slen buf + slen s then None else Some (buf +:+ s)
  end.

(** [write!(buf, "{}:{}{}:{}{}:{}", ...)]: the pieces one after the other. *)
Definition write_cache_key (cap : option Z) (buf method path identity : string) : option string :=
  foldl (λ acc s, acc ≫= λ b, write_str cap b s) (Some buf)
    [pretty (String.length method); ":"; method;
     pretty (String.length path); ":"; path;
     pretty (String.length identity); ":"; identity].

(** [impl From<CacheKeyRef> for CacheKey]: writing into a [String] never fails, and
    the result is ignored. *)
Definition CacheKey_from (key : CacheKeyRef) : string :=
  default "" (write_cache_key None "" (key_method key) (key_path key) (key_identity key)).

Inductive KeyBuf :=
  | Stack (s : string)
  | Heap (s : string).

Definition KeyBuf_deref (b : KeyBuf) : string :=
  match b with Stack s => s | Heap s => s end.

Definition build_lookup_key (method path identity : string) : KeyBuf :=
  match write_cache_key (Some CACHE_KEY_STACK_CAP) "" method path identity with
  | Some stack => Stack stack
  | None => Heap (default "" (write_cache_key None "" method path identity))
  end.

Record CacheConfig := {
  cache_enabled : bool;
  max_entries : Z;
  max_entry_bytes : Z;
  default_ttl_secs : Z;
}.

Section cache.
  Context `{HttpLaws} `{LruLaws CachedResponse}.

Record ResponseCache := {
  store : LruCache CachedResponse;
  config : CacheConfig;
}.

Definition ResponseCache_new (config : CacheConfig) : ResponseCache :=
  {| store := lru_new (max_entries config); config := config |}.

Definition with_store (c : ResponseCache) (s : LruCache CachedResponse) : ResponseCache :=
  {| store := s; config := config c |}.

Definition cache_get (now : Z) (key : CacheKeyRef) (c : ResponseCache)
    : option (Response string) * ResponseCache :=
  let lookup := KeyBuf_deref (build_lookup_key (key_method key) (key_path key) (key_identity key)) in
  let '(found, s) := lru_get lookup (store c) in
  match found with
  | None => (None, with_store c s)
  | Some entry =>
      if is_expired now entry then (None, with_store c (lru_pop lookup s))
      else (Some (Build_Response (cr_status entry) (cr_headers entry) (cr_body entry)),
            with_store c s)
  end.

Definition cache_put (now : Z) (key : CacheKeyRef) (status : Z) (headers : HeaderMap)
    (body : string) (directives : CacheDirectives) (c : ResponseCache) : bool * ResponseCache :=
  if no_store directives || is_private directives then (false, c)
  else if max_entry_bytes (config c) <? slen body then (false, c)
  else
    let ttl_secs := default (default_ttl_secs (config c)) (max_age directives) in
    if ttl_secs =? 0 then (false, c)
    else
      let entry := {| cr_status := status; cr_headers := sanitized_for_cache headers;
                      cr_body := body; cr_inserted_at := now;
                      cr_ttl := from_secs ttl_secs |} in
      (true, with_store c (lru_put (CacheKey_from key) entry (store c))).

Definition cache_clear (c : ResponseCache) : ResponseCache :=
  with_store c (lru_clear (store c)).

Definition cache_len (c : ResponseCache) : Z := lru_len (store c).

Definition cache_is_empty (c : ResponseCache) : bool := cache_len c =? 0.

(** ** Keys *)

Lemma CacheKey_from_eq key :
  CacheKey_from key =
  length_prefixed (key_method key) +:+ length_prefixed (key_path key) +:+
  length_prefixed (key_identity key) +:+ "".
Proof.
  unfold CacheKey_from, write_cache_key, length_prefixed. cbn.
  by rewrite !string_app_assoc, string_app_nil_r.
Qed.

Lemma write_str_some cap buf s b : write_str cap buf s = Some b → b = buf +:+ s.
Proof. unfold write_str. destruct cap; [case_match|]; naive_solver. Qed.

(** A lookup key, on the stack or on the heap, is the owned key. *)
Lemma build_lookup_key_eq key :
  KeyBuf_deref (build_lookup_key (key_method key) (key_path key) (key_identity key)) =
  CacheKey_from key.
Proof.
  unfold build_lookup_key. destruct (write_cache_key (Some _) _ _ _ _) as [b|] eqn:Hw; [|done].
  unfold CacheKey_from, KeyBuf_deref. unfold write_cache_key in *. cbn [foldl] in *.
  repeat match goal with
  | H : (_ ≫= λ b, write_str ?c b ?s) = Some _ |- _ =>
      apply bind_Some in H as (? & H & ?%write_str_some)
  end. simplify_eq. done.
Qed.

Lemma CacheKey_from_inj k1 k2 : CacheKey_from k1 = CacheKey_from k2 → k1 = k2.
Proof.
  rewrite !CacheKey_from_eq. intros Heq.
  apply length_prefixed_inj in Heq as [Hm Heq].
  apply length_prefixed_inj in Heq as [Hp Heq].
  apply length_prefixed_inj in Heq as [Hi _].
  destruct k1, k2; simpl in *. by subst.
Qed.

(** ** What a cache holds

    The log of a run is the sequence of [put]s since the last [clear], the latest
    first. *)

Record put_record := {
  pr_now : Z;
  pr_key : CacheKeyRef;
  pr_status : Z;
  pr_headers : HeaderMap;
  pr_body : string;
  pr_directives : CacheDirectives;
}.

Definition run_put (r : put_record) (c : ResponseCache) : bool * ResponseCache :=
  cache_put (pr_now r) (pr_key r) (pr_status r) (pr_headers r) (pr_body r) (pr_directives r) c.

(** The responses the cache may store: neither [no-store] nor [private], a body
    within the bound, a positive lifetime. *)
Definition lifetime (cfg : CacheConfig) (d : CacheDirectives) : Z :=
  default (default_ttl_secs cfg) (max_age d).

Definition storable (cfg : CacheConfig) (r : put_record) : bool :=
  negb (no_store (pr_directives r)) && negb (is_private (pr_directives r)) &&
  (slen (pr_body r) <=? max_entry_bytes cfg) &&
  negb (lifetime cfg (pr_directives r) =? 0).

Definition entry_of (cfg : CacheConfig) (r : put_record) : CachedResponse :=
  {| cr_status := pr_status r; cr_headers := sanitized_for_cache (pr_headers r);
     cr_body := pr_body r; cr_inserted_at := pr_now r;
     cr_ttl := from_secs (lifetime cfg (pr_directives r)) |}.

Inductive reachable (cfg : CacheConfig) : list put_record → ResponseCache → Prop :=
  | reach_new : reachable cfg [] (ResponseCache_new cfg)
  | reach_get log c now key :
      reachable cfg log c → reachable cfg log (cache_get now key c).2
  | reach_put log c r :
      reachable cfg log c → reachable cfg (r :: log) (run_put r c).2
  | reach_clear log c :
      reachable cfg log c → reachable cfg [] (cache_clear c).

(** [r] is the last storable [put] of the log under its key. *)
Definition latest (cfg : CacheConfig) (log : list put_record) (r : put_record) : Prop :=
  storable cfg r = true ∧
  ∃ newer older, log = newer ++ r :: older ∧
    ∀ r', r' ∈ newer → storable cfg r' = true → pr_key r' ≠ pr_key r.

Definition faithful (cfg : CacheConfig) (log : list put_record) (c : ResponseCache) : Prop :=
  config c = cfg ∧
  ∀ k e, lru_peek k (store c) = Some e →
    ∃ r, latest cfg log r ∧ CacheKey_from (pr_key r) = k ∧ e = entry_of cfg r.

Lemma run_put_spec r c :
  run_put r c =
  if storable (config c) r
  then (true, with_store c (lru_put (CacheKey_from (pr_key r)) (entry_of (config c) r) (store c)))
  else (false, c).
Proof.
  unfold run_put, cache_put, storable, entry_of, lifetime.
  destruct (no_store _), (is_private _); simpl; try done.
  destruct (max_entry_bytes _ <? _) eqn:Hb, (_ <=? max_entry_bytes _) eqn:Hb'; simpl; try lia; try done.
  by destruct (_ =? 0).
Qed.

Lemma latest_skip cfg log r r' :
  latest cfg log r → (storable cfg r' = true → pr_key r' ≠ pr_key r) → latest cfg (r' :: log) r.
Proof.
  intros (Hs & newer & older & -> & Hnew) Hne. split; [done|].
  exists (r' :: newer), older. split; [done|].
  intros x [->|Hx]%elem_of_cons; [done|by apply Hnew].
Qed.

Lemma faithful_put cfg log c r :
  faithful cfg log c → faithful cfg (r :: log) (run_put r c).2.
Proof.
  intros [Hcfg Hf]. rewrite run_put_spec, Hcfg. destruct (storable cfg r) eqn:Hs; simpl.
  - split; [done|]. intros k e. cbn [store with_store]. intros Hp.
    destruct (decide (CacheKey_from (pr_key r) = k)) as [<-|Hk].
    + rewrite peek_put in Hp. simplify_eq. exists r. split; [|done].
      split; [done|]. exists [], log. split; [done|]. set_solver.
    + apply peek_put_ne in Hp; [|done]. destruct (Hf k e Hp) as (r0 & Hl & <- & ->).
      exists r0. split; [|done]. apply latest_skip; [done|]. congruence.
  - split; [done|]. intros k e Hp. destruct (Hf k e Hp) as (r0 & Hl & <- & ->).
    exists r0. split; [|done]. apply latest_skip; [done|]. congruence.
Qed.

Lemma peek_after_get now key c k e :
  lru_peek k (store (cache_get now key c).2) = Some e → lru_peek k (store c) = Some e.
Proof.
  unfold cache_get. set (lookup := KeyBuf_deref _).
  pose proof (peek_get lookup k (store c)) as Hp.
  destruct (lru_get lookup (store c)) as [[entry|] s]; simpl in *; [|by rewrite Hp].
  destruct (is_expired now entry); simpl; [|by rewrite Hp].
  destruct (decide (lookup = k)) as [->|Hne]; [by rewrite peek_pop|].
  by rewrite peek_pop_ne, Hp.
Qed.

Lemma config_cache_get now key c : config (cache_get now key c).2 = config c.
Proof. unfold cache_get. by repeat case_match. Qed.

Lemma reachable_faithful cfg log c : reachable cfg log c → faithful cfg log c.
Proof.
  induction 1 as [|log c now key _ [Hcfg IH]|log c r _ IH|log c _ [Hcfg _]].
  - split; [done|]. intros k e. simpl. by rewrite peek_new.
  - split; [by rewrite config_cache_get|]. intros k e Hp%peek_after_get. by apply IH.
  - by apply faithful_put.
  - split; [done|]. intros k e. simpl. by rewrite peek_clear.
Qed.

Lemma cache_get_some now key c resp :
  (cache_get now key c).1 = Some resp →
  ∃ e, lru_peek (CacheKey_from key) (store c) = Some e ∧ is_expired now e = false ∧
       resp = Build_Response (cr_status e) (cr_headers e) (cr_body e).
Proof.
  unfold cache_get. rewrite build_lookup_key_eq.
  pose proof (get_peek (CacheKey_from key) (store c)) as Hp.
  destruct (lru_get _ _) as [[e|] s]; simpl in *; [|done].
  destruct (is_expired now e) eqn:He; simpl; [done|]. intros; simplify_eq. eauto.
Qed.

Lemma sanitized_absent h n :
  n ∈ UNCACHEABLE_HEADERS → get_all (sanitized_for_cache h) n = [].
Proof. intros Hn. unfold sanitized_for_cache. by rewrite get_all_remove_all, decide_True. Qed.

(** C30. Cache isolation: what a lookup returns was stored by a [put] under
    the very same method, path and client identity, by the last storable one, after
    the last flush; it was neither [no-store] nor [private], its body is within
    the configured bound, it is no older than the lifetime its directives gave it,
    and it carries no cookie or hop-by-hop header. *)
Theorem cache_get_sound cfg log c now key resp :
  reachable cfg log c →
  (cache_get now key c).1 = Some resp →
  ∃ r, latest cfg log r ∧ pr_key r = key ∧
    no_store (pr_directives r) = false ∧ is_private (pr_directives r) = false ∧
    slen (res_body resp) ≤ max_entry_bytes cfg ∧
    elapsed now (pr_now r) ≤ from_secs (lifetime cfg (pr_directives r)) ∧
    res_status resp = pr_status r ∧ res_body resp = pr_body r ∧
    (∀ n, get_all (res_headers resp) n =
          if decide (n ∈ UNCACHEABLE_HEADERS) then [] else get_all (pr_headers r) n).
Proof.
  intros [_ Hf]%reachable_faithful Hget.
  destruct (cache_get_some _ _ _ _ Hget) as (e & Hp & He & ->).
  destruct (Hf _ _ Hp) as (r & Hl & Hk%CacheKey_from_inj & ->).
  exists r. destruct Hl as [Hs Hl]. pose proof Hs as Hst. unfold storable in Hst.
  bool_hyps. unfold is_expired in He. simpl in *.
  split; [by split|]. split_and!; try done; try lia.
  intros n. apply get_all_remove_all.
Qed.

(** A stored response is served: after a storable [put], a lookup
    under the same key within the lifetime hits, with the stored status and body. *)
Theorem cache_put_get cfg log c r now :
  reachable cfg log c → storable cfg r = true →
  elapsed now (pr_now r) ≤ from_secs (lifetime cfg (pr_directives r)) →
  (run_put r c).1 = true ∧
  (cache_get now (pr_key r) (run_put r c).2).1 =
    Some (Build_Response (pr_status r) (sanitized_for_cache (pr_headers r)) (pr_body r)).
Proof.
  intros [Hcfg _]%reachable_faithful Hs Ht. rewrite run_put_spec, Hcfg, Hs. split; [done|].
  unfold cache_get. rewrite build_lookup_key_eq. cbn [store with_store snd].
  set (s := lru_put _ _ _). pose proof (get_peek (CacheKey_from (pr_key r)) s) as Hg.
  unfold s in Hg at 2. rewrite peek_put in Hg.
  destruct (lru_get _ s) as [found s']. simpl in Hg. subst found.
  replace (is_expired now (entry_of cfg r)) with false; [done|].
  unfold is_expired. simpl. symmetry. apply Z.ltb_ge. lia.
Qed.

End cache.

(** C39. The cache key determines the method, the path and the client
    identity, and a lookup key built on the stack or on the heap is the stored key:
    two different triples never share an entry. *)
Theorem cache_key_injective (k1 k2 : CacheKeyRef) :
  KeyBuf_deref (build_lookup_key (key_method k1) (key_path k1) (key_identity k1)) =
    CacheKey_from k2 ↔ k1 = k2.
Proof.
  rewrite build_lookup_key_eq. split; [apply CacheKey_from_inj|by intros ->].
Qed.

(** ** A run of the cache *)

Definition demo_cfg : CacheConfig :=
  {| cache_enabled := true; max_entries := 2; max_entry_bytes := 16; default_ttl_secs := 60 |}.

Definition demo_key (identity : string) : CacheKeyRef :=
  {| key_method := "GET"; key_path := "/a"; key_identity := identity |}.

Definition demo_put (identity : string) : put_record :=
  {| pr_now := 0; pr_key := demo_key identity; pr_status := 200;
     pr_headers := [("set-cookie", "sid=1"); ("etag", "x")]; pr_body := "hello";
     pr_directives := CacheControl.parse "Public, max-age=5" |}.

Definition demo_cache : ResponseCache :=
  (run_put (demo_put "aa") (ResponseCache_new demo_cfg)).2.

Lemma cache_get_sound_witness :
  ∃ resp, (cache_get 1 (demo_key "aa") demo_cache).1 = Some resp ∧
  ∃ r, latest demo_cfg [demo_put "aa"] r ∧ pr_key r = demo_key "aa" ∧
    no_store (pr_directives r) = false ∧ is_private (pr_directives r) = false ∧
    slen (res_body resp) ≤ max_entry_bytes demo_cfg ∧
    elapsed 1 (pr_now r) ≤ from_secs (lifetime demo_cfg (pr_directives r)) ∧
    res_status resp = pr_status r ∧ res_body resp = pr_body r ∧
    (∀ n, get_all (res_headers resp) n =
          if decide (n ∈ UNCACHEABLE_HEADERS) then [] else get_all (pr_headers r) n).
Proof.
  eexists. split; [vm_compute; reflexivity|].
  apply (cache_get_sound demo_cfg [demo_put "aa"] demo_cache 1 (demo_key "aa")).
  - apply reach_put, reach_new.
  - vm_compute. reflexivity.
Defined.

Lemma cache_put_get_witness :
  (cache_get (from_secs 5) (demo_key "bb") (run_put (demo_put "bb") demo_cache).2).1 =
  Some (Build_Response 200 [("etag", "x")] "hello").
Proof.
  apply (cache_put_get demo_cfg [demo_put "aa"] demo_cache (demo_put "bb") (from_secs 5)).
  - apply reach_put, reach_new.
  - vm_compute. reflexivity.
  - vm_compute. discriminate.
Defined.
