(* ===== verification/Acl.v ===== *)
(** * Acl: [src/acl.rs] and [src/ratelimit.rs]

    The two per-address gates of a connection.  [acl_check_spec] states what the
    allow and deny lists mean on the one 128-bit address space in which an IPv4
    host and its IPv4-mapped IPv6 form are the same host; the [governor] limiter is
    the class [Governor]. *)

From S2P Require Import Prelude Error Net.
Local Open Scope Z_scope.

Definition IPV4_MAPPED_PREFIX_BITS : Z := 96.

Section acl.
  Context `{IpNetLaws}.

Definition canonicalize_net (net : IpNet) : IpNet :=
  match net with
  | Net4 _ => net
  | Net6 v6 =>
      let prefix := v6_prefix_len v6 in
      if prefix <? IPV4_MAPPED_PREFIX_BITS then net
      else match to_ipv4_mapped (v6_addr v6) with
           | None => net
           | Some addr =>
               match v4_new addr (prefix - IPV4_MAPPED_PREFIX_BITS) with
               | Some v4 => Net4 v4
               | None => net
               end
           end
  end.

Record AccessControl := {
  allow : list IpNet;
  deny : list IpNet;
}.

Definition AccessControl_new (allow deny : list IpNet) : AccessControl :=
  {| allow := map canonicalize_net allow; deny := map canonicalize_net deny |}.

Definition is_allowed (acl : AccessControl) (ip : IpAddr) : bool :=
  existsb (λ net, net_contains net ip) (allow acl).

Definition is_denied (acl : AccessControl) (ip : IpAddr) : bool :=
  existsb (λ net, net_contains net ip) (deny acl).

Definition acl_check (acl : AccessControl) (ip : IpAddr) : Result unit :=
  let ip := to_canonical ip in
  if is_denied acl ip then Err AccessDenied
  else if negb (bool_decide (allow acl = [])) && negb (is_allowed acl ip) then Err AccessDenied
  else Ok ().

(** ** The meaning of a rule *)

(** The host an address denotes, as a 128-bit number. *)
Definition host (ip : IpAddr) : Z :=
  match ip with V4 a => mapped a | V6 a => a end.

Definition is_v4_host (ip : IpAddr) : bool := Z.shiftr (host ip) 32 =? 0xffff.

(** A rule as a network of hosts: its 128-bit address and prefix length. *)
Definition net_host (net : IpNet) : Z :=
  match net with Net4 n => mapped (v4_addr n) | Net6 n => v6_addr n end.

Definition net_bits (net : IpNet) : Z :=
  match net with Net4 n => 96 + v4_prefix_len n | Net6 n => v6_prefix_len n end.

(** A rule lies in the IPv4 block [::ffff:0:0/96] or is about IPv6 hosts only. *)
Definition is_v4_rule (net : IpNet) : bool :=
  (96 <=? net_bits net) && (Z.shiftr (net_host net) 32 =? 0xffff).

Definition covers (net : IpNet) (ip : IpAddr) : bool :=
  Bool.eqb (is_v4_rule net) (is_v4_host ip) &&
  agree 128 (net_bits net) (net_host net) (host ip).

Lemma shiftr_mapped a : 0 ≤ a < 2 ^ 32 → Z.shiftr (mapped a) 32 = 0xffff.
Proof.
  intros Ha. unfold mapped. rewrite Z.shiftr_div_pow2 by lia.
  rewrite Z.div_add_l, Z.div_small by lia. lia.
Qed.

(** The host is the canonical address: it is an IPv4 one exactly when [to_canonical] says so. *)
Lemma to_canonical_host ip : ip_wf ip →
  if is_v4_host ip
  then ∃ a, to_canonical ip = V4 a ∧ host ip = mapped a ∧ 0 ≤ a < 2 ^ 32
  else ∃ a, to_canonical ip = V6 a ∧ host ip = a.
Proof.
  destruct ip as [a|a]; cbn [ip_wf]; intros Ha; unfold is_v4_host; cbn [host].
  - rewrite shiftr_mapped by done. rewrite Z.eqb_refl. by exists a.
  - unfold to_canonical. destruct (to_ipv4_mapped a) as [a4|] eqn:Hm.
    + apply to_ipv4_mapped_spec in Hm as [-> Ha4]. rewrite shiftr_mapped by done.
      rewrite Z.eqb_refl. by exists a4.
    + unfold to_ipv4_mapped in Hm. destruct (Z.shiftr a 32 =? 0xffff); [done|]. by exists a.
Qed.

(** Likewise for the rule: an IPv4 one becomes an [Ipv4Net]. *)
Lemma canonicalize_net_host net :
  if is_v4_rule net
  then ∃ n, canonicalize_net net = Net4 n ∧ net_host net = mapped (v4_addr n) ∧
            net_bits net = 96 + v4_prefix_len n
  else ∃ n, canonicalize_net net = Net6 n ∧ net = Net6 n.
Proof.
  destruct net as [n|n]; unfold is_v4_rule, canonicalize_net; cbn [net_host net_bits].
  - destruct (v4_wf n) as [Ha Hp]. rewrite shiftr_mapped by done. rewrite Z.eqb_refl.
    replace (96 <=? _) with true by lia. by exists n.
  - destruct (v6_wf n) as [Ha Hp]. unfold IPV4_MAPPED_PREFIX_BITS.
    destruct (v6_prefix_len n <? 96) eqn:H96; destruct (96 <=? v6_prefix_len n) eqn:H96'; try lia.
    { by exists n. }
    cbn [andb]. destruct (to_ipv4_mapped (v6_addr n)) as [a|] eqn:Hm.
    + apply to_ipv4_mapped_spec in Hm as [Hm Ha4]. rewrite Hm, shiftr_mapped, Z.eqb_refl by done.
      destruct (v4_new_ok a (v6_prefix_len n - 96)) as (n4 & -> & <- & Hp4); [done|lia|].
      exists n4. split; [done|]. split; [done|]. lia.
    + unfold to_ipv4_mapped in Hm. destruct (Z.shiftr (v6_addr n) 32 =? 0xffff); [done|]. by exists n.
Qed.

Lemma canonicalize_net_covers net ip : ip_wf ip →
  net_contains (canonicalize_net net) (to_canonical ip) = covers net ip.
Proof.
  intros Hip. unfold covers. pose proof (to_canonical_host ip Hip) as Hc.
  pose proof (canonicalize_net_host net) as Hn.
  destruct (is_v4_rule net) eqn:Hr, (is_v4_host ip) eqn:Hh; cbn [Bool.eqb andb].
  - destruct Hc as (a & -> & -> & Ha), Hn as (n & -> & -> & ->).
    cbn [net_contains]. rewrite v4_contains_spec, agree_mapped; [done|]. apply v4_wf.
  - by destruct Hc as (a & -> & _), Hn as (n & -> & _).
  - by destruct Hc as (a & -> & _), Hn as (n & -> & _).
  - destruct Hc as (a & -> & ->), Hn as (n & -> & ->). cbn [net_contains].
    by rewrite v6_contains_spec.
Qed.

Lemma existsb_covers nets ip : ip_wf ip →
  existsb (λ net, net_contains net (to_canonical ip)) (map canonicalize_net nets) =
  existsb (λ net, covers net ip) nets.
Proof.
  intros Hip. induction nets as [|net nets IH]; [done|]. cbn [map existsb].
  by rewrite IH, canonicalize_net_covers.
Qed.

(** C40. A client passes the access list exactly when no deny rule covers its host and, if there
    are allow rules, one of them does.  Rules and addresses are read as 128-bit hosts, so an
    IPv4 rule also covers the IPv4-mapped form of a peer, a rule in mapped notation also covers
    the plain IPv4 peer, a rule about IPv6 hosts, [::/0] included, covers no IPv4 host in
    either form, and a deny rule wins over an allow rule. *)
Theorem acl_check_spec allows denies ip :
  ip_wf ip →
  acl_check (AccessControl_new allows denies) ip =
  if existsb (λ net, covers net ip) denies then Err AccessDenied
  else if bool_decide (allows = []) || existsb (λ net, covers net ip) allows then Ok ()
  else Err AccessDenied.
Proof.
  intros Hip. unfold acl_check, is_denied, is_allowed, AccessControl_new. cbn [allow deny].
  rewrite !existsb_covers by done. destruct (existsb _ denies); [done|].
  replace (bool_decide (map canonicalize_net allows = [])) with (bool_decide (allows = []))
    by (destruct allows; [done|]; rewrite !bool_decide_eq_false_2; done).
  by destruct (bool_decide (allows = [])), (existsb _ allows).
Qed.
End acl.

(** Witness: a deny rule written as an IPv4 network stops the mapped form of its
    hosts, and lets another host of the allow list through. *)
Definition net4 (a p : Z) : list IpNet :=
  match v4_new a p with Some n => [Net4 n] | None => [] end.

Lemma acl_check_spec_witness :
  acl_check (AccessControl_new (net4 0x0a000000 8) (net4 0x0a010000 16)) (V6 (mapped 0x0a010203))
    = Err AccessDenied ∧
  acl_check (AccessControl_new (net4 0x0a000000 8) (net4 0x0a010000 16)) (V6 (mapped 0x0a020304))
    = Ok ().
Proof.
  split; (rewrite acl_check_spec; [vm_compute; reflexivity|split; vm_compute; congruence]).
Defined.

(** ** The rate limit *)

(** The [governor] keyed limiter: [check_key] answers whether the key's bucket has
    a cell left and takes it; the quota is fixed at construction. *)
Class Governor := {
  KeyedLimiter : Type;
  limiter_per_second : Z → KeyedLimiter;
  check_key : Z → IpAddr → KeyedLimiter → bool * KeyedLimiter;
  limiter_retain_recent : Z → KeyedLimiter → KeyedLimiter;
  limiter_len : KeyedLimiter → Z;
}.

Section ratelimit.
  Context `{Governor}.

Definition RateLimit_new (requests_per_second : Z) : Result KeyedLimiter :=
  if requests_per_second =? 0 then Err (Config "rate limit must be > 0")
  else Ok (limiter_per_second requests_per_second).

Definition rate_check (now : Z) (key : IpAddr) (l : KeyedLimiter) : Result unit * KeyedLimiter :=
  let '(ok, l) := check_key now (to_canonical key) l in
  (if ok then Ok () else Err RateLimited, l).

Definition retain_recent (now : Z) (l : KeyedLimiter) : KeyedLimiter :=
  limiter_retain_recent now l.

Definition rate_len (l : KeyedLimiter) : Z := limiter_len l.

Definition rate_is_empty (l : KeyedLimiter) : bool := limiter_len l =? 0.
End ratelimit.

(** A limiter that always has a cell. *)
#[export] Instance open_governor : Governor := {|
  KeyedLimiter := Z;
  limiter_per_second n := n;
  check_key _ _ l := (true, l);
  limiter_retain_recent _ l := l;
  limiter_len _ := 0;
|}.
