(* ===== verification/Retry.v ===== *)
(** * Retry: [src/retry.rs]

    The exponential backoff shared by the forward-retry loop and the ingress
    reconnect loop.  The draw of [rand::random_range(0..n)] is an argument. *)

From S2P Require Import Prelude.
Local Open Scope Z_scope.

Record RetryConfig := {
  max_retries : Z;
  base_delay_ms : Z;
  max_delay_ms : Z;
  jitter_ms : Z;
}.

(** Every field is within its machine type. *)
Definition retry_wf (config : RetryConfig) : Prop :=
  0 ≤ max_retries config ≤ U32_MAX ∧ 0 ≤ base_delay_ms config ≤ U64_MAX ∧
  0 ≤ max_delay_ms config ≤ U64_MAX ∧ 0 ≤ jitter_ms config ≤ U64_MAX.

Definition exp_delay_ms (attempt : Z) (config : RetryConfig) : Z :=
  Z.min (saturating_mul (base_delay_ms config) (default U64_MAX (checked_shl1 attempt)))
        (max_delay_ms config).

Definition backoff_delay (random_range : Z → Z) (attempt : Z) (config : RetryConfig) : Z :=
  let jitter := if 0 <? jitter_ms config then random_range (jitter_ms config) else 0 in
  from_millis (saturating_add (exp_delay_ms attempt config) jitter).

(** The saturating shift and product compute the exact exponential, capped. *)
Lemma exp_delay_exact attempt config :
  retry_wf config → 0 ≤ attempt →
  exp_delay_ms attempt config = Z.min (base_delay_ms config * 2 ^ attempt) (max_delay_ms config).
Proof.
  intros (_ & Hb & Hm & _) Ha. unfold exp_delay_ms, saturating_mul, checked_shl1, U64_MAX in *.
  destruct (attempt <? 64) eqn:Hlt; bool_hyps; cbn [default id].
  - lia.
  - destruct (Z.eq_dec (base_delay_ms config) 0) as [->|]; [lia|].
    assert (2 ^ 64 ≤ 2 ^ attempt) by (apply Z.pow_le_mono_r; lia).
    assert (2 ^ 64 ≤ base_delay_ms config * 2 ^ attempt) by nia. lia.
Qed.

(** The delay before a retry is [min(base * 2^attempt, max)]
    milliseconds plus a jitter below the configured one, computed without overflow
    for every attempt number; it never exceeds [max + jitter], and the exponential
    part never decreases from one attempt to the next. *)
Theorem backoff_bounds (random_range : Z → Z) attempt config :
  (∀ n, 0 < n → 0 ≤ random_range n < n) →
  retry_wf config → 0 ≤ attempt →
  max_delay_ms config + jitter_ms config ≤ U64_MAX →
  ∃ jitter, 0 ≤ jitter ∧ (jitter < jitter_ms config ∨ jitter = 0) ∧
    backoff_delay random_range attempt config =
      from_millis (Z.min (base_delay_ms config * 2 ^ attempt) (max_delay_ms config) + jitter) ∧
    backoff_delay random_range attempt config ≤
      from_millis (max_delay_ms config + jitter_ms config) ∧
    exp_delay_ms attempt config ≤ exp_delay_ms (attempt + 1) config.
Proof.
  intros Hrand Hwf Ha Hsum. unfold backoff_delay.
  rewrite !exp_delay_exact by (done || lia).
  pose proof Hwf as (_ & Hb & Hm & Hj).
  assert (2 ^ attempt ≤ 2 ^ (attempt + 1)) by (apply Z.pow_le_mono_r; lia).
  assert (0 < 2 ^ attempt) by (apply Z.pow_pos_nonneg; lia).
  assert (∃ j, 0 ≤ j ∧ (j < jitter_ms config ∨ j = 0) ∧
    (if 0 <? jitter_ms config then random_range (jitter_ms config) else 0) = j) as (j & Hj0 & Hj1 & ->).
  { destruct (0 <? jitter_ms config) eqn:Hpos; bool_hyps; [|exists 0; lia].
    specialize (Hrand (jitter_ms config) ltac:(lia)). eexists. split; [apply Hrand|]. split; [lia|done]. }
  exists j. unfold saturating_add. rewrite (Z.min_l (_ + j)) by lia.
  unfold from_millis, NANOS_PER_MILLI. split_and!; nia.
Qed.

Lemma backoff_bounds_witness :
  ∃ jitter, backoff_delay (λ n, n - 1) 3
    {| max_retries := 3; base_delay_ms := 100; max_delay_ms := 500; jitter_ms := 10 |} =
    from_millis (Z.min (100 * 2 ^ 3) 500 + jitter).
Proof.
  destruct (backoff_bounds (λ n, n - 1) 3
    {| max_retries := 3; base_delay_ms := 100; max_delay_ms := 500; jitter_ms := 10 |})
    as (jitter & _ & _ & Hd & _).
  - intros n Hn. lia.
  - unfold retry_wf, U32_MAX, U64_MAX; cbn; lia.
  - lia.
  - unfold U64_MAX; cbn; lia.
  - exists jitter. exact Hd.
Defined.
