(* ===== verification/Router.v ===== *)
(** * Router: [src/proxy/router.rs]

    Longest-prefix routing at a path-segment boundary.  An out-of-range index in
    the source would panic; [match_route] returns a [Panicked] error there, and the
    specification shows that it never does. *)

From Stdlib Require Import Ascii.
From S2P Require Import Prelude Text.
Local Open Scope Z_scope.

Record RouteConfig := {
  rc_path_prefix : string;
  rc_backend_id : string;
  rc_timeout_secs : option Z;
}.

Record Route := {
  path_prefix : string;
  backend_id : string;
  timeout_secs : option Z;
}.

Record RouteMatch := {
  rm_backend_id : string;
  rm_timeout_secs : option Z;
}.

Record Router := { routes : list Route }.

(** [slice::sort_by_key] with [Reverse(len)] is stable: an insertion sort in which
    an earlier route stays before a later one of the same length. *)
Fixpoint insert_route (r : Route) (l : list Route) : list Route :=
  match l with
  | [] => [r]
  | r' :: l' =>
      if slen (path_prefix r') <=? slen (path_prefix r) then r :: l
      else r' :: insert_route r l'
  end.

Definition sort_routes (l : list Route) : list Route := foldr insert_route [] l.

Definition route_of (rc : RouteConfig) : Route :=
  {| path_prefix := rc_path_prefix rc; backend_id := rc_backend_id rc;
     timeout_secs := rc_timeout_secs rc |}.

Definition Router_new (route_configs : list RouteConfig) : Router :=
  {| routes := sort_routes (map route_of route_configs) |}.

Inductive panic := Panicked.

(** The guard of the loop; the last disjunct indexes the bytes of the path. *)
Definition route_matches (path : string) (route : Route) : result panic bool :=
  if negb (starts_with path (path_prefix route)) then Ok false
  else if slen path =? slen (path_prefix route) then Ok true
  else if ends_with_char (path_prefix route) "/" then Ok true
  else match String.get (String.length (path_prefix route)) path with
       | Some c => Ok (Ascii.eqb c "/")
       | None => Err Panicked
       end.

Fixpoint match_routes (routes : list Route) (path : string) : result panic (option RouteMatch) :=
  match routes with
  | [] => Ok None
  | route :: routes =>
      m ← route_matches path route;
      if m : bool
      then Ok (Some {| rm_backend_id := backend_id route; rm_timeout_secs := timeout_secs route |})
      else match_routes routes path
  end.

Definition match_route (self : Router) (path : string) : result panic (option RouteMatch) :=
  match_routes (routes self) path.

(** ** The routing rule *)

(** The prefix covers the path: the path is the prefix followed by nothing or by
    further segments. *)
Definition covers_path (prefix path : string) : Prop :=
  ∃ rest, path = prefix +:+ rest ∧
    (rest = "" ∨ ends_with_char prefix "/" = true ∨ ∃ rest', rest = String "/" rest').

Definition covers_path_b (prefix path : string) : bool :=
  match route_matches path {| path_prefix := prefix; backend_id := ""; timeout_secs := None |} with
  | Ok b => b
  | Err _ => false
  end.

Lemma starts_with_app s p : starts_with s p = true ↔ ∃ rest, s = p +:+ rest.
Proof.
  revert s. induction p as [|b p IH]; intros s; cbn.
  - split; [by exists s|done].
  - destruct s as [|a s]; [split; [done|by intros [rest Hr]]|].
    rewrite andb_true_iff, Ascii.eqb_eq, IH. split.
    + intros [-> [rest ->]]. by exists rest.
    + intros [rest Hr]. injection Hr as -> ->. eauto.
Qed.

Lemma get_app (p rest : string) : String.get (String.length p) (p +:+ rest) = String.get 0 rest.
Proof. unfold String.append. induction p as [|a p IH]; cbn; [by destruct rest|exact IH]. Qed.

Lemma route_matches_spec path route :
  ∃ b, route_matches path route = Ok b ∧ (b = true ↔ covers_path (path_prefix route) path).
Proof.
  unfold route_matches, covers_path. destruct (starts_with path (path_prefix route)) eqn:Hs; cbn [negb].
  - apply starts_with_app in Hs as [rest ->]. rewrite slen_app.
    assert (∀ r', path_prefix route +:+ rest = path_prefix route +:+ r' → rest = r') as Hinj.
    { intros r' Heq. by apply app_length_inj in Heq as [_ ?]. }
    destruct (_ =? _) eqn:He; [exists true|destruct (ends_with_char _ _) eqn:Hend; [exists true|]].
    + apply Z.eqb_eq in He. assert (rest = "") as -> by (apply slen_zero; lia). naive_solver.
    + split; [done|]. split; [|done]. intros _. exists rest. naive_solver.
    + rewrite get_app. destruct rest as [|c rest]; [apply Z.eqb_neq in He; destruct He; apply Z.add_0_r|].
      cbn. exists (Ascii.eqb c "/"). split; [done|]. rewrite Ascii.eqb_eq. split.
      * intros ->. exists (String "/" rest). naive_solver.
      * intros (r' & Heq & Hor). apply Hinj in Heq as <-.
        destruct Hor as [|[|[rest' Hr]]]; [done|congruence|by injection Hr].
  - exists false. split; [done|]. split; [done|]. intros (rest & -> & _).
    assert (starts_with (path_prefix route +:+ rest) (path_prefix route) = true); [|congruence].
    apply starts_with_app. eauto.
Qed.

Lemma route_matches_ok path route :
  route_matches path route = Ok (covers_path_b (path_prefix route) path).
Proof.
  unfold covers_path_b. destruct (route_matches_spec path route) as (b & Hb & _).
  change (route_matches path {| path_prefix := path_prefix route; backend_id := ""; timeout_secs := None |})
    with (route_matches path route). by rewrite Hb.
Qed.

Lemma covers_path_b_spec prefix path : covers_path_b prefix path = true ↔ covers_path prefix path.
Proof.
  unfold covers_path_b.
  destruct (route_matches_spec path {| path_prefix := prefix; backend_id := ""; timeout_secs := None |})
    as (b & -> & Hb). exact Hb.
Qed.

Lemma match_routes_find l path :
  match_routes l path =
  Ok ((λ r, {| rm_backend_id := backend_id r; rm_timeout_secs := timeout_secs r |}) <$>
      find (λ r, covers_path_b (path_prefix r) path) l).
Proof.
  induction l as [|r l IH]; [done|]. cbn [match_routes find]. rewrite route_matches_ok. cbn.
  by destruct (covers_path_b (path_prefix r) path).
Qed.

(** ** The sort *)

Section sort.
  Context (p : Route → bool).

(** The first of the longest routes that satisfy [p]. *)
Fixpoint best (l : list Route) : option Route :=
  match l with
  | [] => None
  | r :: l =>
      if p r then
        match best l with
        | Some r' => if slen (path_prefix r) <? slen (path_prefix r') then Some r' else Some r
        | None => Some r
        end
      else best l
  end.

Definition descending (l : list Route) : Prop :=
  StronglySorted (λ r r', slen (path_prefix r') ≤ slen (path_prefix r)) l.

Lemma insert_route_elem r l x : x ∈ insert_route r l ↔ x = r ∨ x ∈ l.
Proof.
  induction l as [|r' l IH]; simpl; [set_solver|]. case_match; set_solver.
Qed.

Lemma insert_route_descending r l : descending l → descending (insert_route r l).
Proof.
  induction 1 as [|r' l Hl IH Hall]; simpl; [by repeat constructor|].
  rewrite Forall_forall in Hall. destruct (_ <=? _) eqn:Hle; bool_hyps.
  - constructor; [by constructor; [|apply Forall_forall]|]. apply Forall_forall.
    intros x [->|Hx]%elem_of_cons; [done|]. specialize (Hall _ Hx). lia.
  - constructor; [done|]. apply Forall_forall. intros x [->|Hx]%insert_route_elem; [lia|by apply Hall].
Qed.

Lemma find_insert_route r l :
  descending l →
  find p (insert_route r l) =
  if p r then
    match find p l with
    | Some r' => if slen (path_prefix r) <? slen (path_prefix r') then Some r' else Some r
    | None => Some r
    end
  else find p l.
Proof.
  induction 1 as [|r' l Hl IH Hall]; simpl; [done|].
  rewrite Forall_forall in Hall. destruct (_ <=? _) eqn:Hle; bool_hyps; simpl.
  - destruct (p r) eqn:Hr; [|done]. destruct (p r') eqn:Hr'.
    + by rewrite (proj2 (Z.ltb_ge _ _)) by lia.
    + destruct (find p l) as [x|] eqn:Hf; [|done]. apply find_some in Hf as [Hx%list_elem_of_In _].
      specialize (Hall _ Hx). by rewrite (proj2 (Z.ltb_ge _ _)) by lia.
  - destruct (p r') eqn:Hr'; [|by rewrite IH].
    destruct (p r); [|done]. by rewrite (proj2 (Z.ltb_lt _ _)) by lia.
Qed.

Lemma sort_routes_descending l : descending (sort_routes l).
Proof. induction l; simpl; [constructor|by apply insert_route_descending]. Qed.

Lemma find_sort_routes l : find p (sort_routes l) = best l.
Proof.
  induction l as [|r l IH]; simpl; [done|].
  by rewrite find_insert_route, IH by apply sort_routes_descending.
Qed.

Lemma best_None l : best l = None → ∀ r, r ∈ l → p r = false.
Proof.
  induction l as [|x l IH]; simpl; [set_solver|]. destruct (p x) eqn:Hx.
  - by repeat case_match.
  - intros Hb r [->|Hr]%elem_of_cons; [done|by apply IH].
Qed.

Lemma best_Some l r :
  best l = Some r →
  ∃ i, l !! i = Some r ∧ p r = true ∧
    ∀ j r', l !! j = Some r' → p r' = true →
      slen (path_prefix r') < slen (path_prefix r) ∨
      (slen (path_prefix r') = slen (path_prefix r) ∧ (i ≤ j)%nat).
Proof.
  revert r. induction l as [|x l IH]; intros r; simpl; [done|].
  destruct (p x) eqn:Hx; [destruct (best l) as [y|] eqn:Hb; [destruct (_ <? _) eqn:Hlt|]|];
    intros Heq; simplify_eq; bool_hyps.
  - destruct (IH _ eq_refl) as (i & Hi & Hp & Hmax). exists (S i). split_and!; [done..|].
    intros [|j] r' Hj Hr'; simpl in Hj; simplify_eq; [by left|].
    destruct (Hmax j r') as [|[]]; [done..|by left|right; lia].
  - destruct (IH _ eq_refl) as (i & Hi & Hp & Hmax). exists 0%nat. split_and!; [done..|].
    intros [|j] r' Hj Hr'; simpl in Hj; simplify_eq; [right; lia|].
    destruct (Hmax j r') as [|[]]; [done..|lia|lia].
  - exists 0%nat. split_and!; [done..|]. intros [|j] r' Hj Hr'; simpl in Hj; simplify_eq; [right; lia|].
    apply list_elem_of_lookup_2 in Hj. by rewrite (best_None l Hb r' Hj) in Hr'.
  - destruct (IH _ Heq) as (i & Hi & Hp & Hmax). exists (S i). split_and!; [done..|].
    intros [|j] r' Hj Hr'; simpl in Hj; simplify_eq; [congruence|].
    destruct (Hmax j r') as [|[]]; [done..|by left|right; lia].
Qed.
End sort.

(** Routing never panics and picks the longest configured prefix that
    covers the path at a segment boundary, the first one in configuration order
    among prefixes of the same length; it answers [None] exactly when no prefix
    covers the path. *)
Theorem match_route_longest (configs : list RouteConfig) (path : string) :
  match match_route (Router_new configs) path with
  | Err Panicked => False
  | Ok None => ∀ rc, rc ∈ configs → ¬ covers_path (rc_path_prefix rc) path
  | Ok (Some m) =>
      ∃ i rc, configs !! i = Some rc ∧ covers_path (rc_path_prefix rc) path ∧
        m = {| rm_backend_id := rc_backend_id rc; rm_timeout_secs := rc_timeout_secs rc |} ∧
        ∀ j rc', configs !! j = Some rc' → covers_path (rc_path_prefix rc') path →
          slen (rc_path_prefix rc') < slen (rc_path_prefix rc) ∨
          (slen (rc_path_prefix rc') = slen (rc_path_prefix rc) ∧ (i ≤ j)%nat)
  end.
Proof.
  unfold match_route, Router_new. cbn [routes]. rewrite match_routes_find, find_sort_routes.
  set (p := λ r, covers_path_b (path_prefix r) path).
  destruct (best p (map route_of configs)) as [r|] eqn:Hb; cbn.
  - apply best_Some in Hb as (i & Hi & Hp & Hmax).
    rewrite list_lookup_fmap in Hi. apply fmap_Some in Hi as (rc & Hrc & ->).
    exists i, rc. apply covers_path_b_spec in Hp. split_and!; [done..|].
    intros j rc' Hj Hc. apply (Hmax j (route_of rc')); [by rewrite list_lookup_fmap, Hj|].
    by apply covers_path_b_spec.
  - intros rc Hrc Hc. apply covers_path_b_spec in Hc.
    assert (p (route_of rc) = false); [|unfold p, route_of in *; cbn in *; congruence].
    eapply best_None; [exact Hb|]. by apply list_elem_of_fmap_2.
Qed.

(** What a match answers comes from the configuration. *)
Lemma match_route_configured configs path m :
  match_route (Router_new configs) path = Ok (Some m) →
  ∃ rc, rc ∈ configs ∧ rm_backend_id m = rc_backend_id rc.
Proof.
  unfold match_route, Router_new. cbn [routes]. rewrite match_routes_find, find_sort_routes.
  destruct (best _ (map route_of configs)) as [r|] eqn:Hb; cbn; [|done]. intros [= <-].
  apply best_Some in Hb as (i & Hi & _). rewrite list_lookup_fmap in Hi.
  apply fmap_Some in Hi as (rc & Hrc & ->). exists rc. split; [by eapply list_elem_of_lookup_2|done].
Qed.
