(* ===== verification/Identity.v ===== *)
(** * Identity: [src/tls/identity.rs], [src/tunnel/revocation.rs] and
    [src/proxy/raw_authz.rs]

    The handshake-proven identity of a peer and the two policies keyed on it: the
    revocation list (a deny list of keys and device names) and the raw-relay allow
    list.  X.509 parsing, SHA-256 and TOML are not part of the sources: the
    certificate fields are arguments and a policy starts from its deserialised
    entries. *)

From Stdlib Require Import Ascii.
From S2P Require Import Prelude Text Error.
Local Open Scope Z_scope.

Definition MAX_COMMON_NAME_LEN : Z := 64.
Definition SPKI_SHA256_LEN : Z := 32.
Definition SPKI_HEX_LEN : Z := SPKI_SHA256_LEN * 2.
Definition MAX_BACKEND_ID_LEN : Z := 256.

Record PeerIdentity := {
  common_name : string;
  spki_sha256 : list Z;
}.

#[export] Instance PeerIdentity_eq_dec : EqDecision PeerIdentity.
Proof. solve_decision. Defined.

(** The invariant of the Rust type: an [ArrayString<64>] and a [[u8; 32]]. *)
Definition identity_wf (i : PeerIdentity) : Prop :=
  slen (common_name i) ≤ MAX_COMMON_NAME_LEN ∧
  zlen (spki_sha256 i) = SPKI_SHA256_LEN ∧
  Forall (λ b, 0 ≤ b ≤ U8_MAX) (spki_sha256 i).

(** What [x509_parser] and [aws_lc_rs] give on a certificate: the common names of
    the subject ([None] for one that is not UTF-8) and the raw public key. *)
Class X509 := {
  Certificate : Type;
  parse_x509 : list Z → result string Certificate;
  subject_common_names : Certificate → list (result string string);
  public_key_raw : Certificate → list Z;
  sha256 : list Z → list Z;
}.

Definition map_err {A} (f : string → ReductionError) (r : result string A) : Result A :=
  match r with Ok a => Ok a | Err e => Err (f e) end.

Definition from_leaf_der `{X509} (der : list Z) : Result PeerIdentity :=
  cert ← map_err (λ e, Identity ("parse leaf cert: " +:+ e)) (parse_x509 der);
  cn_attr ← ok_or (head (subject_common_names cert)) (Identity "leaf cert has no common name");
  cn_str ← map_err (λ e, Identity ("common name not valid UTF-8: " +:+ e)) cn_attr;
  cn ← ok_or (array_string_from MAX_COMMON_NAME_LEN cn_str)
         (Identity "common name exceeds 64 chars");
  let hash := sha256 (public_key_raw cert) in
  if negb (zlen hash =? SPKI_SHA256_LEN) then Err (Identity "SPKI hash length mismatch")
  else Ok {| common_name := cn; spki_sha256 := hash |}.

(** [from_tls_stream]: the leaf is the first of the peer certificates, if the peer
    presented any. *)
Definition from_tls_stream `{X509} (peer_certificates : option (list (list Z)))
    : Result PeerIdentity :=
  leaf ← ok_or (peer_certificates ≫= head) (Identity "TLS peer presented no certificate");
  from_leaf_der leaf.

(** [from_quic_connection]: the identity may be absent, not a chain, or empty. *)
Definition from_quic_connection `{X509} (peer_identity : option (option (list (list Z))))
    : Result PeerIdentity :=
  identity ← ok_or peer_identity (Identity "QUIC peer presented no identity");
  certs ← ok_or identity (Identity "QUIC peer identity not a certificate chain");
  leaf ← ok_or (head certs) (Identity "QUIC peer certificate chain empty");
  from_leaf_der leaf.

Fixpoint spki_hex_of (bytes : list Z) : string :=
  match bytes with
  | [] => ""
  | byte :: bytes =>
      hex_digit (Z.shiftr byte 4) +:+ hex_digit (Z.land byte 0x0f) +:+ spki_hex_of bytes
  end.

(** The format [{:#04x}] of a byte. *)
Definition hex_byte (b : Z) : string :=
  "0x" +:+ hex_digit (Z.shiftr b 4) +:+ hex_digit (Z.land b 0x0f).

Definition spki_hex (i : PeerIdentity) : string := spki_hex_of (spki_sha256 i).

(** ** [src/tunnel/revocation.rs] *)

Record RevocationEntry := {
  re_spki : option string;
  re_backend_id : option string;
}.

Record RevocationSet := {
  rs_spki : gset (list Z);
  rs_backend_ids : gset string;
}.

Definition RevocationSet_default : RevocationSet := {| rs_spki := ∅; rs_backend_ids := ∅ |}.

Definition is_revoked (rs : RevocationSet) (i : PeerIdentity) : bool :=
  bool_decide (spki_sha256 i ∈ rs_spki rs) || bool_decide (common_name i ∈ rs_backend_ids rs).

Definition revocation_len (rs : RevocationSet) : Z :=
  Z.of_nat (size (rs_spki rs)) + Z.of_nat (size (rs_backend_ids rs)).

Definition revocation_is_empty (rs : RevocationSet) : bool :=
  bool_decide (rs_spki rs = ∅) && bool_decide (rs_backend_ids rs = ∅).

Definition entry_error (index : nat) (msg : string) : ReductionError :=
  Config ("revocation entry " +:+ pretty index +:+ msg).

Definition hex_nibble (byte : Z) (index : nat) : Result Z :=
  if (48 <=? byte) && (byte <=? 57) then Ok (byte - 48)
  else if (97 <=? byte) && (byte <=? 102) then Ok (byte - 97 + 10)
  else if (65 <=? byte) && (byte <=? 70) then Ok (byte - 65 + 10)
  else Err (entry_error index (": spki contains non-hex byte " +:+ hex_byte byte)).

(** The loop over [out.iter_mut().enumerate()]: two input bytes per output byte. *)
Fixpoint decode_pairs (bytes : list Z) (index : nat) : Result (list Z) :=
  match bytes with
  | b1 :: b2 :: bytes =>
      hi ← hex_nibble b1 index;
      lo ← hex_nibble b2 index;
      out ← decode_pairs bytes index;
      Ok (Z.lor (Z.shiftl hi 4) lo :: out)
  | _ => Ok []
  end.

Definition decode_spki_hex (hex : string) (index : nat) : Result (list Z) :=
  let bytes := bytes_of hex in
  if negb (zlen bytes =? SPKI_HEX_LEN) then
    Err (entry_error index (": spki must be 64 hex chars, got " +:+ pretty (length bytes)))
  else decode_pairs bytes index.

(** One round of [RevocationSet::parse]'s loop. *)
Definition parse_entry (acc : RevocationSet) (index : nat) (entry : RevocationEntry)
    : Result RevocationSet :=
  if bool_decide (re_spki entry = None) && bool_decide (re_backend_id entry = None) then
    Err (entry_error index " names neither spki nor backend_id")
  else
    spki ← match re_spki entry with
           | Some hex => h ← decode_spki_hex hex index; Ok ({[h]} ∪ rs_spki acc)
           | None => Ok (rs_spki acc)
           end;
    ids ← match re_backend_id entry with
          | Some id =>
              parsed ← ok_or (array_string_from MAX_BACKEND_ID_LEN id)
                (entry_error index ": backend_id exceeds 256 chars");
              Ok ({[parsed]} ∪ rs_backend_ids acc)
          | None => Ok (rs_backend_ids acc)
          end;
    Ok {| rs_spki := spki; rs_backend_ids := ids |}.

Fixpoint parse_entries (acc : RevocationSet) (index : nat) (entries : list RevocationEntry)
    : Result RevocationSet :=
  match entries with
  | [] => Ok acc
  | entry :: entries =>
      acc ← parse_entry acc index entry;
      parse_entries acc (S index) entries
  end.

(** [RevocationSet::parse] on the deserialised file. *)
Definition revocation_parse (file : Result (list RevocationEntry)) : Result RevocationSet :=
  entries ← file;
  parse_entries RevocationSet_default 0 entries.

(** ** Hexadecimal round trips *)

Lemma nibble_cases (P : Z → Prop) :
  Forall P [0;1;2;3;4;5;6;7;8;9;10;11;12;13;14;15] → ∀ n, 0 ≤ n < 16 → P n.
Proof.
  intros HP n Hn. rewrite Forall_forall in HP. apply HP.
  assert (n = 0 ∨ n = 1 ∨ n = 2 ∨ n = 3 ∨ n = 4 ∨ n = 5 ∨ n = 6 ∨ n = 7 ∨ n = 8 ∨ n = 9 ∨
    n = 10 ∨ n = 11 ∨ n = 12 ∨ n = 13 ∨ n = 14 ∨ n = 15) as Hc by lia.
  repeat destruct Hc as [->|Hc]; subst; repeat constructor.
Qed.

Ltac each_nibble tac :=
  refine (nibble_cases _ _); repeat (apply Forall_cons_2; [tac|]); apply Forall_nil_2.

(** The value of a hexadecimal digit, in either case. *)
Definition nibble (a : ascii) : option Z :=
  match hex_nibble (byte_of a) 0 with Ok n => Some n | Err _ => None end.

Lemma hex_nibble_ok a index n : hex_nibble (byte_of a) index = Ok n ↔ nibble a = Some n.
Proof. unfold nibble, hex_nibble. repeat case_match; naive_solver. Qed.

Lemma nibble_lower a : nibble (lower_char a) = nibble a.
Proof. destruct a as [[] [] [] [] [] [] [] []]; reflexivity. Qed.

Lemma nibble_some a n :
  nibble a = Some n → 0 ≤ n < 16 ∧ hex_digit n = String (lower_char a) "".
Proof.
  destruct a as [[] [] [] [] [] [] [] []]; vm_compute; intros Heq; try discriminate;
    injection Heq as <-; repeat split; discriminate.
Qed.

Lemma nibble_digit a n :
  0 ≤ n < 16 → hex_digit n = String (lower_char a) "" → nibble a = Some n.
Proof.
  intros Hn Hd. rewrite <-nibble_lower. revert Hd. generalize (lower_char a). intros c.
  revert n Hn. each_nibble ltac:(intros Heq; vm_compute in Heq; injection Heq as <-; reflexivity).
Qed.

Lemma hex_digit_shape n : 0 ≤ n < 16 → ∃ a, hex_digit n = String a "" ∧ lower_char a = a.
Proof.
  revert n. each_nibble ltac:(eexists; split; vm_compute; reflexivity).
Qed.

(** A byte is its two nibbles. *)
Lemma byte_nibbles hi lo :
  0 ≤ hi < 16 → 0 ≤ lo < 16 →
  Z.shiftr (Z.lor (Z.shiftl hi 4) lo) 4 = hi ∧ Z.land (Z.lor (Z.shiftl hi 4) lo) 0x0f = lo ∧
  0 ≤ Z.lor (Z.shiftl hi 4) lo ≤ U8_MAX.
Proof.
  intros Hhi Hlo. set (x := Z.lor _ _). change 0x0f with (Z.ones 4).
  assert (Z.shiftr x 4 = hi) as Hx.
  { unfold x. rewrite Z.shiftr_lor, Z.shiftr_shiftl_l, Z.shiftl_0_r, (Z.shiftr_div_pow2 lo) by lia.
    by rewrite (Z.div_small lo), Z.lor_0_r by (change (2 ^ 4) with 16; lia). }
  assert (Z.land x (Z.ones 4) = lo) as Hm.
  { unfold x. rewrite Z.land_lor_distr_l, !Z.land_ones, Z.shiftl_mul_pow2 by lia.
    rewrite Z.mod_mul, (Z.mod_small lo) by (change (2 ^ 4) with 16; lia). done. }
  split; [done|]. split; [done|]. rewrite Z.land_ones in Hm by lia.
  rewrite Z.shiftr_div_pow2 in Hx by lia. change (2 ^ 4) with 16 in *.
  pose proof (Z.div_mod x 16 ltac:(lia)). unfold U8_MAX. lia.
Qed.

Lemma nibbles_byte b :
  0 ≤ b ≤ U8_MAX →
  0 ≤ Z.shiftr b 4 < 16 ∧ 0 ≤ Z.land b 0x0f < 16 ∧
  Z.lor (Z.shiftl (Z.shiftr b 4) 4) (Z.land b 0x0f) = b.
Proof.
  intros Hb. unfold U8_MAX in Hb. change 0x0f with (Z.ones 4).
  rewrite <-Z.ldiff_ones_r, Z.lor_ldiff_and, Z.land_ones, Z.shiftr_div_pow2 by lia.
  pose proof (Z.mod_pos_bound b (2 ^ 4) ltac:(lia)).
  assert (0 ≤ b `div` 2 ^ 4 < 16) by (split; [apply Z.div_pos; lia|apply Z.div_lt_upper_bound; lia]).
  lia.
Qed.

Definition is_byte (b : Z) : Prop := 0 ≤ b ≤ U8_MAX.

Lemma spki_hex_of_lower bytes :
  Forall is_byte bytes → to_ascii_lowercase (spki_hex_of bytes) = spki_hex_of bytes.
Proof.
  induction 1 as [|b bytes Hb _ IH]; [done|]. cbn [spki_hex_of].
  destruct (nibbles_byte b Hb) as (Hhi & Hlo & _).
  destruct (hex_digit_shape _ Hhi) as (a1 & -> & H1), (hex_digit_shape _ Hlo) as (a2 & -> & H2).
  rewrite !to_ascii_lowercase_app, IH. cbn [to_ascii_lowercase]. by rewrite H1, H2.
Qed.

Lemma bytes_of_length s : zlen (bytes_of s) = slen s.
Proof.
  unfold zlen, slen, bytes_of. rewrite length_map. f_equal.
  induction s as [|a s IH]; [done|]. cbn. by rewrite IH.
Qed.

(** Decoding inverts [spki_hex_of], up to the case of the digits. *)
Lemma decode_pairs_sound s index out :
  Nat.Even (String.length s) → decode_pairs (bytes_of s) index = Ok out →
  Forall is_byte out ∧ to_ascii_lowercase s = spki_hex_of out.
Proof.
  intros [n Hn]. revert s out Hn. induction n as [|n IH]; intros s out Hn Hd.
  - destruct s; [|done]. cbn in Hd. by simplify_eq.
  - destruct s as [|a1 [|a2 s]]; [cbn in Hn; lia..|].
    change (bytes_of _) with (byte_of a1 :: byte_of a2 :: bytes_of s) in Hd. cbn [decode_pairs] in Hd.
    apply result_bind_ok in Hd as (hi & Hhi%hex_nibble_ok%nibble_some & Hd).
    apply result_bind_ok in Hd as (lo & Hlo%hex_nibble_ok%nibble_some & Hd).
    apply result_bind_ok in Hd as (out' & Hd & Heq). simplify_eq.
    destruct (IH s out') as [Hout Hs]; [cbn in Hn; lia|done|].
    destruct Hhi as [Hhi Hhid], Hlo as [Hlo Hlod], (byte_nibbles hi lo) as (Hs4 & Hl4 & Hb); [done..|].
    split; [by constructor|]. cbn [spki_hex_of to_ascii_lowercase].
    by rewrite Hs4, Hl4, Hhid, Hlod, Hs.
Qed.

Lemma decode_pairs_complete s index out :
  Forall is_byte out → to_ascii_lowercase s = spki_hex_of out →
  decode_pairs (bytes_of s) index = Ok out.
Proof.
  intros Hout. revert s. induction Hout as [|b out Hb _ IH]; intros s Hs.
  - by destruct s.
  - cbn [spki_hex_of] in Hs. destruct (nibbles_byte b Hb) as (Hhi & Hlo & Heq).
    destruct (hex_digit_shape _ Hhi) as (c1 & H1 & _), (hex_digit_shape _ Hlo) as (c2 & H2 & _).
    rewrite H1, H2 in Hs. destruct s as [|a1 [|a2 s]]; [done..|].
    injection Hs as Ha1 Ha2 Hs. rewrite <-Ha1 in H1. rewrite <-Ha2 in H2.
    change (bytes_of _) with (byte_of a1 :: byte_of a2 :: bytes_of s). cbn [decode_pairs].
    apply (nibble_digit a1) in H1; [|done]. apply (nibble_digit a2) in H2; [|done].
    rewrite (proj2 (hex_nibble_ok a1 index _) H1), (proj2 (hex_nibble_ok a2 index _) H2), (IH s Hs).
    cbn. by rewrite Heq.
Qed.

Lemma spki_hex_of_length bytes :
  Forall is_byte bytes → slen (spki_hex_of bytes) = 2 * zlen bytes.
Proof.
  induction 1 as [|b bytes Hb _ IH]; [done|]. cbn [spki_hex_of].
  destruct (nibbles_byte b Hb) as (Hhi & Hlo & _).
  destruct (hex_digit_shape _ Hhi) as (a1 & -> & _), (hex_digit_shape _ Hlo) as (a2 & -> & _).
  rewrite !slen_app, IH, !slen_cons. unfold zlen. rewrite length_cons.
  change (slen "") with 0. lia.
Qed.

Lemma to_ascii_lowercase_length s : slen (to_ascii_lowercase s) = slen s.
Proof. induction s as [|a s IH]; [done|]. cbn [to_ascii_lowercase]. by rewrite !slen_cons, IH. Qed.

Lemma decode_spki_hex_spec hex index out :
  decode_spki_hex hex index = Ok out ↔
  zlen out = SPKI_SHA256_LEN ∧ Forall is_byte out ∧ to_ascii_lowercase hex = spki_hex_of out.
Proof.
  unfold decode_spki_hex. rewrite bytes_of_length.
  destruct (slen hex =? SPKI_HEX_LEN) eqn:Hl; cbn [negb]; bool_hyps; unfold SPKI_HEX_LEN, SPKI_SHA256_LEN in *.
  - split.
    + intros Hd. apply decode_pairs_sound in Hd as [Hb Hs]; [|by exists 32%nat; unfold slen in Hl; lia].
      apply (f_equal slen) in Hs as Hlen. rewrite to_ascii_lowercase_length, spki_hex_of_length in Hlen by done.
      split; [lia|done].
    + intros (_ & Hb & Hs). by apply decode_pairs_complete.
  - split; [done|]. intros (Hz & Hb & Hs). apply (f_equal slen) in Hs.
    rewrite to_ascii_lowercase_length, spki_hex_of_length in Hs by done. lia.
Qed.

(** ** What a revocation file denies *)

(** The hexadecimal text [hex] is the SPKI hash [k]. *)
Definition spells (hex : string) (k : list Z) : Prop :=
  zlen k = SPKI_SHA256_LEN ∧ Forall is_byte k ∧ to_ascii_lowercase hex = spki_hex_of k.

Definition entry_ok (e : RevocationEntry) : Prop :=
  (re_spki e ≠ None ∨ re_backend_id e ≠ None) ∧
  (∀ hex, re_spki e = Some hex → ∃ k, spells hex k) ∧
  (∀ id, re_backend_id e = Some id → slen id ≤ MAX_BACKEND_ID_LEN).

Definition entry_names (e : RevocationEntry) (i : PeerIdentity) : Prop :=
  (∃ hex, re_spki e = Some hex ∧ to_ascii_lowercase hex = spki_hex i) ∨
  re_backend_id e = Some (common_name i).

Lemma spki_hex_of_inj k1 k2 :
  Forall is_byte k1 → Forall is_byte k2 → spki_hex_of k1 = spki_hex_of k2 → k1 = k2.
Proof.
  intros H1 H2 Heq.
  pose proof (decode_pairs_complete (spki_hex_of k1) 0 k1 H1 (spki_hex_of_lower k1 H1)) as E1.
  pose proof (decode_pairs_complete (spki_hex_of k2) 0 k2 H2 (spki_hex_of_lower k2 H2)) as E2.
  congruence.
Qed.

(** The entry's contribution to the two sets of the list. *)
Definition adds (e : RevocationEntry) (acc rs : RevocationSet) : Prop :=
  (∀ k, k ∈ rs_spki rs ↔ k ∈ rs_spki acc ∨ ∃ hex, re_spki e = Some hex ∧ spells hex k) ∧
  (∀ id, id ∈ rs_backend_ids rs ↔ id ∈ rs_backend_ids acc ∨ re_backend_id e = Some id).

Lemma spells_unique hex k k' : spells hex k → spells hex k' → k = k'.
Proof. intros (_ & Hb & Hk) (_ & Hb' & Hk'). apply spki_hex_of_inj; congruence. Qed.

Lemma array_string_from_spec cap s :
  array_string_from cap s = if slen s <=? cap then Some s else None.
Proof.
  unfold array_string_from. destruct (cap <? slen s) eqn:H1, (slen s <=? cap) eqn:H2; lia || done.
Qed.

Ltac solve_entry_ok :=
  split_and!; [by (left + right)|intros; simplify_eq; eauto|intros; simplify_eq; auto].

Lemma parse_entry_spec acc index e :
  match parse_entry acc index e with
  | Ok rs => entry_ok e ∧ adds e acc rs
  | Err _ => ¬ entry_ok e
  end.
Proof.
  unfold parse_entry, entry_ok, adds. destruct e as [[hex|] [id|]]; cbn [re_spki re_backend_id];
    rewrite ?array_string_from_spec; repeat case_bool_decide; simplify_eq; cbn [andb].
  - destruct (decode_spki_hex hex index) as [k|err] eqn:Hd; cbn.
    + apply decode_spki_hex_spec in Hd. change (spells hex k) in Hd. destruct (slen id <=? _) eqn:Hl; cbn; bool_hyps.
      * split; [solve_entry_ok|]. split; [|set_solver].
        intros k'. rewrite elem_of_union, elem_of_singleton.
        pose proof (spells_unique hex k k' Hd). naive_solver.
      * intros (_ & _ & Hid). specialize (Hid id eq_refl). lia.
    + intros (_ & Hk & _). destruct (Hk hex eq_refl) as [k Hs%(decode_spki_hex_spec _ index)]. congruence.
  - destruct (decode_spki_hex hex index) as [k|err] eqn:Hd; cbn.
    + apply decode_spki_hex_spec in Hd. change (spells hex k) in Hd. split; [solve_entry_ok|]. split; [|set_solver].
      intros k'. rewrite elem_of_union, elem_of_singleton.
      pose proof (spells_unique hex k k' Hd). naive_solver.
    + intros (_ & Hk & _). destruct (Hk hex eq_refl) as [k Hs%(decode_spki_hex_spec _ index)]. congruence.
  - destruct (slen id <=? _) eqn:Hl; cbn; bool_hyps.
    + split; [solve_entry_ok|]. split; set_solver.
    + intros (_ & _ & Hid). specialize (Hid id eq_refl). lia.
  - cbn. intros ([|] & _); done.
Qed.

Lemma parse_entries_spec entries acc index :
  match parse_entries acc index entries with
  | Ok rs =>
      (∀ e, e ∈ entries → entry_ok e) ∧
      (∀ k, k ∈ rs_spki rs ↔ k ∈ rs_spki acc ∨
        ∃ e hex, e ∈ entries ∧ re_spki e = Some hex ∧ spells hex k) ∧
      (∀ id, id ∈ rs_backend_ids rs ↔ id ∈ rs_backend_ids acc ∨
        ∃ e, e ∈ entries ∧ re_backend_id e = Some id)
  | Err _ => ∃ e, e ∈ entries ∧ ¬ entry_ok e
  end.
Proof.
  revert acc index. induction entries as [|e entries IH]; intros acc index; [set_solver|].
  cbn [parse_entries]. pose proof (parse_entry_spec acc index e) as He.
  destruct (parse_entry acc index e) as [acc'|err]; cbn; [|exists e; set_solver].
  specialize (IH acc' (S index)). destruct (parse_entries acc' (S index) entries) as [rs|err].
  - destruct He as [Hok [Hk Hid]], IH as (Hoks & IHk & IHid). split_and!.
    + intros x [->|Hx]%elem_of_cons; auto.
    + intros k. rewrite IHk, Hk. setoid_rewrite elem_of_cons. naive_solver.
    + intros id. rewrite IHid, Hid. setoid_rewrite elem_of_cons. naive_solver.
  - destruct IH as (x & Hx & Hn). exists x. set_solver.
Qed.

(** A revocation file is accepted exactly when every entry is well
    formed, and an accepted list denies exactly the identities its entries name,
    by the SPKI hash of their key in either case of hexadecimal or by their
    certificate common name: nothing is dropped, nothing else is denied. *)
Theorem revocation_parse_spec (entries : list RevocationEntry) :
  match revocation_parse (Ok entries) with
  | Ok rs =>
      (∀ e, e ∈ entries → entry_ok e) ∧
      ∀ i, identity_wf i → is_revoked rs i = true ↔ ∃ e, e ∈ entries ∧ entry_names e i
  | Err _ => ∃ e, e ∈ entries ∧ ¬ entry_ok e
  end.
Proof.
  unfold revocation_parse. cbn.
  pose proof (parse_entries_spec entries RevocationSet_default 0) as Hp.
  destruct (parse_entries _ _ _) as [rs|err]; [|done]. destruct Hp as (Hok & Hk & Hid).
  split; [done|]. intros i (_ & Hz & Hb). unfold is_revoked, entry_names.
  rewrite orb_true_iff, !bool_decide_eq_true, Hk, Hid. cbn. split.
  - intros [[Hin|(e & hex & He & Hs & _ & _ & Hh)]|[Hin|(e & He & Hs)]].
    + by apply not_elem_of_empty in Hin.
    + exists e. split; [done|]. left. by exists hex.
    + by apply not_elem_of_empty in Hin.
    + exists e. auto.
  - intros (e & He & [(hex & Hs & Hh)|Hs]).
    + left. right. exists e, hex. done.
    + right. right. by exists e.
Qed.

(** ** [src/proxy/raw_authz.rs] *)

Record RawRelayAuthzEntry := {
  rr_backend_id : string;
  allowed_cns : list string;
  allowed_spkis : list string;
}.

Record BackendPolicy := {
  bp_cns : gset string;
  bp_spkis : gset string;
}.

Record RawRelayAuthz := { by_backend : gmap string BackendPolicy }.

Definition authz_error (backend_id msg : string) : ReductionError :=
  Config ("raw_relay_authz backend '" +:+ backend_id +:+ "': " +:+ msg).

(** The loop over [hex.bytes()]. *)
Fixpoint normalize_bytes (hex backend_id : string) : Result string :=
  match hex with
  | EmptyString => Ok ""
  | String a hex =>
      let byte := byte_of a in
      lowered ←
        (if ((48 <=? byte) && (byte <=? 57)) || ((97 <=? byte) && (byte <=? 102)) then Ok a
         else if (65 <=? byte) && (byte <=? 70) then Ok (ascii_of_nat (Z.to_nat (byte + 32)))
         else Err (authz_error backend_id ("spki contains non-hex byte " +:+ hex_byte byte)));
      out ← normalize_bytes hex backend_id;
      Ok (String lowered out)
  end.

Definition normalize_spki_hex (hex backend_id : string) : Result string :=
  if negb (slen hex =? SPKI_HEX_LEN) then
    Err (authz_error backend_id
           ("spki must be 64 hex chars, got " +:+ pretty (String.length hex)))
  else normalize_bytes hex backend_id.

Fixpoint normalize_all (spkis : list string) (backend_id : string) (acc : gset string)
    : Result (gset string) :=
  match spkis with
  | [] => Ok acc
  | spki :: spkis =>
      s ← normalize_spki_hex spki backend_id;
      normalize_all spkis backend_id ({[s]} ∪ acc)
  end.

(** One round of the loop of [RawRelayAuthz::new]. *)
Definition authz_entry (known_backend_ids : gset string) (acc : gmap string BackendPolicy)
    (entry : RawRelayAuthzEntry) : Result (gmap string BackendPolicy) :=
  let id := rr_backend_id entry in
  if negb (bool_decide (id ∈ known_backend_ids)) then
    Err (Config ("raw_relay_authz entry names backend '" +:+ id +:+
      "', which is not a configured backend (no route/pool resolves to that id); " +:+
      "the restriction would silently not apply"))
  else if bool_decide (allowed_cns entry = []) && bool_decide (allowed_spkis entry = []) then
    Err (Config ("raw_relay_authz entry for backend '" +:+ id +:+
      "' names neither allowed_cns nor allowed_spkis"))
  else
    spkis ← normalize_all (allowed_spkis entry) id ∅;
    match acc !! id with
    | Some _ => Err (Config ("duplicate raw_relay_authz entry for backend '" +:+ id +:+ "'"))
    | None => Ok (<[id := {| bp_cns := list_to_set (allowed_cns entry); bp_spkis := spkis |}]> acc)
    end.

Fixpoint authz_entries (known_backend_ids : gset string) (acc : gmap string BackendPolicy)
    (entries : list RawRelayAuthzEntry) : Result (gmap string BackendPolicy) :=
  match entries with
  | [] => Ok acc
  | entry :: entries =>
      acc ← authz_entry known_backend_ids acc entry;
      authz_entries known_backend_ids acc entries
  end.

Definition RawRelayAuthz_new (entries : list RawRelayAuthzEntry) (known_backend_ids : gset string)
    : Result RawRelayAuthz :=
  m ← authz_entries known_backend_ids ∅ entries;
  Ok {| by_backend := m |}.

Definition raw_is_allowed (self : RawRelayAuthz) (backend_id : string) (i : PeerIdentity) : bool :=
  match by_backend self !! backend_id with
  | None => false
  | Some policy =>
      bool_decide (common_name i ∈ bp_cns policy) || bool_decide (spki_hex i ∈ bp_spkis policy)
  end.

Definition raw_authz_len (self : RawRelayAuthz) : Z := Z.of_nat (size (by_backend self)).

Definition raw_authz_is_empty (self : RawRelayAuthz) : bool := bool_decide (by_backend self = ∅).

(** The identities an entry admits. *)
Definition entry_admits (e : RawRelayAuthzEntry) (i : PeerIdentity) : Prop :=
  common_name i ∈ allowed_cns e ∨
  ∃ hex, hex ∈ allowed_spkis e ∧ to_ascii_lowercase hex = spki_hex i.

Lemma normalize_bytes_lower hex id out :
  normalize_bytes hex id = Ok out → out = to_ascii_lowercase hex.
Proof.
  revert out. induction hex as [|a hex IH]; intros out; cbn [normalize_bytes]; [naive_solver|].
  intros (c & Hc & (out' & Hout & Heq)%result_bind_ok)%result_bind_ok. simplify_eq.
  apply IH in Hout as ->. cbn. f_equal. clear IH.
  revert c Hc. destruct a as [[] [] [] [] [] [] [] []]; vm_compute; intros c Hc; congruence.
Qed.

Lemma normalize_all_spec spkis id acc s :
  normalize_all spkis id acc = Ok s →
  ∀ h, h ∈ s ↔ h ∈ acc ∨ ∃ hex, hex ∈ spkis ∧ to_ascii_lowercase hex = h.
Proof.
  revert acc. induction spkis as [|hex spkis IH]; intros acc; cbn [normalize_all].
  - intros [= <-] h. set_solver.
  - intros (n & Hn & Hrest)%result_bind_ok h. rewrite (IH _ Hrest). unfold normalize_spki_hex in Hn.
    destruct (negb _); [done|]. apply normalize_bytes_lower in Hn as ->. set_solver.
Qed.

(** The policies an accepted list of entries leaves in the table. *)
Definition policy_of (e : RawRelayAuthzEntry) (p : BackendPolicy) : Prop :=
  (∀ cn, cn ∈ bp_cns p ↔ cn ∈ allowed_cns e) ∧
  (∀ h, h ∈ bp_spkis p ↔ ∃ hex, hex ∈ allowed_spkis e ∧ to_ascii_lowercase hex = h).

Lemma authz_entry_ok known acc e acc' :
  authz_entry known acc e = Ok acc' →
  rr_backend_id e ∈ known ∧ (allowed_cns e ≠ [] ∨ allowed_spkis e ≠ []) ∧
  acc !! rr_backend_id e = None ∧ ∃ p, policy_of e p ∧ acc' = <[rr_backend_id e := p]> acc.
Proof.
  unfold authz_entry. case_bool_decide as Hk; cbn [negb]; [|done].
  destruct (bool_decide (allowed_cns e = []) && _) eqn:Hne; [done|].
  intros (s & Hs & Hrest)%result_bind_ok. destruct (acc !! _) eqn:Hacc; [done|].
  injection Hrest as <-. split_and!; [done| |done|].
  - apply andb_false_iff in Hne as [Hne|Hne]; bool_hyps; auto.
  - eexists. split; [|done]. split; cbn; [set_solver|].
    intros h. rewrite (normalize_all_spec _ _ _ _ Hs). set_solver.
Qed.

Lemma authz_entries_ok known entries acc m :
  authz_entries known acc entries = Ok m →
  (∀ e, e ∈ entries → rr_backend_id e ∈ known ∧ (allowed_cns e ≠ [] ∨ allowed_spkis e ≠ []) ∧
    acc !! rr_backend_id e = None ∧ ∃ p, m !! rr_backend_id e = Some p ∧ policy_of e p) ∧
  (∀ b p, m !! b = Some p → acc !! b = Some p ∨ ∃ e, e ∈ entries ∧ rr_backend_id e = b) ∧
  (∀ b p, acc !! b = Some p → m !! b = Some p) ∧
  NoDup (map rr_backend_id entries).
Proof.
  revert acc. induction entries as [|e entries IH]; intros acc; cbn [authz_entries].
  { intros [= <-]. split_and!; [set_solver|auto..]. constructor. }
  intros (acc' & (Hk & Hne & Hnone & p & Hp & ->)%authz_entry_ok & Hrest)%result_bind_ok.
  apply IH in Hrest as (He & Hm & Hacc & Hnd). split_and!.
  - intros x [->|Hx]%elem_of_cons.
    + split_and!; eauto. exists p. split; [|done]. apply Hacc, lookup_insert_eq.
    + destruct (He x Hx) as (? & ? & Hx0 & ?). apply lookup_insert_None in Hx0 as []. eauto.
  - intros b q Hb. destruct (Hm b q Hb) as [Hi|(x & Hx & <-)]; [|right; set_solver].
    apply lookup_insert_Some in Hi as [[<- _]|[_ Hi]]; [right|by left]. exists e. set_solver.
  - intros b q Hb. apply Hacc. rewrite lookup_insert_ne; [done|]. intros <-. congruence.
  - cbn. constructor; [|done]. intros (x & Hx & Hin)%list_elem_of_fmap.
    destruct (He x Hin) as (_ & _ & Hx0 & _). rewrite <-Hx, lookup_insert_eq in Hx0. done.
Qed.

(** The raw-relay policy is fail closed: with the table built from the
    configuration, a device may relay to a backend exactly when some entry for that
    backend lists its common name, or its SPKI hash in either case of hexadecimal;
    a backend without an entry is denied to every device.  Every entry names a
    configured backend and no backend has two. *)
Theorem raw_authz_fail_closed entries known authz :
  RawRelayAuthz_new entries known = Ok authz →
  NoDup (map rr_backend_id entries) ∧
  (∀ e, e ∈ entries → rr_backend_id e ∈ known) ∧
  ∀ b i, raw_is_allowed authz b i = true ↔
    ∃ e, e ∈ entries ∧ rr_backend_id e = b ∧ entry_admits e i.
Proof.
  unfold RawRelayAuthz_new.
  intros (m & (He & Hm & _ & Hnd)%authz_entries_ok & [= <-])%result_bind_ok.
  split; [done|]. split; [intros e Hin; by destruct (He e Hin)|].
  intros b i. unfold raw_is_allowed, entry_admits. cbn [by_backend]. split.
  - destruct (m !! b) as [p|] eqn:Hb; [|done].
    rewrite orb_true_iff, !bool_decide_eq_true. intros Hin.
    destruct (Hm b p Hb) as [Habs|(e & Hein & <-)]; [by rewrite lookup_empty in Habs|].
    destruct (He e Hein) as (_ & _ & _ & p' & Hp' & [Hcn Hsp]). simplify_map_eq.
    exists e. split_and!; [done..|]. by rewrite <-Hcn, <-Hsp.
  - intros (e & Hein & <- & Hadm). destruct (He e Hein) as (_ & _ & _ & p & -> & [Hcn Hsp]).
    rewrite orb_true_iff, !bool_decide_eq_true, Hcn, Hsp. done.
Qed.

Definition demo_authz_entries : list RawRelayAuthzEntry :=
  [{| rr_backend_id := "db"; allowed_cns := ["device-1"];
      allowed_spkis := ["ABababababababababababababababababababababababababababababababAB"] |}].

Lemma raw_authz_fail_closed_witness :
  ∃ authz, RawRelayAuthz_new demo_authz_entries {["db"]} = Ok authz ∧
  ∀ b i, raw_is_allowed authz b i = true ↔
    ∃ e, e ∈ demo_authz_entries ∧ rr_backend_id e = b ∧ entry_admits e i.
Proof.
  eexists. split; [vm_compute; reflexivity|].
  apply (raw_authz_fail_closed demo_authz_entries {["db"]}). vm_compute. reflexivity.
Defined.

(** The hash a peer is logged and keyed under is read back by the
    revocation list as the same hash, in either case. *)
Theorem spki_hex_roundtrip (i : PeerIdentity) (hex : string) (index : nat) :
  identity_wf i → to_ascii_lowercase hex = spki_hex i →
  decode_spki_hex hex index = Ok (spki_sha256 i) ∧ slen (spki_hex i) = SPKI_HEX_LEN.
Proof.
  intros (_ & Hz & Hb) Hh. split; [by apply decode_spki_hex_spec|].
  unfold spki_hex. rewrite spki_hex_of_length by done. by rewrite Hz.
Qed.

Lemma spki_hex_roundtrip_witness :
  decode_spki_hex "ABABABABABABABABABABABABABABABABABABABABABABABABABABABABABABABAB" 0 =
  Ok (repeat 0xab 32).
Proof.
  apply (spki_hex_roundtrip {| common_name := "device-1"; spki_sha256 := repeat 0xab 32 |}).
  - split; [vm_compute; discriminate|]. split; [vm_compute; reflexivity|].
    apply Forall_forall. intros b Hb%list_elem_of_In%repeat_spec. subst. unfold U8_MAX. lia.
  - vm_compute. reflexivity.
Defined.

(** ** The type of an identity *)

(** A SHA-256 digest is a sequence of bytes. *)
Class X509Laws `{X509} := { sha256_bytes m : Forall (λ b, 0 ≤ b ≤ U8_MAX) (sha256 m) }.

Lemma from_leaf_der_wf `{X509Laws} der i : from_leaf_der der = Ok i → identity_wf i.
Proof.
  unfold from_leaf_der. intros (cert & _ & (attr & _ & (cn & _ & (name & Hname & Hi)%result_bind_ok)%result_bind_ok)%result_bind_ok)%result_bind_ok.
  destruct (zlen (sha256 _) =? SPKI_SHA256_LEN) eqn:Hlen; cbn [negb] in Hi; [|done]. bool_hyps. injection Hi as <-.
  split_and!; cbn; [|done|apply sha256_bytes].
  unfold array_string_from in Hname. destruct (MAX_COMMON_NAME_LEN <? slen cn) eqn:Hcn; [done|]. bool_hyps.
  by injection Hname as <-.
Qed.

(** C34. Whatever certificates a peer presents, over TLS or over QUIC, an identity that is accepted is
    well formed: its name has at most 64 bytes and its key is 32 bytes.  The text of the key,
    which backends receive and policies name, then has 64 characters, is in lower case, and
    no other key has it. *)
Theorem identity_typed `{X509Laws} (certs : option (list (list Z))) (identity : option (option (list (list Z))))
    (i j : PeerIdentity) :
  from_tls_stream certs = Ok i ∨ from_quic_connection identity = Ok i → identity_wf j →
  identity_wf i ∧ slen (spki_hex i) = SPKI_HEX_LEN ∧ to_ascii_lowercase (spki_hex i) = spki_hex i ∧
  (spki_hex i = spki_hex j → spki_sha256 i = spki_sha256 j).
Proof.
  intros Hi Hj. assert (identity_wf i) as Hwf.
  { destruct Hi as [(leaf & _ & Hi)%result_bind_ok|(a & _ & (b & _ & (leaf & _ & Hi)%result_bind_ok)%result_bind_ok)%result_bind_ok];
      by eapply from_leaf_der_wf. }
  split; [done|]. destruct Hwf as (_ & Hlen & Hbytes), Hj as (_ & _ & Hbytes'). unfold spki_hex. split_and!.
  - rewrite spki_hex_of_length by done. by rewrite Hlen.
  - by apply spki_hex_of_lower.
  - by apply spki_hex_of_inj.
Qed.

(** A certificate is its key and its name, and the digest the key over and over. *)
#[local] Instance demo_x509 : X509 := {|
  Certificate := list Z;
  parse_x509 der := Ok der;
  subject_common_names _ := [Ok "device-1"];
  public_key_raw der := der;
  sha256 m := repeat (Z.land (default 0 (head m)) U8_MAX) 32;
|}.

#[local] Instance demo_x509_laws : X509Laws.
Proof.
  constructor. intros m. apply Forall_forall. intros b Hb%list_elem_of_In%repeat_spec. subst.
  change U8_MAX with (Z.ones 8). rewrite Z.land_ones by lia.
  pose proof (Z.mod_pos_bound (default 0 (head m)) (2 ^ 8) eq_refl). change (Z.ones 8) with 255. lia.
Defined.

Lemma identity_typed_witness :
  slen (spki_hex {| common_name := "device-1"; spki_sha256 := repeat 7 32 |}) = 64.
Proof.
  apply (identity_typed (Some [[7; 1]]) None {| common_name := "device-1"; spki_sha256 := repeat 7 32 |}
    {| common_name := ""; spki_sha256 := repeat 0 32 |}).
  - left. reflexivity.
  - split; [vm_compute; discriminate|]. split; [reflexivity|].
    apply Forall_forall. intros b Hb%list_elem_of_In%repeat_spec. subst. unfold U8_MAX. lia.
Defined.
