(* ===== verification/Headers.v ===== *)
(** * Headers: [src/proxy/handler/headers.rs] and [src/proxy/handler/policy.rs]

    The rewriting of a request's headers before it is forwarded, and the decisions
    about caching, compression and retries that read headers only. *)

From Stdlib Require Import Ascii.
From S2P Require Import Prelude Text Error Net Http CacheControl Identity.
Local Open Scope Z_scope.

Definition HOP_BY_HOP_HEADERS : list string :=
  ["connection"; "keep-alive"; "proxy-authenticate"; "proxy-authorization"; "proxy-connection";
   "te"; "trailer"; "transfer-encoding"; "upgrade"; "http2-settings"].

Definition HEADER_CLIENT_ID : string := "x-reduction-client-id".
Definition HEADER_CLIENT_SPKI : string := "x-reduction-client-spki".
Definition HEADER_X_FORWARDED_FOR : string := "x-forwarded-for".
Definition HEADER_X_REAL_IP : string := "x-real-ip".
Definition HEADER_IDEMPOTENCY_KEY : string := "idempotency-key".

Definition STATUS_TOO_MANY_REQUESTS : Z := 429.
Definition STATUS_BAD_GATEWAY : Z := 502.
Definition STATUS_SERVICE_UNAVAILABLE : Z := 503.

Section headers.
  Context `{Http}.

(** [HeaderValue::from_str(s).map_err(|e| Forward(format!("{what}: {e}")))] *)
Definition forward_value (what s : string) : Result string :=
  match value_from_str s with
  | Some v => Ok v
  | None => Err (Forward (what +:+ ": " +:+ invalid_value))
  end.

(** ** [headers.rs] *)

Definition apply_identity_headers (headers : HeaderMap) (identity : option PeerIdentity)
    : Result HeaderMap :=
  let headers := hm_remove HEADER_CLIENT_ID headers in
  let headers := hm_remove HEADER_CLIENT_SPKI headers in
  match identity with
  | None => Ok headers
  | Some identity =>
      cn ← forward_value "invalid client-id header" (common_name identity);
      spki ← forward_value "invalid client-spki header" (spki_hex identity);
      Ok (hm_insert HEADER_CLIENT_SPKI spki (hm_insert HEADER_CLIENT_ID cn headers))
  end.

Definition apply_forwarded_headers (headers : HeaderMap) (client_ip : IpAddr) : Result HeaderMap :=
  let headers := remove_all [HEADER_X_FORWARDED_FOR; "x-forwarded-proto"; "x-forwarded-host";
                             "forwarded"; HEADER_X_REAL_IP] headers in
  ip ← forward_value "invalid client-ip header" (ip_to_string client_ip);
  Ok (hm_insert HEADER_X_REAL_IP ip (hm_insert HEADER_X_FORWARDED_FOR ip headers)).

(** The field names nominated by the [Connection] values. *)
Definition connection_nominated (headers : HeaderMap) : list string :=
  omap (λ name, name_from_bytes (trim name))
    (concat (map (split ",") (omap to_str (get_all headers "connection")))).

Definition strip_hop_by_hop_headers (headers : HeaderMap) : HeaderMap :=
  let nominated := connection_nominated headers in
  remove_all nominated (remove_all HOP_BY_HOP_HEADERS headers).

(** [HeaderExtractor::get] and [HeaderInjector::set]. *)
Definition extractor_get (headers : HeaderMap) (key : string) : option string :=
  get_str headers key.

Definition injector_set (headers : HeaderMap) (key value : string) : HeaderMap :=
  match name_from_bytes key, value_from_str value with
  | Some name, Some val => hm_insert name val headers
  | _, _ => headers
  end.

(** The header part of [forward_request]; [injected] is what the trace propagator sets. *)
Definition outbound_headers (headers : HeaderMap) (host : string) (client_ip : IpAddr)
    (identity : option PeerIdentity) (injected : list (string * string)) : Result HeaderMap :=
  let headers := strip_hop_by_hop_headers headers in
  host ← forward_value "invalid host header" host;
  let headers := hm_insert "host" host headers in
  headers ← apply_forwarded_headers headers client_ip;
  headers ← apply_identity_headers headers identity;
  Ok (foldl (λ h p, injector_set h p.1 p.2) headers injected).

(** ** [policy.rs] *)

Definition response_is_encoded {B} (response : Response B) : bool :=
  contains_key (res_headers response) "content-encoding".

Definition is_cacheable_status (status : Z) : bool := status =? 200.

Definition vary_permits_caching (headers : HeaderMap) : bool :=
  match get_str headers "vary" with
  | None => true
  | Some vary =>
      forallb (λ token,
        let name := to_ascii_lowercase (trim token) in
        String.eqb name "accept-encoding" || String.eqb name HEADER_CLIENT_ID ||
        String.eqb name HEADER_CLIENT_SPKI) (split "," vary)
  end.

(** The request headers a stored response may vary on: those the cache accounts for. *)
Definition KEYED_VARY : list string := ["accept-encoding"; HEADER_CLIENT_ID; HEADER_CLIENT_SPKI].

Lemma vary_permits_iff headers :
  vary_permits_caching headers = true ↔
  ∀ v s token, head (get_all headers "vary") = Some v → to_str v = Some s → token ∈ split "," s →
    to_ascii_lowercase (trim token) ∈ KEYED_VARY.
Proof.
  unfold vary_permits_caching, get_str, hm_get. destruct (head (get_all headers "vary")) as [v|]; cbn; [|naive_solver].
  destruct (to_str v) as [s|] eqn:Hv; [|naive_solver]. rewrite forallb_elem_of. unfold KEYED_VARY.
  setoid_rewrite orb_true_iff. setoid_rewrite orb_true_iff. setoid_rewrite String.eqb_eq. setoid_rewrite elem_of_cons.
  setoid_rewrite elem_of_cons. setoid_rewrite list_elem_of_singleton. naive_solver.
Qed.

Definition response_permits_shared_caching (request_has_cookie : bool) (directives : CacheDirectives)
    : bool := negb request_has_cookie && is_public directives.

Definition is_retryable_status (status : Z) : bool :=
  (status =? STATUS_BAD_GATEWAY) || (status =? STATUS_SERVICE_UNAVAILABLE) ||
  (status =? STATUS_TOO_MANY_REQUESTS).

Definition is_idempotent_method (method : string) : bool :=
  existsb (String.eqb method) ["GET"; "HEAD"; "OPTIONS"; "TRACE"; "PUT"; "DELETE"].

Definition retries_permitted (method : string) (headers : HeaderMap) : bool :=
  is_idempotent_method method ||
  match hm_get headers HEADER_IDEMPOTENCY_KEY with
  | Some value => negb (String.eqb value "")
  | None => false
  end.

(** ** What reaches a backend *)

(** Client claims about where a request comes from and who sent it. *)
Definition SPOOFABLE : list string :=
  [HEADER_X_FORWARDED_FOR; "x-forwarded-proto"; "x-forwarded-host"; "forwarded"; HEADER_X_REAL_IP;
   HEADER_CLIENT_ID; HEADER_CLIENT_SPKI].

(** What the proxy states itself, name by name. *)
Definition vouched (host : string) (client_ip : IpAddr) (identity : option PeerIdentity)
    : list (string * string) :=
  [("host", host); (HEADER_X_FORWARDED_FOR, ip_to_string client_ip);
   (HEADER_X_REAL_IP, ip_to_string client_ip)] ++
  match identity with
  | None => []
  | Some i => [(HEADER_CLIENT_ID, common_name i); (HEADER_CLIENT_SPKI, spki_hex i)]
  end.

(** The fields of [TraceContextPropagator]. *)
Definition TRACE_FIELDS : list string := ["traceparent"; "tracestate"].

End headers.

Section outbound.
  Context `{HttpLaws}.

Lemma forward_value_ok what s v : forward_value what s = Ok v → v = s.
Proof.
  unfold forward_value. destruct (value_from_str s) eqn:E; [|done].
  intros [= ->]. by eapply value_from_str_exact.
Qed.

Lemma injected_get_all injected h n :
  (∀ k v, (k, v) ∈ injected → to_ascii_lowercase k ≠ n) →
  get_all (foldl (λ h p, injector_set h p.1 p.2) h injected) n = get_all h n.
Proof.
  revert h. induction injected as [|[k v] l IH]; intros h Hn; [done|]. cbn [foldl fst snd].
  rewrite IH by (intros; eapply Hn; apply elem_of_cons; eauto). unfold injector_set.
  destruct (name_from_bytes k) as [name|] eqn:Hk; [|done]. destruct (value_from_str v); [|done].
  apply name_from_bytes_lower in Hk as ->. apply get_all_insert_ne.
  eapply Hn. apply elem_of_cons. eauto.
Qed.

Lemma forwarded_get_all h ip h' n :
  apply_forwarded_headers h ip = Ok h' →
  get_all h' n =
    if decide (n = HEADER_X_REAL_IP) then [ip_to_string ip]
    else if decide (n = HEADER_X_FORWARDED_FOR) then [ip_to_string ip]
    else if decide (n ∈ SPOOFABLE ∧ n ≠ HEADER_CLIENT_ID ∧ n ≠ HEADER_CLIENT_SPKI) then []
    else get_all h n.
Proof.
  unfold apply_forwarded_headers. intros (v & Hv & <-%(inj Ok))%result_bind_ok.
  apply forward_value_ok in Hv as ->. rewrite !get_all_insert, get_all_remove_all.
  destruct (decide (n = HEADER_X_REAL_IP)) as [->|H1]; [by rewrite String.eqb_refl|].
  rewrite (proj2 (String.eqb_neq _ _)) by done.
  destruct (decide (n = HEADER_X_FORWARDED_FOR)) as [->|H2]; [by rewrite String.eqb_refl|].
  rewrite (proj2 (String.eqb_neq _ _)) by done. unfold SPOOFABLE.
  repeat case_decide; set_solver.
Qed.

Lemma identity_get_all h identity h' n :
  apply_identity_headers h identity = Ok h' →
  get_all h' n =
    if decide (n = HEADER_CLIENT_SPKI) then from_option (λ i, [spki_hex i]) [] identity
    else if decide (n = HEADER_CLIENT_ID) then from_option (λ i, [common_name i]) [] identity
    else get_all h n.
Proof.
  unfold apply_identity_headers. intros Hok.
  destruct identity as [i|]; cbn [from_option].
  - apply result_bind_ok in Hok as (cn & Hcn & (spki & Hs & [= <-])%result_bind_ok).
    apply forward_value_ok in Hcn as ->, Hs as ->.
    rewrite !get_all_insert, !get_all_remove.
    repeat case_decide; subst; rewrite ?String.eqb_refl; try done;
      rewrite !(proj2 (String.eqb_neq _ _)) by done; done.
  - injection Hok as <-. rewrite !get_all_remove.
    repeat case_decide; subst; rewrite ?String.eqb_refl; try done;
      rewrite ?(proj2 (String.eqb_neq _ _)) by done; done.
Qed.

(** A request that is forwarded states about its origin exactly what the proxy has proven.
    Every vouched header has one value, the proxy's; the other origin claims, the
    connection-specific fields and the fields the client nominated in [Connection] are
    gone; and every remaining header is the client's, unchanged. *)
Theorem outbound_headers_vouched (h h' : HeaderMap) (host : string) (ip : IpAddr)
    (identity : option PeerIdentity) (injected : list (string * string)) :
  (∀ k v, (k, v) ∈ injected → to_ascii_lowercase k ∈ TRACE_FIELDS) →
  outbound_headers h host ip identity injected = Ok h' →
  (∀ n v, (n, v) ∈ vouched host ip identity → get_all h' n = [v]) ∧
  (∀ n, n ∈ SPOOFABLE ++ HOP_BY_HOP_HEADERS ++ connection_nominated h →
        n ∉ (vouched host ip identity).*1 ++ TRACE_FIELDS → get_all h' n = []) ∧
  (∀ n, n ∉ SPOOFABLE ++ HOP_BY_HOP_HEADERS ++ connection_nominated h →
        n ∉ "host" :: TRACE_FIELDS → get_all h' n = get_all h n).
Proof.
  intros Hinj. unfold outbound_headers.
  intros (host' & Hhost & (h1 & H1 & (h2 & H2 & [= <-])%result_bind_ok)%result_bind_ok)%result_bind_ok.
  apply forward_value_ok in Hhost as ->.
  assert (∀ n, n ∉ TRACE_FIELDS →
    get_all (foldl (λ h p, injector_set h p.1 p.2) h2 injected) n = get_all h2 n) as Hout.
  { intros n Hn. apply injected_get_all. intros k v Hkv <-. by eapply Hn, Hinj. }
  assert (∀ n, get_all (hm_insert "host" host (strip_hop_by_hop_headers h)) n =
    if decide (n = "host") then [host]
    else if decide (n ∈ HOP_BY_HOP_HEADERS ++ connection_nominated h) then [] else get_all h n) as Hstrip.
  { intros n. rewrite get_all_insert. unfold strip_hop_by_hop_headers.
    rewrite !get_all_remove_all. destruct (decide (n = "host")) as [->|Hn]; [done|].
    rewrite (proj2 (String.eqb_neq _ _)) by done. repeat case_decide; set_solver. }
  assert (∀ n, n ∉ TRACE_FIELDS → get_all (foldl (λ h p, injector_set h p.1 p.2) h2 injected) n =
    if decide (n = HEADER_CLIENT_SPKI) then from_option (λ i, [spki_hex i]) [] identity
    else if decide (n = HEADER_CLIENT_ID) then from_option (λ i, [common_name i]) [] identity
    else if decide (n = HEADER_X_REAL_IP) then [ip_to_string ip]
    else if decide (n = HEADER_X_FORWARDED_FOR) then [ip_to_string ip]
    else if decide (n ∈ SPOOFABLE ∧ n ≠ HEADER_CLIENT_ID ∧ n ≠ HEADER_CLIENT_SPKI) then []
    else if decide (n = "host") then [host]
    else if decide (n ∈ HOP_BY_HOP_HEADERS ++ connection_nominated h) then [] else get_all h n) as Hall.
  { intros n Hn. rewrite Hout by done. rewrite (identity_get_all _ _ _ n H2).
    rewrite (forwarded_get_all _ _ _ n H1). by rewrite Hstrip. }
  split_and!.
  - intros n v Hv. unfold vouched in Hv.
    destruct identity as [i|]; cbn [app] in Hv; rewrite ?elem_of_cons, elem_of_nil in Hv;
      destruct_or?; simplify_eq; rewrite Hall by by_decide; done.
  - intros n Hn Hv. apply not_elem_of_app in Hv as [Hv Ht]. rewrite Hall by done.
    assert (∀ v, (n, v) ∉ vouched host ip identity) as Hv'.
    { intros v Hin. apply Hv, list_elem_of_fmap. by exists (n, v). }
    clear Hv. unfold vouched in Hv'. apply elem_of_app in Hn.
    destruct identity as [i|]; cbn [from_option app] in *; repeat case_decide; subst; try done;
      try (exfalso; eapply Hv'; rewrite !elem_of_cons; eauto 7; fail);
      destruct Hn as [Hn|Hn]; naive_solver.
  - intros n Hn [Hh Ht]%not_elem_of_cons. apply not_elem_of_app in Hn as [Hs Hn].
    rewrite Hall by done.
    repeat case_decide; subst; try done; try (by destruct Hs; by_decide); naive_solver.
Qed.
End outbound.

(** ** Witness *)

Definition demo_request_headers : HeaderMap :=
  [("x-forwarded-for", "6.6.6.6"); (HEADER_CLIENT_ID, "admin"); ("connection", "close, X-Debug");
   ("x-debug", "1"); ("accept", "text/plain")].

Definition demo_identity : PeerIdentity := {| common_name := "edge-7"; spki_sha256 := [1; 255] |}.

Definition demo_outbound : HeaderMap :=
  match outbound_headers demo_request_headers "db.internal" (V4 167772161) (Some demo_identity)
          [("traceparent", "00-01")] with
  | Ok h => h
  | Err _ => hm_new
  end.

Lemma outbound_headers_vouched_witness :
  get_all demo_outbound HEADER_X_FORWARDED_FOR = ["10.0.0.1"] ∧
  get_all demo_outbound HEADER_CLIENT_ID = ["edge-7"] ∧
  get_all demo_outbound "x-debug" = [] ∧ get_all demo_outbound "accept" = ["text/plain"].
Proof.
  destruct (outbound_headers_vouched demo_request_headers demo_outbound "db.internal" (V4 167772161)
              (Some demo_identity) [("traceparent", "00-01")]) as (Hv & Hs & Hk).
  - intros k v Hkv. apply elem_of_cons in Hkv as [[= -> ->]|Hkv]; [by_decide|by apply elem_of_nil in Hkv].
  - vm_compute. reflexivity.
  - split_and!; [apply Hv; by_decide..| |].
    + apply Hs; by_decide.
    + rewrite Hk by by_decide. vm_compute. reflexivity.
Defined.
