(* ===== verification/TunnelProtocol.v ===== *)
(** * TunnelProtocol: [src/tunnel/protocol.rs]

    The control stream of a tunnel: the version preamble, the frames and their
    length-prefixed encoding, and the session identifiers. *)

From Stdlib Require Import Ascii.
From S2P Require Import Prelude Text Error Wire Identity.
Local Open Scope Z_scope.

Definition LENGTH_PREFIX_SIZE : nat := 4.
Definition MAX_FRAME_SIZE : Z := 64 * 1024.
Definition PROTOCOL_MAGIC : list Z := bytes_of "RDTN".
Definition PROTOCOL_VERSION : Z := 1.
Definition PREAMBLE_LEN : nat := 5.
Definition SESSION_ID_LEN : nat := 21.
Definition CONTROL_CAPABILITY : string := "control".

Record SessionId := { session_bytes : list Z }.

#[export] Instance SessionId_eq_dec : EqDecision SessionId.
Proof. solve_decision. Defined.

Inductive TunnelFrame :=
  | Register (backend_id pool : string) (capabilities : list string)
  | RegisterAck (session_id : SessionId)
  | Heartbeat (timestamp_ms : Z)
  | HeartbeatAck
  | NewStream (stream_id : Z)
  | Health (backend_id : string) (available : bool)
  | Wake (backend_id : string) (timeout_ms : Z)
  | RefuseWake (backend_id : string)
  | Shutdown (reason : string).

#[export] Instance TunnelFrame_eq_dec : EqDecision TunnelFrame.
Proof. solve_decision. Defined.

Definition tunnel_err {A} (what : string) (r : result string A) : Result A :=
  match r with Ok a => Ok a | Err e => Err (Tunnel (what +:+ ": " +:+ e)) end.

(** ** The preamble *)

Definition write_preamble (w : Writer) : Result unit * Writer :=
  let buf := PROTOCOL_MAGIC ++ [PROTOCOL_VERSION] in
  let '(r, w) := write_all buf w in
  match tunnel_err "write preamble" r with
  | Err e => (Err e, w)
  | Ok _ => (tunnel_err "flush preamble" (flush w), w)
  end.

Definition read_preamble (r : list Z) : Result Z * list Z :=
  let '(res, r) := read_exact PREAMBLE_LEN r in
  match tunnel_err "read preamble" res with
  | Err e => (Err e, r)
  | Ok buf =>
      if negb (bool_decide (take (length PROTOCOL_MAGIC) buf = PROTOCOL_MAGIC)) then
        (Err (Tunnel "bad protocol magic: peer is not a reduction tunnel endpoint"), r)
      else (Ok (nth (length PROTOCOL_MAGIC) buf 0), r)
  end.

(** ** Session identifiers *)

(** The format [{value:016x}]. *)
Definition hex16 (value : Z) : string := spki_hex_of (to_be_bytes 8 value).

(** [SessionId::generate]: [random] is what the system generator filled in, [None]
    when it is unavailable; [copy_from_slice] needs the exact length. *)
Definition SessionId_generate (random : option (list Z)) : Result SessionId :=
  random ← ok_or random (Tunnel "system RNG unavailable for session id");
  let value := from_be_bytes random in
  Ok {| session_bytes := bytes_of ("sess-" +:+ hex16 value) |}.

Section frames.
  Context `{CodecLaws TunnelFrame}.

Definition too_large (what : string) (n : nat) : ReductionError :=
  Tunnel (what +:+ ": " +:+ pretty n +:+ " bytes").

(** [encode]: the length must fit a [u32] and stay below the frame cap. *)
Definition encode (frame : TunnelFrame) : Result (list Z) :=
  let payload := bc_encode frame in
  if U32_MAX <? zlen payload then Err (too_large "frame payload too large" (length payload))
  else if MAX_FRAME_SIZE <? zlen payload then Err (too_large "frame too large" (length payload))
  else Ok (to_be_bytes LENGTH_PREFIX_SIZE (zlen payload) ++ payload).

Definition safe_decode (payload : list Z) : Result TunnelFrame :=
  match bc_decode payload with
  | Decoded frame => Ok frame
  | DecodePanic => Err (Tunnel "decode panic (possibly oversized field)")
  | DecodeError e => Err (Tunnel ("decode error: " +:+ e))
  end.

Definition decode (buf : list Z) : Result TunnelFrame :=
  if (length buf <? LENGTH_PREFIX_SIZE)%nat then
    Err (Tunnel "frame too short for length prefix")
  else
    let len := from_be_bytes (take LENGTH_PREFIX_SIZE buf) in
    let expected_total := saturating_add (Z.of_nat LENGTH_PREFIX_SIZE) len in
    if zlen buf <? expected_total then
      Err (Tunnel ("frame truncated: expected " +:+ pretty expected_total +:+ " bytes, got " +:+
                   pretty (length buf)))
    else if MAX_FRAME_SIZE <? len then
      Err (Tunnel ("frame too large: " +:+ pretty len +:+ " bytes"))
    else safe_decode (drop LENGTH_PREFIX_SIZE (take (Z.to_nat expected_total) buf)).

Definition read_frame (r : list Z) : Result TunnelFrame * list Z :=
  let '(res, r) := read_exact LENGTH_PREFIX_SIZE r in
  match tunnel_err "read length" res with
  | Err e => (Err e, r)
  | Ok len_buf =>
      let len := from_be_bytes len_buf in
      if MAX_FRAME_SIZE <? len then
        (Err (Tunnel ("frame too large: " +:+ pretty len +:+ " bytes")), r)
      else
        let '(res, r) := read_exact (Z.to_nat len) r in
        match tunnel_err "read payload" res with
        | Err e => (Err e, r)
        | Ok payload => (safe_decode payload, r)
        end
  end.

Definition write_frame (frame : TunnelFrame) (w : Writer) : Result unit * Writer :=
  let payload := bc_encode frame in
  if U32_MAX <? zlen payload then (Err (too_large "frame payload too large" (length payload)), w)
  else if MAX_FRAME_SIZE <? zlen payload then (Err (too_large "frame too large" (length payload)), w)
  else
    let '(r, w) := write_all (to_be_bytes LENGTH_PREFIX_SIZE (zlen payload)) w in
    match tunnel_err "write length" r with
    | Err e => (Err e, w)
    | Ok _ =>
        let '(r, w) := write_all payload w in
        match tunnel_err "write payload" r with
        | Err e => (Err e, w)
        | Ok _ => (tunnel_err "flush" (flush w), w)
        end
    end.

(** ** Frames on the wire *)

Definition fits (frame : TunnelFrame) : Prop := zlen (bc_encode frame) ≤ MAX_FRAME_SIZE.

Definition frame_bytes (frame : TunnelFrame) : list Z :=
  to_be_bytes LENGTH_PREFIX_SIZE (zlen (bc_encode frame)) ++ bc_encode frame.

Definition are_bytes (l : list Z) : Prop := Forall (λ b, 0 ≤ b ≤ 255) l.

Lemma fits_bounds frame :
  fits frame → (U32_MAX <? zlen (bc_encode frame)) = false ∧
               (MAX_FRAME_SIZE <? zlen (bc_encode frame)) = false.
Proof. unfold fits, U32_MAX, MAX_FRAME_SIZE. lia. Qed.

Lemma frame_length frame :
  fits frame → from_be_bytes (to_be_bytes LENGTH_PREFIX_SIZE (zlen (bc_encode frame))) = zlen (bc_encode frame).
Proof.
  unfold fits, MAX_FRAME_SIZE. intros Hf. apply from_to_be_bytes.
  unfold LENGTH_PREFIX_SIZE, zlen in *. lia.
Qed.

Lemma safe_decode_encode frame : safe_decode (bc_encode frame) = Ok frame.
Proof. unfold safe_decode. by rewrite bc_decode_encode. Qed.

Lemma write_frame_ok frame w :
  fits frame → room w = None →
  write_frame frame w = (Ok (), {| sent := sent w ++ frame_bytes frame; room := None |}).
Proof.
  intros [H1 H2]%fits_bounds Hr. unfold write_frame. rewrite H1, H2.
  rewrite (write_all_none _ w Hr). cbn [tunnel_err]. rewrite write_all_none by done.
  unfold frame_bytes. by rewrite app_assoc.
Qed.

Lemma read_frame_app frame rest : fits frame → read_frame (frame_bytes frame ++ rest) = (Ok frame, rest).
Proof.
  intros Hf. unfold read_frame, frame_bytes. rewrite <-app_assoc, read_exact_app by apply to_be_bytes_length.
  cbn [tunnel_err]. rewrite frame_length by done. rewrite (proj2 (fits_bounds _ Hf)).
  rewrite read_exact_app by (unfold zlen; lia). cbn [tunnel_err]. by rewrite safe_decode_encode.
Qed.

(** A reader and a writer of a whole conversation. *)
Fixpoint write_frames (fs : list TunnelFrame) (w : Writer) : Result unit * Writer :=
  match fs with
  | [] => (Ok (), w)
  | f :: fs =>
      let '(r, w) := write_frame f w in
      match r with Ok _ => write_frames fs w | Err e => (Err e, w) end
  end.

Fixpoint read_frames (n : nat) (r : list Z) : Result (list TunnelFrame) * list Z :=
  match n with
  | O => (Ok [], r)
  | S n =>
      let '(res, r) := read_frame r in
      match res with
      | Err e => (Err e, r)
      | Ok f =>
          let '(res, r) := read_frames n r in
          (fs ← res; Ok (f :: fs), r)
      end
  end.

(** C25. Frames survive the control stream: whatever sequence of frames within
    the size cap one side writes, the other side reads back the same sequence and is
    left exactly at the bytes that follow. *)
Theorem tunnel_stream_roundtrip (fs : list TunnelFrame) (w : Writer) (rest : list Z) :
  Forall fits fs → room w = None →
  ∃ bytes, write_frames fs w = (Ok (), {| sent := sent w ++ bytes; room := None |}) ∧
           read_frames (length fs) (bytes ++ rest) = (Ok fs, rest).
Proof.
  intros Hfs. revert w. induction Hfs as [|f fs Hf _ IH]; intros w Hr.
  - exists []. rewrite app_nil_r. destruct w; simpl in *. by subst.
  - destruct (IH {| sent := sent w ++ frame_bytes f; room := None |} eq_refl) as (bytes & Hw & Hread).
    exists (frame_bytes f ++ bytes). split.
    + cbn [write_frames]. rewrite write_frame_ok by done. rewrite Hw. cbn [sent]. by rewrite app_assoc.
    + cbn [length read_frames]. rewrite <-app_assoc, read_frame_app by done. by rewrite Hread.
Qed.

Lemma read_exact_cases n r :
  (∃ l r', r = l ++ r' ∧ length l = n ∧ read_exact n r = (Ok l, r')) ∨
  ((length r < n)%nat ∧ read_exact n r = (Err "early eof", [])).
Proof.
  destruct (decide (n ≤ length r)%nat) as [Hle|Hlt].
  - left. exists (take n r), (drop n r). rewrite take_drop. split_and!; [done| |].
    + rewrite length_take. lia.
    + unfold read_exact. by rewrite (proj2 (Nat.leb_le _ _)) by lia.
  - right. split; [lia|]. apply read_exact_short. lia.
Qed.

(** Reading from a hostile peer is bounded: whatever the bytes, one call
    consumes at most the prefix and [MAX_FRAME_SIZE] bytes, a declared length above
    the cap is refused before any payload byte is read, and a frame is delivered only
    when the payload of the declared length is there in full and decodes to it. *)
Theorem read_frame_bounded (r r' : list Z) (res : Result TunnelFrame) :
  are_bytes r → read_frame r = (res, r') →
  zlen r ≤ zlen r' + Z.of_nat LENGTH_PREFIX_SIZE + MAX_FRAME_SIZE ∧
  (∀ prefix rest, r = prefix ++ rest → length prefix = LENGTH_PREFIX_SIZE →
     MAX_FRAME_SIZE < from_be_bytes prefix → is_err res = true ∧ r' = rest) ∧
  (∀ f, res = Ok f → ∃ prefix payload, r = prefix ++ payload ++ r' ∧
     length prefix = LENGTH_PREFIX_SIZE ∧ from_be_bytes prefix = zlen payload ∧
     zlen payload ≤ MAX_FRAME_SIZE ∧ bc_decode payload = Decoded f).
Proof.
  intros Hb. unfold read_frame.
  destruct (read_exact_cases LENGTH_PREFIX_SIZE r) as [(l & r1 & -> & Hl & ->)|[Hshort ->]]; cbn [tunnel_err].
  2:{ intros [= <- <-]. unfold zlen, MAX_FRAME_SIZE, LENGTH_PREFIX_SIZE in *. split; [cbn; lia|]. split; [|done].
      intros prefix rest -> Hp. rewrite length_app in Hshort. lia. }
  apply Forall_app in Hb as [Hbl _]. pose proof (from_be_bytes_bounds l Hbl) as Hlen.
  assert (∀ prefix rest, l ++ r1 = prefix ++ rest → length prefix = LENGTH_PREFIX_SIZE →
    prefix = l ∧ rest = r1) as Hsplit.
  { intros prefix rest Heq Hp. apply app_inj_1 in Heq as [-> ->]; [done|]. congruence. }
  unfold MAX_FRAME_SIZE in *. rewrite zlen_app. assert (zlen l = 4) by (unfold zlen; by rewrite Hl).
  destruct (_ <? from_be_bytes l) eqn:Hbig; bool_hyps.
  { intros [= <- <-]. split; [unfold LENGTH_PREFIX_SIZE; lia|]. split; [|done].
    intros prefix rest Heq Hp _. by destruct (Hsplit _ _ Heq Hp) as [-> ->]. }
  destruct (read_exact_cases (Z.to_nat (from_be_bytes l)) r1) as [(p & r2 & -> & Hp & ->)|[Hshort ->]]; cbn [tunnel_err].
  - intros [= <- <-]. assert (zlen p = from_be_bytes l) by (unfold zlen; lia). rewrite zlen_app. split_and!.
    + unfold LENGTH_PREFIX_SIZE. lia.
    + intros prefix rest Heq Hpl Hmax. destruct (Hsplit _ _ Heq Hpl) as [-> _]. lia.
    + unfold safe_decode. intros f Hf. exists l, p. split_and!; [done..|lia|].
      by destruct (bc_decode p); simplify_eq.
  - intros [= <- <-]. split; [unfold LENGTH_PREFIX_SIZE, zlen in *; cbn; lia|]. split; [|done].
    intros prefix rest Heq Hpl Hmax. destruct (Hsplit _ _ Heq Hpl) as [-> _]. lia.
Qed.

(** The buffer decoder and the stream reader accept the same frames: a
    buffer decodes to [f] exactly when reading a frame from those bytes gives [f];
    in particular a truncated or oversized buffer decodes to an error, never to a
    frame and never by an out-of-range slice. *)
Theorem decode_read_frame (buf : list Z) (f : TunnelFrame) :
  are_bytes buf → decode buf = Ok f ↔ (read_frame buf).1 = Ok f.
Proof.
  intros Hb. unfold decode, read_frame.
  destruct (read_exact_cases LENGTH_PREFIX_SIZE buf) as [(l & r1 & -> & Hl & ->)|[Hshort ->]]; cbn [tunnel_err].
  2:{ by rewrite (proj2 (Nat.ltb_lt _ _)). }
  apply Forall_app in Hb as [Hbl _]. pose proof (from_be_bytes_bounds l Hbl) as Hlen.
  rewrite length_app, (proj2 (Nat.ltb_ge _ _)) by lia.
  rewrite <-Hl, take_app_length, zlen_app. assert (zlen l = 4) as Hz by (unfold zlen; by rewrite Hl).
  rewrite Hz in *. unfold saturating_add, U64_MAX. rewrite Hl, Z.min_l by (unfold LENGTH_PREFIX_SIZE; lia).
  unfold MAX_FRAME_SIZE. replace (Z.of_nat LENGTH_PREFIX_SIZE) with 4 by done.
  set (n := from_be_bytes l) in *.
  destruct (_ <? n) eqn:Hbig; [by case_match|]. bool_hyps.
  destruct (read_exact_cases (Z.to_nat n) r1) as [(p & r2 & -> & Hp & ->)|[Hshort ->]]; cbn [tunnel_err].
  - rewrite zlen_app. rewrite (proj2 (Z.ltb_ge _ _)) by (unfold zlen in *; lia).
    replace (take (Z.to_nat (4 + n)) (l ++ p ++ r2)) with (l ++ p); [by rewrite <-Hl, drop_app_length|].
    rewrite app_assoc, take_app_length'; [done|]. rewrite length_app, Hl, Hp. unfold LENGTH_PREFIX_SIZE. lia.
  - by rewrite (proj2 (Z.ltb_lt _ _)) by (unfold zlen in *; lia).
Qed.
End frames.

(** ** Witnesses *)

#[export] Instance SessionId_countable : Countable SessionId.
Proof.
  refine (inj_countable' session_bytes Build_SessionId _). by intros [].
Defined.

#[export] Instance TunnelFrame_countable : Countable TunnelFrame.
Proof.
  refine (inj_countable'
    (λ f, match f with
          | Register b p c => inl (inl (b, p, c))
          | RegisterAck s => inl (inr s)
          | Heartbeat t => inr (inl (inl t))
          | HeartbeatAck => inr (inl (inr ()))
          | NewStream i => inr (inr (inl (inl i)))
          | Health b a => inr (inr (inl (inr (b, a))))
          | Wake b t => inr (inr (inr (inl (b, t))))
          | RefuseWake b => inr (inr (inr (inr (inl b))))
          | Shutdown r => inr (inr (inr (inr (inr r))))
          end)
    (λ s, match s with
          | inl (inl (b, p, c)) => Register b p c
          | inl (inr s) => RegisterAck s
          | inr (inl (inl t)) => Heartbeat t
          | inr (inl (inr _)) => HeartbeatAck
          | inr (inr (inl (inl i))) => NewStream i
          | inr (inr (inl (inr (b, a)))) => Health b a
          | inr (inr (inr (inl (b, t)))) => Wake b t
          | inr (inr (inr (inr (inl b)))) => RefuseWake b
          | inr (inr (inr (inr (inr r)))) => Shutdown r
          end) _).
  by intros [].
Defined.

#[local] Instance demo_codec : Codec TunnelFrame := countable_codec TunnelFrame.
#[local] Instance demo_codec_laws : CodecLaws TunnelFrame := countable_codec_laws TunnelFrame.

Definition demo_frames : list TunnelFrame := [Register "db" "p" ["raw"]; HeartbeatAck; Wake "db" 30].

Lemma tunnel_stream_roundtrip_witness :
  ∃ bytes, write_frames demo_frames {| sent := []; room := None |} = (Ok (), {| sent := bytes; room := None |}) ∧
           read_frames 3 (bytes ++ [7]) = (Ok demo_frames, [7]).
Proof.
  apply (tunnel_stream_roundtrip demo_frames {| sent := []; room := None |} [7]).
  - repeat (apply Forall_cons_2; [unfold fits; vm_compute; discriminate|]). apply Forall_nil_2.
  - reflexivity.
Defined.

Lemma read_frame_bounded_witness :
  zlen [1; 0; 0; 0; 9; 9] ≤ zlen [9; 9] + Z.of_nat LENGTH_PREFIX_SIZE + MAX_FRAME_SIZE.
Proof.
  apply (read_frame_bounded [1; 0; 0; 0; 9; 9] [9; 9]
    (Err (Tunnel "frame too large: 16777216 bytes"))).
  - repeat (apply Forall_cons_2; [lia|]). apply Forall_nil_2.
  - vm_compute. reflexivity.
Defined.

Lemma decode_read_frame_witness : decode (frame_bytes HeartbeatAck) = Ok HeartbeatAck.
Proof.
  apply (decode_read_frame (frame_bytes HeartbeatAck) HeartbeatAck).
  - apply (bool_decide_unpack _). vm_compute. exact I.
  - vm_compute. reflexivity.
Defined.

(** ** Identifiers and preamble *)

Lemma bytes_of_inj s t : bytes_of s = bytes_of t → s = t.
Proof.
  unfold bytes_of. revert t. induction s as [|a s IH]; intros [|b t] Heq; cbn in *; try done.
  injection Heq as Hab%byte_of_inj Hst. by rewrite Hab, (IH t Hst).
Qed.

Lemma to_be_bytes_are_bytes k n : Forall is_byte (to_be_bytes k n).
Proof.
  revert n. induction k as [|k IH]; intros n; cbn; [constructor|].
  apply Forall_app. split; [apply IH|]. repeat constructor; unfold U8_MAX;
    pose proof (Z.mod_pos_bound n 256); lia.
Qed.

Lemma hex16_inj v w : 0 ≤ v < 2 ^ 64 → 0 ≤ w < 2 ^ 64 → hex16 v = hex16 w → v = w.
Proof.
  intros Hv Hw Heq. apply (to_be_bytes_inj 8); [done..|].
  eapply spki_hex_of_inj; [apply to_be_bytes_are_bytes..|exact Heq].
Qed.

(** A session id fills its 21-byte buffer exactly, and two draws of the
    generator give the same id only when they are the same 64-bit number: ids
    collide no more often than the generator does. *)
Theorem session_id_injective (r1 r2 : list Z) :
  are_bytes r1 → are_bytes r2 → length r1 = 8%nat → length r2 = 8%nat →
  ∃ id1 id2, SessionId_generate (Some r1) = Ok id1 ∧ SessionId_generate (Some r2) = Ok id2 ∧
    length (session_bytes id1) = SESSION_ID_LEN ∧
    (id1 = id2 ↔ from_be_bytes r1 = from_be_bytes r2).
Proof.
  intros Hb1 Hb2 Hl1 Hl2. eexists _, _. split; [reflexivity|]. split; [reflexivity|].
  assert (∀ r, are_bytes r → length r = 8%nat → 0 ≤ from_be_bytes r < 2 ^ 64) as Hrange.
  { intros r Hb Hl. pose proof (from_be_bytes_bounds r Hb) as Hr. unfold zlen in Hr. by rewrite Hl in Hr. }
  split.
  - cbn [session_bytes]. apply Nat2Z.inj.
    change (zlen (bytes_of ("sess-" +:+ hex16 (from_be_bytes r1))) = 21).
    rewrite bytes_of_length, slen_app. unfold hex16.
    rewrite spki_hex_of_length by apply to_be_bytes_are_bytes.
    unfold zlen. rewrite to_be_bytes_length. done.
  - split; [|by intros ->]. intros Heq. apply (f_equal session_bytes) in Heq.
    change (bytes_of ("sess-" +:+ hex16 (from_be_bytes r1)) =
            bytes_of ("sess-" +:+ hex16 (from_be_bytes r2))) in Heq.
    apply bytes_of_inj, app_length_inj in Heq as [_ Heq]; [|done].
    apply hex16_inj in Heq; auto.
Qed.

Lemma session_id_injective_witness :
  ∃ id1 id2, SessionId_generate (Some [0;0;0;0;0;0;0;1]) = Ok id1 ∧
    SessionId_generate (Some [0;0;0;0;0;0;0;2]) = Ok id2 ∧ length (session_bytes id1) = SESSION_ID_LEN ∧
    (id1 = id2 ↔ from_be_bytes [0;0;0;0;0;0;0;1] = from_be_bytes [0;0;0;0;0;0;0;2]).
Proof.
  apply (session_id_injective [0;0;0;0;0;0;0;1] [0;0;0;0;0;0;0;2]);
    [apply (bool_decide_unpack _); vm_compute; exact I..|reflexivity|reflexivity].
Defined.

Lemma read_preamble_spec r :
  (read_preamble r).1 =
  match r with
  | m1 :: m2 :: m3 :: m4 :: v :: _ =>
      if bool_decide ([m1; m2; m3; m4] = PROTOCOL_MAGIC) then Ok v
      else Err (Tunnel "bad protocol magic: peer is not a reduction tunnel endpoint")
  | _ => Err (Tunnel "read preamble: early eof")
  end.
Proof.
  do 5 (destruct r as [|? r]; [done|]). unfold read_preamble, read_exact. cbn -[bool_decide PROTOCOL_MAGIC].
  by destruct (bool_decide _).
Qed.
