(* ===== verification/Balancer.v ===== *)
(** * Balancer: [src/balancer/], [src/health/state.rs] and the backend type

    Weighted rendezvous selection over the health state.  The natural logarithm is
    the platform's [f64::ln], an argument of the score; the connection pressure is
    a function of the backend, as in the source. *)

From Stdlib Require Import Ascii.
From S2P Require Import Prelude Text Error Net Lru Float64 Wire.
Local Open Scope Z_scope.

(** ** [src/config/types/backend.rs] *)

Inductive TransportKind := Tcp | Quic.
Inductive BackendScheme := Https | Http_.

#[export] Instance TransportKind_eq_dec : EqDecision TransportKind.
Proof. solve_decision. Defined.
#[export] Instance BackendScheme_eq_dec : EqDecision BackendScheme.
Proof. solve_decision. Defined.

Definition DEFAULT_MAX_CONNECTIONS : Z := 256.

Record BackendConfig := {
  id : string;
  pool : string;
  address : SocketAddr;
  host : string;
  weight : f64;
  transport : TransportKind;
  scheme : BackendScheme;
  max_connections : Z;
  wakeable : bool;
}.

Definition is_plaintext (s : BackendScheme) : bool :=
  match s with Http_ => true | Https => false end.

Definition needs_client_tls (b : BackendConfig) : bool :=
  bool_decide (transport b = Quic) || negb (is_plaintext (scheme b)).

Definition validate_max_connections (n : Z) : result string unit :=
  if n =? 0 then Err "max_connections must be at least 1" else Ok ().

(** The message prints the weight; its decimal form is left out. *)
Definition validate_weight (w : f64) : result string unit :=
  if is_nan w || is_infinite w then Err "weight must be finite"
  else if f64_lt w f64_zero then Err "weight must be non-negative"
  else Ok ().

Definition config_err {A} (r : result string A) : Result A :=
  match r with Ok a => Ok a | Err e => Err (Config e) end.

Definition BackendConfig_new (id : string) (address : SocketAddr) (weight : f64)
    (transport : TransportKind) : Result BackendConfig :=
  _ ← config_err (validate_weight weight);
  id ← ok_or (array_string_from 256 id) (Config "backend id exceeds 256 characters");
  let host := ip_to_string (sa_ip address) in
  pool ← ok_or (array_string_from 32 id)
           (Config "backend id exceeds 32 characters for default pool name");
  Ok {| id := id; pool := pool; address := address; host := host; weight := weight;
        transport := transport; scheme := Https; max_connections := DEFAULT_MAX_CONNECTIONS;
        wakeable := false |}.

(** ** [src/health/state.rs] *)

Inductive Availability := Online | Offline.

Definition is_online (a : Availability) : bool :=
  match a with Online => true | Offline => false end.

Record BackendHealth := {
  bh_backend_id : string;
  bh_load : f64;
  bh_latency_ms : Z;
  bh_availability : Availability;
}.

Definition HARD_MAX_BACKENDS : Z := 256.
Definition MAX_BACKENDS : Z := HARD_MAX_BACKENDS.
Definition DEFAULT_STALENESS_TTL : Z := from_secs 300.
Definition DEFAULT_LATENCY_THRESHOLD_MS : Z := 500.

Section health.
  Context `{LruLaws (BackendHealth * Z)}.

Record HealthState := {
  entries : LruCache (BackendHealth * Z);
  staleness_ttl : Z;
  latency_threshold_ms : Z;
}.

Definition HealthState_new : HealthState :=
  {| entries := lru_new MAX_BACKENDS; staleness_ttl := DEFAULT_STALENESS_TTL;
     latency_threshold_ms := DEFAULT_LATENCY_THRESHOLD_MS |}.

Definition with_config (capacity ttl threshold : Z) : HealthState :=
  {| entries := lru_new (Z.max 1 (Z.min capacity MAX_BACKENDS)); staleness_ttl := ttl;
     latency_threshold_ms := threshold |}.

Definition with_staleness_ttl (self : HealthState) (ttl : Z) : HealthState :=
  {| entries := entries self; staleness_ttl := ttl;
     latency_threshold_ms := latency_threshold_ms self |}.

Definition update (now : Z) (broadcast : list BackendHealth) (self : HealthState) : HealthState :=
  {| entries := foldl (λ m e, lru_put (bh_backend_id e) (e, now) m) (entries self) broadcast;
     staleness_ttl := staleness_ttl self; latency_threshold_ms := latency_threshold_ms self |}.

Definition is_valid (now : Z) (self : HealthState) (backend_id : string) : bool :=
  match lru_peek backend_id (entries self) with
  | None => false
  | Some (_, received_at) => elapsed now received_at <? staleness_ttl self
  end.

Definition weight_factor (now : Z) (self : HealthState) (backend_id : string) : f64 :=
  if negb (is_valid now self backend_id) then f64_one
  else match lru_peek backend_id (entries self) with
       | None => f64_one
       | Some (health, _) =>
           if negb (is_online (bh_availability health)) then f64_zero
           else
             let load_factor := f64_sub f64_one (f64_clamp (bh_load health) f64_zero f64_one) in
             let latency_factor :=
               if latency_threshold_ms self <? bh_latency_ms health
               then f64_div (f64_of_Z (latency_threshold_ms self)) (f64_of_Z (bh_latency_ms health))
               else f64_one in
             f64_mul load_factor latency_factor
       end.

Definition health_get (self : HealthState) (backend_id : string) : option BackendHealth :=
  fst <$> lru_peek backend_id (entries self).
End health.

(** ** [src/balancer/rendezvous.rs] *)

Definition FNV_OFFSET_BASIS : Z := 0xcbf29ce484222325.
Definition FNV_PRIME : Z := 0x100000001b3.
Definition IPV4_TAG : Z := 4.
Definition IPV6_TAG : Z := 6.

Definition fnv1a_update (hash : Z) (bytes : list Z) : Z :=
  foldl (λ acc b, wrap64 (Z.lxor acc b * FNV_PRIME)) hash bytes.

Definition hash_pair (client_ip : IpAddr) (backend_id : string) : Z :=
  let seeded :=
    match to_canonical client_ip with
    | V4 a => fnv1a_update (fnv1a_update FNV_OFFSET_BASIS [IPV4_TAG]) (to_be_bytes 4 a)
    | V6 a => fnv1a_update (fnv1a_update FNV_OFFSET_BASIS [IPV6_TAG]) (to_be_bytes 16 a)
    end in
  fnv1a_update seeded (bytes_of backend_id).

(** The hash mapped to the unit interval. *)
Definition unit_interval (hash : Z) : f64 :=
  f64_div (f64_add (f64_of_Z hash) f64_half) (f64_add (f64_of_Z U64_MAX) f64_one).

Definition rendezvous_score (ln : f64 → f64) (client_ip : IpAddr) (backend_id : string)
    (weight : f64) : f64 :=
  if f64_le weight f64_zero then f64_zero
  else f64_div (f64_neg weight) (ln (unit_interval (hash_pair client_ip backend_id))).

(** The loop shared by [select_backend] and [select_with_pressure_excluding]: the
    best candidate so far and its score, over candidates with their scores; a
    [None] score is an ineligible or excluded candidate. *)
Definition best_step (acc : option nat * f64) (cand : nat * option f64) : option nat * f64 :=
  let '(best_index, best_score) := acc in
  match cand with
  | (_, None) => acc
  | (i, Some score) =>
      if bool_decide (best_index = None) || f64_gt score best_score then (Some i, score) else acc
  end.

Definition best_of (cands : list (option f64)) : option nat :=
  (foldl best_step (None, f64_neg_infinity) (imap pair cands)).1.

Definition select_backend (ln : f64 → f64) (client_ip : IpAddr) (backend_ids : list string)
    (weights : list f64) : option nat :=
  best_of (imap (λ i backend_id,
    let weight := default f64_one (weights !! i) in
    if f64_le weight f64_zero then None
    else Some (rendezvous_score ln client_ip backend_id weight)) backend_ids).

(** ** [src/balancer/mod.rs] *)

Definition DEFAULT_MAX_BACKENDS : Z := 64.

Record BackendPool := { backends : list BackendConfig }.

Definition with_max (backends : list BackendConfig) (max_backends : Z) : Result BackendPool :=
  if max_backends <? zlen backends then
    Err (Config ("backend count " +:+ pretty (length backends) +:+ " exceeds maximum " +:+
                 pretty max_backends))
  else if MAX_BACKENDS <? zlen backends then
    Err (Config ("backend count " +:+ pretty (length backends) +:+ " exceeds hard limit 256"))
  else Ok {| backends := backends |}.

Definition BackendPool_new (backends : list BackendConfig) : Result BackendPool :=
  with_max backends DEFAULT_MAX_BACKENDS.

Section selection.
  Context `{LruLaws (BackendHealth * Z)} (ln : f64 → f64).

Definition scored_weight (now : Z) (health : HealthState) (pressure_fn : BackendConfig → f64)
    (b : BackendConfig) : f64 :=
  let health_weight := f64_mul (weight b) (weight_factor now health (id b)) in
  let pressure := f64_clamp (pressure_fn b) f64_zero f64_one in
  f64_mul health_weight (f64_sub f64_one pressure).

Definition scored_weights (now : Z) (self : BackendPool) (health : HealthState)
    (pressure_fn : BackendConfig → f64) : list f64 :=
  map (scored_weight now health pressure_fn) (backends self).

Definition select_with_pressure_excluding (now : Z) (self : BackendPool) (client_ip : IpAddr)
    (health : HealthState) (pressure_fn : BackendConfig → f64) (excluded : list string)
    : option BackendConfig :=
  if bool_decide (backends self = []) then None
  else
    let weights := scored_weights now self health pressure_fn in
    let cands := zip_with (λ b w,
      if f64_le w f64_zero || existsb (String.eqb (id b)) excluded then None
      else Some (rendezvous_score ln client_ip (id b) w)) (backends self) weights in
    best_of cands ≫= λ i, backends self !! i.

Definition select_with_pressure (now : Z) (self : BackendPool) (client_ip : IpAddr)
    (health : HealthState) (pressure_fn : BackendConfig → f64) : option BackendConfig :=
  select_with_pressure_excluding now self client_ip health pressure_fn [].

Definition select (now : Z) (self : BackendPool) (client_ip : IpAddr) (health : HealthState)
    : option BackendConfig :=
  select_with_pressure now self client_ip health (λ _, f64_zero).
End selection.

(** ** The selection loop *)

Definition best_acc (cands : list (option f64)) : option nat * f64 :=
  foldl best_step (None, f64_neg_infinity) (imap pair cands).

Lemma best_acc_snoc cands c :
  best_acc (cands ++ [c]) = best_step (best_acc cands) (length cands, c).
Proof.
  unfold best_acc. rewrite imap_app, foldl_app. cbn. by rewrite Nat.add_0_r.
Qed.

Lemma lookup_snoc_Some' {A} (l : list A) (x y : A) j :
  (l ++ [x]) !! j = Some y ↔ l !! j = Some y ∨ (j = length l ∧ x = y).
Proof.
  rewrite lookup_snoc_Some. split.
  - intros [[_ ?]|[? ?]]; naive_solver.
  - intros [Hl|[-> ->]]; [left|by right]. split; [|done]. by eapply lookup_lt_Some.
Qed.

(** What the loop has established after the candidates seen so far. *)
Lemma best_acc_spec cands :
  match best_acc cands with
  | (None, _) => ∀ j s, cands !! j ≠ Some (Some s)
  | (Some i, s) => cands !! i = Some (Some s) ∧
      ∀ j t, cands !! j = Some (Some t) → f64_lt s t = false
  end.
Proof.
  induction cands as [|c cands IH] using rev_ind; [by intros [|]|].
  rewrite best_acc_snoc. unfold best_step.
  destruct (best_acc cands) as [[i|] s], c as [t|]; cbn [bool_decide orb].
  - destruct IH as [Hi Hmax]. rewrite bool_decide_false by done. cbn [orb].
    destruct (f64_gt t s) eqn:Hgt; unfold f64_gt in Hgt.
    + split; [by rewrite lookup_snoc_Some'; right|].
      intros j u [Hj|[_ Heq]]%lookup_snoc_Some'; [|simplify_eq; apply f64_lt_irrefl].
      destruct (f64_lt t u) eqn:Hlt; [|done]. specialize (Hmax j u Hj).
      by rewrite (f64_lt_trans s t u) in Hmax.
    + split; [by rewrite lookup_snoc_Some'; left|].
      intros j u [Hj|[_ Heq]]%lookup_snoc_Some'; [by eapply Hmax|by simplify_eq].
  - destruct IH as [Hi Hmax]. split; [by rewrite lookup_snoc_Some'; left|].
    intros j u [Hj|[_ ?]]%lookup_snoc_Some'; [by eapply Hmax|done].
  - rewrite bool_decide_true by done. cbn [orb].
    split; [by rewrite lookup_snoc_Some'; right|].
    intros j u [Hj|[_ Heq]]%lookup_snoc_Some'; [by destruct (IH j u)|simplify_eq; apply f64_lt_irrefl].
  - intros j u [Hj|[_ ?]]%lookup_snoc_Some'; [by destruct (IH j u)|done].
Qed.

(** Without NaN scores the winner beats every earlier candidate strictly. *)
Lemma best_acc_first cands i s :
  (∀ j t, cands !! j = Some (Some t) → is_nan t = false) →
  best_acc cands = (Some i, s) →
  ∀ j t, (j < i)%nat → cands !! j = Some (Some t) → f64_lt t s = true.
Proof.
  revert i s. induction cands as [|c cands IH] using rev_ind; intros i s Hnan; [done|].
  assert (∀ j t, cands !! j = Some (Some t) → is_nan t = false) as Hnan'.
  { intros j t Hj. apply (Hnan j). rewrite lookup_snoc_Some'. by left. }
  rewrite best_acc_snoc. unfold best_step. pose proof (best_acc_spec cands) as Hspec.
  destruct (best_acc cands) as [[k|] u] eqn:Hacc, c as [v|].
  - rewrite bool_decide_false by done. cbn [orb]. destruct Hspec as [Hk Hmax].
    destruct (f64_gt v u) eqn:Hgt; intros [= <- <-] j t Hj Hlook.
    + apply lookup_snoc_Some' in Hlook as [Hlook|[-> _]]; [|lia].
      unfold f64_gt in Hgt. destruct (f64_lt t u) eqn:Htu; [by eapply f64_lt_trans|].
      specialize (Hmax _ _ Hlook). assert (is_nan v = false) as Hv.
      { apply (Hnan (length cands)). rewrite lookup_snoc_Some'. by right. }
      destruct (f64_lt t v) eqn:Htv; [done|]. exfalso.
      rewrite (f64_lt_le_trans u v t) in Hmax; [done|..]; eauto.
    + apply lookup_snoc_Some' in Hlook as [Hlook|[-> _]]; [by eapply IH|].
      apply lookup_lt_Some in Hk. lia.
  - intros [= <- <-] j t Hj Hlook. apply lookup_snoc_Some' in Hlook as [Hlook|[_ ?]]; [by eapply IH|done].
  - rewrite bool_decide_true by done. cbn [orb]. intros [= <- <-] j t Hj Hlook.
    apply lookup_snoc_Some' in Hlook as [Hlook|[-> _]]; [by destruct (Hspec j t)|lia].
  - done.
Qed.

(** The winner is determined by its properties. *)
Lemma best_of_unique cands i s :
  (∀ j t, cands !! j = Some (Some t) → is_nan t = false) →
  cands !! i = Some (Some s) →
  (∀ j t, cands !! j = Some (Some t) → f64_lt s t = false ∧ ((j < i)%nat → f64_lt t s = true)) →
  best_of cands = Some i.
Proof.
  intros Hnan Hi Hmax. unfold best_of. fold (best_acc cands).
  pose proof (best_acc_spec cands) as Hspec. pose proof (best_acc_first cands) as Hfirst.
  destruct (best_acc cands) as [[k|] u]; [|by destruct (Hspec i s)].
  destruct Hspec as [Hk Hk']. cbn. f_equal.
  destruct (lt_eq_lt_dec k i) as [[Hlt| ->]|Hgt]; [|done|]; exfalso.
  - destruct (Hmax k u Hk) as [_ Hu]. specialize (Hu Hlt). by rewrite (Hk' i s Hi) in Hu.
  - destruct (Hmax k u Hk) as [Hs _]. by rewrite (Hfirst k u Hnan eq_refl i s Hgt Hi) in Hs.
Qed.

Section selection_facts.
  Context `{LruLaws (BackendHealth * Z)} (ln : f64 → f64).

(** The score of a backend in the loop; [None] when it is skipped. *)
Definition candidate now health pressure_fn client_ip (excluded : list string) (b : BackendConfig)
    : option f64 :=
  let w := scored_weight now health pressure_fn b in
  if f64_le w f64_zero || existsb (String.eqb (id b)) excluded then None
  else Some (rendezvous_score ln client_ip (id b) w).

Lemma select_candidates now self client_ip health pressure_fn excluded :
  select_with_pressure_excluding ln now self client_ip health pressure_fn excluded =
  best_of (map (candidate now health pressure_fn client_ip excluded) (backends self))
    ≫= λ i, backends self !! i.
Proof.
  unfold select_with_pressure_excluding. case_bool_decide as Hb; [by rewrite Hb|].
  cbv zeta. f_equal. f_equal. unfold scored_weights. clear Hb.
  induction (backends self) as [|b bs IH]; [done|]. cbn. by rewrite IH.
Qed.

Lemma select_member now self client_ip health pressure_fn excluded b :
  select_with_pressure_excluding ln now self client_ip health pressure_fn excluded = Some b → b ∈ backends self.
Proof.
  rewrite select_candidates. intros (i & _ & Hi)%bind_Some. by eapply list_elem_of_lookup_2.
Qed.

Lemma candidate_Some now health pressure_fn client_ip excluded b s :
  candidate now health pressure_fn client_ip excluded b = Some s ↔
  f64_le (scored_weight now health pressure_fn b) f64_zero = false ∧ (id b ∉ excluded) ∧
  s = rendezvous_score ln client_ip (id b) (scored_weight now health pressure_fn b).
Proof.
  unfold candidate. assert (existsb (String.eqb (id b)) excluded = true ↔ id b ∈ excluded) as He.
  { rewrite existsb_exists. setoid_rewrite <-list_elem_of_In. setoid_rewrite String.eqb_eq. naive_solver. }
  destruct (f64_le _ _); [naive_solver|]. destruct (existsb _ _); cbn [orb]; naive_solver.
Qed.

(** C26. Selection returns a backend of the pool that is not excluded and whose effective weight is
    positive (it is neither offline nor saturated) or, after a report that is not a number, not
    a number; and no other such backend has a larger score, as far as the scores are numbers.
    It returns nothing exactly when every backend is excluded or has a weight of at most
    zero. *)
Theorem select_spec now self client_ip health pressure_fn excluded :
  let w := scored_weight now health pressure_fn in
  let score b := rendezvous_score ln client_ip (id b) (w b) in
  let eligible b := (id b ∉ excluded) ∧ (f64_lt f64_zero (w b) = true ∨ is_nan (w b) = true) in
  match select_with_pressure_excluding ln now self client_ip health pressure_fn excluded with
  | None => ∀ b, b ∈ backends self → id b ∈ excluded ∨ f64_le (w b) f64_zero = true
  | Some b =>
      b ∈ backends self ∧ eligible b ∧
      ∀ b', b' ∈ backends self → eligible b' → is_nan (score b) = false → is_nan (score b') = false →
        f64_le (score b') (score b) = true
  end.
Proof.
  cbv zeta. rewrite select_candidates. unfold best_of. fold (best_acc (map (candidate now health pressure_fn client_ip excluded) (backends self))).
  set (cands := map _ _). pose proof (best_acc_spec cands) as Hspec.
  assert (∀ j b s, backends self !! j = Some b → candidate now health pressure_fn client_ip excluded b = Some s →
    cands !! j = Some (Some s)) as Hc.
  { intros j b s Hj Hs. unfold cands. by rewrite list_lookup_fmap, Hj; cbn; rewrite Hs. }
  destruct (best_acc cands) as [[i|] s]; cbn.
  - destruct Hspec as [Hi Hmax]. unfold cands in Hi. rewrite list_lookup_fmap in Hi.
    destruct (backends self !! i) as [b|] eqn:Hb; [|done]. injection Hi as Hi.
    apply candidate_Some in Hi as (Hw & Hex & ->). split; [by eapply list_elem_of_lookup_2|].
    split; [by rewrite <-f64_le_false|].
    intros b' [j Hj]%list_elem_of_lookup [Hex' Hw'%f64_le_false] Hn Hn'; [|done]. rewrite f64_le_lt by done.
    apply negb_true_iff. eapply (Hmax j), Hc; [done|]. by apply candidate_Some.
  - intros b [j Hj]%list_elem_of_lookup. destruct (f64_le _ _) eqn:Hw; [by right|]. left.
    destruct (decide (id b ∈ excluded)) as [|Hex]; [done|]. exfalso. eapply (Hspec j), Hc; [done|].
    by apply candidate_Some.
Qed.

(** Minimal disruption: excluding further backends never moves a client
    whose chosen backend stays available; only the clients of the excluded backends
    are reassigned. *)
Theorem select_minimal_disruption now self client_ip health pressure_fn excluded excluded' b :
  (∀ b', b' ∈ backends self →
     is_nan (rendezvous_score ln client_ip (id b') (scored_weight now health pressure_fn b')) = false) →
  (∀ e, e ∈ excluded → e ∈ excluded') → id b ∉ excluded' →
  select_with_pressure_excluding ln now self client_ip health pressure_fn excluded = Some b →
  select_with_pressure_excluding ln now self client_ip health pressure_fn excluded' = Some b.
Proof.
  intros Hnan Hsub Hout. rewrite !select_candidates.
  set (cand := candidate now health pressure_fn client_ip).
  assert (∀ ex j t, map (cand ex) (backends self) !! j = Some (Some t) →
    ∃ b', backends self !! j = Some b' ∧ cand ex b' = Some t) as Hlook.
  { intros ex j t. rewrite list_lookup_fmap. destruct (backends self !! j) as [b'|]; [|done].
    cbn. intros Heq. injection Heq as Heq. by exists b'. }
  assert (∀ ex j t, map (cand ex) (backends self) !! j = Some (Some t) → is_nan t = false) as Hn.
  { intros ex j t (b' & Hj & (_ & _ & ->)%candidate_Some)%Hlook. eapply Hnan, list_elem_of_lookup_2, Hj. }
  unfold best_of at 1. fold (best_acc (map (cand excluded) (backends self))).
  pose proof (best_acc_spec (map (cand excluded) (backends self))) as Hspec.
  pose proof (best_acc_first (map (cand excluded) (backends self))) as Hfirst.
  destruct (best_acc _) as [[i|] s]; [|done]. cbn. intros Hb.
  destruct Hspec as [Hi Hmax]. apply Hlook in Hi as (b0 & Hb0 & Hs).
  assert (b0 = b) as -> by congruence.
  apply candidate_Some in Hs as (Hw & _ & ->).
  rewrite (best_of_unique _ i (rendezvous_score ln client_ip (id b)
    (scored_weight now health pressure_fn b))); [done|apply Hn| |].
  - rewrite list_lookup_fmap, Hb. cbn. f_equal. by apply candidate_Some.
  - intros j t (b' & Hj & (Hw' & Hex & ->)%candidate_Some)%Hlook.
    assert (map (cand excluded) (backends self) !! j = Some (Some (rendezvous_score ln client_ip (id b')
      (scored_weight now health pressure_fn b')))) as Hj'.
    { rewrite list_lookup_fmap, Hj. cbn. f_equal. apply candidate_Some. split_and!; auto. }
    split; [by eapply Hmax|]. intros Hlt. eapply Hfirst; eauto.
Qed.
End selection_facts.

(** ** Health and eligibility *)

Definition is_finite (a : f64) : bool := negb (is_nan a) && negb (is_infinite a).

Lemma mul_zero_r a s : is_finite a = true → ∃ s', f64_mul a (S754_zero s) = S754_zero s'.
Proof. destruct a as [[]|[]| |[] m e]; try discriminate; intros _; by eexists. Qed.

Lemma mul_zero_l a s : is_finite a = true → ∃ s', f64_mul (S754_zero s) a = S754_zero s'.
Proof. destruct a as [[]|[]| |[] m e]; try discriminate; intros _; by eexists. Qed.

Section offline.
  Context `{LruLaws (BackendHealth * Z)} (ln : f64 → f64).

Lemma peek_update_last now (broadcast : list BackendHealth) e self :
  lru_peek (bh_backend_id e) (entries (update now (broadcast ++ [e]) self)) = Some (e, now).
Proof. cbn. rewrite foldl_app. apply peek_put. Qed.

Lemma offline_weight now received self e b :
  lru_peek (id b) (entries self) = Some (e, received) →
  elapsed now received < staleness_ttl self → bh_availability e = Offline →
  weight_factor now self (id b) = f64_zero.
Proof.
  intros Hp Ht Ho. unfold weight_factor, is_valid. rewrite Hp.
  rewrite (proj2 (Z.ltb_lt _ _)) by done. cbn [negb]. by rewrite Ho.
Qed.

(** A backend reported offline is not selected for any client until the
    report grows stale, whatever the other backends do: the last report of a
    broadcast decides, and a zero health factor makes the effective weight zero. *)
Theorem offline_never_selected now received self broadcast e client_ip health pressure_fn excluded b :
  health = update received (broadcast ++ [e]) self →
  bh_availability e = Offline → bh_backend_id e = id b →
  elapsed now received < staleness_ttl self →
  is_finite (weight b) = true →
  is_finite (f64_sub f64_one (f64_clamp (pressure_fn b) f64_zero f64_one)) = true →
  ∀ pool, select_with_pressure_excluding ln now pool client_ip health pressure_fn excluded ≠ Some b.
Proof.
  intros -> Ho Hid Ht Hw Hp pool' Hsel. rewrite select_candidates in Hsel.
  apply bind_Some in Hsel as (i & Hbest & Hi). unfold best_of in Hbest.
  fold (best_acc (map (candidate ln now (update received (broadcast ++ [e]) self) pressure_fn client_ip excluded)
    (backends pool'))) in Hbest.
  pose proof (best_acc_spec (map (candidate ln now (update received (broadcast ++ [e]) self) pressure_fn
    client_ip excluded) (backends pool'))) as Hspec.
  destruct (best_acc _) as [[k|] s]; cbn in Hbest; simplify_eq. destruct Hspec as [Hk _].
  rewrite list_lookup_fmap, Hi in Hk. cbn [fmap option_fmap option_map] in Hk. injection Hk as Hk.
  apply candidate_Some in Hk as (Hle & _ & _). unfold scored_weight in Hle.
  rewrite (offline_weight now received _ e) in Hle; [|rewrite <-Hid; apply peek_update_last|done|done].
  destruct (mul_zero_r (weight b) false Hw) as [s1 Hs1]. unfold f64_zero in Hle at 1. rewrite Hs1 in Hle.
  destruct (mul_zero_l _ s1 Hp) as [s2 Hs2]. rewrite Hs2 in Hle. done.
Qed.
End offline.

(** ** Concrete pools *)

Definition demo_backend (name : string) : BackendConfig :=
  {| id := name; pool := "p"; address := {| sa_ip := V4 0x7f000001; sa_port := 80 |};
     host := "127.0.0.1"; weight := f64_one; transport := Tcp; scheme := Https;
     max_connections := 4; wakeable := false |}.

Definition demo_pool : BackendPool := {| backends := [demo_backend "a"; demo_backend "b"] |}.

Definition demo_report (name : string) (load : f64) (av : Availability) : BackendHealth :=
  {| bh_backend_id := name; bh_load := load; bh_latency_ms := 10; bh_availability := av |}.

(** A logarithm for the examples: a negative constant. *)
Definition demo_ln (x : f64) : f64 := f64_neg (f64_add x f64_one).

Lemma select_minimal_disruption_witness :
  select_with_pressure_excluding demo_ln 0 demo_pool (V4 7) HealthState_new (λ _, f64_zero) ["a"] =
    Some (demo_backend "b").
Proof.
  apply (select_minimal_disruption demo_ln 0 demo_pool (V4 7) HealthState_new (λ _, f64_zero) [] ["a"]
    (demo_backend "b")).
  - intros b' [->|[->|[]%not_elem_of_nil]%elem_of_cons]%elem_of_cons; vm_compute; reflexivity.
  - intros e []%not_elem_of_nil.
  - apply (bool_decide_unpack _). vm_compute. exact I.
  - vm_compute. reflexivity.
Defined.

Lemma offline_never_selected_witness :
  select_with_pressure_excluding demo_ln (from_secs 5) demo_pool (V4 7)
    (update 0 [demo_report "b" f64_zero Offline] HealthState_new) (λ _, f64_half) [] ≠
    Some (demo_backend "b").
Proof.
  apply (offline_never_selected demo_ln (from_secs 5) 0 HealthState_new [] (demo_report "b" f64_zero Offline) (V4 7) _
    (λ _, f64_half) [] (demo_backend "b")); vm_compute; reflexivity.
Defined.

(** A health report whose load is not a number captures every client: the
    NaN weight passes the [weight <= 0.0] test, its NaN score is taken as the first
    candidate, and no later score compares greater.  Whatever the logarithm, a pool
    whose first backend reports a NaN load selects it for every client although the
    second is healthy and idle. *)
Theorem nan_load_captures (ln : f64 → f64) (client_ip : IpAddr) :
  select ln 1 demo_pool client_ip
    (update 0 [demo_report "a" S754_nan Online; demo_report "b" f64_zero Online] HealthState_new) =
  Some (demo_backend "a").
Proof.
  unfold select, select_with_pressure. rewrite select_candidates. set (h := update 0 _ _).
  set (cb := candidate ln 1 h (λ _, f64_zero) client_ip [] (demo_backend "b")).
  assert (candidate ln 1 h (λ _, f64_zero) client_ip [] (demo_backend "a") = Some S754_nan) as Ha.
  { apply candidate_Some. split; [vm_compute; reflexivity|]. split; [by apply not_elem_of_nil|]. reflexivity. }
  cbn [backends demo_pool map]. rewrite Ha. fold cb. unfold best_of. cbn [imap foldl best_step].
  by destruct cb as [t|].
Qed.

(** The unit interval of the score is closed at one: the [+ 0.5] is lost in the
    rounding of hashes of 54 bits and more. *)
Lemma unit_interval_reaches_one : unit_interval U64_MAX = f64_one.
Proof. vm_compute. reflexivity. Qed.
