(* ===== verification/Queue.v ===== *)
(** * Queue: [src/balancer/queue.rs]

    The per-backend admission queue: a counted set of permits.  Tokio's semaphore is
    the class [Semaphore]; a permit is released when its owner (the streaming
    response body) is dropped. *)

From S2P Require Import Prelude Error.
Local Open Scope Z_scope.

Class Semaphore := {
  Sem : Type;
  sem_new : Z → Sem;
  available_permits : Sem → Z;
  sem_try_acquire : Sem → option Sem;
  sem_release : Sem → Sem;
}.

Class SemaphoreLaws `{Semaphore} := {
  available_new n : available_permits (sem_new n) = n;
  try_acquire_none s : sem_try_acquire s = None ↔ available_permits s = 0;
  try_acquire_some s s' :
    sem_try_acquire s = Some s' → available_permits s' = available_permits s - 1;
  available_release s : available_permits (sem_release s) = available_permits s + 1;
}.

Section queue.
  Context `{SemaphoreLaws}.

Record RequestQueue := {
  semaphore : Sem;
  max_depth : Z;
}.

Definition RequestQueue_new (max_depth : Z) : RequestQueue :=
  {| semaphore := sem_new max_depth; max_depth := max_depth |}.

(** [try_acquire] and [try_acquire_owned]: the permit is implicit in the state. *)
Definition try_acquire (q : RequestQueue) : Result unit * RequestQueue :=
  match sem_try_acquire (semaphore q) with
  | Some s => (Ok (), {| semaphore := s; max_depth := max_depth q |})
  | None => (Err QueueFull, q)
  end.

(** Dropping a permit. *)
Definition release (q : RequestQueue) : RequestQueue :=
  {| semaphore := sem_release (semaphore q); max_depth := max_depth q |}.

Definition depth (q : RequestQueue) : Z :=
  let available := available_permits (semaphore q) in
  let available := if (0 <=? available) && (available <=? U32_MAX) then available else max_depth q in
  saturating_sub (max_depth q) available.

Definition is_full (q : RequestQueue) : bool := available_permits (semaphore q) =? 0.

(** *** The queues of the proxy

    A request keeps the queue it was admitted to alive: [q_arcs] is the heap of queues and
    [q_index] maps a pool to the queue that admits now.  A reload unmaps a queue; the permits
    still out go back to it and not to a queue made later under the same name. *)
Record Queues := {
  q_index : gmap string nat;
  q_arcs : list RequestQueue;
}.

#[export] Instance RequestQueue_inhabited : Inhabited RequestQueue := populate (RequestQueue_new 0).

Definition Queues_new : Queues := {| q_index := ∅; q_arcs := [] |}.

Definition with_queue_arcs (qs : Queues) (l : list RequestQueue) : Queues :=
  {| q_index := q_index qs; q_arcs := l |}.

Definition queue_entry (depth : Z) (b : string) (qs : Queues) : nat * Queues :=
  match q_index qs !! b with
  | Some l => (l, qs)
  | None =>
      let l := length (q_arcs qs) in
      (l, {| q_index := <[b := l]> (q_index qs); q_arcs := q_arcs qs ++ [RequestQueue_new depth] |})
  end.

Definition acquire_slot (l : nat) (qs : Queues) : Result unit * Queues :=
  let '(r, q) := try_acquire (q_arcs qs !!! l) in
  (r, with_queue_arcs qs (<[l := q]> (q_arcs qs))).

Definition release_slot (l : nat) (qs : Queues) : Queues :=
  with_queue_arcs qs (alter release l (q_arcs qs)).

Definition remove_queue (b : string) (qs : Queues) : Queues :=
  {| q_index := delete b (q_index qs); q_arcs := q_arcs qs |}.

(** A run: [held] counts the permits handed out and not yet dropped. *)
Inductive queue_run (max : Z) : Z → RequestQueue → Prop :=
  | run_new : queue_run max 0 (RequestQueue_new max)
  | run_acquire held q q' :
      queue_run max held q → try_acquire q = (Ok (), q') → queue_run max (held + 1) q'
  | run_release held q :
      queue_run max held q → 0 < held → queue_run max (held - 1) (release q).

Lemma queue_run_available max held q :
  0 ≤ max → queue_run max held q →
  max_depth q = max ∧ available_permits (semaphore q) = max - held ∧ 0 ≤ held ≤ max.
Proof.
  intros Hmax. induction 1 as [|held q q' _ (Hm & Ha & Hb) Hacq|held q _ (Hm & Ha & Hb) Hpos].
  - cbn. rewrite available_new. lia.
  - unfold try_acquire in Hacq. destruct (sem_try_acquire _) as [s|] eqn:Hs; [|done].
    injection Hacq as <-. cbn.
    assert (available_permits (semaphore q) ≠ 0) by (intros Hz%try_acquire_none; congruence).
    rewrite (try_acquire_some _ _ Hs). split; [done|]. lia.
  - cbn. rewrite available_release. lia.
Qed.

(** The depth of the queue is the number of permits outstanding, never
    above the configured bound; a request is refused exactly when the bound is
    reached, and [is_full] says so. *)
Theorem queue_depth_exact max held q :
  0 ≤ max ≤ U32_MAX → queue_run max held q →
  depth q = held ∧ 0 ≤ held ≤ max ∧
  (is_full q = true ↔ held = max) ∧
  ((try_acquire q).1 = Err QueueFull ↔ held = max).
Proof.
  intros Hmax Hrun. apply queue_run_available in Hrun as (Hm & Ha & Hb); [|lia].
  unfold depth, is_full, try_acquire, saturating_sub. rewrite Hm, Ha. split_and!.
  - rewrite (proj2 (Z.leb_le 0 _)), (proj2 (Z.leb_le _ U32_MAX)) by lia. cbn. lia.
  - lia.
  - lia.
  - rewrite Z.eqb_eq. lia.
  - destruct (sem_try_acquire _) as [s|] eqn:Hs; cbn.
    + assert (available_permits (semaphore q) ≠ 0) by (intros Hz%try_acquire_none; congruence).
      split; [done|lia].
    + apply try_acquire_none in Hs. split; [lia|done].
Qed.
End queue.

#[export] Instance counter_semaphore : Semaphore := {|
  Sem := Z;
  sem_new n := n;
  available_permits s := s;
  sem_try_acquire s := if s =? 0 then None else Some (s - 1);
  sem_release s := s + 1;
|}.

#[export] Instance counter_semaphore_laws : SemaphoreLaws.
Proof.
  split; cbn; [done| | |done].
  - intros s. destruct (Z.eqb_spec s 0); naive_solver.
  - intros s s'. destruct (s =? 0); naive_solver.
Qed.

(** A pool that is removed and added back while its requests are in flight gets a queue of its
    own: at a depth of one, a second request is refused, but is admitted beside the first once
    the pool has been removed and is entered again. *)
Example readded_queue_doubles :
  let '(l, qs) := queue_entry 1 "p" Queues_new in
  let qs := (acquire_slot l qs).2 in
  let '(l', qs') := queue_entry 1 "p" (remove_queue "p" qs) in
  (acquire_slot l qs).1 = Err QueueFull ∧ (acquire_slot l' qs').1 = Ok () ∧ is_full (q_arcs qs' !!! l) = true.
Proof. vm_compute. done. Qed.

Lemma queue_depth_exact_witness :
  depth (try_acquire (RequestQueue_new 2)).2 = 1.
Proof.
  apply (queue_depth_exact 2 (0 + 1)).
  - unfold U32_MAX. lia.
  - eapply run_acquire; [apply run_new|reflexivity].
Defined.
