(* ===== verification/IngressProtocol.v ===== *)
(** * IngressProtocol: [src/ingress/protocol.rs] and [src/ingress/batch.rs]

    The envelopes an ingress listener sends its backends, and the accumulator that
    decides when a batch of datagrams leaves. *)

From Stdlib Require Import Ascii.
From S2P Require Import Prelude Text Error Net Wire TunnelProtocol.
Local Open Scope Z_scope.

Definition LENGTH_PREFIX_SIZE : nat := 4.
Definition MAX_ENVELOPE_FRAME : Z := 64 * 1024.
Definition PROTOCOL_MAGIC : list Z := bytes_of "RDIG".
Definition PROTOCOL_VERSION : Z := 1.
Definition PREAMBLE_LEN : nat := 5.

Definition ingress_err {A} (what : string) (r : result string A) : Result A :=
  match r with Ok a => Ok a | Err e => Err (Ingress (what +:+ ": " +:+ e)) end.

Definition write_preamble (w : Writer) : Result unit * Writer :=
  let buf := PROTOCOL_MAGIC ++ [PROTOCOL_VERSION] in
  let '(r, w) := write_all buf w in
  match ingress_err "write preamble" r with
  | Err e => (Err e, w)
  | Ok _ => (ingress_err "flush preamble" (flush w), w)
  end.

Definition read_preamble (r : list Z) : Result Z * list Z :=
  let '(res, r) := read_exact PREAMBLE_LEN r in
  match ingress_err "read preamble" res with
  | Err e => (Err e, r)
  | Ok buf =>
      if negb (bool_decide (take (length PROTOCOL_MAGIC) buf = PROTOCOL_MAGIC)) then
        (Err (Ingress "bad protocol magic: peer is not a reduction ingress endpoint"), r)
      else (Ok (nth (length PROTOCOL_MAGIC) buf 0), r)
  end.

Record Peer := {
  peer_ip : list Z;
  peer_port : Z;
}.

(** [to_ipv6_mapped().octets()] and [octets()]. *)
Definition from_socket_addr (addr : SocketAddr) : Peer :=
  {| peer_ip := match sa_ip addr with
                | V4 a => to_be_bytes 16 (mapped a)
                | V6 a => to_be_bytes 16 a
                end;
     peer_port := sa_port addr |}.

Definition socket_addr (p : Peer) : SocketAddr :=
  let v6 := from_be_bytes (peer_ip p) in
  {| sa_ip := match to_ipv4_mapped v6 with Some v4 => V4 v4 | None => V6 v6 end;
     sa_port := peer_port p |}.

Record Datagram := {
  dg_peer : Peer;
  dg_recv_at_unix_nanos : Z;
  dg_payload : list Z;
}.

Inductive Envelope :=
  | Hello (ingress_id : string) (worker : Z)
  | Batch_ (datagrams : list Datagram)
  | Open_ (peer : Peer).

#[export] Instance Peer_eq_dec : EqDecision Peer.
Proof. solve_decision. Defined.
#[export] Instance Datagram_eq_dec : EqDecision Datagram.
Proof. solve_decision. Defined.
#[export] Instance Envelope_eq_dec : EqDecision Envelope.
Proof. solve_decision. Defined.

Section frames.
  Context `{CodecLaws Envelope}.

Definition encode (envelope : Envelope) : Result (list Z) :=
  let payload := bc_encode envelope in
  if MAX_ENVELOPE_FRAME <? zlen payload then
    Err (Ingress ("envelope frame too large: " +:+ pretty (length payload) +:+ " bytes"))
  else if U32_MAX <? zlen payload then
    Err (Ingress ("envelope payload too large: " +:+ pretty (length payload) +:+ " bytes"))
  else Ok (to_be_bytes LENGTH_PREFIX_SIZE (zlen payload) ++ payload).

Definition safe_decode (payload : list Z) : Result Envelope :=
  match bc_decode payload with
  | Decoded e => Ok e
  | DecodePanic => Err (Ingress "decode panic (possibly oversized field)")
  | DecodeError e => Err (Ingress ("decode error: " +:+ e))
  end.

Definition decode (buf : list Z) : Result Envelope :=
  if (length buf <? LENGTH_PREFIX_SIZE)%nat then
    Err (Ingress "frame too short for length prefix")
  else
    let len := from_be_bytes (take LENGTH_PREFIX_SIZE buf) in
    if MAX_ENVELOPE_FRAME <? len then
      Err (Ingress ("frame too large: " +:+ pretty len +:+ " bytes"))
    else
      let expected_total := saturating_add (Z.of_nat LENGTH_PREFIX_SIZE) len in
      if zlen buf <? expected_total then
        Err (Ingress ("frame truncated: expected " +:+ pretty expected_total +:+ " bytes, got " +:+
                      pretty (length buf)))
      else safe_decode (drop LENGTH_PREFIX_SIZE (take (Z.to_nat expected_total) buf)).

Definition read_frame (r : list Z) : Result Envelope * list Z :=
  let '(res, r) := read_exact LENGTH_PREFIX_SIZE r in
  match ingress_err "read length" res with
  | Err e => (Err e, r)
  | Ok len_buf =>
      let len := from_be_bytes len_buf in
      if MAX_ENVELOPE_FRAME <? len then
        (Err (Ingress ("frame too large: " +:+ pretty len +:+ " bytes")), r)
      else
        let '(res, r) := read_exact (Z.to_nat len) r in
        match ingress_err "read payload" res with
        | Err e => (Err e, r)
        | Ok payload => (safe_decode payload, r)
        end
  end.

Definition write_frame (envelope : Envelope) (w : Writer) : Result unit * Writer :=
  match encode envelope with
  | Err e => (Err e, w)
  | Ok frame =>
      let '(r, w) := write_all frame w in
      match ingress_err "write frame" r with
      | Err e => (Err e, w)
      | Ok _ => (ingress_err "flush frame" (flush w), w)
      end
  end.

(** An envelope survives the stream: a writer to a live peer fails only
    when the encoding is above the frame ceiling, and then sends nothing; otherwise
    the reader gets the same envelope, and the bytes that follow it are untouched,
    whether it reads from the stream or decodes a buffer. *)
Theorem envelope_roundtrip (e : Envelope) (w : Writer) (rest : list Z) :
  room w = None →
  if MAX_ENVELOPE_FRAME <? zlen (bc_encode e) then
    is_err (write_frame e w).1 = true ∧ (write_frame e w).2 = w
  else
    ∃ bytes, write_frame e w = (Ok (), {| sent := sent w ++ bytes; room := None |}) ∧
      read_frame (bytes ++ rest) = (Ok e, rest) ∧ decode bytes = Ok e.
Proof.
  intros Hr. unfold write_frame, encode.
  destruct (MAX_ENVELOPE_FRAME <? zlen (bc_encode e)) eqn:Hbig; [done|].
  pose proof Hbig as Hsmall. apply Z.ltb_ge in Hsmall. unfold MAX_ENVELOPE_FRAME in Hsmall.
  rewrite (proj2 (Z.ltb_ge U32_MAX _)) by (unfold U32_MAX; lia).
  set (prefix := to_be_bytes _ _).
  assert (from_be_bytes prefix = zlen (bc_encode e)) as Hlen.
  { apply from_to_be_bytes. unfold LENGTH_PREFIX_SIZE, zlen in *. lia. }
  assert (length prefix = LENGTH_PREFIX_SIZE) as Hpl by apply to_be_bytes_length.
  exists (prefix ++ bc_encode e). rewrite (write_all_none _ w Hr). split; [done|]. split.
  - unfold read_frame. rewrite <-app_assoc, read_exact_app by done. cbn [ingress_err].
    rewrite Hlen, Hbig, read_exact_app by (unfold zlen; lia). cbn [ingress_err].
    unfold safe_decode. by rewrite bc_decode_encode.
  - unfold decode. rewrite length_app, (proj2 (Nat.ltb_ge _ _)) by lia.
    rewrite <-Hpl, take_app_length, Hlen, Hbig. unfold saturating_add, U64_MAX. rewrite Hpl, Z.min_l by
      (unfold LENGTH_PREFIX_SIZE; lia).
    rewrite zlen_app. replace (zlen prefix) with 4 by (unfold zlen; by rewrite Hpl).
    rewrite (proj2 (Z.ltb_ge _ _)) by (unfold LENGTH_PREFIX_SIZE; lia).
    rewrite take_ge by (rewrite length_app, Hpl; unfold LENGTH_PREFIX_SIZE, zlen; lia).
    rewrite <-Hpl, drop_app_length. unfold safe_decode. by rewrite bc_decode_encode.
Qed.
End frames.

Lemma octets_roundtrip a : 0 ≤ a < 2 ^ 128 → from_be_bytes (to_be_bytes 16 a) = a.
Proof. intros Ha. apply from_to_be_bytes. exact Ha. Qed.

(** The peer address a consumer recovers from an envelope is the address
    the datagram came from, an IPv4-mapped one in its native IPv4 form, and the slot
    on the wire is 16 bytes for both families. *)
Theorem peer_roundtrip (addr : SocketAddr) :
  ip_wf (sa_ip addr) →
  socket_addr (from_socket_addr addr) =
    {| sa_ip := to_canonical (sa_ip addr); sa_port := sa_port addr |} ∧
  length (peer_ip (from_socket_addr addr)) = 16%nat.
Proof.
  destruct addr as [[a|a] port]; cbn [sa_ip ip_wf]; intros Hwf;
    unfold socket_addr, from_socket_addr, to_canonical; cbn [sa_ip sa_port peer_ip peer_port];
    rewrite octets_roundtrip by (unfold mapped in *; lia);
    (split; [|apply to_be_bytes_length]).
  - by rewrite to_ipv4_mapped_mapped.
  - done.
Qed.

Lemma peer_roundtrip_witness :
  socket_addr (from_socket_addr {| sa_ip := V6 (mapped 0x0a000001); sa_port := 53 |}) =
    {| sa_ip := V4 0x0a000001; sa_port := 53 |}.
Proof.
  apply (peer_roundtrip {| sa_ip := V6 (mapped 0x0a000001); sa_port := 53 |}).
  split; vm_compute; congruence.
Defined.

(** ** Preambles *)

Lemma ingress_preamble_spec r :
  read_preamble r =
  match r with
  | m1 :: m2 :: m3 :: m4 :: v :: rest =>
      if bool_decide ([m1; m2; m3; m4] = PROTOCOL_MAGIC) then (Ok v, rest)
      else (Err (Ingress "bad protocol magic: peer is not a reduction ingress endpoint"), rest)
  | _ => (Err (Ingress "read preamble: early eof"), [])
  end.
Proof.
  do 5 (destruct r as [|? r]; [done|]). unfold read_preamble, read_exact. cbn -[bool_decide PROTOCOL_MAGIC].
  by destruct (bool_decide _).
Qed.

Definition fresh_writer : Writer := {| sent := []; room := None |}.

(** The two protocols never mistake each other: each side reads back its
    own preamble as version 1 and stops right after it, refuses the other protocol's
    preamble by its magic, and accepts nothing that does not start with its own. *)
Theorem preambles_distinguish (rest : list Z) :
  TunnelProtocol.read_preamble (sent (TunnelProtocol.write_preamble fresh_writer).2 ++ rest) = (Ok 1, rest) ∧
  read_preamble (sent (write_preamble fresh_writer).2 ++ rest) = (Ok 1, rest) ∧
  is_err (TunnelProtocol.read_preamble (sent (write_preamble fresh_writer).2 ++ rest)).1 = true ∧
  is_err (read_preamble (sent (TunnelProtocol.write_preamble fresh_writer).2 ++ rest)).1 = true ∧
  (∀ r v, (TunnelProtocol.read_preamble r).1 = Ok v → ∃ tl, r = TunnelProtocol.PROTOCOL_MAGIC ++ v :: tl) ∧
  (∀ r v, (read_preamble r).1 = Ok v → ∃ tl, r = PROTOCOL_MAGIC ++ v :: tl).
Proof.
  split_and!; try reflexivity.
  - intros r v. rewrite TunnelProtocol.read_preamble_spec.
    do 5 (destruct r as [|? r]; [done|]). case_bool_decide as Hm; [|done]. intros [= ->].
    exists r. by rewrite <-Hm.
  - intros r v. rewrite ingress_preamble_spec.
    do 5 (destruct r as [|? r]; [done|]). case_bool_decide as Hm; [|done]. intros [= ->].
    exists r. by rewrite <-Hm.
Qed.

(** ** [src/ingress/batch.rs] *)

Inductive FlushReason := Count | Bytes | Linger.

Record BatchLimits := {
  max_datagrams : Z;
  max_bytes : Z;
  linger : Z;
}.

Record Batch := {
  datagrams : list Datagram;
  payload_bytes : Z;
  opened_at : option Z;
}.

Definition Batch_new : Batch := {| datagrams := []; payload_bytes := 0; opened_at := None |}.

Definition batch_is_empty (b : Batch) : bool := bool_decide (datagrams b = []).

Definition batch_len (b : Batch) : Z := zlen (datagrams b).

Definition push (now : Z) (datagram : Datagram) (b : Batch) : Batch :=
  {| datagrams := datagrams b ++ [datagram];
     payload_bytes := saturating_add (payload_bytes b) (zlen (dg_payload datagram));
     opened_at := if batch_is_empty b then Some now else opened_at b |}.

Definition fill_flush (limits : BatchLimits) (b : Batch) : option FlushReason :=
  if batch_is_empty b then None
  else if max_datagrams limits <=? zlen (datagrams b) then Some Count
  else if max_bytes limits <=? payload_bytes b then Some Bytes
  else None.

Definition linger_expired (limits : BatchLimits) (now : Z) (b : Batch) : bool :=
  match opened_at b with
  | Some opened => linger limits <=? elapsed now opened
  | None => false
  end.

Definition linger_deadline (limits : BatchLimits) (b : Batch) : option Z :=
  (λ opened, opened + linger limits) <$> opened_at b.

Definition take_batch (b : Batch) : list Datagram * Batch := (datagrams b, Batch_new).

(** The payload bytes of a list of datagrams. *)
Fixpoint total_payload (l : list Datagram) : Z :=
  match l with [] => 0 | d :: l => zlen (dg_payload d) + total_payload l end.

Lemma total_payload_app l k : total_payload (l ++ k) = total_payload l + total_payload k.
Proof. induction l as [|d l IH]; cbn; [done|]. rewrite IH. lia. Qed.

Lemma total_payload_nonneg l : 0 ≤ total_payload l.
Proof. induction l as [|d l IH]; cbn; [done|]. unfold zlen. lia. Qed.

(** A batch's bookkeeping matches its datagrams, and it is still open for more:
    nothing has made it due. *)
Definition batch_wf (b : Batch) : Prop :=
  payload_bytes b = Z.min (total_payload (datagrams b)) U64_MAX ∧
  (opened_at b = None ↔ datagrams b = []).

Definition batch_open (limits : BatchLimits) (b : Batch) : Prop :=
  batch_wf b ∧ fill_flush limits b = None.

Lemma push_wf now d b : batch_wf b → batch_wf (push now d b).
Proof.
  intros [Hp Ho]. unfold push, batch_wf, saturating_add; cbn. split.
  - rewrite total_payload_app. cbn. rewrite Hp. pose proof (total_payload_nonneg (datagrams b)).
    unfold zlen, U64_MAX. lia.
  - unfold batch_is_empty. case_bool_decide as He.
    + split; [done|]. intros Happ. by destruct (datagrams b).
    + rewrite Ho. split; [done|]. intros Happ. by destruct (datagrams b).
Qed.

(** The state a batch is in when it leaves: at most [max_datagrams] datagrams, and
    less than [max_bytes] before the last one. *)
Lemma push_fill_bounds limits now d b :
  batch_open limits b → 1 ≤ max_datagrams limits → 1 ≤ max_bytes limits ≤ U64_MAX →
  batch_wf (push now d b) ∧
  zlen (datagrams (push now d b)) ≤ max_datagrams limits ∧
  total_payload (datagrams b) < max_bytes limits.
Proof.
  intros [Hwf Hfill] Hmd Hmb. split; [by apply push_wf|]. destruct Hwf as [Hp _].
  unfold fill_flush, batch_is_empty in Hfill. cbn. rewrite zlen_app.
  change (zlen [d]) with 1. case_bool_decide as He.
  - rewrite He. cbn. unfold zlen. cbn. lia.
  - destruct (_ <=? zlen _) eqn:H1; [done|]. destruct (_ <=? payload_bytes b) eqn:H2; [done|].
    bool_hyps. rewrite Hp in H2. lia.
Qed.

Fixpoint pushes (now : Z) (ds : list Datagram) (b : Batch) : Batch :=
  match ds with [] => b | d :: ds => pushes now ds (push now d b) end.

(** ** Witnesses *)

#[export] Instance Peer_countable : Countable Peer.
Proof. refine (inj_countable' (λ p, (peer_ip p, peer_port p)) (λ t, Build_Peer t.1 t.2) _). by intros []. Defined.

#[export] Instance Datagram_countable : Countable Datagram.
Proof.
  refine (inj_countable' (λ d, (dg_peer d, dg_recv_at_unix_nanos d, dg_payload d))
    (λ t, Build_Datagram t.1.1 t.1.2 t.2) _). by intros [].
Defined.

#[export] Instance Envelope_countable : Countable Envelope.
Proof.
  refine (inj_countable'
    (λ e, match e with Hello i w => inl (i, w) | Batch_ l => inr (inl l) | Open_ p => inr (inr p) end)
    (λ s, match s with inl (i, w) => Hello i w | inr (inl l) => Batch_ l | inr (inr p) => Open_ p end) _).
  by intros [].
Defined.

#[export] Instance demo_envelope_codec : Codec Envelope := countable_codec Envelope.
#[export] Instance demo_envelope_codec_laws : CodecLaws Envelope := countable_codec_laws Envelope.

Lemma envelope_roundtrip_witness :
  ∃ bytes, write_frame (Hello "edge" 3) fresh_writer = (Ok (), {| sent := bytes; room := None |}) ∧
    read_frame (bytes ++ [7]) = (Ok (Hello "edge" 3), [7]) ∧ decode bytes = Ok (Hello "edge" 3).
Proof.
  pose proof (envelope_roundtrip (Hello "edge" 3) fresh_writer [7] eq_refl) as Hr.
  assert ((MAX_ENVELOPE_FRAME <? zlen (bc_encode (Hello "edge" 3))) = false) as Hs by (vm_compute; reflexivity).
  rewrite Hs in Hr. exact Hr.
Defined.
