(* ===== verification/Udp.v ===== *)
(** * Udp: [src/ingress/udp.rs], [src/ingress/udp/writer.rs] and
    [src/ingress/udp/metrics.rs]

    One UDP ingress worker: the receive loop that admits, routes and batches
    datagrams, the bounded queues, and the backend writers that drain them.  The
    socket, the clock, the outcome of dialling a backend and the draw of the jitter
    are inputs of the steps; the counters wrap at 64 bits as the atomics do. *)

From Stdlib Require Import Ascii.
From S2P Require Import Prelude Text Error Net Lru Float64 Wire Circuit Acl Retry Balancer IngressProtocol.
Local Open Scope Z_scope.

(** ** Counters *)

Inductive DropReason :=
  | DropAcl | DropRateLimit | Oversize | NoBackend | Backpressure | DropCircuitOpen | Protocol.

Definition DropReason_as_str (r : DropReason) : string :=
  match r with
  | DropAcl => "acl"
  | DropRateLimit => "rate_limit"
  | Oversize => "oversize"
  | NoBackend => "no_backend"
  | Backpressure => "backpressure"
  | DropCircuitOpen => "circuit_open"
  | Protocol => "protocol"
  end.

(** The atomics, and the two per-backend instruments. *)
Record IngressCounters := {
  c_received : Z;
  c_relayed : Z;
  dropped_acl : Z;
  dropped_rate_limit : Z;
  dropped_oversize : Z;
  dropped_no_backend : Z;
  dropped_backpressure : Z;
  dropped_circuit_open : Z;
  dropped_protocol : Z;
  i_queue_depth : gmap string Z;
  i_stream_reconnects : gmap string Z;
}.

Definition IngressCounters_new : IngressCounters :=
  {| c_received := 0; c_relayed := 0; dropped_acl := 0; dropped_rate_limit := 0;
     dropped_oversize := 0; dropped_no_backend := 0; dropped_backpressure := 0;
     dropped_circuit_open := 0; dropped_protocol := 0;
     i_queue_depth := ∅; i_stream_reconnects := ∅ |}.

(** A counter with everything but the given atomics kept. *)
Definition with_counts (c : IngressCounters) (rcv rel a r o n b ci p : Z) : IngressCounters :=
  {| c_received := rcv; c_relayed := rel; dropped_acl := a; dropped_rate_limit := r;
     dropped_oversize := o; dropped_no_backend := n; dropped_backpressure := b;
     dropped_circuit_open := ci; dropped_protocol := p;
     i_queue_depth := i_queue_depth c; i_stream_reconnects := i_stream_reconnects c |}.

Definition with_instruments (c : IngressCounters) (q s : gmap string Z) : IngressCounters :=
  {| c_received := c_received c; c_relayed := c_relayed c; dropped_acl := dropped_acl c;
     dropped_rate_limit := dropped_rate_limit c; dropped_oversize := dropped_oversize c;
     dropped_no_backend := dropped_no_backend c; dropped_backpressure := dropped_backpressure c;
     dropped_circuit_open := dropped_circuit_open c; dropped_protocol := dropped_protocol c;
     i_queue_depth := q; i_stream_reconnects := s |}.

Definition record_received (c : IngressCounters) : IngressCounters :=
  with_counts c (wrap64 (c_received c + 1)) (c_relayed c) (dropped_acl c) (dropped_rate_limit c)
    (dropped_oversize c) (dropped_no_backend c) (dropped_backpressure c) (dropped_circuit_open c)
    (dropped_protocol c).

Definition record_relayed (count : Z) (c : IngressCounters) : IngressCounters :=
  with_counts c (c_received c) (wrap64 (c_relayed c + count)) (dropped_acl c) (dropped_rate_limit c)
    (dropped_oversize c) (dropped_no_backend c) (dropped_backpressure c) (dropped_circuit_open c)
    (dropped_protocol c).

(** [drop_atomic(reason).fetch_add(count)]. *)
Definition record_drop (reason : DropReason) (count : Z) (c : IngressCounters) : IngressCounters :=
  let bump (hit : bool) (n : Z) := if hit then wrap64 (n + count) else n in
  with_counts c (c_received c) (c_relayed c)
    (bump (match reason with DropAcl => true | _ => false end) (dropped_acl c))
    (bump (match reason with DropRateLimit => true | _ => false end) (dropped_rate_limit c))
    (bump (match reason with Oversize => true | _ => false end) (dropped_oversize c))
    (bump (match reason with NoBackend => true | _ => false end) (dropped_no_backend c))
    (bump (match reason with Backpressure => true | _ => false end) (dropped_backpressure c))
    (bump (match reason with DropCircuitOpen => true | _ => false end) (dropped_circuit_open c))
    (bump (match reason with Protocol => true | _ => false end) (dropped_protocol c)).

Definition add_at (m : gmap string Z) (k : string) (d : Z) : gmap string Z :=
  <[k := default 0 (m !! k) + d]> m.

Definition queue_depth_add (backend_id : string) (delta : Z) (c : IngressCounters) : IngressCounters :=
  with_instruments c (add_at (i_queue_depth c) backend_id delta) (i_stream_reconnects c).

Definition record_stream_reconnect (backend_id : string) (c : IngressCounters) : IngressCounters :=
  with_instruments c (i_queue_depth c) (add_at (i_stream_reconnects c) backend_id 1).

Definition dropped (c : IngressCounters) (r : DropReason) : Z :=
  match r with
  | DropAcl => dropped_acl c
  | DropRateLimit => dropped_rate_limit c
  | Oversize => dropped_oversize c
  | NoBackend => dropped_no_backend c
  | Backpressure => dropped_backpressure c
  | DropCircuitOpen => dropped_circuit_open c
  | Protocol => dropped_protocol c
  end.

Definition total_dropped (c : IngressCounters) : Z :=
  wrap64 (dropped c DropAcl + dropped c DropRateLimit + dropped c Oversize + dropped c NoBackend +
          dropped c Backpressure + dropped c DropCircuitOpen + dropped c Protocol).

(** ** The bounded queue to a writer: [tokio::sync::mpsc] *)

Record Chan := {
  ch_queue : list (list Datagram);
  ch_capacity : Z;
  ch_closed : bool;
}.

Inductive TrySendError := Full | SendClosed.

Definition try_send (batch : list Datagram) (c : Chan) : result TrySendError Chan :=
  if ch_closed c then Err SendClosed
  else if ch_capacity c <=? zlen (ch_queue c) then Err Full
  else Ok {| ch_queue := ch_queue c ++ [batch]; ch_capacity := ch_capacity c; ch_closed := false |}.

(** ** [src/config/types/ingress.rs] *)

Inductive IngressProto := ProtoUdp | ProtoTcp.

Record IngressConfig := {
  ic_id : string;
  ic_protocol : IngressProto;
  ic_listen : SocketAddr;
  ic_workers : Z;
  ic_recv_buffer_bytes : Z;
  ic_max_datagram_bytes : Z;
  ic_backend_ids : list string;
  ic_batch_max_datagrams : Z;
  ic_batch_max_bytes : Z;
  ic_linger_ms : Z;
  ic_queue_depth_per_backend : Z;
  ic_max_connections : option Z;
  ic_idle_timeout_secs : option Z;
}.

(** ** The receive loop *)

Section udp.
  Context `{IpNetLib} `{Governor} `{Lru (BackendHealth * Z)} (ln : f64 → f64).

Definition admit_datagram (acl : AccessControl) (limiter : KeyedLimiter) (now : Z) (peer : IpAddr)
    (payload_len max_datagram_bytes : Z) : result DropReason unit * KeyedLimiter :=
  if is_err (acl_check acl peer) then (Err DropAcl, limiter)
  else
    let '(r, limiter) := rate_check now peer limiter in
    if is_err r then (Err DropRateLimit, limiter)
    else if max_datagram_bytes <? payload_len then (Err Oversize, limiter)
    else (Ok (), limiter).

Record UdpIngress := {
  u_acl : AccessControl;
  u_rate_limiter : KeyedLimiter;
  u_pool : BackendPool;
  u_limits : BatchLimits;
  u_max_datagram_bytes : Z;
  u_batches : gmap string Batch;
  u_senders : gmap string Chan;
  u_counters : IngressCounters;
  u_ingress_id : string;
  u_restart_listen : SocketAddr;
  u_restart_backend_ids : list string;
  u_restart_queue_depth : Z;
  u_restart_workers : Z;
}.

Definition upd (u : UdpIngress) (l : KeyedLimiter) (b : gmap string Batch) (s : gmap string Chan)
    (c : IngressCounters) : UdpIngress :=
  {| u_acl := u_acl u; u_rate_limiter := l; u_pool := u_pool u; u_limits := u_limits u;
     u_max_datagram_bytes := u_max_datagram_bytes u; u_batches := b; u_senders := s;
     u_counters := c; u_ingress_id := u_ingress_id u; u_restart_listen := u_restart_listen u;
     u_restart_backend_ids := u_restart_backend_ids u;
     u_restart_queue_depth := u_restart_queue_depth u; u_restart_workers := u_restart_workers u |}.

Definition enqueue_batch (sender : Chan) (backend_id : string) (batch : list Datagram)
    (c : IngressCounters) : Chan * IngressCounters :=
  if bool_decide (batch = []) then (sender, c)
  else
    let count := zlen batch in
    match try_send batch sender with
    | Ok sender => (sender, queue_depth_add backend_id 1 c)
    | Err Full => (sender, record_drop Backpressure count c)
    | Err SendClosed => (sender, record_drop NoBackend count c)
    end.

Definition flush_backend (u : UdpIngress) (backend_id : string) : UdpIngress :=
  match u_batches u !! backend_id with
  | None => u
  | Some batch =>
      if batch_is_empty batch then u
      else
        let '(ds, batch) := take_batch batch in
        let batches := <[backend_id := batch]> (u_batches u) in
        match u_senders u !! backend_id with
        | Some sender =>
            let '(sender, c) := enqueue_batch sender backend_id ds (u_counters u) in
            upd u (u_rate_limiter u) batches (<[backend_id := sender]> (u_senders u)) c
        | None =>
            upd u (u_rate_limiter u) batches (u_senders u)
              (record_drop NoBackend (zlen ds) (u_counters u))
        end
  end.

Definition flush_expired (now : Z) (u : UdpIngress) : UdpIngress :=
  let due := map fst (List.filter (λ p, linger_expired (u_limits u) now p.2)
                        (map_to_list (u_batches u))) in
  foldl flush_backend u due.

Definition flush_all (u : UdpIngress) : UdpIngress :=
  foldl flush_backend u (map fst (map_to_list (u_batches u))).

Definition handle_datagram (now unix_nanos : Z) (health : HealthState) (payload : list Z)
    (src : SocketAddr) (u : UdpIngress) : UdpIngress :=
  let u := upd u (u_rate_limiter u) (u_batches u) (u_senders u) (record_received (u_counters u)) in
  let peer_ip := sa_ip src in
  let '(admitted, limiter) :=
    admit_datagram (u_acl u) (u_rate_limiter u) now peer_ip (zlen payload) (u_max_datagram_bytes u) in
  let u := upd u limiter (u_batches u) (u_senders u) (u_counters u) in
  match admitted with
  | Err reason => upd u limiter (u_batches u) (u_senders u) (record_drop reason 1 (u_counters u))
  | Ok _ =>
      match select ln now (u_pool u) peer_ip health with
      | None => upd u limiter (u_batches u) (u_senders u) (record_drop NoBackend 1 (u_counters u))
      | Some backend =>
          let backend_id := id backend in
          let datagram := {| dg_peer := from_socket_addr src;
                             dg_recv_at_unix_nanos := unix_nanos; dg_payload := payload |} in
          let batch := push now datagram (default Batch_new (u_batches u !! backend_id)) in
          let u := upd u limiter (<[backend_id := batch]> (u_batches u)) (u_senders u) (u_counters u) in
          match fill_flush (u_limits u) batch with
          | Some _ => flush_backend u backend_id
          | None => u
          end
      end
  end.

(** The new limits, and whether the linger interval changed. *)
Definition apply_reload (ingress : list IngressConfig) (u : UdpIngress) : bool * UdpIngress :=
  match find (λ i, String.eqb (ic_id i) (u_ingress_id u)) ingress with
  | None => (false, u)
  | Some entry =>
      let new_linger := from_millis (ic_linger_ms entry) in
      (negb (linger (u_limits u) =? new_linger),
       {| u_acl := u_acl u; u_rate_limiter := u_rate_limiter u; u_pool := u_pool u;
          u_limits := {| max_datagrams := ic_batch_max_datagrams entry;
                         max_bytes := ic_batch_max_bytes entry; linger := new_linger |};
          u_max_datagram_bytes := ic_max_datagram_bytes entry;
          u_batches := u_batches u; u_senders := u_senders u; u_counters := u_counters u;
          u_ingress_id := u_ingress_id u; u_restart_listen := u_restart_listen u;
          u_restart_backend_ids := u_restart_backend_ids u;
          u_restart_queue_depth := u_restart_queue_depth u;
          u_restart_workers := u_restart_workers u |})
  end.
End udp.

(** ** The backend writer *)

Record WriterState := {
  ws_stream : option Writer;
  ws_attempt : Z;
  ws_cooldown_until : option Z;
  ws_established_once : bool;
}.

Definition WriterState_new : WriterState :=
  {| ws_stream := None; ws_attempt := 0; ws_cooldown_until := None; ws_established_once := false |}.

Record BackendWriter := {
  bw_backend_id : string;
  bw_ingress_id : string;
  bw_worker : Z;
  bw_retry : RetryConfig;
}.

Section writer.
  Context `{Codec Envelope} (random_range : Z → Z).

(** [dial]: [acquired] is the outcome of opening the raw stream; the preamble and
    the [Hello] follow on it. *)
Definition dial (self : BackendWriter) (acquired : Result Writer) : Result Writer :=
  stream ← acquired;
  match IngressProtocol.write_preamble stream with
  | (Err e, _) => Err e
  | (Ok _, stream) =>
      match IngressProtocol.write_frame (Hello (bw_ingress_id self) (bw_worker self)) stream with
      | (Err e, _) => Err e
      | (Ok _, stream) => Ok stream
      end
  end.

(** What a call of the writer works on: its own state, the shared breakers and the
    shared counters. *)
Definition wenv : Type := WriterState * CircuitBreakers * IngressCounters.

Definition on_failure (self : BackendWriter) (now count : Z) (e : wenv) : wenv :=
  let '(st, cb, c) := e in
  let attempt := Z.min (ws_attempt st + 1) U32_MAX in
  ({| ws_stream := None; ws_attempt := attempt;
      ws_cooldown_until := Some (now + backoff_delay random_range (attempt - 1) (bw_retry self));
      ws_established_once := ws_established_once st |},
   Circuit.record_failure cb now (bw_backend_id self),
   record_drop Protocol count c).

Definition drop_opt (cb : CircuitBreakers) (g : option HalfOpenGuard) : CircuitBreakers :=
  match g with Some g => drop_guard cb g | None => cb end.

(** A batch taken from the queue and not settled yet: the await it is at, and the half-open
    guard of its breaker check, which lives as long as [write_batch] does. *)
Inductive Leg := Dialling | Writing.

Record Hand := {
  hd_batch : list Datagram;
  hd_guard : option HalfOpenGuard;
  hd_leg : Leg;
}.

(** [write_batch] returns: its guard is dropped and nothing is in hand. *)
Definition settle (guard : option HalfOpenGuard) (e : wenv) : wenv * option Hand :=
  let '(st, cb, c) := e in (st, drop_opt cb guard, c, None).

(** [write_batch] up to its first await: the gates shed the batch, or it is in hand, for the
    stream to be dialled when there is none. *)
Definition write_gate (self : BackendWriter) (now : Z) (batch : list Datagram) (e : wenv) : wenv * option Hand :=
  if bool_decide (batch = []) then (e, None)
  else
    let count := zlen batch in
    let '(st, cb, c) := e in
    let '(cb, (circuit_state, guard)) := Circuit.check cb now (bw_backend_id self) in
    if bool_decide (circuit_state = Open) then settle guard (st, cb, record_drop DropCircuitOpen count c)
    else if match ws_cooldown_until st with Some until => now <? until | None => false end then
      settle guard (st, cb, record_drop DropCircuitOpen count c)
    else
      let leg := match ws_stream st with None => Dialling | Some _ => Writing end in
      ((st, cb, c), Some {| hd_batch := batch; hd_guard := guard; hd_leg := leg |}).

(** The dial has returned. *)
Definition dial_done (self : BackendWriter) (now : Z) (acquired : Result Writer) (h : Hand) (e : wenv)
    : wenv * option Hand :=
  match dial self acquired with
  | Ok stream =>
      let '(st, cb, c) := e in
      (({| ws_stream := Some stream; ws_attempt := 0; ws_cooldown_until := None; ws_established_once := true |},
        Circuit.record_success cb (bw_backend_id self),
        if ws_established_once st then record_stream_reconnect (bw_backend_id self) c else c),
       Some {| hd_batch := hd_batch h; hd_guard := hd_guard h; hd_leg := Writing |})
  | Err _ => settle (hd_guard h) (on_failure self now (zlen (hd_batch h)) e)
  end.

(** The write of the frame has returned. *)
Definition send_batch (self : BackendWriter) (now : Z) (batch : list Datagram) (e : wenv) : wenv :=
  let '(st, cb, c) := e in
  let count := zlen batch in
  match ws_stream st with
  | None => (st, cb, record_drop Protocol count c)
  | Some stream =>
      match IngressProtocol.write_frame (Batch_ batch) stream with
      | (Ok _, stream) =>
          ({| ws_stream := Some stream; ws_attempt := 0;
              ws_cooldown_until := ws_cooldown_until st;
              ws_established_once := ws_established_once st |},
           Circuit.record_success cb (bw_backend_id self),
           record_relayed count c)
      | (Err _, _) => on_failure self now count e
      end
  end.

(** [write_batch] resumed at the await its batch is at. *)
Definition write_resume (self : BackendWriter) (now : Z) (acquired : Result Writer) (h : Hand) (e : wenv)
    : wenv * option Hand :=
  match hd_leg h with
  | Dialling => dial_done self now acquired h e
  | Writing => settle (hd_guard h) (send_batch self now (hd_batch h) e)
  end.
End writer.

(** ** A worker and its writers *)

Section world.
  Context `{IpNetLib} `{Governor} `{Lru (BackendHealth * Z)} `{Codec Envelope}.
  Context (ln : f64 → f64).

(** The task of a writer: [wt_hand] is the batch its [write_batch] is working on. *)
Record WriterTask := {
  wt_writer : BackendWriter;
  wt_state : WriterState;
  wt_hand : option Hand;
}.

(** [wd_lost] counts the datagrams a writer left in its queue when it stopped. *)
Record world := {
  wd_ingress : UdpIngress;
  wd_writers : gmap string WriterTask;
  wd_circuit : CircuitBreakers;
  wd_running : bool;
  wd_lost : Z;
}.

Definition with_ingress (w : world) (u : UdpIngress) : world :=
  {| wd_ingress := u; wd_writers := wd_writers w; wd_circuit := wd_circuit w;
     wd_running := wd_running w; wd_lost := wd_lost w |}.

Inductive wevent :=
  | EvDatagram (now unix_nanos : Z) (health : HealthState) (payload : list Z) (src : SocketAddr)
  | EvLinger (now : Z)
  | EvReload (ingress : list IngressConfig)
  | EvShutdown
  | EvWriterRecv (backend_id : string) (now : Z)
  | EvWriterResume (backend_id : string) (now : Z) (acquired : Result Writer) (random_range : Z → Z)
  | EvWriterShutdown (backend_id : string).

(** What a leg of [write_batch] leaves behind. *)
Definition leg_done (w : world) (backend_id : string) (bw : BackendWriter) (senders : gmap string Chan)
    (r : wenv * option Hand) : world :=
  let '(st, cb, c, hand) := r in
  let u := wd_ingress w in
  {| wd_ingress := upd u (u_rate_limiter u) (u_batches u) senders c;
     wd_writers := <[backend_id := {| wt_writer := bw; wt_state := st; wt_hand := hand |}]> (wd_writers w);
     wd_circuit := cb; wd_running := wd_running w; wd_lost := wd_lost w |}.

(** The [rx.recv()] arm of the writer's loop, which runs when [write_batch] is not working on
    a batch; a queue that is empty once the receive loop has dropped its senders ends the
    task. *)
Definition writer_recv (w : world) (backend_id : string) (now : Z) : world :=
  match wd_writers w !! backend_id, u_senders (wd_ingress w) !! backend_id with
  | Some {| wt_writer := bw; wt_state := st; wt_hand := None |}, Some ch =>
      match ch_queue ch with
      | [] =>
          if wd_running w then w
          else {| wd_ingress := wd_ingress w; wd_writers := delete backend_id (wd_writers w);
                  wd_circuit := wd_circuit w; wd_running := wd_running w; wd_lost := wd_lost w |}
      | batch :: rest =>
          let u := wd_ingress w in
          let ch := {| ch_queue := rest; ch_capacity := ch_capacity ch; ch_closed := ch_closed ch |} in
          let c := queue_depth_add backend_id (-1) (u_counters u) in
          leg_done w backend_id bw (<[backend_id := ch]> (u_senders u)) (write_gate bw now batch (st, wd_circuit w, c))
      end
  | _, _ => w
  end.

(** The dial or the write that [write_batch] awaits has returned. *)
Definition writer_resume (w : world) (backend_id : string) (now : Z) (acquired : Result Writer)
    (random_range : Z → Z) : world :=
  match wd_writers w !! backend_id with
  | Some {| wt_writer := bw; wt_state := st; wt_hand := Some h |} =>
      leg_done w backend_id bw (u_senders (wd_ingress w))
        (write_resume random_range bw now acquired h (st, wd_circuit w, u_counters (wd_ingress w)))
  | _ => w
  end.

(** The [shutdown.cancelled()] arm of the writer's loop, between batches: the task returns and
    drops the receiver, which closes the queue and discards what is in it. *)
Definition writer_shutdown (w : world) (backend_id : string) : world :=
  match wd_writers w !! backend_id, u_senders (wd_ingress w) !! backend_id with
  | Some {| wt_hand := None |}, Some ch =>
      let u := wd_ingress w in
      let gone := {| ch_queue := []; ch_capacity := ch_capacity ch; ch_closed := true |} in
      {| wd_ingress := upd u (u_rate_limiter u) (u_batches u) (<[backend_id := gone]> (u_senders u))
                         (u_counters u);
         wd_writers := delete backend_id (wd_writers w);
         wd_circuit := wd_circuit w; wd_running := wd_running w;
         wd_lost := wd_lost w + zlen (concat (ch_queue ch)) |}
  | _, _ => w
  end.

(** The arms of the receive loop run while it has not been shut down. *)
Definition wstep (w : world) (ev : wevent) : world :=
  match ev with
  | EvDatagram now unix_nanos health payload src =>
      if wd_running w
      then with_ingress w (handle_datagram ln now unix_nanos health payload src (wd_ingress w)) else w
  | EvLinger now =>
      if wd_running w then with_ingress w (flush_expired now (wd_ingress w)) else w
  | EvReload ingress =>
      if wd_running w then with_ingress w (apply_reload ingress (wd_ingress w)).2 else w
  | EvShutdown =>
      if wd_running w
      then {| wd_ingress := flush_all (wd_ingress w); wd_writers := wd_writers w;
              wd_circuit := wd_circuit w; wd_running := false; wd_lost := wd_lost w |}
      else w
  | EvWriterRecv id now => writer_recv w id now
  | EvWriterResume id now acquired random_range => writer_resume w id now acquired random_range
  | EvWriterShutdown id => writer_shutdown w id
  end.

(** [spawn_worker]: one empty queue and one writer per backend, no batch yet. *)
Definition spawn_worker (config : IngressConfig) (acl : AccessControl) (limiter : KeyedLimiter)
    (p : BackendPool) (cb : CircuitBreakers) (retry : RetryConfig) (worker_id : Z) : world :=
  let ids := map id (backends p) in
  {| wd_ingress :=
       {| u_acl := acl; u_rate_limiter := limiter; u_pool := p;
          u_limits := {| max_datagrams := ic_batch_max_datagrams config;
                         max_bytes := ic_batch_max_bytes config;
                         linger := from_millis (ic_linger_ms config) |};
          u_max_datagram_bytes := ic_max_datagram_bytes config;
          u_batches := ∅;
          u_senders := list_to_map (map (λ i, (i, {| ch_queue := []; ch_closed := false;
                         ch_capacity := ic_queue_depth_per_backend config |})) ids);
          u_counters := IngressCounters_new;
          u_ingress_id := ic_id config; u_restart_listen := ic_listen config;
          u_restart_backend_ids := ic_backend_ids config;
          u_restart_queue_depth := ic_queue_depth_per_backend config;
          u_restart_workers := ic_workers config |};
     wd_writers := list_to_map (map (λ i, (i, {| wt_writer := {| bw_backend_id := i; bw_ingress_id := ic_id config;
                     bw_worker := worker_id; bw_retry := retry |}; wt_state := WriterState_new; wt_hand := None |})) ids);
     wd_circuit := cb; wd_running := true; wd_lost := 0 |}.

Inductive wreachable (w0 : world) : world → Prop :=
  | wr_init : wreachable w0 w0
  | wr_step w ev : wreachable w0 w → wreachable w0 (wstep w ev).
End world.

(** ** Accounting *)

Definition drops (c : IngressCounters) : Z :=
  dropped_acl c + dropped_rate_limit c + dropped_oversize c + dropped_no_backend c +
  dropped_backpressure c + dropped_circuit_open c + dropped_protocol c.

(** Datagrams received and not yet accounted for as relayed or dropped. *)
Definition balance (c : IngressCounters) : Z := c_received c - c_relayed c - drops c.

Lemma balance_received c : cong64 (balance (record_received c)) (balance c + 1).
Proof. unfold balance, record_received, drops; cbn. rewrite wrap64_cong. apply cong64_of_eq. lia. Qed.

Lemma balance_relayed n c : cong64 (balance (record_relayed n c)) (balance c - n).
Proof. unfold balance, record_relayed, drops; cbn. rewrite wrap64_cong. apply cong64_of_eq. lia. Qed.

Lemma balance_drop r n c : cong64 (balance (record_drop r n c)) (balance c - n).
Proof.
  unfold balance, record_drop, drops; destruct r; cbn; rewrite wrap64_cong; apply cong64_of_eq; lia.
Qed.

Section accounting.
  Context `{IpNetLib} `{Governor} `{Lru (BackendHealth * Z)} `{Codec Envelope}.
  Context (ln : f64 → f64).

Definition batch_count (b : Batch) : Z := zlen (datagrams b).
Definition chan_count (c : Chan) : Z := zlen (concat (ch_queue c)).

Definition buffered (u : UdpIngress) : Z := msum batch_count (u_batches u).
Definition queued (u : UdpIngress) : Z := msum chan_count (u_senders u).

Definition slack (u : UdpIngress) : Z := balance (u_counters u) - buffered u - queued u.

(** The datagrams of the batches the writers are working on. *)
Definition hand_count (h : option Hand) : Z := match h with Some h => zlen (hd_batch h) | None => 0 end.
Definition in_hand (w : world) : Z := msum (λ t, hand_count (wt_hand t)) (wd_writers w).

(** What a worker still holds, or its writers left behind. *)
Definition held (w : world) : Z := buffered (wd_ingress w) + queued (wd_ingress w) + in_hand w + wd_lost w.

Lemma enqueue_slack sender backend_id batch c sender' c' :
  enqueue_batch sender backend_id batch c = (sender', c') →
  cong64 (balance c' - chan_count sender') (balance c - chan_count sender - zlen batch).
Proof.
  unfold enqueue_batch. case_bool_decide as Hb.
  { intros [= <- <-]. subst. apply cong64_of_eq. unfold zlen. cbn. lia. }
  unfold try_send. destruct (ch_closed sender) eqn:Hc; [|destruct (_ <=? _)]; intros [= <- <-].
  - rewrite balance_drop. apply cong64_of_eq. lia.
  - rewrite balance_drop. apply cong64_of_eq. lia.
  - apply cong64_of_eq. unfold chan_count. cbn [ch_queue]. rewrite concat_app, zlen_app. cbn [concat].
    rewrite app_nil_r. change (balance (queue_depth_add backend_id 1 c)) with (balance c). lia.
Qed.

Lemma flush_backend_slack u backend_id : cong64 (slack (flush_backend u backend_id)) (slack u).
Proof.
  unfold flush_backend. destruct (u_batches u !! backend_id) as [b|] eqn:Hb; [|reflexivity].
  destruct (batch_is_empty b); [reflexivity|]. cbn [take_batch].
  assert (buffered (upd u (u_rate_limiter u) (<[backend_id:=Batch_new]> (u_batches u)) (u_senders u) (u_counters u))
    = buffered u - zlen (datagrams b)) as Hbuf.
  { unfold buffered, upd; cbn [u_batches]. rewrite msum_insert, Hb. unfold batch_count. cbn. unfold zlen. cbn. lia. }
  unfold buffered, upd in Hbuf; cbn [u_batches] in Hbuf. unfold slack, buffered, queued.
  destruct (u_senders u !! backend_id) as [sender|] eqn:Hs.
  - destruct (enqueue_batch _ _ _ _) as [sender' c'] eqn:He. apply enqueue_slack in He as [k He].
    unfold upd; cbn [u_batches u_senders u_counters]. rewrite Hbuf, msum_insert, Hs.
    exists k. lia.
  - unfold upd; cbn [u_batches u_senders u_counters]. rewrite Hbuf, balance_drop. apply cong64_of_eq. lia.
Qed.

Lemma foldl_flush_slack ids u : cong64 (slack (foldl flush_backend u ids)) (slack u).
Proof.
  revert u. induction ids as [|i ids IH]; intros u; [reflexivity|]. cbn [foldl].
  rewrite IH. apply flush_backend_slack.
Qed.

Lemma slack_counters u l c :
  slack (upd u l (u_batches u) (u_senders u) c) = slack u + (balance c - balance (u_counters u)).
Proof. unfold slack, buffered, queued, upd. cbn. lia. Qed.

Lemma handle_datagram_slack now nanos health payload src u :
  cong64 (slack (handle_datagram ln now nanos health payload src u)) (slack u).
Proof.
  unfold handle_datagram. cbn [u_acl u_rate_limiter u_max_datagram_bytes upd u_batches u_senders u_counters u_pool u_limits].
  destruct (balance_received (u_counters u)) as [k Hk].
  destruct (admit_datagram _ _ _ _ _ _) as [[[]|reason] limiter].
  2:{ destruct (balance_drop reason 1 (record_received (u_counters u))) as [j Hj].
      exists (k + j). unfold slack, buffered, queued, upd; cbn. lia. }
  destruct (select _ _ _ _ _) as [backend|].
  2:{ destruct (balance_drop NoBackend 1 (record_received (u_counters u))) as [j Hj].
      exists (k + j). unfold slack, buffered, queued, upd; cbn. lia. }
  set (batch := push _ _ _).
  match goal with |- cong64 (slack (match _ with Some _ => flush_backend ?v _ | None => _ end)) _ =>
    assert (cong64 (slack v) (slack u)) as Hu' end.
  { exists k. unfold slack, buffered, queued, upd; cbn [u_batches u_senders u_counters].
    rewrite msum_insert. unfold batch, batch_count, push; cbn [datagrams]. rewrite zlen_app.
    destruct (u_batches u !! id backend) as [b|]; cbn; unfold zlen; cbn; lia. }
  destruct (fill_flush _ _); [|done]. by rewrite flush_backend_slack.
Qed.

Lemma write_gate_balance self now batch st cb c st' cb' c' hand :
  write_gate self now batch (st, cb, c) = (st', cb', c', hand) →
  cong64 (balance c' - hand_count hand) (balance c - zlen batch).
Proof.
  unfold write_gate. case_bool_decide as Hb.
  { intros [= <- <- <- <-]. subst. apply cong64_of_eq. unfold zlen. cbn. lia. }
  destruct (Circuit.check _ _ _) as [cb1 [cs guard]].
  case_bool_decide; [intros [= <- <- <- <-]; cbn [hand_count]; rewrite Z.sub_0_r; apply balance_drop|].
  destruct (match ws_cooldown_until st with Some _ => _ | None => _ end); intros [= <- <- <- <-]; cbn [hand_count].
  - rewrite Z.sub_0_r. apply balance_drop.
  - by apply cong64_of_eq.
Qed.

Lemma write_resume_balance rr self now acquired h st cb c st' cb' c' hand :
  write_resume rr self now acquired h (st, cb, c) = (st', cb', c', hand) →
  cong64 (balance c' - hand_count hand) (balance c - zlen (hd_batch h)).
Proof.
  unfold write_resume, dial_done, send_batch, on_failure, settle. destruct (hd_leg h).
  - destruct (dial self acquired); intros [= <- <- <- <-]; cbn [hand_count hd_batch].
    + apply cong64_of_eq. by destruct (ws_established_once st).
    + rewrite Z.sub_0_r. apply balance_drop.
  - destruct (ws_stream st); [destruct (IngressProtocol.write_frame _ _) as [[[]|e] w1]|];
      intros [= <- <- <- <-]; cbn [hand_count]; rewrite Z.sub_0_r;
      [apply balance_relayed|apply balance_drop|apply balance_drop].
Qed.

(** What a worker holds and what its counters have settled, together. *)
Definition account (w : world) : Z := balance (u_counters (wd_ingress w)) - held w.

Lemma writer_recv_account w backend_id now : cong64 (account (writer_recv w backend_id now)) (account w).
Proof.
  unfold writer_recv. destruct (wd_writers w !! backend_id) as [[bw st [h|]]|] eqn:Hw; [reflexivity| |reflexivity].
  destruct (u_senders (wd_ingress w) !! backend_id) as [ch|] eqn:Hch; [|reflexivity].
  destruct (ch_queue ch) as [|batch rest] eqn:Hq.
  - destruct (wd_running w); [reflexivity|]. apply cong64_of_eq. unfold account, held, in_hand. cbn [wd_ingress wd_writers wd_lost].
    rewrite (msum_delete _ _ _ _ Hw). cbn. lia.
  - destruct (write_gate _ _ _ _) as [[[st' cb'] c'] hand] eqn:Hg. apply write_gate_balance in Hg as [k Hk]. exists k.
    change (balance (queue_depth_add backend_id (-1) (u_counters (wd_ingress w))))
      with (balance (u_counters (wd_ingress w))) in Hk.
    unfold account, held, in_hand, buffered, queued, leg_done, upd; cbn [wd_ingress wd_writers wd_lost u_batches u_senders u_counters].
    rewrite !msum_insert, Hch, Hw. unfold chan_count. rewrite Hq. cbn [ch_queue concat wt_hand hand_count]. rewrite zlen_app. lia.
Qed.

Lemma writer_resume_account w backend_id now acquired rr :
  cong64 (account (writer_resume w backend_id now acquired rr)) (account w).
Proof.
  unfold writer_resume. destruct (wd_writers w !! backend_id) as [[bw st [h|]]|] eqn:Hw; [|reflexivity..].
  destruct (write_resume _ _ _ _ _ _) as [[[st' cb'] c'] hand] eqn:Hg. apply write_resume_balance in Hg as [k Hk]. exists k.
  unfold account, held, in_hand, buffered, queued, leg_done, upd; cbn [wd_ingress wd_writers wd_lost u_batches u_senders u_counters].
  rewrite msum_insert, Hw. cbn [wt_hand hand_count]. lia.
Qed.

Lemma writer_shutdown_account w backend_id : account (writer_shutdown w backend_id) = account w.
Proof.
  unfold writer_shutdown. destruct (wd_writers w !! backend_id) as [[bw st [h|]]|] eqn:Hw; [done| |done].
  destruct (u_senders (wd_ingress w) !! backend_id) as [ch|] eqn:Hch; [|done].
  unfold account, held, in_hand, buffered, queued, upd; cbn [wd_ingress wd_writers u_batches u_senders u_counters wd_lost].
  rewrite msum_insert, Hch, (msum_delete _ _ _ _ Hw). unfold chan_count. cbn [ch_queue concat wt_hand hand_count].
  change (zlen (@nil Datagram)) with 0. lia.
Qed.

Lemma apply_reload_slack ingress u : slack (apply_reload ingress u).2 = slack u.
Proof. unfold apply_reload. by destruct (find _ _). Qed.

(** A step of the receive loop leaves the writers alone. *)
Lemma ingress_account w w' :
  wd_writers w' = wd_writers w → wd_lost w' = wd_lost w → cong64 (slack (wd_ingress w')) (slack (wd_ingress w)) →
  cong64 (account w') (account w).
Proof.
  intros Hw Hl [k Hk]. exists k. unfold account, held, in_hand, slack in *. rewrite Hw, Hl. lia.
Qed.

Lemma wstep_account w ev : cong64 (account (wstep ln w ev)) (account w).
Proof.
  destruct ev; cbn [wstep].
  - destruct (wd_running w); [|reflexivity]. apply ingress_account; [done..|]. apply handle_datagram_slack.
  - destruct (wd_running w); [|reflexivity]. apply ingress_account; [done..|]. apply foldl_flush_slack.
  - destruct (wd_running w); [|reflexivity]. apply ingress_account; [done..|]. cbn. by rewrite apply_reload_slack.
  - destruct (wd_running w); [|reflexivity]. apply ingress_account; [done..|]. apply foldl_flush_slack.
  - apply writer_recv_account.
  - apply writer_resume_account.
  - by rewrite writer_shutdown_account.
Qed.

Lemma msum_list_to_map {A} (f : A → Z) (l : list string) (g : string → A) :
  (∀ i, f (g i) = 0) → msum f (list_to_map (map (λ i, (i, g i)) l) : gmap string A) = 0.
Proof.
  intros Hf. induction l as [|i l IH]; cbn; [apply msum_empty|].
  rewrite msum_insert, IH, Hf. destruct (_ !! i) as [a|] eqn:Ha; [|lia].
  apply elem_of_list_to_map_2, list_elem_of_fmap in Ha as (j & [= -> ->] & _). rewrite Hf. lia.
Qed.

Lemma spawn_account config acl limiter p cb retry worker :
  let w := spawn_worker config acl limiter p cb retry worker in held w = 0 ∧ account w = 0.
Proof.
  cbn zeta. assert (held (spawn_worker config acl limiter p cb retry worker) = 0) as Hh.
  { unfold held, in_hand, buffered, queued, spawn_worker; cbn [wd_ingress wd_writers wd_lost u_batches u_senders].
    rewrite msum_empty, !msum_list_to_map by done. done. }
  split; [done|]. unfold account. by rewrite Hh.
Qed.

(** No datagram is lost from sight: between the steps of every run of a worker, the datagrams
    received are those relayed, those dropped for a counted reason, those still buffered,
    queued or in the hands of a writer that dials or writes, and those a stopped writer left
    in its queue (all modulo the 64 bits of the counters).  Once nothing is held and no writer
    stopped on queued batches, the counters close exactly: received = relayed + dropped. *)
Theorem ingress_accounting config acl limiter p cb retry worker w :
  wreachable ln (spawn_worker config acl limiter p cb retry worker) w →
  let c := u_counters (wd_ingress w) in
  cong64 (c_received c) (c_relayed c + drops c + held w) ∧
  (held w = 0 → wrap64 (c_received c) = wrap64 (c_relayed c + total_dropped c)).
Proof.
  intros Hr c.
  assert (cong64 (account w) 0) as [k Hk].
  { subst c. induction Hr as [|w ev _ IH]; [|by rewrite wstep_account].
    destruct (spawn_account config acl limiter p cb retry worker) as [_ ->]. by apply cong64_of_eq. }
  subst c. unfold account, balance in Hk. split; [exists k; lia|].
  intros Hh. apply cong64_wrap. unfold total_dropped. cbn [dropped].
  rewrite wrap64_cong. exists k. unfold drops in Hk. lia.
Qed.
End accounting.

(** ** Queues stay bounded and the gauge is exact *)

Section queues.
  Context `{IpNetLib} `{Governor} `{Lru (BackendHealth * Z)} `{Codec Envelope}.
  Context (ln : f64 → f64).

(** A queue with a live writer holds at most its capacity, and the gauge of its
    backend counts its batches. *)
Definition queue_ok (m : gmap string Z) (i : string) (ch : Chan) : Prop :=
  ch_closed ch = false →
  zlen (ch_queue ch) ≤ Z.max 0 (ch_capacity ch) ∧ default 0 (m !! i) = zlen (ch_queue ch).

Definition queues_ok (u : UdpIngress) : Prop :=
  map_Forall (queue_ok (i_queue_depth (u_counters u))) (u_senders u).

Lemma queue_ok_add_ne m i k d ch : i ≠ k → queue_ok m i ch → queue_ok (add_at m k d) i ch.
Proof. intros Hne Hq Hc. unfold add_at. rewrite lookup_insert_ne by done. by apply Hq. Qed.

Lemma enqueue_queue_ok m i ch batch c ch' c' :
  queue_ok (i_queue_depth c) i ch → m = i_queue_depth c →
  enqueue_batch ch i batch c = (ch', c') →
  queue_ok (i_queue_depth c') i ch' ∧ ∀ j x, j ≠ i → queue_ok m j x → queue_ok (i_queue_depth c') j x.
Proof.
  intros Hq ->. unfold enqueue_batch. case_bool_decide; [by intros [= <- <-]|].
  unfold try_send. destruct (ch_closed ch) eqn:Hc; [|destruct (_ <=? _) eqn:Hfull]; intros [= <- <-];
    try done. split.
  - intros _. destruct (Hq Hc) as [Hlen Hg]. cbn. rewrite zlen_app. change (zlen [batch]) with 1.
    unfold add_at. rewrite lookup_insert_eq. cbn. bool_hyps. lia.
  - intros j x Hne Hx. by apply queue_ok_add_ne.
Qed.

Lemma flush_backend_queues u i : queues_ok u → queues_ok (flush_backend u i).
Proof.
  intros Hok. unfold flush_backend. destruct (u_batches u !! i) as [b|]; [|done].
  destruct (batch_is_empty b); [done|]. cbn [take_batch].
  destruct (u_senders u !! i) as [ch|] eqn:Hch; [|done].
  destruct (enqueue_batch _ _ _ _) as [ch' c'] eqn:He.
  eapply enqueue_queue_ok in He as [Hi Hother]; [|by apply (Hok i ch)|done].
  unfold queues_ok, upd; cbn [u_counters u_senders].
  intros j x Hj. apply lookup_insert_Some in Hj as [[<- <-]|[Hne Hj]]; [done|].
  apply Hother; [done|]. by apply (Hok j x).
Qed.

Lemma foldl_flush_queues ids u : queues_ok u → queues_ok (foldl flush_backend u ids).
Proof.
  revert u. induction ids as [|i ids IH]; intros u Hok; [done|]. apply IH. by apply flush_backend_queues.
Qed.

Lemma handle_datagram_queues now nanos health payload src u :
  queues_ok u → queues_ok (handle_datagram ln now nanos health payload src u).
Proof.
  intros Hok. unfold handle_datagram. destruct (admit_datagram _ _ _ _ _ _) as [[[]|reason] limiter]; [|done].
  destruct (select _ _ _ _ _) as [backend|]; [|done].
  destruct (fill_flush _ _); [|done]. by apply flush_backend_queues.
Qed.

(** The writer touches the gauge only through its dequeue. *)
Lemma write_gate_gauge self now batch st cb c :
  i_queue_depth (write_gate self now batch (st, cb, c)).1.2 = i_queue_depth c.
Proof. unfold write_gate, settle. by repeat case_match. Qed.

Lemma write_resume_gauge rr self now acquired h st cb c :
  i_queue_depth (write_resume rr self now acquired h (st, cb, c)).1.2 = i_queue_depth c.
Proof.
  unfold write_resume, dial_done, send_batch, on_failure, settle.
  repeat case_match; simplify_eq; try done; by destruct (ws_established_once st).
Qed.

Lemma writer_recv_queues w i now : queues_ok (wd_ingress w) → queues_ok (wd_ingress (writer_recv w i now)).
Proof.
  intros Hok. unfold writer_recv. destruct (wd_writers w !! i) as [[bw st [h|]]|]; [done| |done].
  destruct (u_senders (wd_ingress w) !! i) as [ch|] eqn:Hch; [|done].
  destruct (ch_queue ch) as [|batch rest] eqn:Hq; [by destruct (wd_running w)|].
  pose proof (write_gate_gauge bw now batch st (wd_circuit w) (queue_depth_add i (-1) (u_counters (wd_ingress w)))) as Hw.
  destruct (write_gate _ _ _ _) as [[[st' cb'] c'] hand]. cbn [fst snd] in Hw.
  unfold queues_ok, leg_done, upd; cbn [wd_ingress u_counters u_senders]. rewrite Hw. cbn [queue_depth_add with_instruments i_queue_depth].
  intros j x Hj. apply lookup_insert_Some in Hj as [[<- <-]|[Hne Hj]].
  - intros Hc. destruct (Hok i ch Hch Hc) as [Hlen Hg]. cbn in *. rewrite Hq in Hlen, Hg.
    unfold add_at. rewrite lookup_insert_eq. cbn. unfold zlen in *. rewrite length_cons in *. lia.
  - apply queue_ok_add_ne; [done|]. by apply (Hok j x).
Qed.

Lemma writer_resume_queues w i now acquired rr :
  queues_ok (wd_ingress w) → queues_ok (wd_ingress (writer_resume w i now acquired rr)).
Proof.
  intros Hok. unfold writer_resume. destruct (wd_writers w !! i) as [[bw st [h|]]|]; [|done..].
  pose proof (write_resume_gauge rr bw now acquired h st (wd_circuit w) (u_counters (wd_ingress w))) as Hw.
  destruct (write_resume _ _ _ _ _ _) as [[[st' cb'] c'] hand]. cbn [fst snd] in Hw.
  unfold queues_ok, leg_done, upd; cbn [wd_ingress u_counters u_senders]. by rewrite Hw.
Qed.

(** Backpressure is bounded: in every run of a worker, the queue of a
    backend whose writer is alive never holds more batches than its configured
    depth, and the queue-depth gauge of the backend is exactly its length. *)
Theorem ingress_queue_gauge config acl limiter p cb retry worker w i ch :
  wreachable ln (spawn_worker config acl limiter p cb retry worker) w →
  u_senders (wd_ingress w) !! i = Some ch → ch_closed ch = false →
  zlen (ch_queue ch) ≤ Z.max 0 (ch_capacity ch) ∧
  default 0 (i_queue_depth (u_counters (wd_ingress w)) !! i) = zlen (ch_queue ch).
Proof.
  intros Hr Hi Hc. assert (queues_ok (wd_ingress w)) as Hok; [|by apply (Hok i ch)]. clear Hi Hc.
  induction Hr as [|w ev _ IH].
  - intros j x Hj _. cbn in Hj.
    apply elem_of_list_to_map_2, list_elem_of_fmap in Hj as (k & [= -> ->] & _). cbn.
    rewrite lookup_empty. cbn. unfold zlen. cbn. lia.
  - destruct ev; cbn [wstep]; try (destruct (wd_running w); [|done]); cbn.
    + by apply handle_datagram_queues.
    + by apply foldl_flush_queues.
    + unfold apply_reload. by destruct (find _ _).
    + by apply foldl_flush_queues.
    + by apply writer_recv_queues.
    + by apply writer_resume_queues.
    + unfold writer_shutdown. destruct (wd_writers w !! _) as [[? ? [?|]]|]; [done| |done].
      destruct (u_senders (wd_ingress w) !! _) eqn:Hs; [|done].
      unfold queues_ok, upd; cbn [wd_ingress u_counters u_senders]. intros j x Hj. apply lookup_insert_Some in Hj as [[<- <-]|[Hne Hj]]; [by intros|].
      by apply (IH j x).
Qed.
End queues.

(** ** Two defects *)

Section overflow.
  Context `{Codec Envelope}.

Definition default_limits : BatchLimits :=
  {| max_datagrams := 512; max_bytes := 61440; linger := from_millis 20 |}.

Lemma pushes_datagrams now ds b : datagrams (pushes now ds b) = datagrams b ++ ds.
Proof.
  revert b. induction ds as [|d ds IH]; intros b; cbn; [by rewrite app_nil_r|].
  rewrite IH. cbn. by rewrite <-app_assoc.
Qed.

Lemma pushes_wf now ds b : batch_wf b → batch_wf (pushes now ds b).
Proof. revert b. induction ds as [|d ds IH]; intros b Hb; [done|]. apply IH, push_wf, Hb. Qed.

Lemma pushes_fill now ds :
  ds ≠ [] → total_payload ds ≤ U64_MAX →
  fill_flush default_limits (pushes now ds Batch_new) =
  if 512 <=? zlen ds then Some Count else if 61440 <=? total_payload ds then Some Bytes else None.
Proof.
  intros Hne Hmax. assert (batch_wf (pushes now ds Batch_new)) as [Hp _].
  { apply pushes_wf. split; [reflexivity|done]. }
  unfold fill_flush, batch_is_empty. rewrite Hp, pushes_datagrams. cbn [datagrams Batch_new app].
  rewrite bool_decide_false by done. by rewrite Z.min_l.
Qed.

Lemma total_payload_const n ds :
  Forall (λ d, zlen (dg_payload d) = n) ds → total_payload ds = n * zlen ds.
Proof.
  induction 1 as [|d ds Hd _ IH]; cbn [total_payload]; [unfold zlen; cbn; lia|].
  rewrite Hd, IH. unfold zlen. rewrite length_cons. lia.
Qed.

(** With the default limits a burst of eight datagrams of the default
    maximal size is cut into a batch whose payload alone is 65536 bytes: the byte
    trigger fires only after the datagram that crosses it.  Unless the encoder
    shrinks it, that batch is above the frame ceiling, so on a healthy stream the
    whole batch is dropped and the breaker is charged with a failure. *)
Theorem default_batch_overflows_frame (now : Z) (ds : list Datagram) (w : Writer) :
  length ds = 8%nat → Forall (λ d, zlen (dg_payload d) = 8192) ds →
  total_payload ds < zlen (bc_encode (Batch_ ds)) →
  fill_flush default_limits (pushes now (take 7 ds) Batch_new) = None ∧
  fill_flush default_limits (pushes now ds Batch_new) = Some Bytes ∧
  is_err (IngressProtocol.write_frame (Batch_ ds) w).1 = true ∧
  (∀ rr self st cb c, ws_stream st = Some w →
     send_batch rr self now ds (st, cb, c) = on_failure rr self now 8 (st, cb, c)).
Proof.
  intros Hlen Hall Henc.
  assert (total_payload ds = 65536) as Ht by (rewrite (total_payload_const 8192) by done; unfold zlen; lia).
  assert (total_payload (take 7 ds) = 57344) as Ht7.
  { rewrite (total_payload_const 8192) by (by apply Forall_take). unfold zlen. rewrite length_take. lia. }
  assert (IngressProtocol.write_frame (Batch_ ds) w =
    (Err (Ingress ("envelope frame too large: " +:+ pretty (length (bc_encode (Batch_ ds))) +:+ " bytes")), w))
    as Hw.
  { unfold IngressProtocol.write_frame, IngressProtocol.encode.
    rewrite (proj2 (Z.ltb_lt MAX_ENVELOPE_FRAME _)) by (unfold MAX_ENVELOPE_FRAME; lia). done. }
  split; [|split; [|split]].
  - rewrite pushes_fill; [|intros Hn; by rewrite Hn in Ht7|unfold U64_MAX; lia].
    rewrite Ht7. unfold zlen. rewrite length_take, Hlen. done.
  - rewrite pushes_fill; [|intros ->; done|unfold U64_MAX; lia].
    rewrite Ht. unfold zlen. by rewrite Hlen.
  - by rewrite Hw.
  - intros rr self st cb c Hst. unfold send_batch. rewrite Hst, Hw. unfold zlen. by rewrite Hlen.
Qed.
End overflow.

(** ** Runs *)

Definition demo_ingress : IngressConfig :=
  {| ic_id := "edge"; ic_protocol := ProtoUdp;
     ic_listen := {| sa_ip := V4 0x7f000001; sa_port := 514 |}; ic_workers := 1;
     ic_recv_buffer_bytes := 1024; ic_max_datagram_bytes := 64; ic_backend_ids := ["a"; "b"];
     ic_batch_max_datagrams := 4; ic_batch_max_bytes := 128; ic_linger_ms := 20;
     ic_queue_depth_per_backend := 2; ic_max_connections := None; ic_idle_timeout_secs := None |}.

Definition demo_world : world :=
  spawn_worker demo_ingress (AccessControl_new [] []) (limiter_per_second 100) demo_pool
    (CircuitBreakers_new {| cfg_failure_threshold := 5; cfg_recovery_timeout_secs := 30;
                            cfg_half_open_max_requests := 1 |})
    {| max_retries := 3; base_delay_ms := 100; max_delay_ms := 1000; jitter_ms := 0 |} 0.

Definition demo_datagram : wevent :=
  EvDatagram 1 1 HealthState_new [1; 2; 3] {| sa_ip := V4 7; sa_port := 99 |}.

Definition run (evs : list wevent) : world := foldl (wstep demo_ln) demo_world evs.

Lemma udp_run_reachable evs : wreachable demo_ln demo_world (run evs).
Proof.
  unfold run. assert (∀ w, wreachable demo_ln demo_world w →
    wreachable demo_ln demo_world (foldl (wstep demo_ln) w evs)) as Hgen; [|apply Hgen, wr_init].
  induction evs as [|ev evs IH]; intros w Hw; [done|]. apply IH. by apply wr_step.
Qed.

(** One datagram is admitted, batched, flushed by the linger timer and relayed. *)
Definition relayed_run : world :=
  run [demo_datagram; EvLinger (from_secs 1);
       EvWriterRecv "a" (from_secs 1); EvWriterRecv "b" (from_secs 1);
       EvWriterResume "b" (from_secs 1) (Ok fresh_writer) (λ _, 0);
       EvWriterResume "b" (from_secs 1) (Ok fresh_writer) (λ _, 0)].

Lemma ingress_accounting_witness :
  wrap64 (c_received (u_counters (wd_ingress relayed_run))) =
  wrap64 (c_relayed (u_counters (wd_ingress relayed_run)) +
          total_dropped (u_counters (wd_ingress relayed_run))).
Proof.
  apply (ingress_accounting demo_ln demo_ingress (AccessControl_new [] []) (limiter_per_second 100) demo_pool
    (CircuitBreakers_new {| cfg_failure_threshold := 5; cfg_recovery_timeout_secs := 30;
                            cfg_half_open_max_requests := 1 |})
    {| max_retries := 3; base_delay_ms := 100; max_delay_ms := 1000; jitter_ms := 0 |} 0 relayed_run).
  - apply udp_run_reachable.
  - vm_compute. reflexivity.
Defined.

(** While its stream is dialled and its frame written, a batch is in no buffer and no queue:
    it is in hand, and a writer does not stop on it. *)
Example batch_in_hand :
  let dialling := run [demo_datagram; EvLinger (from_secs 1); EvWriterRecv "b" (from_secs 1)] in
  buffered (wd_ingress dialling) = 0 ∧ queued (wd_ingress dialling) = 0 ∧ in_hand dialling = 1 ∧
  account (writer_shutdown dialling "b") = account dialling ∧ wd_lost (writer_shutdown dialling "b") = 0 ∧
  c_relayed (u_counters (wd_ingress relayed_run)) = 1 ∧ held relayed_run = 0.
Proof. cbn zeta. repeat split; vm_compute; reflexivity. Qed.

Lemma ingress_queue_gauge_witness :
  ∃ i ch, u_senders (wd_ingress (run [demo_datagram; EvLinger (from_secs 1)])) !! i = Some ch ∧
    zlen (ch_queue ch) = 1 ∧
    default 0 (i_queue_depth (u_counters (wd_ingress (run [demo_datagram; EvLinger (from_secs 1)]))) !! i)
      = zlen (ch_queue ch).
Proof.
  exists "b". eexists. split; [vm_compute; reflexivity|]. split; [vm_compute; reflexivity|].
  apply (ingress_queue_gauge demo_ln demo_ingress (AccessControl_new [] []) (limiter_per_second 100) demo_pool
    (CircuitBreakers_new {| cfg_failure_threshold := 5; cfg_recovery_timeout_secs := 30;
                            cfg_half_open_max_requests := 1 |})
    {| max_retries := 3; base_delay_ms := 100; max_delay_ms := 1000; jitter_ms := 0 |} 0
    (run [demo_datagram; EvLinger (from_secs 1)]) "b").
  - apply udp_run_reachable.
  - vm_compute. reflexivity.
  - vm_compute. reflexivity.
Defined.

(** Shutdown can lose datagrams without counting them: the receive loop
    flushes its buffers into the queues, but a writer that sees the shutdown first
    returns without draining its queue.  In this run one datagram is received, none
    is relayed, none is dropped, and nothing is left anywhere. *)
Theorem shutdown_loses_queued :
  ∃ w, wreachable demo_ln demo_world w ∧ wd_running w = false ∧
    c_received (u_counters (wd_ingress w)) = 1 ∧ c_relayed (u_counters (wd_ingress w)) = 0 ∧
    total_dropped (u_counters (wd_ingress w)) = 0 ∧
    buffered (wd_ingress w) = 0 ∧ queued (wd_ingress w) = 0 ∧ in_hand w = 0.
Proof.
  exists (run [demo_datagram; EvShutdown; EvWriterShutdown "a"; EvWriterShutdown "b"]).
  split; [apply udp_run_reachable|]. repeat split; vm_compute; reflexivity.
Qed.

(** A codec that copies the payloads. *)
Definition copying_codec : Codec Envelope := {|
  bc_encode e := match e with Batch_ ds => 0 :: concat (map dg_payload ds) | _ => [] end;
  bc_decode _ := DecodeError "unused";
|}.

Definition big_datagram : Datagram :=
  {| dg_peer := {| peer_ip := repeat 0 16; peer_port := 1 |}; dg_recv_at_unix_nanos := 0;
     dg_payload := repeat 0 (Z.to_nat 8192) |}.

Lemma default_batch_overflows_frame_witness :
  is_err (@IngressProtocol.write_frame copying_codec (Batch_ (repeat big_datagram 8)) fresh_writer).1 = true.
Proof.
  apply (@default_batch_overflows_frame copying_codec 0 (repeat big_datagram 8) fresh_writer).
  - reflexivity.
  - apply Forall_forall. intros d Hd%list_elem_of_In%repeat_spec. subst. vm_compute. reflexivity.
  - vm_compute. reflexivity.
Defined.
