(* ===== verification/Registry.v ===== *)
(** * Registry: [src/tunnel/registry.rs]

    The live tunnel sessions, their control channels, the wake-up handles of parked
    requests and the refusals of control peers.  A QUIC connection is the number
    that names it, a control channel is a bounded queue of frames named by its
    session, and [tokio::sync::Notify] is a generation counter: [notify_waiters]
    releases exactly the futures created before it. *)

From S2P Require Import Prelude Text Error Net Wire Identity TunnelProtocol.
Local Open Scope Z_scope.

Definition REVOKED_REASON : string := "revoked".

Record TunnelSession := {
  ts_session_id : SessionId;
  ts_backend_id : string;
  ts_pool : string;
  ts_remote_addr : SocketAddr;
  ts_connected_at : Z;
  ts_last_heartbeat : Z;
  ts_connection : nat;
  ts_identity : PeerIdentity;
  ts_is_control_peer : bool;
}.

(** The control channel of a session: [control_tx] lives in the session, the
    receiver in its control loop. *)
Record ControlChan := {
  cc_queue : list TunnelFrame;
  cc_capacity : Z;
  cc_closed : bool;
}.

Definition cc_try_send (f : TunnelFrame) (c : ControlChan) : ControlChan :=
  if cc_closed c || (cc_capacity c <=? zlen (cc_queue c)) then c
  else {| cc_queue := cc_queue c ++ [f]; cc_capacity := cc_capacity c; cc_closed := false |}.

Definition cc_close (c : ControlChan) : ControlChan :=
  {| cc_queue := cc_queue c; cc_capacity := cc_capacity c; cc_closed := true |}.

Record TunnelRegistry := {
  sessions : gmap string (list TunnelSession);
  rr_counter : Z;
  max_sessions_per_backend : Z;
  wake_notify : gmap string nat;
  control_peers : gmap SessionId nat;
  refused : gset string;
  channels : gmap SessionId ControlChan;
}.

Definition TunnelRegistry_new (max : Z) : TunnelRegistry :=
  {| sessions := ∅; rr_counter := 0; max_sessions_per_backend := max; wake_notify := ∅;
     control_peers := ∅; refused := ∅; channels := ∅ |}.

Definition with_sessions (r : TunnelRegistry) (s : gmap string (list TunnelSession)) : TunnelRegistry :=
  {| sessions := s; rr_counter := rr_counter r; max_sessions_per_backend := max_sessions_per_backend r;
     wake_notify := wake_notify r; control_peers := control_peers r; refused := refused r;
     channels := channels r |}.

Definition with_notify (r : TunnelRegistry) (n : gmap string nat) : TunnelRegistry :=
  {| sessions := sessions r; rr_counter := rr_counter r;
     max_sessions_per_backend := max_sessions_per_backend r; wake_notify := n;
     control_peers := control_peers r; refused := refused r; channels := channels r |}.

Definition with_peers (r : TunnelRegistry) (p : gmap SessionId nat) : TunnelRegistry :=
  {| sessions := sessions r; rr_counter := rr_counter r;
     max_sessions_per_backend := max_sessions_per_backend r; wake_notify := wake_notify r;
     control_peers := p; refused := refused r; channels := channels r |}.

Definition with_refused (r : TunnelRegistry) (s : gset string) : TunnelRegistry :=
  {| sessions := sessions r; rr_counter := rr_counter r;
     max_sessions_per_backend := max_sessions_per_backend r; wake_notify := wake_notify r;
     control_peers := control_peers r; refused := s; channels := channels r |}.

Definition with_channels (r : TunnelRegistry) (c : gmap SessionId ControlChan) : TunnelRegistry :=
  {| sessions := sessions r; rr_counter := rr_counter r;
     max_sessions_per_backend := max_sessions_per_backend r; wake_notify := wake_notify r;
     control_peers := control_peers r; refused := refused r; channels := c |}.

Definition with_counter (r : TunnelRegistry) (n : Z) : TunnelRegistry :=
  {| sessions := sessions r; rr_counter := n;
     max_sessions_per_backend := max_sessions_per_backend r; wake_notify := wake_notify r;
     control_peers := control_peers r; refused := refused r; channels := channels r |}.

(** ** Wake-ups *)

Definition notify_session_waiters (r : TunnelRegistry) (backend_id : string) : TunnelRegistry :=
  match wake_notify r !! backend_id with
  | Some g => with_notify r (<[backend_id := S g]> (wake_notify r))
  | None => r
  end.

Definition note_refusal (r : TunnelRegistry) (backend_id : string) : TunnelRegistry :=
  match array_string_from 256 backend_id with
  | Some i => notify_session_waiters (with_refused r ({[i]} ∪ refused r)) backend_id
  | None => r
  end.

Definition take_refusal (r : TunnelRegistry) (backend_id : string) : bool * TunnelRegistry :=
  (bool_decide (backend_id ∈ refused r), with_refused r (refused r ∖ {[backend_id]})).

(** The current generation of the backend's handle, created on first use. *)
Definition wake_handle (r : TunnelRegistry) (backend_id : string) : option nat * TunnelRegistry :=
  match array_string_from 256 backend_id with
  | None => (None, r)
  | Some key =>
      match wake_notify r !! key with
      | Some g => (Some g, r)
      | None => (Some 0%nat, with_notify r (<[key := 0%nat]> (wake_notify r)))
      end
  end.

Definition is_tunnel_backend (r : TunnelRegistry) (backend_id : string) : bool :=
  match sessions r !! backend_id with
  | Some l => negb (bool_decide (l = []))
  | None => false
  end.

Definition session_count (r : TunnelRegistry) (backend_id : string) : Z :=
  match sessions r !! backend_id with Some l => zlen l | None => 0 end.

Definition total_sessions (r : TunnelRegistry) : Z := msum zlen (sessions r).

(** ** Sessions *)

Definition drop_control_tx (r : TunnelRegistry) (sid : SessionId) : TunnelRegistry :=
  with_channels r (alter cc_close sid (channels r)).

(** [register] up to the wake-up: the bucket, the control channel of capacity
    [capacity] and the control peer.  The shard lock is released before the waiters are
    notified. *)
Definition register_insert (r : TunnelRegistry) (s : TunnelSession) (capacity : Z)
    : Result unit * TunnelRegistry :=
  let bid := ts_backend_id s in
  let entry := default [] (sessions r !! bid) in
  if max_sessions_per_backend r <=? zlen entry then
    (Err (Tunnel ("max sessions (" +:+ pretty (max_sessions_per_backend r) +:+
                  ") reached for backend " +:+ bid)),
     with_sessions r (<[bid := entry]> (sessions r)))
  else
    let r := with_sessions r (<[bid := entry ++ [s]]> (sessions r)) in
    let r := with_channels r (<[ts_session_id s :=
               {| cc_queue := []; cc_capacity := capacity; cc_closed := false |}]> (channels r)) in
    (Ok (), if ts_is_control_peer s
            then with_peers r (<[ts_session_id s := ts_connection s]> (control_peers r)) else r).

Definition register (r : TunnelRegistry) (s : TunnelSession) (capacity : Z) : Result unit * TunnelRegistry :=
  match register_insert r s capacity with
  | (Ok (), r) => (Ok (), notify_session_waiters r (ts_backend_id s))
  | (Err e, r) => (Err e, r)
  end.

(** [deregister] in its two critical sections: the shard lock of the bucket is
    dropped before an emptied bucket is removed. *)
Definition keeps (sid : SessionId) (s : TunnelSession) : bool :=
  negb (bool_decide (ts_session_id s = sid)).

Definition deregister_retain (r : TunnelRegistry) (backend_id : string) (sid : SessionId)
    : bool * bool * TunnelRegistry :=
  let r := with_peers r (delete sid (control_peers r)) in
  match sessions r !! backend_id with
  | None => (false, false, r)
  | Some entry =>
      let kept := List.filter (keeps sid) entry in
      let removed := zlen kept <? zlen entry in
      let r := with_sessions r (<[backend_id := kept]> (sessions r)) in
      (removed, bool_decide (kept = []), if removed then drop_control_tx r sid else r)
  end.

(** [self.sessions.remove(backend_id)]: the sessions taken out are dropped. *)
Definition remove_bucket (r : TunnelRegistry) (backend_id : string) : list TunnelSession * TunnelRegistry :=
  match sessions r !! backend_id with
  | Some l => (l, foldl (λ r s, drop_control_tx r (ts_session_id s))
                    (with_sessions r (delete backend_id (sessions r))) l)
  | None => ([], r)
  end.

Definition deregister_remove (r : TunnelRegistry) (backend_id : string) : TunnelRegistry :=
  (remove_bucket r backend_id).2.

Definition deregister (r : TunnelRegistry) (backend_id : string) (sid : SessionId)
    : bool * TunnelRegistry :=
  let '(removed, emptied, r) := deregister_retain r backend_id sid in
  (removed, if emptied then deregister_remove r backend_id else r).

Definition deregister_all (r : TunnelRegistry) (backend_id : string) : Z * TunnelRegistry :=
  let '(l, r) := remove_bucket r backend_id in (zlen l, r).

(** Queue a [Shutdown] on the control channel of a session. *)
Definition send_shutdown (reason : string) (r : TunnelRegistry) (s : TunnelSession) : TunnelRegistry :=
  with_channels r (alter (cc_try_send (Shutdown reason)) (ts_session_id s) (channels r)).

Definition revoke_session (r : TunnelRegistry) (s : TunnelSession) : TunnelRegistry :=
  drop_control_tx (send_shutdown REVOKED_REASON r s) (ts_session_id s).

Definition revoke_matching (r : TunnelRegistry) (revocation : RevocationSet) : Z * TunnelRegistry :=
  let hit s := is_revoked revocation (ts_identity s) in
  let gone := concat (map (λ p, List.filter hit p.2) (map_to_list (sessions r))) in
  let kept := (λ l, List.filter (λ s, negb (hit s)) l) <$> sessions r in
  let kept := filter (λ p : string * list TunnelSession, p.2 ≠ []) kept in
  (zlen gone, foldl revoke_session (with_sessions r kept) gone).

Definition record_heartbeat (r : TunnelRegistry) (now : Z) (backend_id : string) (sid : SessionId)
    : bool * TunnelRegistry :=
  match sessions r !! backend_id with
  | None => (false, r)
  | Some l =>
      match list_find (λ s, ts_session_id s = sid) l with
      | None => (false, r)
      | Some (i, s) =>
          let s := {| ts_session_id := ts_session_id s; ts_backend_id := ts_backend_id s;
                      ts_pool := ts_pool s; ts_remote_addr := ts_remote_addr s;
                      ts_connected_at := ts_connected_at s; ts_last_heartbeat := now;
                      ts_connection := ts_connection s; ts_identity := ts_identity s;
                      ts_is_control_peer := ts_is_control_peer s |} in
          (true, with_sessions r (<[backend_id := <[i := s]> l]> (sessions r)))
      end
  end.

Definition last_heartbeat (r : TunnelRegistry) (backend_id : string) (sid : SessionId) : option Z :=
  l ← sessions r !! backend_id;
  '(_, s) ← list_find (λ s, ts_session_id s = sid) l;
  Some (ts_last_heartbeat s).

(** [acquire_stream] up to opening the stream: the chosen connection.  [closed] says
    which connections have a close reason. *)
Definition acquire_stream (r : TunnelRegistry) (closed : nat → bool) (backend_id : string)
    : Result (nat * SessionId) * TunnelRegistry :=
  match sessions r !! backend_id with
  | None => (Err (NoBackendSession backend_id), r)
  | Some [] => (Err (NoBackendSession backend_id), r)
  | Some l =>
      let idx := rr_counter r `mod` zlen l in
      let r := with_counter r (wrap64 (rr_counter r + 1)) in
      match l !! Z.to_nat idx with
      | None => (Err (Tunnel "index out of bounds"), r)
      | Some s =>
          if closed (ts_connection s) then
            (Err (Tunnel "tunnel connection closed"),
             (deregister r backend_id (ts_session_id s)).2)
          else (Ok (ts_connection s, ts_session_id s), r)
      end
  end.

Definition all_sessions (r : TunnelRegistry) : list TunnelSession :=
  concat (map snd (map_to_list (sessions r))).

(** Returns the connections it closes. *)
Definition shutdown_all (r : TunnelRegistry) : list nat * TunnelRegistry :=
  let all := all_sessions r in
  let r := foldl (λ r s, drop_control_tx (send_shutdown "proxy shutting down" r s) (ts_session_id s)) r all in
  (map ts_connection all, with_sessions r ∅).

(** ** Every operation as a transition *)

Inductive reg_op :=
  | OpRegister (s : TunnelSession) (capacity : Z)
  | OpDeregister (backend_id : string) (sid : SessionId)
  | OpDeregisterAll (backend_id : string)
  | OpRevoke (revocation : RevocationSet)
  | OpHeartbeat (now : Z) (backend_id : string) (sid : SessionId)
  | OpAcquire (closed : nat → bool) (backend_id : string)
  | OpShutdownAll
  | OpNoteRefusal (backend_id : string)
  | OpTakeRefusal (backend_id : string)
  | OpWakeHandle (backend_id : string).

Definition reg_step (r : TunnelRegistry) (op : reg_op) : TunnelRegistry :=
  match op with
  | OpRegister s capacity => (register r s capacity).2
  | OpDeregister b sid => (deregister r b sid).2
  | OpDeregisterAll b => (deregister_all r b).2
  | OpRevoke rs => (revoke_matching r rs).2
  | OpHeartbeat now b sid => (record_heartbeat r now b sid).2
  | OpAcquire closed b => (acquire_stream r closed b).2
  | OpShutdownAll => (shutdown_all r).2
  | OpNoteRefusal b => note_refusal r b
  | OpTakeRefusal b => (take_refusal r b).2
  | OpWakeHandle b => (wake_handle r b).2
  end.

Inductive reg_reachable (max : Z) : TunnelRegistry → Prop :=
  | reg_init : reg_reachable max (TunnelRegistry_new max)
  | reg_next r op : reg_reachable max r → reg_reachable max (reg_step r op).

(** Every bucket is non-empty, within the cap, and holds sessions of its backend. *)
Definition bucket_ok (max : Z) (b : string) (l : list TunnelSession) : Prop :=
  l ≠ [] ∧ zlen l ≤ max ∧ ∀ s, s ∈ l → ts_backend_id s = b.

Definition reg_wf (max : Z) (r : TunnelRegistry) : Prop :=
  max_sessions_per_backend r = max ∧ map_Forall (bucket_ok max) (sessions r).

(** What an operation does to the part of the registry the invariant reads. *)
Lemma foldl_keeps {A} (f : TunnelRegistry → A → TunnelRegistry) l r :
  (∀ r a, sessions (f r a) = sessions r ∧
          max_sessions_per_backend (f r a) = max_sessions_per_backend r) →
  sessions (foldl f r l) = sessions r ∧
  max_sessions_per_backend (foldl f r l) = max_sessions_per_backend r.
Proof.
  intros Hf. revert r. induction l as [|a l IH]; intros r; [done|]. cbn [foldl].
  destruct (IH (f r a)) as [-> ->], (Hf r a) as [-> ->]. done.
Qed.

Lemma notify_keeps r b :
  sessions (notify_session_waiters r b) = sessions r ∧
  max_sessions_per_backend (notify_session_waiters r b) = max_sessions_per_backend r.
Proof. unfold notify_session_waiters. by destruct (wake_notify r !! b). Qed.

Lemma bucket_ok_filter max b l f :
  bucket_ok max b l → List.filter f l ≠ [] → bucket_ok max b (List.filter f l).
Proof.
  intros (Hne & Hlen & Hall) Hf. split; [done|]. split.
  - pose proof (filter_length_le f l). unfold zlen in *. lia.
  - intros s Hs. apply Hall. apply list_elem_of_In in Hs. apply filter_In in Hs as [Hs _].
    by apply list_elem_of_In.
Qed.

Lemma register_insert_sessions r s capacity :
  sessions (register_insert r s capacity).2 =
    <[ts_backend_id s :=
        default [] (sessions r !! ts_backend_id s) ++
        (if max_sessions_per_backend r <=? session_count r (ts_backend_id s) then [] else [s])]>
      (sessions r) ∧
  max_sessions_per_backend (register_insert r s capacity).2 = max_sessions_per_backend r ∧
  ((register_insert r s capacity).1 = Ok () ↔
   session_count r (ts_backend_id s) < max_sessions_per_backend r).
Proof.
  assert (zlen (default [] (sessions r !! ts_backend_id s)) = session_count r (ts_backend_id s)) as Hc
    by (unfold session_count; by destruct (_ !! _)).
  unfold register_insert. rewrite Hc. cbv zeta.
  destruct (_ <=? _) eqn:Hfull; bool_hyps; cbn [fst snd]; rewrite ?app_nil_r.
  - split_and!; [done..|]. split; [done|lia].
  - by destruct (ts_is_control_peer s).
Qed.

Lemma register_insert_result r s capacity :
  (register r s capacity).1 = (register_insert r s capacity).1 ∧
  sessions (register r s capacity).2 = sessions (register_insert r s capacity).2 ∧
  max_sessions_per_backend (register r s capacity).2 = max_sessions_per_backend r.
Proof.
  destruct (register_insert_sessions r s capacity) as (_ & Hm & _). revert Hm. unfold register.
  destruct (register_insert r s capacity) as [[[]|e] r']; cbn; [|done].
  destruct (notify_keeps r' (ts_backend_id s)) as [-> ->]. done.
Qed.

Lemma register_filed r s capacity r' :
  register r s capacity = (Ok (), r') → ∃ l, sessions r' !! ts_backend_id s = Some l ∧ s ∈ l.
Proof.
  intros E. destruct (register_insert_sessions r s capacity) as (Hs & _ & Hok), (register_insert_result r s capacity) as (E1 & E2 & _).
  rewrite E in E1, E2. cbn in E1, E2. rewrite E2, Hs, lookup_insert_eq. eexists. split; [done|].
  symmetry in E1. apply Hok in E1.
  rewrite (proj2 (Z.leb_gt _ _)) by done. set_solver.
Qed.

Lemma register_wf max r s capacity :
  1 ≤ max → reg_wf max r → reg_wf max (register r s capacity).2.
Proof.
  intros Hmax [Hm Hwf]. destruct (register_insert_sessions r s capacity) as (Hs & _), (register_insert_result r s capacity) as (_ & Hs' & Hm').
  split; [congruence|]. rewrite Hs', Hs, Hm. clear Hs Hs' Hm'.
  apply map_Forall_insert_2; [|done]. unfold session_count.
  destruct (sessions r !! ts_backend_id s) as [l|] eqn:Hl; cbn [default id from_option].
  - destruct (Hwf _ _ Hl) as (Hne & Hlen & Hall). destruct (_ <=? _) eqn:Hfull; bool_hyps.
    + rewrite app_nil_r. done.
    + split_and!; [by destruct l|unfold zlen in *; rewrite length_app; cbn; lia|].
      intros s' [?|Hs']%elem_of_app; [by apply Hall|]. apply list_elem_of_singleton in Hs'. by subst.
  - destruct (_ <=? _) eqn:Hfull; bool_hyps; [lia|].
    split_and!; [done|unfold zlen; cbn; lia|].
    intros s' Hs'. apply list_elem_of_singleton in Hs'. by subst.
Qed.

Lemma remove_bucket_sessions r b :
  sessions (remove_bucket r b).2 = delete b (sessions r) ∧
  max_sessions_per_backend (remove_bucket r b).2 = max_sessions_per_backend r ∧
  (remove_bucket r b).1 = default [] (sessions r !! b).
Proof.
  unfold remove_bucket. destruct (sessions r !! b) as [l|] eqn:Hl; cbn [fst snd].
  - edestruct (foldl_keeps (λ r s, drop_control_tx r (ts_session_id s))) as [-> ->]; done.
  - by rewrite delete_id.
Qed.

Lemma deregister_sessions r b sid :
  sessions (deregister r b sid).2 =
    match sessions r !! b with
    | None => sessions r
    | Some l => match List.filter (keeps sid) l with
                | [] => delete b (sessions r)
                | k => <[b := k]> (sessions r)
                end
    end ∧
  max_sessions_per_backend (deregister r b sid).2 = max_sessions_per_backend r.
Proof.
  unfold deregister, deregister_retain. cbn [sessions with_peers].
  destruct (sessions r !! b) as [l|]; [|done].
  cbv zeta. set (r' := if (_ <? _) then drop_control_tx _ _ else _).
  assert (sessions r' = <[b := List.filter (keeps sid) l]> (sessions r) ∧
          max_sessions_per_backend r' = max_sessions_per_backend r) as [Hs Hm]
    by (subst r'; by destruct (_ <? _)).
  destruct (remove_bucket_sessions r' b) as (Hs' & Hm' & _).
  case_bool_decide as He; cbn [snd].
  - unfold deregister_remove. rewrite Hs', Hm', Hs, He, delete_insert_eq. done.
  - rewrite Hs, Hm. by destruct (List.filter _ l).
Qed.

Lemma deregister_wf max r b sid : reg_wf max r → reg_wf max (deregister r b sid).2.
Proof.
  intros [Hm Hwf]. destruct (deregister_sessions r b sid) as [Hs Hm'].
  split; [congruence|]. rewrite Hs. destruct (sessions r !! b) as [l|] eqn:Hl; [|done].
  pose proof (bucket_ok_filter max b l (keeps sid) (Hwf _ _ Hl)) as Hok.
  destruct (List.filter (keeps sid) l) as [|x k]; [by apply map_Forall_delete|].
  apply map_Forall_insert_2; auto.
Qed.

Lemma revoke_sessions r rs :
  sessions (revoke_matching r rs).2 =
    filter (λ p : string * list TunnelSession, p.2 ≠ [])
      ((λ l, List.filter (λ s, negb (is_revoked rs (ts_identity s))) l) <$> sessions r) ∧
  max_sessions_per_backend (revoke_matching r rs).2 = max_sessions_per_backend r.
Proof.
  unfold revoke_matching. cbn [snd]. edestruct (foldl_keeps revoke_session) as [-> ->]; done.
Qed.

Lemma revoke_wf max r rs : reg_wf max r → reg_wf max (revoke_matching r rs).2.
Proof.
  intros [Hm Hwf]. destruct (revoke_sessions r rs) as [Hs Hm'].
  split; [congruence|]. rewrite Hs. intros b l Hl.
  apply map_lookup_filter_Some in Hl as [Hl Hne]. rewrite lookup_fmap in Hl.
  apply fmap_Some in Hl as (l0 & Hl0 & ->). apply bucket_ok_filter; [by apply Hwf|done].
Qed.

Lemma heartbeat_wf max r now b sid : reg_wf max r → reg_wf max (record_heartbeat r now b sid).2.
Proof.
  intros [Hm Hwf]. unfold record_heartbeat.
  destruct (sessions r !! b) as [l|] eqn:Hl; [|done].
  destruct (list_find _ l) as [[i s]|] eqn:Hf; [|done].
  apply list_find_Some in Hf as (Hi & _ & _). split; [done|].
  destruct (Hwf _ _ Hl) as (Hne & Hlen & Hall). cbn.
  apply map_Forall_insert_2; [|done]. split_and!.
  - intros He. apply (f_equal length) in He. rewrite length_insert in He. by destruct l.
  - unfold zlen. by rewrite length_insert.
  - intros s' Hs'. apply list_elem_of_lookup in Hs' as [j Hj].
    apply list_lookup_insert_Some in Hj as [(-> & <- & _)|[_ Hj]]; cbn;
      eapply Hall, list_elem_of_lookup_2; eassumption.
Qed.

Lemma acquire_wf max r closed b : reg_wf max r → reg_wf max (acquire_stream r closed b).2.
Proof.
  intros Hwf. unfold acquire_stream. destruct (sessions r !! b) as [[|s0 l]|]; [done| |done].
  destruct ((s0 :: l) !! _) as [s|]; [|done]. destruct (closed _); [|done].
  by apply deregister_wf.
Qed.

Lemma reg_step_wf max r op : 1 ≤ max → reg_wf max r → reg_wf max (reg_step r op).
Proof.
  intros Hmax Hwf. destruct op; cbn [reg_step].
  - by apply register_wf.
  - by apply deregister_wf.
  - destruct Hwf as [Hm Hwf], (remove_bucket_sessions r backend_id) as (Hs & Hm' & _).
    unfold deregister_all. destruct (remove_bucket r backend_id) as [l r']. cbn in *.
    split; [congruence|]. rewrite Hs. by apply map_Forall_delete.
  - by apply revoke_wf.
  - by apply heartbeat_wf.
  - by apply acquire_wf.
  - destruct Hwf as [Hm Hwf]. unfold shutdown_all, reg_wf. cbn.
    edestruct (foldl_keeps (λ r s, drop_control_tx (send_shutdown "proxy shutting down" r s)
      (ts_session_id s))) as [_ ->]; [done|]. split; [done|]. apply map_Forall_empty.
  - unfold note_refusal. destruct (array_string_from _ _); [|done].
    unfold reg_wf. match goal with |- context [notify_session_waiters ?r' ?b] =>
      destruct (notify_keeps r' b) as [-> ->] end. done.
  - done.
  - unfold wake_handle. destruct (array_string_from _ _); [|done]. by destruct (_ !! _).
Qed.

(** C2. Whatever sequence of operations ran, every bucket of the registry is non-empty, holds
    at most [max_sessions_per_backend] sessions and only sessions of its own backend, so
    that [is_tunnel_backend] is true exactly when the backend has a bucket, and the
    round-robin index of [acquire_stream] is always in range: it answers a session of the
    backend asked for, [NoBackendSession] or a closed connection, never an index error. *)
Theorem registry_invariant (max : Z) (r : TunnelRegistry) (b : string) (closed : nat → bool) :
  1 ≤ max → reg_reachable max r →
  0 ≤ session_count r b ≤ max ∧
  (is_tunnel_backend r b = true ↔ is_Some (sessions r !! b)) ∧
  ((acquire_stream r closed b).1 = Err (NoBackendSession b) ∧ is_tunnel_backend r b = false ∨
   ∃ l s, sessions r !! b = Some l ∧ s ∈ l ∧ ts_backend_id s = b ∧
     (acquire_stream r closed b).1 =
       if closed (ts_connection s) then Err (Tunnel "tunnel connection closed")
       else Ok (ts_connection s, ts_session_id s)).
Proof.
  intros Hmax Hr.
  assert (reg_wf max r) as [Hm Hwf].
  { clear b. induction Hr; [split; [done|apply map_Forall_empty]|by apply reg_step_wf]. }
  unfold session_count, is_tunnel_backend, acquire_stream.
  destruct (sessions r !! b) as [l|] eqn:Hl.
  - destruct (Hwf _ _ Hl) as (Hne & Hlen & Hall). split_and!; [unfold zlen; lia|done| |].
    + rewrite bool_decide_false by done. split; eauto.
    + right. destruct l as [|s0 l]; [done|].
      destruct (lookup_lt_is_Some_2 (s0 :: l) (Z.to_nat (rr_counter r `mod` zlen (s0 :: l)))) as [s Hs].
      { unfold zlen. pose proof (Z.mod_pos_bound (rr_counter r) (Z.of_nat (length (s0 :: l)))).
        cbn [length] in *. lia. }
      exists (s0 :: l), s. assert (s ∈ s0 :: l) by (eapply list_elem_of_lookup_2; eassumption).
      split_and!; auto. rewrite Hs. by destruct (closed _).
  - split_and!; [lia|lia|split; [done|by intros [? [=]]]|]. by left.
Qed.

(** ** What a revocation sweep does *)

Definition bucket (r : TunnelRegistry) (b : string) : list TunnelSession :=
  default [] (sessions r !! b).

Definition revoked_in (r : TunnelRegistry) (rs : RevocationSet) : list TunnelSession :=
  concat (map (λ p : string * list TunnelSession,
                 List.filter (λ s, is_revoked rs (ts_identity s)) p.2) (map_to_list (sessions r))).

(** The [Shutdown] and the dropped sender of a revoked session. *)
Definition revoked_channel (c : ControlChan) : ControlChan :=
  cc_close (cc_try_send (Shutdown REVOKED_REASON) c).

Lemma elem_of_bucket r b s : s ∈ bucket r b ↔ ∃ l, sessions r !! b = Some l ∧ s ∈ l.
Proof.
  unfold bucket. destruct (sessions r !! b) as [l|]; cbn.
  - split; [eauto|]. by intros (? & [= ->] & ?).
  - split; [by intros ?%elem_of_nil|by intros (? & ? & ?)].
Qed.

Lemma elem_of_all_sessions r s : s ∈ all_sessions r ↔ ∃ b, s ∈ bucket r b.
Proof.
  unfold all_sessions. rewrite list_elem_of_In, in_concat. setoid_rewrite elem_of_bucket. split.
  - intros (l & Hl & Hs). apply in_map_iff in Hl as ([b l'] & <- & Hl).
    apply list_elem_of_In, elem_of_map_to_list in Hl. exists b, l'. by rewrite list_elem_of_In.
  - intros (b & l & Hl & Hs). exists l. split; [|by apply list_elem_of_In].
    apply in_map_iff. exists (b, l). split; [done|]. by apply list_elem_of_In, elem_of_map_to_list.
Qed.

Lemma revoked_in_filter r rs :
  revoked_in r rs = List.filter (λ s, is_revoked rs (ts_identity s)) (all_sessions r).
Proof. unfold revoked_in, all_sessions. by rewrite <-concat_filter_map, map_map. Qed.

Lemma revoke_session_channels gone r sid :
  NoDup (map ts_session_id gone) →
  channels (foldl revoke_session r gone) !! sid =
    if bool_decide (sid ∈ map ts_session_id gone)
    then revoked_channel <$> channels r !! sid else channels r !! sid.
Proof.
  revert r. induction gone as [|s gone IH]; intros r Hnd; [done|].
  cbn [map] in *. apply NoDup_cons in Hnd as [Hs Hnd]. cbn [foldl]. rewrite IH by done. clear IH.
  cbn [revoke_session drop_control_tx send_shutdown channels with_channels].
  destruct (decide (sid = ts_session_id s)) as [->|Hne].
  - rewrite bool_decide_false by done. rewrite bool_decide_true by (apply elem_of_cons; by left).
    rewrite !lookup_alter_eq. by destruct (channels r !! _).
  - rewrite !lookup_alter_ne by done.
    erewrite (bool_decide_ext (sid ∈ ts_session_id s :: _)); [done|].
    rewrite elem_of_cons. naive_solver.
Qed.

Lemma zlen_filter_split {A} (f : A → bool) l :
  zlen l = zlen (List.filter f l) + zlen (List.filter (λ x, negb (f x)) l).
Proof. unfold zlen. pose proof (filter_length f l). lia. Qed.

Lemma zlen_concat_msum {A B} (g : list A → list B) (m : gmap string (list A)) :
  zlen (concat (map (λ p : string * list A, g p.2) (map_to_list m))) = msum (λ l, zlen (g l)) m.
Proof.
  unfold msum. rewrite map_fold_foldr.
  induction (map_to_list m) as [|[k l] ps IH]; [done|]. cbn.
  rewrite <-IH. unfold zlen. rewrite length_app. lia.
Qed.

Lemma msum_keep_nonempty {A} (f : A → bool) (m : gmap string (list A)) :
  msum zlen m =
  msum zlen (filter (λ p : string * list A, p.2 ≠ []) ((λ l, List.filter (λ x, negb (f x)) l) <$> m)) +
  msum (λ l, zlen (List.filter f l)) m.
Proof.
  induction m as [|k l m Hk IH] using map_ind; [done|].
  rewrite fmap_insert, !msum_insert_None, IH, (zlen_filter_split f l) by done.
  assert (((λ l, List.filter (λ x, negb (f x)) l) <$> m) !! k = None) as Hk'
    by (rewrite lookup_fmap, Hk; done).
  destruct (decide (List.filter (λ x, negb (f x)) l = [])) as [He|Hne].
  - rewrite map_filter_insert_False, delete_id by (done || naive_solver).
    rewrite He. unfold zlen at 2. cbn [length]. lia.
  - rewrite map_filter_insert_True by done. rewrite msum_insert_None; [lia|].
    apply map_lookup_filter_None. left. done.
Qed.

(** A revocation sweep is exact and complete.  Afterwards a backend has precisely the
    sessions it had whose identity the set does not deny, the count returned is the number
    of sessions that went, the control channel of each of them is closed with, when it had
    room, a [Shutdown] carrying the reason as its last frame, and the channels of the
    sessions that stay are untouched. *)
Theorem revoke_matching_exact (r r' : TunnelRegistry) (rs : RevocationSet) (n : Z) :
  NoDup (map ts_session_id (all_sessions r)) →
  revoke_matching r rs = (n, r') →
  (∀ b s, s ∈ bucket r' b ↔ s ∈ bucket r b ∧ is_revoked rs (ts_identity s) = false) ∧
  total_sessions r = total_sessions r' + n ∧
  ∀ s, s ∈ all_sessions r →
    channels r' !! ts_session_id s =
      if is_revoked rs (ts_identity s) then revoked_channel <$> channels r !! ts_session_id s
      else channels r !! ts_session_id s.
Proof.
  intros Hnd Hrev. pose proof (revoke_sessions r rs) as [Hs _].
  rewrite Hrev in Hs. cbn [snd] in Hs.
  unfold revoke_matching in Hrev. fold (revoked_in r rs) in Hrev. injection Hrev as <- <-.
  split_and!.
  - intros b s. rewrite !elem_of_bucket. rewrite Hs. setoid_rewrite map_lookup_filter_Some.
    rewrite lookup_fmap. split.
    + intros (l & [Hl _] & Hin). apply fmap_Some in Hl as (l0 & Hl0 & ->).
      apply list_elem_of_In, filter_In in Hin as [Hin Hneg]. apply negb_true_iff in Hneg.
      split; [|done]. exists l0. by rewrite list_elem_of_In.
    + intros [(l & Hl & Hin) Hneg]. rewrite Hl. cbn.
      assert (s ∈ List.filter (λ s, negb (is_revoked rs (ts_identity s))) l) as Hin'.
      { apply list_elem_of_In, filter_In. by rewrite <-list_elem_of_In, Hneg. }
      eexists. split; [|exact Hin']. split; [done|]. cbn. intros He. rewrite He in Hin'.
      by apply elem_of_nil in Hin'.
  - unfold total_sessions. rewrite Hs, (msum_keep_nonempty (λ s, is_revoked rs (ts_identity s))).
    f_equal. unfold revoked_in. by rewrite (zlen_concat_msum (List.filter _)).
  - intros s Hin. rewrite revoked_in_filter, revoke_session_channels
      by (by apply NoDup_map_filter). cbn [channels with_sessions].
    destruct (is_revoked rs (ts_identity s)) eqn:Hr.
    + rewrite bool_decide_true; [done|]. apply elem_of_map. exists s.
      by rewrite elem_of_filter_bool.
    + rewrite bool_decide_false; [done|]. intros (s' & Hid & Hs')%elem_of_map.
      apply elem_of_filter_bool in Hs' as [Hs' Hr'].
      rewrite (NoDup_map_inj _ _ _ _ Hnd Hin Hs' Hid) in Hr. congruence.
Qed.

(** ** Round robin *)

(** [n] acquisitions in a row. *)
Fixpoint acquires (n : nat) (closed : nat → bool) (b : string) (r : TunnelRegistry)
    : list (Result (nat * SessionId)) :=
  match n with
  | O => []
  | S n => let '(res, r) := acquire_stream r closed b in res :: acquires n closed b r
  end.

Lemma acquire_open r closed b l :
  sessions r !! b = Some l → (∀ s, s ∈ l → closed (ts_connection s) = false) → l ≠ [] →
  0 ≤ rr_counter r →
  ∃ s, l !! Z.to_nat (rr_counter r `mod` zlen l) = Some s ∧
    acquire_stream r closed b =
      (Ok (ts_connection s, ts_session_id s), with_counter r (wrap64 (rr_counter r + 1))).
Proof.
  intros Hl Hopen Hne Hrr. unfold acquire_stream. rewrite Hl.
  destruct (lookup_lt_is_Some_2 l (Z.to_nat (rr_counter r `mod` zlen l))) as [s Hs].
  { unfold zlen. pose proof (Z.mod_pos_bound (rr_counter r) (Z.of_nat (length l))).
    destruct l; [done|]. cbn [length] in *. lia. }
  exists s. split; [done|]. destruct l as [|s0 l]; [done|]. rewrite Hs.
  rewrite Hopen; [done|]. eapply list_elem_of_lookup_2. eassumption.
Qed.

Lemma acquires_lookup n closed b l r i :
  sessions r !! b = Some l → (∀ s, s ∈ l → closed (ts_connection s) = false) → l ≠ [] →
  0 ≤ rr_counter r → rr_counter r + Z.of_nat n ≤ U64_MAX →
  (i < n)%nat →
  acquires n closed b r !! i =
    (λ s, Ok (ts_connection s, ts_session_id s)) <$>
      l !! Z.to_nat ((rr_counter r + Z.of_nat i) `mod` zlen l).
Proof.
  revert r i. induction n as [|n IH]; intros r i Hl Hopen Hne Hrr Hmax Hi; [lia|].
  destruct (acquire_open r closed b l Hl Hopen Hne Hrr) as (s & Hs & Hacq).
  cbn [acquires]. rewrite Hacq. destruct i as [|i]; cbn [lookup list_lookup].
  - rewrite Z.add_0_r, Hs. done.
  - assert (wrap64 (rr_counter r + 1) = rr_counter r + 1) as Hw
      by (unfold wrap64, U64_MAX in *; apply Z.mod_small; lia).
    setoid_rewrite IH; cbn [sessions rr_counter with_counter]; rewrite ?Hw; try done; try lia.
    by replace (rr_counter r + 1 + Z.of_nat i) with (rr_counter r + Z.of_nat (S i)) by lia.
Qed.

Lemma acquires_length n closed b r : length (acquires n closed b r) = n.
Proof.
  revert r. induction n as [|n IH]; intros r; [done|].
  cbn [acquires]. destruct (acquire_stream r closed b). cbn [length]. by rewrite IH.
Qed.

(** The selector is fair: while a backend's sessions are open and no session joins or
    leaves, one turn of acquisitions serves the sessions in rotation from the current
    counter, so every session is used exactly once per turn. *)
Theorem acquire_round_robin (r : TunnelRegistry) (closed : nat → bool) (b : string)
    (l : list TunnelSession) :
  sessions r !! b = Some l → l ≠ [] → (∀ s, s ∈ l → closed (ts_connection s) = false) →
  0 ≤ rr_counter r → rr_counter r + zlen l ≤ U64_MAX →
  acquires (length l) closed b r =
    map (λ s, Ok (ts_connection s, ts_session_id s)) (rotate (Z.to_nat (rr_counter r)) l) ∧
  acquires (length l) closed b r ≡ₚ map (λ s, Ok (ts_connection s, ts_session_id s)) l.
Proof.
  intros Hl Hne Hopen Hrr Hmax.
  assert (acquires (length l) closed b r =
    map (λ s, Ok (ts_connection s, ts_session_id s)) (rotate (Z.to_nat (rr_counter r)) l)) as Heq.
  { apply list_eq. intros i. destruct (decide (i < length l)%nat) as [Hi|Hi].
    - rewrite (acquires_lookup _ _ _ l) by (done || unfold zlen in *; lia).
      rewrite list_lookup_fmap, lookup_rotate_r by done. unfold rotate_nat_add, zlen.
      by rewrite Z2Nat.id by lia.
    - rewrite !lookup_ge_None_2; [done|rewrite length_map, length_rotate; lia|].
      rewrite acquires_length. lia. }
  split; [done|]. rewrite Heq. apply Permutation_map.
  unfold rotate. by rewrite Permutation_app_comm, take_drop.
Qed.

(** ** Witnesses *)

Definition demo_session (n : Z) (backend_id : string) (cn : string) : TunnelSession :=
  {| ts_session_id := {| session_bytes := [n] |}; ts_backend_id := backend_id; ts_pool := "p";
     ts_remote_addr := {| sa_ip := V4 1; sa_port := 9 |}; ts_connected_at := 0;
     ts_last_heartbeat := 0; ts_connection := Z.to_nat n;
     ts_identity := {| common_name := cn; spki_sha256 := [n] |}; ts_is_control_peer := false |}.

Definition demo_registry : TunnelRegistry :=
  foldl reg_step (TunnelRegistry_new 4)
    [OpRegister (demo_session 1 "db" "db") 8; OpRegister (demo_session 2 "db" "db") 8;
     OpRegister (demo_session 3 "web" "web") 8].

Definition demo_revocation : RevocationSet := {| rs_spki := {[ [2] ]}; rs_backend_ids := ∅ |}.

Lemma registry_invariant_witness :
  0 ≤ session_count demo_registry "db" ≤ 4.
Proof.
  destruct (registry_invariant 4 demo_registry "db" (λ _, false)) as [H _]; [lia| |exact H].
  do 3 apply (reg_next 4 _ (OpRegister _ _)). apply reg_init.
Defined.

Lemma revoke_matching_exact_witness :
  total_sessions demo_registry = total_sessions (revoke_matching demo_registry demo_revocation).2 + 1.
Proof.
  eapply (revoke_matching_exact demo_registry _ demo_revocation 1).
  - apply (bool_decide_unpack _). vm_compute. exact I.
  - vm_compute. reflexivity.
Defined.

Lemma acquire_round_robin_witness :
  acquires 2 (λ _, false) "db" demo_registry =
    [Ok (1%nat, {| session_bytes := [1] |}); Ok (2%nat, {| session_bytes := [2] |})].
Proof.
  apply (acquire_round_robin demo_registry (λ _, false) "db"
           [demo_session 1 "db" "db"; demo_session 2 "db" "db"]);
    [vm_compute; reflexivity|discriminate|reflexivity|vm_compute; discriminate..].
Defined.

(** ** The window of [deregister] *)

(** Between the two critical sections of [deregister] a registration for the same backend
    may commit; removing the bucket then takes the new session with it.  Although
    [register] answered [Ok], the backend has no session and the control channel of the
    new session is closed, which ends its control loop. *)
Theorem deregister_race_drops_session (r r1 r2 : TunnelRegistry) (s : TunnelSession) (sid : SessionId)
    (removed : bool) (capacity : Z) :
  deregister_retain r (ts_backend_id s) sid = (removed, true, r1) →
  register r1 s capacity = (Ok (), r2) →
  bucket r2 (ts_backend_id s) = [s] ∧
  is_tunnel_backend (deregister_remove r2 (ts_backend_id s)) (ts_backend_id s) = false ∧
  cc_closed <$> channels (deregister_remove r2 (ts_backend_id s)) !! ts_session_id s = Some true.
Proof.
  intros Hret Hreg. assert (sessions r1 !! ts_backend_id s = Some []) as H1.
  { revert Hret. unfold deregister_retain. cbn. destruct (sessions r !! _) as [l|]; [|done].
    intros [= _ He <-]. apply bool_decide_eq_true in He. rewrite He.
    destruct (zlen [] <? zlen l); cbn; apply lookup_insert_eq. }
  destruct (register_insert_sessions r1 s capacity) as (Hs & _ & Hok),
    (register_insert_result r1 s capacity) as (Hfst & Hs' & _).
  rewrite Hreg in Hfst, Hs'. cbn [fst snd] in *. symmetry in Hfst. apply Hok in Hfst.
  rewrite (proj2 (Z.leb_gt _ _)) in Hs by lia. rewrite H1 in Hs. cbn in Hs.
  rewrite <-Hs' in Hs. assert (sessions r2 !! ts_backend_id s = Some [s]) as H2
    by (rewrite Hs; apply lookup_insert_eq).
  assert (is_Some (channels r2 !! ts_session_id s)) as [c Hc].
  { revert Hreg. unfold register, register_insert. cbv zeta.
    destruct (_ <=? _); [done|]. intros [= <-]. unfold notify_session_waiters.
    destruct (ts_is_control_peer s); destruct (wake_notify _ !! _); cbn;
      rewrite lookup_insert_eq; eauto. }
  split; [by unfold bucket; rewrite H2|]. unfold deregister_remove, remove_bucket. rewrite H2.
  cbn [snd foldl]. split.
  - unfold is_tunnel_backend. cbn. by rewrite lookup_delete_eq.
  - cbn. by rewrite lookup_alter_eq, Hc.
Qed.

Lemma deregister_race_drops_session_witness :
  is_tunnel_backend (deregister_remove (register (deregister_retain demo_registry "web"
    {| session_bytes := [3] |}).2 (demo_session 4 "web" "web") 8).2 "web") "web" = false.
Proof.
  eapply (deregister_race_drops_session demo_registry _ _ (demo_session 4 "web" "web")
            {| session_bytes := [3] |} true 8); vm_compute; reflexivity.
Defined.
