(* ===== verification/Park.v ===== *)
(** * Park: waiting for a cold backend

    [wait_for_session], [await_refusal] and [dispatch_wake] of [src/tunnel/registry.rs] and
    the probing loop of [src/proxy/handler/attempt/wake.rs].  A parked request is a small
    state machine interleaved with every operation of the registry; a registration and a
    deregistration are two steps each, as in the source, where the shard lock is released
    in between. *)

From S2P Require Import Prelude Text Error Net Wire Identity TunnelProtocol Registry.
Local Open Scope Z_scope.

(** ** Parked requests *)

(** A loop turn: arm the wake-up ([notified()] at the handle's current generation), look,
    and sleep until the generation moves or the deadline passes. *)
Inductive Phase :=
  | Arm
  | Look (generation : nat)
  | Asleep (generation : nat)
  | Answered (b : bool).

(** [WaitSession] is [wait_for_session], [WaitRefusal] is [await_refusal]. *)
Inductive WaitKind :=
  | WaitSession (deadline : Z)
  | WaitRefusal.

Record Waiter := {
  wt_backend : string;
  wt_kind : WaitKind;
  wt_phase : Phase;
}.

Definition at_phase (w : Waiter) (p : Phase) : Waiter :=
  {| wt_backend := wt_backend w; wt_kind := wt_kind w; wt_phase := p |}.

(** The registry, the registrations inserted and not yet notified, the buckets emptied and
    not yet removed, the parked requests, and the refusals noted so far. *)
Record Park := {
  reg : TunnelRegistry;
  notifying : list string;
  removing : list string;
  waiters : gmap nat Waiter;
  noted : list string;
}.

Definition with_reg (k : Park) (r : TunnelRegistry) : Park :=
  {| reg := r; notifying := notifying k; removing := removing k; waiters := waiters k; noted := noted k |}.

Definition set_waiter (k : Park) (i : nat) (w : Waiter) : Park :=
  {| reg := reg k; notifying := notifying k; removing := removing k;
     waiters := <[i := w]> (waiters k); noted := noted k |}.

(** The current generation of the handle the waiter holds. *)
Definition generation (k : Park) (b : string) : nat := default 0%nat (wake_notify (reg k) !! b).

(** The armed turn of [wait_for_session]. *)
Definition session_look (k : Park) (i : nat) (w : Waiter) (g : nat) : Park :=
  set_waiter k i (at_phase w (if is_tunnel_backend (reg k) (wt_backend w) then Answered true else Asleep g)).

(** The armed turn of [await_refusal]. *)
Definition refusal_look (k : Park) (i : nat) (w : Waiter) (g : nat) : Park :=
  let '(taken, r) := take_refusal (reg k) (wt_backend w) in
  set_waiter (with_reg k r) i (at_phase w (if taken then Answered true else Asleep g)).

(** One step of a waiter, the sleep arm of its [select!] apart. *)
Definition waiter_step (k : Park) (i : nat) (w : Waiter) : option Park :=
  let b := wt_backend w in
  match wt_phase w, wt_kind w with
  | Arm, _ => Some (set_waiter k i (at_phase w (Look (generation k b))))
  | Look g, WaitSession _ => Some (session_look k i w g)
  | Look g, WaitRefusal => Some (refusal_look k i w g)
  | Asleep g, _ =>
      if (g <? generation k b)%nat then Some (set_waiter k i (at_phase w Arm)) else None
  | Answered _, _ => None
  end.

(** [sleep_until(deadline)] *)
Definition waiter_timeout (k : Park) (now : Z) (i : nat) (w : Waiter) : option Park :=
  match wt_phase w, wt_kind w with
  | Asleep _, WaitSession deadline =>
      if deadline <=? now then Some (set_waiter k i (at_phase w (Answered false))) else None
  | _, _ => None
  end.

(** The operations that are one critical section. *)
Definition atomic_op (op : reg_op) : bool :=
  match op with OpRegister _ _ | OpDeregister _ _ | OpNoteRefusal _ | OpTakeRefusal _ => false | _ => true end.

Inductive park_step : Park → Park → Prop :=
  | ps_insert k s capacity r :
      register_insert (reg k) s capacity = (Ok (), r) →
      park_step k {| reg := r; notifying := ts_backend_id s :: notifying k; removing := removing k;
                     waiters := waiters k; noted := noted k |}
  | ps_refused k s capacity e r :
      register_insert (reg k) s capacity = (Err e, r) → park_step k (with_reg k r)
  | ps_notify k b before after :
      notifying k = before ++ b :: after →
      park_step k {| reg := notify_session_waiters (reg k) b; notifying := before ++ after;
                     removing := removing k; waiters := waiters k; noted := noted k |}
  | ps_retain k b sid removed emptied r :
      deregister_retain (reg k) b sid = (removed, emptied, r) →
      park_step k {| reg := r; notifying := notifying k;
                     removing := if emptied then b :: removing k else removing k;
                     waiters := waiters k; noted := noted k |}
  | ps_remove k b before after :
      removing k = before ++ b :: after →
      park_step k {| reg := deregister_remove (reg k) b; notifying := notifying k;
                     removing := before ++ after; waiters := waiters k; noted := noted k |}
  | ps_op k op : atomic_op op = true → park_step k (with_reg k (reg_step (reg k) op))
  | ps_note k b :
      park_step k {| reg := note_refusal (reg k) b; notifying := notifying k; removing := removing k;
                     waiters := waiters k; noted := b :: noted k |}
  | ps_start k i b kind g r :
      waiters k !! i = None → wake_handle (reg k) b = (Some g, r) →
      park_step k (set_waiter (with_reg k r) i {| wt_backend := b; wt_kind := kind; wt_phase := Arm |})
  | ps_waiter k i w k' : waiters k !! i = Some w → waiter_step k i w = Some k' → park_step k k'
  | ps_timeout k now i w k' :
      waiters k !! i = Some w → waiter_timeout k now i w = Some k' → park_step k k'.

Inductive parked (max : Z) : Park → Prop :=
  | parked_init :
      parked max {| reg := TunnelRegistry_new max; notifying := []; removing := []; waiters := ∅; noted := [] |}
  | parked_step k k' : parked max k → park_step k k' → parked max k'.

(** ** No wake-up is lost *)

Lemma foldl_proj {A B} (proj : TunnelRegistry → B) (f : TunnelRegistry → A → TunnelRegistry) l r :
  (∀ r a, proj (f r a) = proj r) → proj (foldl f r l) = proj r.
Proof.
  intros Hf. revert r. induction l as [|a l IH]; intros r; [done|]. cbn [foldl]. by rewrite IH, Hf.
Qed.

(** A step keeps every handle and never winds its generation back. *)
Definition handles_grow (r r' : TunnelRegistry) : Prop :=
  ∀ b g, wake_notify r !! b = Some g → ∃ g', wake_notify r' !! b = Some g' ∧ (g ≤ g')%nat.

(** A step makes no backend reachable. *)
Definition no_arrival (r r' : TunnelRegistry) : Prop :=
  ∀ b, is_tunnel_backend r' b = true → is_tunnel_backend r b = true.

Lemma handles_eq r r' : wake_notify r' = wake_notify r → handles_grow r r'.
Proof. intros He b g Hg. rewrite He. eauto. Qed.

Lemma notify_handles r b : handles_grow r (notify_session_waiters r b).
Proof.
  intros b' g Hg. unfold notify_session_waiters. destruct (wake_notify r !! b) as [g0|] eqn:Hb; [|eauto].
  cbn. destruct (decide (b = b')) as [->|Hne].
  - rewrite lookup_insert_eq. rewrite Hb in Hg. injection Hg as ->. eauto.
  - rewrite lookup_insert_ne by done. eauto.
Qed.

Lemma is_tunnel_backend_spec r b :
  is_tunnel_backend r b = true ↔ ∃ s l, sessions r !! b = Some (s :: l).
Proof.
  unfold is_tunnel_backend. destruct (sessions r !! b) as [[|s l]|]; cbn; naive_solver.
Qed.

Lemma no_arrival_sessions r r' :
  (∀ b l, sessions r' !! b = Some l → l ≠ [] → ∃ l', sessions r !! b = Some l' ∧ l' ≠ []) →
  no_arrival r r'.
Proof.
  intros Hs b (s & l & Hl)%is_tunnel_backend_spec. destruct (Hs b _ Hl) as (l' & Hl' & Hne); [done|].
  apply is_tunnel_backend_spec. destruct l'; [done|eauto].
Qed.

Lemma no_arrival_eq r r' : sessions r' = sessions r → no_arrival r r'.
Proof. intros He b. unfold is_tunnel_backend. by rewrite He. Qed.

Lemma filter_nonempty {A} (f : A → bool) l : List.filter f l ≠ [] → l ≠ [].
Proof. by intros ? ->. Qed.

Lemma deregister_retain_steps r b sid removed emptied r' :
  deregister_retain r b sid = (removed, emptied, r') →
  wake_notify r' = wake_notify r ∧ no_arrival r r' ∧ refused r' = refused r.
Proof.
  unfold deregister_retain. cbn. destruct (sessions r !! b) as [l|] eqn:Hl.
  2: intros [= <- <- <-]; split_and!; [done|by apply no_arrival_eq|done].
  intros [= <- <- <-]. split_and!; [by destruct (_ <? _)| |by destruct (_ <? _)].
  apply no_arrival_sessions. intros b' l'.
  assert (sessions (if zlen (List.filter (keeps sid) l) <? zlen l
    then drop_control_tx (with_sessions (with_peers r (delete sid (control_peers r)))
      (<[b:=List.filter (keeps sid) l]> (sessions r))) sid
    else with_sessions (with_peers r (delete sid (control_peers r)))
      (<[b:=List.filter (keeps sid) l]> (sessions r))) = <[b:=List.filter (keeps sid) l]> (sessions r)) as ->
    by (by destruct (_ <? _)).
  destruct (decide (b' = b)) as [->|Hne].
  - rewrite lookup_insert_eq. intros [= <-] Hne%filter_nonempty. eauto.
  - rewrite lookup_insert_ne by done. eauto.
Qed.

Lemma remove_bucket_steps r b :
  wake_notify (remove_bucket r b).2 = wake_notify r ∧ no_arrival r (remove_bucket r b).2 ∧
  refused (remove_bucket r b).2 = refused r.
Proof.
  pose proof (remove_bucket_sessions r b) as (Hs & _ & _). split_and!.
  1,3: unfold remove_bucket; destruct (sessions r !! b); [|done]; cbn [snd].
  1: by rewrite (foldl_proj wake_notify).
  1: by rewrite (foldl_proj refused).
  apply no_arrival_sessions. intros b' l. rewrite Hs, lookup_delete_Some. naive_solver.
Qed.

Lemma deregister_steps r b sid :
  wake_notify (deregister r b sid).2 = wake_notify r ∧ no_arrival r (deregister r b sid).2 ∧
  refused (deregister r b sid).2 = refused r.
Proof.
  unfold deregister. destruct (deregister_retain r b sid) as [[removed emptied] r1] eqn:Hr.
  apply deregister_retain_steps in Hr as (Hw & Ha & Hf). destruct emptied; [|done]. cbn [snd].
  unfold deregister_remove. destruct (remove_bucket_steps r1 b) as (Hw' & Ha' & Hf').
  split_and!; [congruence| |congruence]. intros b' Hb. by apply Ha, Ha'.
Qed.

(** A step that changes neither the sessions, the handles nor the refusals. *)
Ltac same_reg := split_and!; [by apply handles_eq|by apply no_arrival_eq|done].

Lemma atomic_steps r op :
  atomic_op op = true →
  handles_grow r (reg_step r op) ∧ no_arrival r (reg_step r op) ∧ refused (reg_step r op) = refused r.
Proof.
  destruct op; try done; intros _; cbn [reg_step].
  - destruct (remove_bucket_steps r backend_id) as (Hw & Ha & Hf). unfold deregister_all.
    destruct (remove_bucket r backend_id). cbn in *. split_and!; [by apply handles_eq|done..].
  - destruct (revoke_sessions r revocation) as [Hs _]. split_and!.
    + apply handles_eq. unfold revoke_matching. cbn [snd]. by rewrite (foldl_proj wake_notify).
    + apply no_arrival_sessions. intros b l. rewrite Hs, map_lookup_filter_Some, lookup_fmap.
      intros [Hl _] Hne. apply fmap_Some in Hl as (l0 & Hl0 & ->). apply filter_nonempty in Hne. eauto.
    + unfold revoke_matching. cbn [snd]. by rewrite (foldl_proj refused).
  - unfold record_heartbeat. destruct (sessions r !! backend_id) as [l|] eqn:Hl; [|same_reg].
    destruct (list_find _ l) as [[i s]|] eqn:Hf; [|same_reg].
    split_and!; [by apply handles_eq| |done]. apply no_arrival_sessions. intros b l'. cbn.
    destruct (decide (b = backend_id)) as [->|Hne].
    + intros _ _. exists l. split; [done|]. apply list_find_Some in Hf as (Hi & _). by destruct l.
    + rewrite lookup_insert_ne by done. eauto.
  - unfold acquire_stream. destruct (sessions r !! backend_id) as [[|s0 l]|]; [same_reg| |same_reg].
    destruct ((s0 :: l) !! _) as [s|]; [|same_reg]. destruct (closed _); [|same_reg]. cbn [snd].
    destruct (deregister_steps (with_counter r (wrap64 (rr_counter r + 1))) backend_id (ts_session_id s))
      as (Hw & Ha & Hf). split_and!; [by apply handles_eq|done..].
  - unfold shutdown_all. cbn [snd]. split_and!.
    + apply handles_eq. cbn. by rewrite (foldl_proj wake_notify).
    + apply no_arrival_sessions. intros b l. cbn. by rewrite lookup_empty.
    + cbn. by rewrite (foldl_proj refused).
  - unfold wake_handle. destruct (array_string_from _ _) as [key|]; [|same_reg].
    destruct (wake_notify r !! key) as [g|] eqn:Hk; [same_reg|].
    cbn [snd]. split_and!; [|by apply no_arrival_eq|done].
    intros b g Hg. cbn. destruct (decide (key = b)) as [->|Hne]; [congruence|].
    rewrite lookup_insert_ne by done. eauto.
Qed.

Lemma insert_steps r s capacity res r' :
  register_insert r s capacity = (res, r') →
  wake_notify r' = wake_notify r ∧ refused r' = refused r ∧
  (∀ b, is_tunnel_backend r' b = true → is_tunnel_backend r b = true ∨ res = Ok () ∧ b = ts_backend_id s).
Proof.
  intros Hins. pose proof (register_insert_sessions r s capacity) as (Hs & _ & Hok). rewrite Hins in Hs, Hok.
  cbn [fst snd] in *. split_and!.
  1,2: apply (f_equal snd) in Hins; cbn in Hins; subst r'; unfold register_insert; cbv zeta;
    destruct (max_sessions_per_backend r <=? zlen (default [] (sessions r !! ts_backend_id s)));
    [done|by destruct (ts_is_control_peer s)].
  intros b (s0 & l & Hl)%is_tunnel_backend_spec. rewrite Hs in Hl.
  destruct (decide (b = ts_backend_id s)) as [->|Hne].
  - rewrite lookup_insert_eq in Hl. injection Hl as Hl. destruct (_ <=? _) eqn:Hfull; bool_hyps.
    + rewrite app_nil_r in Hl. left. apply is_tunnel_backend_spec.
      destruct (sessions r !! ts_backend_id s) as [l'|]; cbn in Hl; [subst; eauto|done].
    + right. split; [|done]. apply Hok. lia.
  - rewrite lookup_insert_ne in Hl by done. left. apply is_tunnel_backend_spec. eauto.
Qed.

(** A waiter holds a handle, and one that sleeps undisturbed has missed nothing. *)
Definition waiter_ok (k : Park) (w : Waiter) : Prop :=
  ∃ G, wake_notify (reg k) !! wt_backend w = Some G ∧
    match wt_phase w with
    | Arm | Answered _ => True
    | Look g => (g ≤ G)%nat
    | Asleep g => (g ≤ G)%nat ∧
        (g = G → ∀ d, wt_kind w = WaitSession d →
           is_tunnel_backend (reg k) (wt_backend w) = true → wt_backend w ∈ notifying k)
    end.

(** A step of the rest of the system: a backend becomes reachable only with a
    notification to come, and a notification spent moves the generation on. *)
Definition env_step (k k' : Park) : Prop :=
  waiters k' = waiters k ∧ handles_grow (reg k) (reg k') ∧
  ∀ b g, wake_notify (reg k) !! b = Some g → wake_notify (reg k') !! b = Some g →
    is_tunnel_backend (reg k') b = true →
    b ∈ notifying k' ∨ is_tunnel_backend (reg k) b = true ∧ b ∉ notifying k.

Lemma env_step_ok k k' w : env_step k k' → waiter_ok k w → waiter_ok k' w.
Proof.
  intros (_ & Hgrow & Harr) (G & HG & Hp). destruct (Hgrow _ _ HG) as (G' & HG' & Hle).
  exists G'. split; [done|]. destruct (wt_phase w); [done|lia| |done].
  destruct Hp as [Hg Hmiss]. split; [lia|]. intros -> d Hd Hb.
  assert (G = G') as HeqG by lia. rewrite <-HeqG in HG'. destruct (Harr _ _ HG HG' Hb) as [?|[Hb' Hn]]; [done|].
  exfalso. apply Hn. by apply (Hmiss (eq_sym HeqG) d Hd).
Qed.

Lemma elem_of_middle {A} (x b : A) before after : x ∈ before ++ after → x ∈ before ++ b :: after.
Proof. rewrite !elem_of_app, elem_of_cons. tauto. Qed.

(** The steps that are not a waiter's. *)
Lemma quiet_env k r n rm nt :
  handles_grow (reg k) r → no_arrival (reg k) r → (∀ b, b ∈ notifying k → b ∈ n) →
  env_step k {| reg := r; notifying := n; removing := rm; waiters := waiters k; noted := nt |}.
Proof.
  intros Hg Ha Hn. split_and!; [done..|]. cbn. intros b g _ _ Hb%Ha.
  destruct (decide (b ∈ notifying k)); auto.
Qed.

Lemma notify_env k b before after :
  notifying k = before ++ b :: after →
  env_step k {| reg := notify_session_waiters (reg k) b; notifying := before ++ after;
                removing := removing k; waiters := waiters k; noted := noted k |}.
Proof.
  intros Hk. split_and!; [done|apply notify_handles|]. cbn. intros b' g Hg Hg' Hb'.
  assert (b' ≠ b) as Hne.
  { intros ->. unfold notify_session_waiters in Hg'. rewrite Hg in Hg'. cbn in Hg'.
    rewrite lookup_insert_eq in Hg'. injection Hg'. lia. }
  assert (is_tunnel_backend (reg k) b' = true) as Hb.
  { revert Hb'. unfold is_tunnel_backend. by destruct (notify_keeps (reg k) b) as [-> _]. }
  rewrite Hk. destruct (decide (b' ∈ before ++ after)) as [?|Hn]; [by left|right].
  split; [done|]. rewrite elem_of_app, elem_of_cons in *. tauto.
Qed.

Lemma insert_env k s capacity r :
  register_insert (reg k) s capacity = (Ok (), r) →
  env_step k {| reg := r; notifying := ts_backend_id s :: notifying k; removing := removing k;
                waiters := waiters k; noted := noted k |}.
Proof.
  intros (Hw & _ & Ha)%insert_steps. split_and!; [done|by apply handles_eq|]. cbn.
  intros b g _ _ [Hb|[_ ->]]%Ha; [|left; apply elem_of_cons; by left].
  destruct (decide (b ∈ notifying k)); [left; apply elem_of_cons; by right|auto].
Qed.

Lemma note_env k b :
  env_step k {| reg := note_refusal (reg k) b; notifying := notifying k; removing := removing k;
                waiters := waiters k; noted := b :: noted k |}.
Proof.
  apply quiet_env; [| |done]; unfold note_refusal; destruct (array_string_from _ _) as [j|];
    try (by apply handles_eq); try (by apply no_arrival_eq).
  - intros b' g Hg. by apply (notify_handles (with_refused (reg k) ({[j]} ∪ refused (reg k))) b b' g).
  - apply no_arrival_eq. by destruct (notify_keeps (with_refused (reg k) ({[j]} ∪ refused (reg k))) b) as [-> _].
Qed.

Lemma set_waiter_ok k i w' :
  (∀ j u, waiters k !! j = Some u → waiter_ok k u) → waiter_ok k w' →
  ∀ j u, waiters (set_waiter k i w') !! j = Some u → waiter_ok (set_waiter k i w') u.
Proof.
  intros Hall Hw j u. cbn. destruct (decide (i = j)) as [->|Hne].
  - rewrite lookup_insert_eq. by intros [= <-].
  - rewrite lookup_insert_ne by done. apply Hall.
Qed.

Lemma waiter_step_ok k i w k' :
  waiters k !! i = Some w → (∀ j u, waiters k !! j = Some u → waiter_ok k u) →
  waiter_step k i w = Some k' → ∀ j u, waiters k' !! j = Some u → waiter_ok k' u.
Proof.
  intros Hi Hall. pose proof (Hall i w Hi) as (G & HG & Hp). unfold waiter_step, session_look, refusal_look, generation.
  destruct (wt_phase w) as [|g|g|]; [| |destruct (_ <? _)%nat eqn:Hlt|done]; [| |intros [= <-]|done].
  - intros [= <-]. apply set_waiter_ok; [done|]. exists G. cbn. rewrite HG. done.
  - destruct (wt_kind w) as [d|] eqn:Hkind; intros [= <-].
    + apply set_waiter_ok; [done|]. exists G. cbn. split; [done|].
      destruct (is_tunnel_backend _ _) eqn:Hb; [done|]. split; [done|]. cbn. congruence.
    + apply (set_waiter_ok (with_reg k _)).
      * intros j u Hj. destruct (Hall j u Hj) as (G' & HG' & Hp'). by exists G'.
      * exists G. cbn. split; [done|]. destruct (bool_decide _); [done|]. split; [done|].
        intros _ d Hd. congruence.
  - apply set_waiter_ok; [done|]. exists G. done.
Qed.

Lemma parked_waiters_ok max k : parked max k → ∀ i w, waiters k !! i = Some w → waiter_ok k w.
Proof.
  induction 1 as [|k k' Hk IH Hstep]; [intros i w Hi; cbn in Hi; by rewrite lookup_empty in Hi|].
  assert (env_step k k' → ∀ i w, waiters k' !! i = Some w → waiter_ok k' w) as Henv.
  { intros He i w Hi. pose proof He as (Hw & _). rewrite Hw in Hi. by eapply env_step_ok, IH. }
  destruct Hstep.
  - by eapply Henv, insert_env.
  - apply Henv. apply insert_steps in H as (Hw & _ & Ha).
    apply quiet_env; [by apply handles_eq| |done]. intros b [?|[[=] _]]%Ha. done.
  - by eapply Henv, notify_env.
  - apply Henv. apply deregister_retain_steps in H as (Hw & Ha & _).
    by apply quiet_env; [apply handles_eq| |].
  - apply Henv. destruct (remove_bucket_steps (reg k) b) as (Hw & Ha & _).
    by apply quiet_env; [apply handles_eq| |].
  - apply Henv. destruct (atomic_steps (reg k) op H) as (Hw & Ha & _). by apply quiet_env.
  - apply Henv, note_env.
  - assert (env_step k (with_reg k r)) as He.
    { destruct (atomic_steps (reg k) (OpWakeHandle b) eq_refl) as (Hw & Ha & _).
      cbn in Hw, Ha. rewrite H0 in Hw, Ha. by apply quiet_env. }
    apply (set_waiter_ok (with_reg k r)).
    { intros j u Hj. eapply env_step_ok; [exact He|]. by eapply IH. }
    unfold wake_handle in H0. destruct (array_string_from 256 b) as [key|] eqn:Hkey; [|done].
    assert (key = b) as -> by (unfold array_string_from in Hkey; destruct (_ <? _); congruence).
    destruct (wake_notify (reg k) !! b) as [g'|] eqn:Hb; injection H0 as <- <-; eexists; cbn.
    + by rewrite Hb.
    + by rewrite lookup_insert_eq.
  - by eapply waiter_step_ok.
  - unfold waiter_timeout in H0. destruct (wt_phase w) eqn:Hp; try done.
    destruct (wt_kind w); [|done]. destruct (_ <=? _); [|done]. injection H0 as <-.
    apply set_waiter_ok; [done|]. destruct (IH i w H) as (G & HG & _). by exists G.
Qed.

(** ** Waiting for a session *)

(** The waiter's own steps, until it has answered. *)
Fixpoint run_waiter (fuel : nat) (k : Park) (i : nat) : Park :=
  match fuel, waiters k !! i with
  | S fuel, Some w =>
      match waiter_step k i w with
      | Some k' => run_waiter fuel k' i
      | None => k
      end
  | _, _ => k
  end.

(** C12. A registration never leaves a parked request behind.  In every reachable interleaving, a
    request asleep for a backend that has a session has been woken already, or the
    registration is about to notify it; and once no such notification is outstanding the
    request answers [true] within four of its own steps, wherever in its loop it is. *)
Theorem no_lost_wakeup (max : Z) (k : Park) (i : nat) (w : Waiter) (deadline : Z) :
  parked max k → waiters k !! i = Some w → wt_kind w = WaitSession deadline →
  is_tunnel_backend (reg k) (wt_backend w) = true →
  (∀ g, wt_phase w = Asleep g → (g < generation k (wt_backend w))%nat ∨ wt_backend w ∈ notifying k) ∧
  (wt_backend w ∉ notifying k → (∀ b, wt_phase w ≠ Answered b) →
   ∃ w', waiters (run_waiter 4 k i) !! i = Some w' ∧ wt_phase w' = Answered true).
Proof.
  intros Hp Hi Hkind Hb. destruct (parked_waiters_ok _ _ Hp i w Hi) as (G & HG & Hph).
  assert (∀ g, wt_phase w = Asleep g →
    (g < generation k (wt_backend w))%nat ∨ wt_backend w ∈ notifying k) as Hsleep.
  { intros g Hg. rewrite Hg in Hph. destruct Hph as [Hle Hmiss]. unfold generation. rewrite HG. cbn.
    destruct (decide (g = G)) as [->|]; [right; by eapply Hmiss|left; lia]. }
  split; [done|]. intros Hn Hna.
  destruct w as [b kind ph]. cbn in *. subst kind.
  destruct ph as [|g|g|a]; [..|by destruct (Hna a)].
  3: destruct (Hsleep g eq_refl) as [Hlt|]; [|done]; apply Nat.ltb_lt in Hlt.
  all: cbn [run_waiter]; rewrite Hi; unfold waiter_step, session_look, refusal_look; cbn [wt_phase wt_kind wt_backend]; rewrite ?Hlt;
    repeat (cbn; rewrite ?lookup_insert_eq, ?Hb; cbn);
    eexists; (split; [rewrite ?lookup_insert_eq; reflexivity|done]).
Qed.

(** ** Refusals *)

#[export] Instance Phase_eq_dec : EqDecision Phase.
Proof. solve_decision. Defined.
#[export] Instance WaitKind_eq_dec : EqDecision WaitKind.
Proof. solve_decision. Defined.

(** A parked request that a refusal of [b] has released. *)
Definition released (b : string) (p : nat * Waiter) : Prop :=
  wt_kind p.2 = WaitRefusal ∧ wt_backend p.2 = b ∧ wt_phase p.2 = Answered true.

#[export] Instance released_dec b p : Decision (released b p).
Proof. unfold released. apply _. Defined.

Definition released_count (k : Park) (b : string) : nat := size (filter (released b) (waiters k)).

Definition pending (r : TunnelRegistry) (b : string) : nat := if decide (b ∈ refused r) then 1 else 0.

Definition times_noted (k : Park) (b : string) : nat := length (filter (λ x, x = b) (noted k)).

Lemma released_insert b (m : gmap nat Waiter) i w' :
  (∀ w, m !! i = Some w → ¬ released b (i, w)) →
  size (filter (released b) (<[i := w']> m)) =
    (size (filter (released b) m) + if decide (released b (i, w')) then 1 else 0)%nat.
Proof.
  intros Hi. assert (filter (released b) m !! i = None) as Hn.
  { apply map_lookup_filter_None. destruct (m !! i) as [w|] eqn:Hm; [right|by left].
    intros u [= <-]. by apply Hi. }
  case_decide as Hw.
  - rewrite map_filter_insert_True by done. rewrite map_size_insert_None by done. lia.
  - rewrite map_filter_insert_False by done. rewrite map_filter_delete, delete_id by done. lia.
Qed.

Definition refusals_ok (k : Park) : Prop :=
  ∀ b, (released_count k b + pending (reg k) b ≤ times_noted k b)%nat.

Lemma refusals_same k k' :
  waiters k' = waiters k → refused (reg k') = refused (reg k) → noted k' = noted k →
  refusals_ok k → refusals_ok k'.
Proof.
  intros Hw Hr Hn Hok b. specialize (Hok b). unfold released_count, pending, times_noted in *.
  by rewrite Hw, Hr, Hn.
Qed.

Lemma notify_refused r b : refused (notify_session_waiters r b) = refused r.
Proof. unfold notify_session_waiters. by destruct (wake_notify r !! b). Qed.

Lemma set_waiter_refusals k i w' :
  (∀ b w, waiters k !! i = Some w → ¬ released b (i, w)) → (∀ b, ¬ released b (i, w')) →
  refusals_ok k → refusals_ok (set_waiter k i w').
Proof.
  intros Hi Hw Hok b. specialize (Hok b). unfold released_count in *. cbn.
  rewrite released_insert by auto. rewrite decide_False by done.
  unfold pending, times_noted in *. cbn. lia.
Qed.

Lemma waiter_step_refusals k i w k' :
  waiters k !! i = Some w → waiter_step k i w = Some k' → refusals_ok k → refusals_ok k'.
Proof.
  intros Hi Hstep Hok. unfold waiter_step, session_look, refusal_look in Hstep.
  assert (∀ b, (∀ a, wt_phase w ≠ Answered a) → ∀ u, waiters k !! i = Some u → ¬ released b (i, u)) as Hnot.
  { intros b Hph u Hu (_ & _ & Ha). rewrite Hi in Hu. injection Hu as <-. by apply Hph in Ha. }
  destruct (wt_phase w) as [|g|g|a] eqn:Hph; [| |destruct (_ <? _)%nat|]; [| | |done..].
  - injection Hstep as <-. apply set_waiter_refusals; [naive_solver| |done]. by intros b (_ & _ & ?).
  - destruct (wt_kind w) as [d|] eqn:Hkind.
    + injection Hstep as <-. apply set_waiter_refusals; [naive_solver| |done].
      intros b (Hk & _). cbn in Hk. congruence.
    + unfold take_refusal in Hstep. injection Hstep as <-. intros b. specialize (Hok b).
      unfold released_count, pending, times_noted in *. cbn.
      rewrite released_insert by naive_solver. case_bool_decide as Hin.
      * destruct (decide (b = wt_backend w)) as [->|Hne].
        -- rewrite (decide_False (P := wt_backend w ∈ refused (reg k) ∖ _)) by set_solver.
           rewrite decide_True in Hok by done. case_decide; lia.
        -- rewrite (decide_False (P := released b _)) by (intros (_ & ? & _); cbn in *; congruence).
           repeat case_decide; set_solver by lia.
      * rewrite (decide_False (P := released b _)) by (by intros (_ & _ & ?)).
        repeat case_decide; set_solver by lia.
  - injection Hstep as <-. apply set_waiter_refusals; [naive_solver| |done]. by intros b (_ & _ & ?).
Qed.

(** One refusal releases one request.  However many requests are parked on a backend, the
    number of them that [await_refusal] has released never exceeds the number of times a
    control peer refused that backend; the others wait out their deadline. *)
Theorem refusal_releases_one (max : Z) (k : Park) (b : string) :
  parked max k → (released_count k b ≤ times_noted k b)%nat.
Proof.
  intros Hp. enough (refusals_ok k) as Hok by (specialize (Hok b); lia). clear b.
  induction Hp as [|k k' Hk IH Hstep].
  { intros b. unfold released_count, pending. cbn. rewrite map_filter_empty, map_size_empty.
    rewrite decide_False by set_solver. lia. }
  destruct Hstep.
  - apply insert_steps in H as (_ & Hr & _). by apply (refusals_same k).
  - apply insert_steps in H as (_ & Hr & _). by apply (refusals_same k).
  - apply (refusals_same k); [done| |done..]. apply notify_refused.
  - apply deregister_retain_steps in H as (_ & _ & Hr). by apply (refusals_same k).
  - destruct (remove_bucket_steps (reg k) b) as (_ & _ & Hr). by apply (refusals_same k).
  - destruct (atomic_steps (reg k) op H) as (_ & _ & Hr). by apply (refusals_same k).
  - intros b'. specialize (IH b'). unfold released_count, pending, times_noted in *.
    cbn [waiters reg noted]. rewrite filter_cons. unfold note_refusal.
    destruct (array_string_from 256 b) as [j|] eqn:Hj;
      [|destruct (decide (b = b')); cbn; lia].
    assert (j = b) as -> by (unfold array_string_from in Hj; destruct (_ <? _); congruence).
    rewrite notify_refused. cbn. destruct (decide (b = b')) as [->|Hne]; cbn.
    + repeat case_decide; lia.
    + repeat case_decide; set_solver by lia.
  - destruct (atomic_steps (reg k) (OpWakeHandle b) eq_refl) as (_ & _ & Hr). cbn in Hr. rewrite H0 in Hr.
    apply (set_waiter_refusals (with_reg k r)); [cbn; congruence| |by apply (refusals_same k)].
    by intros b' (_ & _ & ?).
  - by eapply waiter_step_refusals.
  - unfold waiter_timeout in H0. destruct (wt_phase w) eqn:Hp; try done.
    destruct (wt_kind w) eqn:Hkind; [|done]. destruct (_ <=? _); [|done]. injection H0 as <-.
    apply set_waiter_refusals; [|by intros b (_ & _ & ?)|done].
    intros b u Hu (_ & _ & Ha). rewrite H in Hu. injection Hu as <-. cbn in Ha. congruence.
Qed.

(** Two requests parked on "db", one of each kind, asleep when a session registers. *)
Definition park0 : Park :=
  {| reg := TunnelRegistry_new 4; notifying := []; removing := []; waiters := ∅; noted := [] |}.

Definition start (i : nat) (b : string) (kind : WaitKind) (k : Park) : Park :=
  set_waiter (with_reg k (wake_handle (reg k) b).2) i {| wt_backend := b; wt_kind := kind; wt_phase := Arm |}.

Definition demo_asleep : Park :=
  run_waiter 2 (run_waiter 2 (start 1 "db" WaitRefusal (start 0 "db" (WaitSession 100) park0)) 0) 1.

Definition demo_arrived : Park :=
  {| reg := (register_insert (reg demo_asleep) (demo_session 1 "db" "db") 1).2; notifying := ["db"]; removing := [];
     waiters := waiters demo_asleep; noted := [] |}.

Definition demo_notified : Park :=
  {| reg := notify_session_waiters (reg demo_arrived) "db"; notifying := []; removing := [];
     waiters := waiters demo_arrived; noted := [] |}.

Definition demo_refused : Park :=
  run_waiter 3 {| reg := note_refusal (reg demo_asleep) "db"; notifying := []; removing := [];
                  waiters := waiters demo_asleep; noted := ["db"] |} 1.

Lemma run_waiter_parked max fuel k i : parked max k → parked max (run_waiter fuel k i).
Proof.
  revert k. induction fuel as [|fuel IH]; intros k Hk; [done|]. cbn.
  destruct (waiters k !! i) as [w|] eqn:Hw; [|done].
  destruct (waiter_step k i w) as [k'|] eqn:Hs; [|done].
  apply IH. eapply parked_step; [done|]. by eapply ps_waiter.
Qed.

Lemma start_parked max k i b kind :
  parked max k → waiters k !! i = None → slen b ≤ 256 → parked max (start i b kind k).
Proof.
  intros Hk Hi Hb. eapply parked_step; [done|]. unfold start.
  destruct (wake_handle (reg k) b) as [[g|] r] eqn:Hw; [by eapply ps_start|].
  unfold wake_handle, array_string_from in Hw. rewrite (proj2 (Z.ltb_ge _ _)) in Hw by lia.
  destruct (wake_notify (reg k) !! b); discriminate.
Qed.

Lemma demo_asleep_parked : parked 4 demo_asleep.
Proof. do 2 apply run_waiter_parked. do 2 (apply start_parked; [|done|by_decide]). apply parked_init. Qed.

Lemma demo_notified_parked : parked 4 demo_notified.
Proof.
  eapply parked_step; [|apply (ps_notify demo_arrived "db" [] []); done].
  eapply parked_step; [apply demo_asleep_parked|].
  apply (ps_insert demo_asleep (demo_session 1 "db" "db") 1). vm_compute. reflexivity.
Qed.

Lemma demo_refused_parked : parked 4 demo_refused.
Proof.
  apply run_waiter_parked. eapply parked_step; [apply demo_asleep_parked|]. apply (ps_note demo_asleep "db").
Qed.

Lemma no_lost_wakeup_witness :
  ∃ w', waiters (run_waiter 4 demo_notified 0) !! 0%nat = Some w' ∧ wt_phase w' = Answered true.
Proof.
  apply (no_lost_wakeup 4 demo_notified 0
           {| wt_backend := "db"; wt_kind := WaitSession 100; wt_phase := Asleep 0 |} 100);
    [apply demo_notified_parked|vm_compute; reflexivity|reflexivity|vm_compute; reflexivity|by_decide|discriminate].
Defined.

Lemma refusal_releases_one_witness :
  released_count demo_refused "db" = 1%nat ∧ (released_count demo_refused "db" ≤ times_noted demo_refused "db")%nat.
Proof.
  split; [vm_compute; reflexivity|]. apply (refusal_releases_one 4). apply demo_refused_parked.
Defined.

(** A refusal nobody was waiting for stays pending whatever happens short of a waiter taking
    it, so the next request that parks on the backend is refused at once although its own
    wake was never refused. *)
Theorem stale_refusal_persists (r : TunnelRegistry) (b : string) (ops : list reg_op) :
  slen b ≤ 256 →
  Forall (λ op, op ≠ OpTakeRefusal b) ops →
  (take_refusal (foldl reg_step (note_refusal r b) ops) b).1 = true.
Proof.
  intros Hlen Hops. cbn. apply bool_decide_eq_true.
  assert (b ∈ refused (note_refusal r b)) as Hin.
  { unfold note_refusal, array_string_from. rewrite (proj2 (Z.ltb_ge _ _)) by lia.
    rewrite notify_refused. cbn. set_solver. }
  revert Hin. generalize (note_refusal r b). induction Hops as [|op ops Hop _ IH]; intros r' Hin; [done|].
  cbn [foldl]. apply IH. destruct (atomic_op op) eqn:Hat.
  - destruct (atomic_steps r' op Hat) as (_ & _ & ->). done.
  - destruct op; try done; cbn [reg_step].
    + unfold register. destruct (register_insert r' s capacity) as [res r1] eqn:Hins.
      apply insert_steps in Hins as (_ & Hr & _). destruct res as [[]|]; cbn [snd];
        rewrite ?notify_refused; by rewrite Hr.
    + destruct (deregister_steps r' backend_id sid) as (_ & _ & ->). done.
    + unfold note_refusal. destruct (array_string_from _ _); [|done].
      rewrite notify_refused. cbn. set_solver.
    + cbn. assert (backend_id ≠ b) by congruence. set_solver.
Qed.

Lemma stale_refusal_persists_witness :
  (take_refusal (foldl reg_step (note_refusal (TunnelRegistry_new 4) "db")
                   [OpRegister (demo_session 1 "db" "db") 1; OpWakeHandle "db"]) "db").1 = true.
Proof.
  apply stale_refusal_persists; [by_decide|]. repeat constructor; discriminate.
Defined.

(** ** Pushing a wake *)

Section wake.
  Context `{Codec TunnelFrame}.

(** What a control peer's connection does with a push: opening the stream times out or
    fails, or it gives a writer, on which the write may time out. *)
Inductive PeerStream :=
  | NoStream
  | Opened (w : Writer) (slow : bool).

(** The streams finished with the [Wake] frame written, by connection. *)
Definition dispatch_wake (r : TunnelRegistry) (backend_id : string) (timeout_ms : Z)
    (open_uni : nat → PeerStream) : list (nat * Writer) :=
  match array_string_from 256 backend_id with
  | None => []
  | Some id =>
      omap (λ conn,
        match open_uni conn with
        | NoStream => None
        | Opened w slow =>
            match write_frame (Wake id timeout_ms) w with
            | (Ok _, w) => if slow then None else Some (conn, w)
            | (Err _, _) => None
            end
        end) (map snd (map_to_list (control_peers r)))
  end.

(** Every control peer whose stream opens in time and has room receives exactly the [Wake]
    of the backend, readable at the other end. *)
Lemma dispatch_wake_delivers `{!CodecLaws TunnelFrame} r backend_id timeout_ms open_uni sid conn :
  slen backend_id ≤ 256 → fits (Wake backend_id timeout_ms) →
  control_peers r !! sid = Some conn →
  open_uni conn = Opened {| sent := []; room := None |} false →
  ∃ w, (conn, w) ∈ dispatch_wake r backend_id timeout_ms open_uni ∧
       read_frame (sent w) = (Ok (Wake backend_id timeout_ms), []).
Proof.
  intros Hlen Hfits Hpeer Hopen. unfold dispatch_wake, array_string_from.
  rewrite (proj2 (Z.ltb_ge _ _)) by lia.
  pose proof (write_frame_ok (Wake backend_id timeout_ms) {| sent := []; room := None |} Hfits eq_refl) as Hw.
  eexists. split.
  - apply list_elem_of_omap. exists conn. split.
    + apply elem_of_map. exists (sid, conn). split; [done|]. by apply elem_of_map_to_list.
    + rewrite Hopen, Hw. reflexivity.
  - cbn [sent app]. rewrite <-(app_nil_r (frame_bytes _)). by apply read_frame_app.
Qed.
End wake.

(** ** Probing a direct backend *)

Definition PROBE_CONNECT_TIMEOUT : Z := from_millis 500.
Definition PROBE_INTERVAL : Z := from_millis 200.

(** [timeout(PROBE_CONNECT_TIMEOUT, TcpStream::connect(addr))] started at [t], where the
    connect would answer [ok] after [d]: whether it connected, and when. *)
Definition probe_tcp (t : Z) (connect : bool * Z) : bool * Z :=
  let '(ok, d) := connect in
  if d <=? PROBE_CONNECT_TIMEOUT then (ok, t + d) else (false, t + PROBE_CONNECT_TIMEOUT).

(** The answer and the time it is given; [connect n] is what the [n]th probe's connect does
    and [late n] how long after its instant the timer fired.  [None] is running out of fuel. *)
Fixpoint wait_for_reachable_tcp (fuel : nat) (connect : nat → bool * Z) (late : nat → Z) (n : nat)
    (t deadline : Z) : option (bool * Z) :=
  match fuel with
  | O => None
  | S fuel =>
      let '(connected, now) := probe_tcp t (connect n) in
      if connected then Some (true, now)
      else if deadline <=? now then Some (false, now)
      else
        let next := Z.min (now + PROBE_INTERVAL) deadline in
        wait_for_reachable_tcp fuel connect late (S n) (next + late n) deadline
  end.

(** The turns the loop may take: one per interval left, and a last probe past the deadline. *)
Definition probe_turns (t deadline : Z) : nat :=
  (2 + Z.to_nat ((deadline - t) / PROBE_INTERVAL))%nat.

Lemma probe_interval_pos : 0 < PROBE_INTERVAL.
Proof. by_decide. Qed.

Lemma probe_tcp_time t connect :
  0 ≤ connect.2 → t ≤ (probe_tcp t connect).2 ≤ t + PROBE_CONNECT_TIMEOUT.
Proof.
  destruct connect as [ok d]. unfold probe_tcp. cbn [snd]. intros Hd.
  assert (0 < PROBE_CONNECT_TIMEOUT) by by_decide.
  destruct (d <=? PROBE_CONNECT_TIMEOUT) eqn:E; bool_hyps; cbn [snd]; lia.
Qed.

(** A turn that sleeps uses up one of the remaining ones. *)
Lemma probe_turns_decrease t now late deadline :
  t ≤ now < deadline → 0 ≤ late →
  (S (probe_turns (Z.min (now + PROBE_INTERVAL) deadline + late) deadline) ≤ probe_turns t deadline)%nat ∨
  (probe_turns t deadline = 2%nat ∧ deadline ≤ Z.min (now + PROBE_INTERVAL) deadline + late).
Proof.
  intros Hnow Hlate. unfold probe_turns. pose proof probe_interval_pos as Hpos. generalize dependent PROBE_INTERVAL.
  intros I Hpos. destruct (decide (now + I ≤ deadline)) as [Hle|Hgt].
  - left. rewrite Z.min_l by lia.
    assert ((deadline - (now + I + late)) / I ≤ (deadline - t + (-1) * I) / I) as Hmono
      by (apply Z.div_le_mono; lia).
    rewrite Z.div_add in Hmono by lia.
    assert (1 ≤ (deadline - t) / I) by (apply Z.div_le_lower_bound; lia).
    lia.
  - rewrite Z.min_r by lia. destruct (decide (I ≤ deadline - t)) as [Hbig|Hsmall].
    + left. assert ((deadline - (deadline + late)) / I ≤ 0 / I) as Hmono by (apply Z.div_le_mono; lia).
      rewrite Z.div_0_l in Hmono by lia.
      assert (1 ≤ (deadline - t) / I) by (apply Z.div_le_lower_bound; lia). lia.
    + right. rewrite Z.div_small by lia. lia.
Qed.

(** Past the deadline one turn is enough. *)
Lemma last_probe fuel connect late n t deadline :
  (∀ m, 0 ≤ (connect m).2) → deadline ≤ t →
  ∃ b now, wait_for_reachable_tcp (S fuel) connect late n t deadline = Some (b, now) ∧
           now ≤ t + PROBE_CONNECT_TIMEOUT ∧ (b = true ∨ deadline ≤ now).
Proof.
  intros Hd Ht. cbn [wait_for_reachable_tcp]. pose proof (probe_tcp_time t (connect n) (Hd n)).
  destruct (probe_tcp t (connect n)) as [[] now]; cbn in *; [exists true, now; eauto with lia|].
  rewrite (proj2 (Z.leb_le _ _)) by lia. exists false, now. eauto with lia.
Qed.

(** The wait for a direct backend ends: whatever its probes answer and however long they
    take, [probe_turns] turns are enough.  It gives up only once the deadline has passed, and
    it answers at most one connect timeout past the deadline, the lateness of the timer
    included. *)
Theorem probing_terminates (connect : nat → bool * Z) (late : nat → Z) (jitter : Z) (n : nat) (t deadline : Z) :
  (∀ m, 0 ≤ (connect m).2) → (∀ m, 0 ≤ late m ≤ jitter) → t ≤ deadline →
  ∃ b now, wait_for_reachable_tcp (probe_turns t deadline) connect late n t deadline = Some (b, now) ∧
           now ≤ deadline + jitter + PROBE_CONNECT_TIMEOUT ∧ (b = true ∨ deadline ≤ now).
Proof.
  intros Hd Hl. assert (∀ fuel n t, (probe_turns t deadline ≤ fuel)%nat → t ≤ deadline + jitter →
    ∃ b now, wait_for_reachable_tcp fuel connect late n t deadline = Some (b, now) ∧
             now ≤ deadline + jitter + PROBE_CONNECT_TIMEOUT ∧ (b = true ∨ deadline ≤ now)) as Hgen.
  2: { intros Ht. apply Hgen; [done|]. specialize (Hl 0%nat). lia. }
  clear n t. induction fuel as [|fuel IH]; intros n t Hf Ht; [unfold probe_turns in Hf; lia|].
  cbn [wait_for_reachable_tcp]. pose proof (probe_tcp_time t (connect n) (Hd n)).
  destruct (probe_tcp t (connect n)) as [[] now]; cbn [snd] in *; [exists true, now; eauto with lia|].
  destruct (deadline <=? now) eqn:Hdl; bool_hyps; [exists false, now; eauto with lia|].
  specialize (Hl n) as Hln.
  destruct (probe_turns_decrease t now (late n) deadline) as [Hdec|[Htwo Hpast]]; [lia|lia|apply IH; lia|].
  destruct fuel as [|fuel]; [lia|].
  destruct (last_probe fuel connect late (S n) _ deadline Hd Hpast) as (b & now' & -> & ? & ?).
  exists b, now'. split; [done|]. split; [lia|done].
Qed.

Lemma probing_terminates_witness :
  wait_for_reachable_tcp (probe_turns 0 (from_millis 300)) (λ m, (false, from_millis 10)) (λ _, 0) 0 0 (from_millis 300) =
    Some (false, from_millis 310) ∧
  ∃ b now, wait_for_reachable_tcp (probe_turns 0 (from_millis 300)) (λ m, (false, from_millis 10)) (λ _, 0) 0 0
             (from_millis 300) = Some (b, now) ∧
           now ≤ from_millis 300 + 0 + PROBE_CONNECT_TIMEOUT ∧ (b = true ∨ from_millis 300 ≤ now).
Proof.
  split; [vm_compute; reflexivity|].
  apply (probing_terminates (λ m, (false, from_millis 10)) (λ _, 0) 0 0 0 (from_millis 300)); [intros _; by_decide|intros _; by_decide|by_decide].
Defined.
