(* ===== verification/Revocation.v ===== *)
(** * Revocation: the sweep and the registrations it races with

    [spawn_revocation_sweep] of [src/startup/background.rs], the shard-by-shard walk of
    [TunnelRegistry::revoke_matching] and the two revocation checks of
    [src/tunnel/listener/registration.rs].  The sweep holds the watch channel's read lock, so
    no set is published while it runs, but registrations commit between two of its shards. *)

From S2P Require Import Prelude Text Error Net Wire Identity TunnelProtocol Registry.
Local Open Scope Z_scope.

Section sweep.
  (** The shard a key of the [DashMap] lives in. *)
  Context (shards : nat) (shard_of : string → nat) (shard_bound : ∀ b, (shard_of b < shards)%nat).

(** ** The walk *)

Definition in_shard (i : nat) (b : string) : bool := (shard_of b =? i)%nat.

Definition not_revoked (rs : RevocationSet) (s : TunnelSession) : bool := negb (is_revoked rs (ts_identity s)).

(** The buckets of one shard, under its lock. *)
Definition revoke_shard (rs : RevocationSet) (r : TunnelRegistry) (i : nat) : TunnelRegistry :=
  let gone := concat (map (λ p, if in_shard i p.1 then List.filter (λ s, is_revoked rs (ts_identity s)) p.2 else [])
                          (map_to_list (sessions r))) in
  let kept := map_imap (λ b l, Some (if in_shard i b then List.filter (not_revoked rs) l else l)) (sessions r) in
  foldl revoke_session (with_sessions r kept) gone.

(** [self.sessions.retain(|_, sessions| !sessions.is_empty())] *)
Definition retain_nonempty (r : TunnelRegistry) : TunnelRegistry :=
  with_sessions r (filter (λ p : string * list TunnelSession, p.2 ≠ []) (sessions r)).

Definition revoke_sharded (r : TunnelRegistry) (rs : RevocationSet) : TunnelRegistry :=
  retain_nonempty (foldl (revoke_shard rs) r (seq 0 shards)).

Lemma revoke_shard_sessions rs r i b :
  sessions (revoke_shard rs r i) !! b =
  (λ l, if in_shard i b then List.filter (not_revoked rs) l else l) <$> sessions r !! b.
Proof.
  unfold revoke_shard. edestruct (foldl_keeps revoke_session) as [-> _]; [done|].
  cbn. rewrite map_lookup_imap. by destruct (sessions r !! b).
Qed.

Lemma foldl_revoke_sessions rs r n k b :
  sessions (foldl (revoke_shard rs) r (seq n k)) !! b =
  (λ l, if (n <=? shard_of b)%nat && (shard_of b <? n + k)%nat then List.filter (not_revoked rs) l else l)
    <$> sessions r !! b.
Proof.
  revert r n. induction k as [|k IH]; intros r n; cbn [seq foldl].
  { rewrite Nat.add_0_r. destruct (sessions r !! b); [|done]. cbn [fmap option_fmap option_map].
    destruct (Nat.leb_spec n (shard_of b)), (Nat.ltb_spec (shard_of b) n); cbn; try done; lia. }
  rewrite IH, revoke_shard_sessions. destruct (sessions r !! b) as [l|]; [|done].
  cbn [fmap option_fmap option_map]. f_equal. unfold in_shard.
  destruct (Nat.eqb_spec (shard_of b) n), (Nat.leb_spec (S n) (shard_of b)),
    (Nat.ltb_spec (shard_of b) (S n + k)), (Nat.leb_spec n (shard_of b)), (Nat.ltb_spec (shard_of b) (n + S k));
    cbn; try done; lia.
Qed.

(** The walk, shard by shard, does what one atomic pass over the whole registry would. *)
Theorem sharded_sweep_equiv (r : TunnelRegistry) (rs : RevocationSet) :
  sessions (revoke_sharded r rs) = sessions (revoke_matching r rs).2.
Proof.
  destruct (revoke_sessions r rs) as [-> _]. unfold revoke_sharded, retain_nonempty. cbn [sessions with_sessions].
  f_equal. apply map_eq. intros b. rewrite foldl_revoke_sessions, lookup_fmap.
  destruct (sessions r !! b); [|done]. cbn [fmap option_fmap option_map]. f_equal.
  specialize (shard_bound b). by rewrite (proj2 (Nat.ltb_lt _ _)) by lia.
Qed.

(** ** Registrations against the sweep *)

(** The registry; the denylist published last, its version and the version the last sweep
    began with; the next shard of a sweep under way; and the registrations that are committed
    but have not made their second check yet. *)
Record Fleet := {
  fl_registry : TunnelRegistry;
  fl_set : RevocationSet;
  fl_version : nat;
  fl_swept : nat;
  fl_sweep : option nat;
  fl_unchecked : gmap SessionId TunnelSession;
}.

Definition fl_with (f : Fleet) (r : TunnelRegistry) (u : gmap SessionId TunnelSession) : Fleet :=
  {| fl_registry := r; fl_set := fl_set f; fl_version := fl_version f; fl_swept := fl_swept f;
     fl_sweep := fl_sweep f; fl_unchecked := u |}.

Definition same_session (s s' : TunnelSession) : Prop :=
  ts_session_id s = ts_session_id s' ∧ ts_identity s = ts_identity s'.

(** Every session of [r'] is one of [r], in the same bucket. *)
Definition no_new_session (r r' : TunnelRegistry) : Prop :=
  ∀ b s, s ∈ bucket r' b → ∃ s', s' ∈ bucket r b ∧ same_session s s'.

Definition fresh_id (f : Fleet) (sid : SessionId) : Prop :=
  fl_unchecked f !! sid = None ∧ ∀ b s, s ∈ bucket (fl_registry f) b → ts_session_id s ≠ sid.

(** [fs_register] and the two [fs_recheck] steps are the registration of
    [commit_registration]; [fs_other] is everything that only loses sessions. *)
Inductive fleet_step : Fleet → Fleet → Prop :=
  | fs_publish f rs :
      fl_sweep f = None →
      fleet_step f {| fl_registry := fl_registry f; fl_set := rs; fl_version := S (fl_version f);
                      fl_swept := fl_swept f; fl_sweep := None; fl_unchecked := fl_unchecked f |}
  | fs_register f s capacity r :
      fresh_id f (ts_session_id s) → register (fl_registry f) s capacity = (Ok (), r) →
      fleet_step f (fl_with f r (<[ts_session_id s := s]> (fl_unchecked f)))
  | fs_recheck_ok f sid s :
      fl_unchecked f !! sid = Some s → is_revoked (fl_set f) (ts_identity s) = false →
      fleet_step f (fl_with f (fl_registry f) (delete sid (fl_unchecked f)))
  | fs_recheck_revoked f sid s :
      fl_unchecked f !! sid = Some s → is_revoked (fl_set f) (ts_identity s) = true →
      fleet_step f (fl_with f (deregister (fl_registry f) (ts_backend_id s) sid).2 (delete sid (fl_unchecked f)))
  | fs_begin f :
      fl_sweep f = None → (fl_swept f < fl_version f)%nat →
      fleet_step f {| fl_registry := fl_registry f; fl_set := fl_set f; fl_version := fl_version f;
                      fl_swept := fl_version f; fl_sweep := Some 0%nat; fl_unchecked := fl_unchecked f |}
  | fs_shard f i :
      fl_sweep f = Some i → (i < shards)%nat →
      fleet_step f {| fl_registry := revoke_shard (fl_set f) (fl_registry f) i; fl_set := fl_set f;
                      fl_version := fl_version f; fl_swept := fl_swept f; fl_sweep := Some (S i);
                      fl_unchecked := fl_unchecked f |}
  | fs_end f :
      fl_sweep f = Some shards →
      fleet_step f {| fl_registry := retain_nonempty (fl_registry f); fl_set := fl_set f;
                      fl_version := fl_version f; fl_swept := fl_swept f; fl_sweep := None;
                      fl_unchecked := fl_unchecked f |}
  | fs_other f r : no_new_session (fl_registry f) r → fleet_step f (fl_with f r (fl_unchecked f)).

Inductive fleet_reachable (max : Z) : Fleet → Prop :=
  | fleet_start rs :
      fleet_reachable max {| fl_registry := TunnelRegistry_new max; fl_set := rs; fl_version := 0; fl_swept := 0;
                             fl_sweep := None; fl_unchecked := ∅ |}
  | fleet_next f f' : fleet_reachable max f → fleet_step f f' → fleet_reachable max f'.

(** A sweep that will still visit the bucket [b] is due or under way. *)
Definition sweep_due (f : Fleet) (b : string) : Prop :=
  (fl_swept f < fl_version f)%nat ∨ ∃ i, fl_sweep f = Some i ∧ (i ≤ shard_of b)%nat.

Definition fleet_ok (f : Fleet) : Prop :=
  (∀ sid s, fl_unchecked f !! sid = Some s →
     ∀ b s', s' ∈ bucket (fl_registry f) b → ts_session_id s' = sid →
       ts_identity s' = ts_identity s ∧ b = ts_backend_id s) ∧
  (∀ b s, s ∈ bucket (fl_registry f) b → fl_unchecked f !! ts_session_id s = None →
     is_revoked (fl_set f) (ts_identity s) = true → sweep_due f b).

Lemma no_new_refl r : no_new_session r r.
Proof. intros b s Hs. exists s. by split. Qed.

Lemma no_new_filter r r' :
  (∀ b l, sessions r' !! b = Some l → ∃ l', sessions r !! b = Some l' ∧ ∀ s, s ∈ l → s ∈ l') →
  no_new_session r r'.
Proof.
  intros Hsub b s (l & Hl & Hs)%elem_of_bucket. destruct (Hsub b l Hl) as (l' & Hl' & Hin).
  exists s. split; [|done]. apply elem_of_bucket. eauto.
Qed.

Lemma deregister_no_new r b sid : no_new_session r (deregister r b sid).2.
Proof.
  apply no_new_filter. intros b' l. destruct (deregister_sessions r b sid) as [-> _].
  destruct (sessions r !! b) as [k|] eqn:Hk; [|eauto].
  destruct (List.filter (keeps sid) k) as [|x k'] eqn:Hf.
  - intros [_ Hl]%lookup_delete_Some. eauto.
  - destruct (decide (b = b')) as [<-|].
    + rewrite lookup_insert_eq. intros [= <-]. exists k. split; [done|]. intros s Hs.
      rewrite <-Hf in Hs. by apply elem_of_filter_bool in Hs as [? _].
    + rewrite lookup_insert_ne by done. eauto.
Qed.

Lemma retain_no_new r : no_new_session r (retain_nonempty r).
Proof. apply no_new_filter. intros b l Hl. cbn in Hl. apply map_lookup_filter_Some in Hl as [? _]. eauto. Qed.

Lemma elem_of_revoke_shard rs r i b s :
  s ∈ bucket (revoke_shard rs r i) b ↔
  s ∈ bucket r b ∧ (in_shard i b = true → is_revoked rs (ts_identity s) = false).
Proof.
  rewrite !elem_of_bucket. setoid_rewrite revoke_shard_sessions.
  destruct (sessions r !! b) as [l|]; cbn; [|naive_solver]. destruct (in_shard i b); [|naive_solver].
  split.
  - intros (? & [= <-] & Hs). apply elem_of_filter_bool in Hs as [? Hn]. unfold not_revoked in Hn.
    apply negb_true_iff in Hn. eauto.
  - intros ((? & [= <-] & Hs) & Hn). eexists. split; [done|]. apply elem_of_filter_bool. split; [done|].
    unfold not_revoked. by rewrite Hn.
Qed.

Lemma elem_of_register r s capacity res r' b x :
  register r s capacity = (res, r') → x ∈ bucket r' b →
  x ∈ bucket r b ∨ (res = Ok () ∧ x = s ∧ b = ts_backend_id s).
Proof.
  intros Hr. destruct (register_insert_result r s capacity) as (Hres & Hs & _). rewrite Hr in Hres, Hs. cbn in Hres, Hs.
  destruct (register_insert_sessions r s capacity) as (Hi & _ & Hok). rewrite Hi in Hs. rewrite <-Hres in Hok.
  rewrite !elem_of_bucket, Hs. destruct (decide (ts_backend_id s = b)) as [<-|].
  - rewrite lookup_insert_eq. intros (? & [= <-] & [Hx|Hx]%elem_of_app).
    + left. destruct (sessions r !! ts_backend_id s); [eauto|by apply elem_of_nil in Hx].
    + right. destruct (_ <=? _) eqn:E; [by apply elem_of_nil in Hx|]. bool_hyps.
      split; [by apply Hok|]. by apply list_elem_of_singleton in Hx.
  - rewrite lookup_insert_ne by done. eauto.
Qed.

Lemma deregister_gone r b sid s : s ∈ bucket (deregister r b sid).2 b → ts_session_id s ≠ sid.
Proof.
  rewrite elem_of_bucket. destruct (deregister_sessions r b sid) as [-> _].
  destruct (sessions r !! b) as [k|] eqn:Hk; [|intros (? & Hn & _); congruence].
  destruct (List.filter (keeps sid) k) as [|x k'] eqn:Hf; intros (l & Hl & Hs).
  - by rewrite lookup_delete_eq in Hl.
  - rewrite lookup_insert_eq in Hl. injection Hl as <-. rewrite <-Hf in Hs.
    apply elem_of_filter_bool in Hs as [_ Hkeep]. unfold keeps in Hkeep. by bool_hyps.
Qed.

(** Losing sessions keeps the invariant. *)
Lemma fleet_ok_shrink f r : no_new_session (fl_registry f) r → fleet_ok f → fleet_ok (fl_with f r (fl_unchecked f)).
Proof.
  intros Hsub [Hun Hdue]. split.
  - intros sid s Hs b s' (x & Hx & [He1 He2])%Hsub Hid. rewrite He2. apply (Hun sid s Hs b x Hx). by rewrite <-He1.
  - intros b s (x & Hx & [He1 He2])%Hsub Hn Hr. apply (Hdue b x Hx); cbn in *; by rewrite <-?He1, <-?He2.
Qed.

Lemma fleet_ok_register f s capacity r :
  fresh_id f (ts_session_id s) → register (fl_registry f) s capacity = (Ok (), r) → fleet_ok f →
  fleet_ok (fl_with f r (<[ts_session_id s := s]> (fl_unchecked f))).
Proof.
  intros [Hf1 Hf2] Hr [Hun Hdue]. split; cbn.
  - intros sid x. destruct (decide (ts_session_id s = sid)) as [<-|Hne].
    + rewrite lookup_insert_eq. intros [= <-] b y [Hy|(_ & -> & ->)]%(elem_of_register _ _ _ _ _ _ _ Hr) Hid; [|done].
      by apply Hf2 in Hy.
    + rewrite lookup_insert_ne by done.
      intros Hx b y [Hy|(_ & -> & ->)]%(elem_of_register _ _ _ _ _ _ _ Hr) Hid; [by apply (Hun sid)|done].
  - intros b x [Hx|(_ & -> & ->)]%(elem_of_register _ _ _ _ _ _ _ Hr); [|by rewrite lookup_insert_eq].
    rewrite lookup_insert_ne by (intros ?; by apply (Hf2 b x)). by apply Hdue.
Qed.

(** The second check: the session it lets through is not denied by the current set. *)
Lemma fleet_ok_recheck f sid s r :
  fl_unchecked f !! sid = Some s → no_new_session (fl_registry f) r →
  (∀ x, x ∈ bucket r (ts_backend_id s) → ts_session_id x = sid → is_revoked (fl_set f) (ts_identity s) = false) →
  fleet_ok f → fleet_ok (fl_with f r (delete sid (fl_unchecked f))).
Proof.
  intros Hs Hsub Hgone [Hun Hdue]. destruct (fleet_ok_shrink f r Hsub (conj Hun Hdue)) as [Hun' Hdue'].
  split; cbn in *.
  - intros sid' x [_ Hx]%lookup_delete_Some. by apply Hun'.
  - intros b x Hx Hn Hr. destruct (decide (sid = ts_session_id x)) as [->|Hne].
    + destruct (Hun' _ s Hs b x Hx eq_refl) as [Hid ->]. rewrite Hid in Hr.
      rewrite (Hgone x Hx eq_refl) in Hr. done.
    + rewrite lookup_delete_ne in Hn by done. by apply (Hdue' b x).
Qed.

Lemma fleet_reachable_ok max f : fleet_reachable max f → fleet_ok f ∧ (fl_swept f ≤ fl_version f)%nat.
Proof.
  induction 1 as [rs|f f' _ [Hok Hle] Hstep].
  { split; [|done]. split; cbn; [intros sid s; by rewrite lookup_empty|].
    intros b s (l & Hl & _)%elem_of_bucket. cbn in Hl. by rewrite lookup_empty in Hl. }
  destruct Hstep as [f rs Hn|f s capacity r Hf Hr|f sid s Hs Hr|f sid s Hs Hr|f Hn Hlt|f i Hi Hlt|f Hi|f r Hsub];
    (split; [|cbn; lia]).
  - destruct Hok as [Hun _]. split; [done|]. intros b s _ _ _. left. cbn. lia.
  - by apply (fleet_ok_register f s capacity).
  - apply (fleet_ok_recheck f sid s); auto using no_new_refl.
  - apply (fleet_ok_recheck f sid s); [done|apply deregister_no_new| |done].
    intros x Hx Hid. by apply deregister_gone in Hx.
  - destruct Hok as [Hun _]. split; [done|]. intros b s _ _ _. right. exists 0%nat. cbn. split; [done|lia].
  - destruct Hok as [Hun Hdue]. split; cbn.
    + intros sid s Hs b x [Hx _]%elem_of_revoke_shard. by apply Hun.
    + intros b x [Hx Hk]%elem_of_revoke_shard Hn Hr. destruct (Hdue b x Hx Hn Hr) as [Hd|(j & Hj & Hle')];
        [by left|]. rewrite Hi in Hj. injection Hj as <-. right. exists (S i). split; [done|].
      destruct (decide (shard_of b = i)) as [He|]; [|lia]. unfold in_shard in Hk.
      rewrite He, Nat.eqb_refl in Hk. rewrite (Hk eq_refl) in Hr. done.
  - destruct (fleet_ok_shrink f _ (retain_no_new _) Hok) as [Hun Hdue]. split; [done|].
    intros b x Hx Hn Hr. destruct (Hdue b x Hx Hn Hr) as [Hd|(j & Hj & Hle')]; [by left|].
    cbn in Hj. rewrite Hi in Hj. injection Hj as <-. specialize (shard_bound b). lia.
  - by apply fleet_ok_shrink.
Qed.

(** C11. Revocation leaves no gap.  Whatever registrations commit while a denylist is published
    and swept shard by shard, once the sweep of the last published set is over no session
    past its second check belongs to an identity that set denies. *)
Theorem revocation_no_gap (max : Z) (f : Fleet) (b : string) (s : TunnelSession) :
  fleet_reachable max f → fl_swept f = fl_version f → fl_sweep f = None →
  s ∈ bucket (fl_registry f) b → fl_unchecked f !! ts_session_id s = None →
  is_revoked (fl_set f) (ts_identity s) = false.
Proof.
  intros [[_ Hdue] _]%fleet_reachable_ok Hv Hn Hs Hu. destruct (is_revoked _ _) eqn:Hr; [|done].
  destruct (Hdue b s Hs Hu Hr) as [?|(i & Hi & _)]; [lia|congruence].
Qed.
End sweep.

(** ** Witnesses *)

Lemma sharded_sweep_equiv_witness :
  sessions (revoke_sharded 2 (λ b, (String.length b `mod` 2)%nat) demo_registry demo_revocation) =
  sessions (revoke_matching demo_registry demo_revocation).2.
Proof.
  apply sharded_sweep_equiv. intros b. apply Nat.mod_upper_bound. discriminate.
Defined.

(** Session 1 registers and is checked, then a set that denies another key is swept. *)
Definition demo_one : TunnelRegistry := (register (TunnelRegistry_new 4) (demo_session 1 "db" "db") 4).2.

Definition demo_fleet (r : TunnelRegistry) (rs : RevocationSet) (version swept : nat) (sweep : option nat)
    (u : gmap SessionId TunnelSession) : Fleet :=
  {| fl_registry := r; fl_set := rs; fl_version := version; fl_swept := swept; fl_sweep := sweep; fl_unchecked := u |}.

Definition demo_swept : TunnelRegistry :=
  retain_nonempty (revoke_shard (λ _, 0%nat) demo_revocation demo_one 0).

Definition demo_sid : SessionId := ts_session_id (demo_session 1 "db" "db").

Definition demo_unchecked : gmap SessionId TunnelSession := {[demo_sid := demo_session 1 "db" "db"]}.
Definition demo_checked : gmap SessionId TunnelSession := delete demo_sid demo_unchecked.

Lemma demo_fleet_reachable :
  fleet_reachable 1 (λ _, 0%nat) 4 (demo_fleet demo_swept demo_revocation 1 1 None demo_checked).
Proof.
  pose (f0 := demo_fleet (TunnelRegistry_new 4) RevocationSet_default 0 0 None ∅).
  pose (f1 := demo_fleet demo_one RevocationSet_default 0 0 None demo_unchecked).
  pose (f2 := demo_fleet demo_one RevocationSet_default 0 0 None demo_checked).
  pose (f3 := demo_fleet demo_one demo_revocation 1 0 None demo_checked).
  pose (f4 := demo_fleet demo_one demo_revocation 1 1 (Some 0%nat) demo_checked).
  pose (f5 := demo_fleet (revoke_shard (λ _, 0%nat) demo_revocation demo_one 0) demo_revocation 1 1
                (Some 1%nat) demo_checked).
  apply (fleet_next 1 _ 4 f5); [|by apply (fs_end 1 _ f5)].
  apply (fleet_next 1 _ 4 f4); [|apply (fs_shard 1 _ f4 0); [done|lia]].
  apply (fleet_next 1 _ 4 f3); [|apply (fs_begin 1 _ f3); [done|cbn; lia]].
  apply (fleet_next 1 _ 4 f2); [|by apply (fs_publish 1 _ f2)].
  apply (fleet_next 1 _ 4 f1); [|apply (fs_recheck_ok 1 _ f1 demo_sid (demo_session 1 "db" "db"));
    [apply lookup_singleton_eq|vm_compute; reflexivity]].
  apply (fleet_next 1 _ 4 f0); [apply fleet_start|].
  apply (fs_register 1 _ f0 (demo_session 1 "db" "db") 4 demo_one); [|vm_compute; reflexivity].
  split; [done|]. intros b s (l & Hl & _)%elem_of_bucket. cbn in Hl. by rewrite lookup_empty in Hl.
Qed.

Lemma revocation_no_gap_witness : is_revoked demo_revocation (ts_identity (demo_session 1 "db" "db")) = false.
Proof.
  apply (revocation_no_gap 1 (λ _, 0%nat) (λ _, Nat.lt_0_1) 4 _ "db" (demo_session 1 "db" "db") demo_fleet_reachable
           eq_refl eq_refl).
  - apply elem_of_bucket. eexists. split; [vm_compute; reflexivity|]. apply list_elem_of_here.
  - apply lookup_delete_eq.
Defined.
