(* ===== verification/Pool.v ===== *)
(** * Pool: [src/proxy/pool.rs], [src/proxy/pool/quic.rs], [src/proxy/pool/plaintext.rs]

    The outbound connections: pooled HTTP/2 senders and QUIC connections, keyed by
    socket address and by the TLS server name they were verified for, the per-backend
    connection permits, and the choice of a transport for a backend.  What the network
    answers during one call is the record [Net]; between two critical sections of a call
    other tasks may run, which is the argument [await]. *)

From S2P Require Import Prelude Text Error Net Float64 Lru Balancer Queue Wire Identity TunnelProtocol Registry.
Local Open Scope Z_scope.

(** An HTTP/2 sender or a QUIC connection: its identity, and the address it was dialled
    at and the server name its handshake verified. *)
Record Link := {
  lk_id : nat;
  lk_addr : SocketAddr;
  lk_host : string;
}.

Inductive HttpSender :=
  | H1_plain (addr : SocketAddr)
  | H1_tunnel (connection : nat) (session : SessionId)
  | H1_quic (link : Link)
  | H2 (link : Link).

(** [timeout(d, f).await]: elapsed, or the answer of [f]. *)
Inductive timed (A : Type) :=
  | TimedOut
  | Answer (r : result string A).
Arguments TimedOut {A}.
Arguments Answer {A} _.

(** [.await.map_err(|_| Forward("{what}: timed out"))?.map_err(|e| Forward("{what'}: {e}"))?] *)
Definition timed_err {A} (what what' : string) (t : timed A) : Result A :=
  match t with
  | TimedOut => Err (Forward (what +:+ ": timed out"))
  | Answer (Ok a) => Ok a
  | Answer (Err e) => Err (Forward (what' +:+ ": " +:+ e))
  end.

Definition forward_err {A} (what : string) (r : result string A) : Result A :=
  match r with Ok a => Ok a | Err e => Err (Forward (what +:+ ": " +:+ e)) end.

(** What hyper, rustls, quinn and the kernel answer during one call. *)
Record Net := {
  nt_closed : nat → bool;            (* [SendRequest::is_closed], [close_reason().is_some()] *)
  nt_is_ready : nat → bool;          (* [SendRequest::is_ready] *)
  nt_ready : timed unit;             (* [SendRequest::ready] *)
  nt_tcp : timed unit;               (* [TcpStream::connect] *)
  nt_server_name : result string unit;
  nt_tls : timed unit;
  nt_http1 : timed unit;
  nt_http2 : timed nat;
  nt_quic_crypto : result string unit;
  nt_quic_bind : result string unit;
  nt_quic_connect : result string unit;
  nt_quic : timed nat;
  nt_open_bi : timed unit;
  nt_open : result string unit;      (* [open_bi] without a timeout *)
  nt_write : result string unit;
}.

Definition MAX_IDLE_PER_HOST : Z := 16.
Definition H2_CONNS_PER_BACKEND : Z := 4.
Definition H2_STREAM_WINDOW : Z := 2 * 1024 * 1024.
Definition H2_CONN_WINDOW : Z := 4 * 1024 * 1024.

Abbreviation hosts := (gmap string (list Link)).

Section pool.
  Context `{Semaphore}.

(** [quic_endpoint] is [None] until its first use, then whether it has been closed. *)
Record ConnPool := {
  tcp_h2 : gmap SocketAddr hosts;
  tcp_h2_rr : Z;
  quic_idle : gmap SocketAddr hosts;
  quic_endpoint : option bool;
  conn_limits : gmap string Sem;
  h2_conns_per_backend : Z;
  max_idle_quic_per_host : Z;
  h2_stream_window : Z;
  h2_conn_window : Z;
  tunnel_registry : option TunnelRegistry;
}.

Definition ConnPool_new : ConnPool :=
  {| tcp_h2 := ∅; tcp_h2_rr := 0; quic_idle := ∅; quic_endpoint := None; conn_limits := ∅;
     h2_conns_per_backend := H2_CONNS_PER_BACKEND; max_idle_quic_per_host := MAX_IDLE_PER_HOST;
     h2_stream_window := H2_STREAM_WINDOW; h2_conn_window := H2_CONN_WINDOW;
     tunnel_registry := None |}.

(** The fields a call changes. *)
Definition with_links (p : ConnPool) (tcp : gmap SocketAddr hosts) (rr : Z) (quic : gmap SocketAddr hosts)
    (ep : option bool) : ConnPool :=
  {| tcp_h2 := tcp; tcp_h2_rr := rr; quic_idle := quic; quic_endpoint := ep;
     conn_limits := conn_limits p; h2_conns_per_backend := h2_conns_per_backend p;
     max_idle_quic_per_host := max_idle_quic_per_host p; h2_stream_window := h2_stream_window p;
     h2_conn_window := h2_conn_window p; tunnel_registry := tunnel_registry p |}.

Definition with_tcp (p : ConnPool) (tcp : gmap SocketAddr hosts) (rr : Z) : ConnPool :=
  with_links p tcp rr (quic_idle p) (quic_endpoint p).

Definition with_quic (p : ConnPool) (quic : gmap SocketAddr hosts) : ConnPool :=
  with_links p (tcp_h2 p) (tcp_h2_rr p) quic (quic_endpoint p).

Definition with_endpoint (p : ConnPool) (ep : option bool) : ConnPool :=
  with_links p (tcp_h2 p) (tcp_h2_rr p) (quic_idle p) ep.

Definition with_limits (p : ConnPool) (l : gmap string Sem) : ConnPool :=
  {| tcp_h2 := tcp_h2 p; tcp_h2_rr := tcp_h2_rr p; quic_idle := quic_idle p;
     quic_endpoint := quic_endpoint p; conn_limits := l;
     h2_conns_per_backend := h2_conns_per_backend p;
     max_idle_quic_per_host := max_idle_quic_per_host p; h2_stream_window := h2_stream_window p;
     h2_conn_window := h2_conn_window p; tunnel_registry := tunnel_registry p |}.

Definition with_tunnel_registry (p : ConnPool) (registry : TunnelRegistry) : ConnPool :=
  {| tcp_h2 := tcp_h2 p; tcp_h2_rr := tcp_h2_rr p; quic_idle := quic_idle p;
     quic_endpoint := quic_endpoint p; conn_limits := conn_limits p;
     h2_conns_per_backend := h2_conns_per_backend p;
     max_idle_quic_per_host := max_idle_quic_per_host p; h2_stream_window := h2_stream_window p;
     h2_conn_window := h2_conn_window p; tunnel_registry := Some registry |}.

Definition with_pool_config (p : ConnPool) (h2_conns max_idle_quic stream_window conn_window : Z)
    : ConnPool :=
  {| tcp_h2 := tcp_h2 p; tcp_h2_rr := tcp_h2_rr p; quic_idle := quic_idle p;
     quic_endpoint := quic_endpoint p; conn_limits := conn_limits p;
     h2_conns_per_backend := h2_conns; max_idle_quic_per_host := max_idle_quic;
     h2_stream_window := stream_window; h2_conn_window := conn_window;
     tunnel_registry := tunnel_registry p |}.

(** ** Connection permits *)

(** The permit itself is implicit in the state, as for the request queue. *)
Definition try_acquire_conn_permit (p : ConnPool) (backend : BackendConfig) : Result unit * ConnPool :=
  let sem := default (sem_new (max_connections backend)) (conn_limits p !! id backend) in
  let p := with_limits p (<[id backend := sem]> (conn_limits p)) in
  match sem_try_acquire sem with
  | Some sem => (Ok (), with_limits p (<[id backend := sem]> (conn_limits p)))
  | None => (Err BackendUnavailable, p)
  end.

(** Dropping an [OwnedSemaphorePermit] of the backend. *)
Definition drop_conn_permit (p : ConnPool) (backend_id : string) : ConnPool :=
  with_limits p (alter sem_release backend_id (conn_limits p)).

Definition connection_pressure (p : ConnPool) (backend_id : string) (max : Z) : f64 :=
  if max =? 0 then f64_one
  else
    let available := match conn_limits p !! backend_id with
                     | Some sem => available_permits sem
                     | None => max
                     end in
    let in_use := saturating_sub max available in
    f64_div (f64_of_Z in_use) (f64_of_Z max).

Definition pooled_h2_conns (p : ConnPool) (addr : SocketAddr) : Z :=
  match tcp_h2 p !! addr with
  | Some hosts => msum zlen hosts
  | None => 0
  end.

(** ** HTTP/2 over TCP *)

Definition open_links (closed : nat → bool) (l : list Link) : list Link :=
  List.filter (λ s, negb (closed (lk_id s))) l.

Definition reuse_pooled_h2 (p : ConnPool) (net : Net) (addr : SocketAddr) (host : string)
    : option Link * ConnPool :=
  match tcp_h2 p !! addr with
  | None => (None, p)
  | Some hs =>
      match hs !! host with
      | None => (None, p)
      | Some senders =>
          let senders := open_links (nt_closed net) senders in
          let p := with_tcp p (<[addr := <[host := senders]> hs]> (tcp_h2 p)) (tcp_h2_rr p) in
          if bool_decide (senders = []) then (None, p)
          else
            let count := zlen senders in
            let start := tcp_h2_rr p in
            let p := with_tcp p (tcp_h2 p) (wrap64 (start + 1)) in
            let at_index i := senders !! Z.to_nat i in
            let ready i := from_option (λ s, nt_is_ready net (lk_id s)) false (at_index i) in
            match List.find ready (map (λ offset, wrap64 (start + Z.of_nat offset) `mod` count)
                                       (seq 0 (length senders))) with
            | Some i => (at_index i, p)
            | None =>
                match nt_ready net with
                | Answer (Ok _) => (at_index (start `mod` count), p)
                | _ => (None, p)
                end
            end
      end
  end.

(** Pooling a fresh connection: closed senders are pruned and the count is capped. *)
Definition pool_h2 (p : ConnPool) (net : Net) (s : Link) : ConnPool :=
  let hs := default ∅ (tcp_h2 p !! lk_addr s) in
  let senders := open_links (nt_closed net) (default [] (hs !! lk_host s)) in
  let senders := if zlen senders <? h2_conns_per_backend p then senders ++ [s] else senders in
  with_tcp p (<[lk_addr s := <[lk_host s := senders]> hs]> (tcp_h2 p)) (tcp_h2_rr p).

Definition addr_to_string (a : SocketAddr) : string :=
  match sa_ip a with
  | V4 _ => ip_to_string (sa_ip a) +:+ ":" +:+ pretty (sa_port a)
  | V6 _ => "[" +:+ ip_to_string (sa_ip a) +:+ "]:" +:+ pretty (sa_port a)
  end.

Definition connect_tcp_h2 (p : ConnPool) (net : Net) (backend : BackendConfig)
    : Result Link * ConnPool :=
  let dialled :=
    _ ← timed_err "connect" ("connect " +:+ addr_to_string (address backend)) (nt_tcp net);
    _ ← forward_err "invalid server name" (nt_server_name net);
    _ ← timed_err "tls handshake" "tls handshake" (nt_tls net);
    timed_err "http2 handshake" "http2 handshake" (nt_http2 net) in
  match dialled with
  | Ok n =>
      let s := {| lk_id := n; lk_addr := address backend; lk_host := host backend |} in
      (Ok s, pool_h2 p net s)
  | Err e => (Err e, p)
  end.

Definition acquire_tcp (p : ConnPool) (net : Net) (backend : BackendConfig)
    : Result HttpSender * ConnPool :=
  match reuse_pooled_h2 p net (address backend) (host backend) with
  | (Some s, p) => (Ok (H2 s), p)
  | (None, p) => let '(r, p) := connect_tcp_h2 p net backend in (H2 <$> r, p)
  end.

Definition acquire_tcp_plaintext (net : Net) (backend : BackendConfig) : Result HttpSender :=
  _ ← timed_err "connect" ("connect " +:+ addr_to_string (address backend)) (nt_tcp net);
  _ ← timed_err "http1 handshake" "http1 handshake" (nt_http1 net);
  Ok (H1_plain (address backend)).

(** ** Tunnel streams *)

(** [acquire_stream] with the opening of the stream. *)
Definition open_tunnel_stream (p : ConnPool) (net : Net) (registry : TunnelRegistry)
    (backend_id : string) : Result (nat * SessionId) * ConnPool :=
  let '(r, registry) := acquire_stream registry (nt_closed net) backend_id in
  (c ← r;
   match nt_open net with
   | Ok _ => Ok c
   | Err e => Err (Tunnel ("open stream: " +:+ e))
   end, with_tunnel_registry p registry).

Definition acquire_tunnel (p : ConnPool) (net : Net) (registry : TunnelRegistry) (backend : BackendConfig)
    : Result HttpSender * ConnPool :=
  let '(r, p) := open_tunnel_stream p net registry (id backend) in
  (c ← r;
   _ ← timed_err "tunnel http handshake" "tunnel http handshake" (nt_http1 net);
   Ok (H1_tunnel c.1 c.2), p).

(** ** QUIC *)

Fixpoint pop_open (closed : nat → bool) (l : list Link) : option Link * list Link :=
  match l with
  | [] => (None, [])
  | c :: l => if closed (lk_id c) then pop_open closed l else (Some c, l)
  end.

Definition take_quic (p : ConnPool) (net : Net) (addr : SocketAddr) (host : string)
    : option Link * ConnPool :=
  match quic_idle p !! addr with
  | None => (None, p)
  | Some hs =>
      match hs !! host with
      | None => (None, p)
      | Some queue =>
          let '(c, queue) := pop_open (nt_closed net) queue in
          (c, with_quic p (<[addr := <[host := queue]> hs]> (quic_idle p)))
      end
  end.

Definition put_quic (p : ConnPool) (net : Net) (addr : SocketAddr) (host : string) (conn : Link)
    : ConnPool :=
  if nt_closed net (lk_id conn) then p
  else
    let hs := default ∅ (quic_idle p !! addr) in
    let queue := default [] (hs !! host) in
    let queue := if zlen queue <? max_idle_quic_per_host p then queue ++ [conn] else queue in
    with_quic p (<[addr := <[host := queue]> hs]> (quic_idle p)).

Definition get_or_init_quic_endpoint (p : ConnPool) (net : Net) : Result unit * ConnPool :=
  match quic_endpoint p with
  | Some _ => (Ok (), p)
  | None =>
      match (_ ← forward_err "QUIC client crypto" (nt_quic_crypto net);
             forward_err "QUIC endpoint" (nt_quic_bind net)) with
      | Ok _ => (Ok (), with_endpoint p (Some false))
      | Err e => (Err e, p)
      end
  end.

Definition connect_quic (p : ConnPool) (net : Net) (backend : BackendConfig) : Result Link * ConnPool :=
  let '(r, p) := get_or_init_quic_endpoint p net in
  (_ ← r;
   _ ← forward_err "QUIC connect" (nt_quic_connect net);
   n ← timed_err "QUIC handshake" "QUIC handshake" (nt_quic net);
   Ok {| lk_id := n; lk_addr := address backend; lk_host := host backend |}, p).

Definition take_or_connect_quic (p : ConnPool) (net : Net) (backend : BackendConfig)
    : Result Link * ConnPool :=
  match take_quic p net (address backend) (host backend) with
  | (Some c, p) => (Ok c, p)
  | (None, p) => connect_quic p net backend
  end.

(** [await] is what other tasks do to the pool while the stream is opened, and
    [net'] what the network says when the connection is put back. *)
Definition acquire_quic (p : ConnPool) (net net' : Net) (await : ConnPool → ConnPool)
    (backend : BackendConfig) : Result HttpSender * ConnPool :=
  match take_or_connect_quic p net backend with
  | (Err e, p) => (Err e, p)
  | (Ok conn, p) =>
      let p := await p in
      match (_ ← timed_err "QUIC stream open" "QUIC stream open" (nt_open_bi net);
             forward_err "write stream type" (nt_write net)) with
      | Err e => (Err e, p)
      | Ok _ =>
          let p := put_quic p net' (address backend) (host backend) conn in
          (_ ← timed_err "http handshake" "http handshake" (nt_http1 net); Ok (H1_quic conn), p)
      end
  end.

Definition acquire_raw_stream (p : ConnPool) (net net' : Net) (await : ConnPool → ConnPool)
    (backend : BackendConfig) : Result HttpSender * ConnPool :=
  let direct :=
    match take_or_connect_quic p net backend with
    | (Err e, p) => (Err e, p)
    | (Ok conn, p) =>
        let p := await p in
        match (_ ← forward_err "raw stream open" (nt_open net);
               forward_err "write raw stream type" (nt_write net)) with
        | Err e => (Err e, p)
        | Ok _ => (Ok (H1_quic conn), put_quic p net' (address backend) (host backend) conn)
        end
    end in
  match tunnel_registry p with
  | Some registry =>
      if is_tunnel_backend registry (id backend) then
        let '(r, p) := open_tunnel_stream p net registry (id backend) in
        ((λ c, H1_tunnel c.1 c.2) <$> r, p)
      else direct
  | None => direct
  end.

(** ** [acquire], draining and warming up *)

Definition acquire (p : ConnPool) (net net' : Net) (await : ConnPool → ConnPool)
    (backend : BackendConfig) : Result HttpSender * ConnPool :=
  let direct :=
    match transport backend with
    | Tcp => if is_plaintext (scheme backend) then (acquire_tcp_plaintext net backend, p)
             else acquire_tcp p net backend
    | Quic => acquire_quic p net net' await backend
    end in
  match tunnel_registry p with
  | Some registry =>
      if is_tunnel_backend registry (id backend) then acquire_tunnel p net registry backend else direct
  | None => direct
  end.

(** [acquire] cut at the one await during which it holds a pooled connection: a QUIC
    connection is out of the pool while its stream is opened. *)
Inductive Dial := Dialled (sender : Result HttpSender) | Opening (conn : Link).

Definition acquire_start (p : ConnPool) (net : Net) (backend : BackendConfig) : Dial * ConnPool :=
  let direct :=
    match transport backend with
    | Tcp => if is_plaintext (scheme backend) then (Dialled (acquire_tcp_plaintext net backend), p)
             else let '(r, p) := acquire_tcp p net backend in (Dialled r, p)
    | Quic => let '(r, p) := take_or_connect_quic p net backend in
              (match r with Ok conn => Opening conn | Err e => Dialled (Err e) end, p)
    end in
  match tunnel_registry p with
  | Some registry =>
      if is_tunnel_backend registry (id backend)
      then let '(r, p) := acquire_tunnel p net registry backend in (Dialled r, p) else direct
  | None => direct
  end.

Definition acquire_finish (p : ConnPool) (net net' : Net) (backend : BackendConfig) (conn : Link)
    : Result HttpSender * ConnPool :=
  match (_ ← timed_err "QUIC stream open" "QUIC stream open" (nt_open_bi net);
         forward_err "write stream type" (nt_write net)) with
  | Err e => (Err e, p)
  | Ok _ =>
      let p := put_quic p net' (address backend) (host backend) conn in
      (_ ← timed_err "http handshake" "http handshake" (nt_http1 net); Ok (H1_quic conn), p)
  end.

Lemma acquire_split p net net' await backend :
  acquire p net net' await backend =
  match acquire_start p net backend with
  | (Dialled r, p) => (r, p)
  | (Opening conn, p) => acquire_finish (await p) net net' backend conn
  end.
Proof.
  unfold acquire, acquire_start, acquire_quic.
  destruct (transport backend); [destruct (is_plaintext _); [|destruct (acquire_tcp _ _ _)]
                                |destruct (take_or_connect_quic _ _ _) as [[]]];
    (destruct (tunnel_registry p); [destruct (is_tunnel_backend _ _); [destruct (acquire_tunnel _ _ _ _)|]|]); done.
Qed.

(** Draining returns the QUIC connections it closes. *)
Definition idle_links (hs : hosts) : list Link := concat (map snd (map_to_list hs)).

Definition drain_one (acc : list Link * ConnPool) (addr : SocketAddr) : list Link * ConnPool :=
  let '(closed, p) := acc in
  let p := with_tcp p (delete addr (tcp_h2 p)) (tcp_h2_rr p) in
  match quic_idle p !! addr with
  | Some hs => (closed ++ idle_links hs, with_quic p (delete addr (quic_idle p)))
  | None => (closed, p)
  end.

Definition drain_backends (p : ConnPool) (addrs : list SocketAddr) : list Link * ConnPool :=
  foldl drain_one ([], p) addrs.

Definition drain (p : ConnPool) : list Link * ConnPool :=
  (concat (map (λ q, idle_links q.2) (map_to_list (quic_idle p))),
   with_links p ∅ (tcp_h2_rr p) ∅ ((λ _, true) <$> quic_endpoint p)).

(** The dials of [warm_up_tcp], one answer of the network per dial; the loop stops at the
    first failure. *)
Fixpoint warm_dials (p : ConnPool) (nets : list Net) (backend : BackendConfig) (n : nat) : ConnPool :=
  match n, nets with
  | S n, net :: nets =>
      match connect_tcp_h2 p net backend with
      | (Ok _, p) => warm_dials p nets backend n
      | (Err _, p) => p
      end
  | _, _ => p
  end.

Definition warm_up_tcp (p : ConnPool) (nets : list Net) (backend : BackendConfig) : ConnPool :=
  let existing := match tcp_h2 p !! address backend with
                  | Some hs => from_option zlen 0 (hs !! host backend)
                  | None => 0
                  end in
  warm_dials p nets backend (Z.to_nat (h2_conns_per_backend p - existing)).

Definition warm_up (p : ConnPool) (nets : string → list Net) (await : ConnPool → ConnPool)
    (backends : list BackendConfig) : ConnPool :=
  foldl (λ p backend,
    match transport backend with
    | Tcp => if is_plaintext (scheme backend) then p else warm_up_tcp p (nets (id backend)) backend
    | Quic => match nets (id backend) with
              | net :: _ => (acquire p net net await backend).2
              | [] => p
              end
    end) p backends.

(** ** Isolation of server names *)

(** Every pooled link sits under the address and the server name it was verified for, and
    no list is longer than its cap. *)
Definition links_ok (cap : Z) (m : gmap SocketAddr hosts) : Prop :=
  ∀ addr hs host l, m !! addr = Some hs → hs !! host = Some l →
    zlen l ≤ cap ∧ ∀ s, s ∈ l → lk_addr s = addr ∧ lk_host s = host.

Definition pool_wf (p : ConnPool) : Prop :=
  0 ≤ h2_conns_per_backend p ∧ 0 ≤ max_idle_quic_per_host p ∧
  links_ok (h2_conns_per_backend p) (tcp_h2 p) ∧ links_ok (max_idle_quic_per_host p) (quic_idle p).

Definition link_for (backend : BackendConfig) (s : Link) : Prop :=
  lk_addr s = address backend ∧ lk_host s = host backend.

(** What a sender handed out for [backend] may be. *)
Definition sender_for (registry : option TunnelRegistry) (backend : BackendConfig) (s : HttpSender) : Prop :=
  match s with
  | H1_plain addr =>
      addr = address backend ∧ transport backend = Tcp ∧ is_plaintext (scheme backend) = true
  | H1_tunnel c sid =>
      ∃ r t, registry = Some r ∧ t ∈ bucket r (id backend) ∧ ts_connection t = c ∧ ts_session_id t = sid
  | H1_quic l | H2 l => link_for backend l
  end.

Lemma links_lookup cap m addr host :
  0 ≤ cap → links_ok cap m →
  zlen (default [] (default ∅ (m !! addr) !! host)) ≤ cap ∧
  ∀ s, s ∈ default [] (default ∅ (m !! addr) !! host) → lk_addr s = addr ∧ lk_host s = host.
Proof.
  intros Hcap Hm. destruct (m !! addr) as [hs|] eqn:Ha; cbn.
  - destruct (hs !! host) as [l|] eqn:Hl; cbn; [by eapply Hm|].
    split; [done|by intros ? ?%elem_of_nil].
  - rewrite lookup_empty. cbn. split; [done|by intros ? ?%elem_of_nil].
Qed.

Lemma links_insert cap m addr host l :
  links_ok cap m → zlen l ≤ cap → (∀ s, s ∈ l → lk_addr s = addr ∧ lk_host s = host) →
  links_ok cap (<[addr := <[host := l]> (default ∅ (m !! addr))]> m).
Proof.
  intros Hm Hl Hs addr' hs' host' l' Ha Hh.
  destruct (decide (addr' = addr)) as [->|Hne].
  - rewrite lookup_insert_eq in Ha. injection Ha as <-.
    destruct (decide (host' = host)) as [->|Hne'].
    + rewrite lookup_insert_eq in Hh. by injection Hh as <-.
    + rewrite lookup_insert_ne in Hh by done.
      destruct (m !! addr) as [hs|] eqn:Ha; [by eapply Hm|]. cbn in Hh. by rewrite lookup_empty in Hh.
  - rewrite lookup_insert_ne in Ha by done. by eapply Hm.
Qed.

Lemma links_push cap m c l :
  links_ok cap m → zlen l ≤ cap → (∀ s, s ∈ l → lk_addr s = lk_addr c ∧ lk_host s = lk_host c) →
  links_ok cap (<[lk_addr c := <[lk_host c := if zlen l <? cap then l ++ [c] else l]>
                   (default ∅ (m !! lk_addr c))]> m).
Proof.
  intros Hm Hl Hall. apply links_insert; [done|..]; destruct (_ <? _) eqn:Hlt; bool_hyps; try done.
  - rewrite zlen_app. unfold zlen at 2. cbn. lia.
  - intros s [?|Hs]%elem_of_app; [by apply Hall|]. apply list_elem_of_singleton in Hs. by subst.
Qed.

Lemma links_delete cap m addr : links_ok cap m → links_ok cap (delete addr m).
Proof. intros Hm a hs h l Ha. apply lookup_delete_Some in Ha as [_ Ha]. by apply Hm. Qed.

Lemma open_links_ok closed l addr host cap :
  zlen l ≤ cap → (∀ s, s ∈ l → lk_addr s = addr ∧ lk_host s = host) →
  zlen (open_links closed l) ≤ cap ∧ ∀ s, s ∈ open_links closed l → lk_addr s = addr ∧ lk_host s = host.
Proof.
  intros Hl Hs. split.
  - unfold zlen, open_links in *. pose proof (filter_length_le (λ s, negb (closed (lk_id s))) l). lia.
  - intros s [Hin _]%elem_of_filter_bool. by apply Hs.
Qed.

Lemma pop_open_ok closed l c l' :
  pop_open closed l = (c, l') →
  (length l' ≤ length l)%nat ∧ (∀ s, s ∈ l' → s ∈ l) ∧ (∀ s, c = Some s → s ∈ l).
Proof.
  revert c l'. induction l as [|x l IH]; intros c l'; cbn.
  - intros [= <- <-]. split_and!; [done|done|]. by intros ? [=].
  - destruct (closed (lk_id x)).
    + intros (Hlen & Hin & Hc)%IH. split_and!; [lia| |]; intros; apply elem_of_cons; right; auto.
    + intros [= <- <-]. split_and!; [lia| |].
      * intros. apply elem_of_cons. by right.
      * intros s [= ->]. apply elem_of_cons. by left.
Qed.

Lemma reuse_isolated p net backend c p' :
  pool_wf p → reuse_pooled_h2 p net (address backend) (host backend) = (c, p') →
  pool_wf p' ∧ ∀ s, c = Some s → link_for backend s.
Proof.
  intros (Hc1 & Hc2 & Ht & Hq). unfold reuse_pooled_h2.
  destruct (tcp_h2 p !! address backend) as [hs|] eqn:Ha; [|by intros [= <- <-]].
  destruct (hs !! host backend) as [l|] eqn:Hl; [|by intros [= <- <-]].
  destruct (Ht _ _ _ _ Ha Hl) as [Hlen Hall].
  destruct (open_links_ok (nt_closed net) l _ _ _ Hlen Hall) as [Hlen' Hall'].
  pose proof (links_insert _ _ _ _ _ Ht Hlen' Hall') as Ht'.
  rewrite Ha in Ht'. cbn [default from_option Datatypes.id] in Ht'.
  set (l' := open_links (nt_closed net) l) in *. cbv zeta.
  case_bool_decide; [by intros [= <- <-]|].
  destruct (List.find _ _) as [i|]; [|destruct (nt_ready net) as [|[]]]; intros [= <- <-];
    (split; [done|]); intros s Hs; try done; apply Hall'; by eapply list_elem_of_lookup_2.
Qed.

Lemma connect_h2_isolated p net backend r p' :
  pool_wf p → connect_tcp_h2 p net backend = (r, p') →
  pool_wf p' ∧ ∀ s, r = Ok s → link_for backend s.
Proof.
  intros (Hc1 & Hc2 & Ht & Hq). unfold connect_tcp_h2.
  destruct (_ ≫= _) as [n|e]; [|by intros [= <- <-]]. intros [= <- <-].
  split; [|by intros s [= <-]]. split_and!; [done..| |done].
  destruct (links_lookup _ _ (address backend) (host backend) Hc1 Ht) as [Hlen Hall].
  destruct (open_links_ok (nt_closed net) _ _ _ _ Hlen Hall) as [Hlen' Hall'].
  by apply (links_push _ _ {| lk_id := n; lk_addr := address backend; lk_host := host backend |}).
Qed.

Lemma take_quic_isolated p net backend c p' :
  pool_wf p → take_quic p net (address backend) (host backend) = (c, p') →
  pool_wf p' ∧ ∀ s, c = Some s → link_for backend s.
Proof.
  intros (Hc1 & Hc2 & Ht & Hq). unfold take_quic.
  destruct (quic_idle p !! address backend) as [hs|] eqn:Ha; [|by intros [= <- <-]].
  destruct (hs !! host backend) as [l|] eqn:Hl; [|by intros [= <- <-]].
  destruct (Hq _ _ _ _ Ha Hl) as [Hlen Hall].
  destruct (pop_open (nt_closed net) l) as [c' l'] eqn:Hpop. intros [= <- <-].
  apply pop_open_ok in Hpop as (Hlen' & Hin & Hc).
  split; [|intros s Hs; apply Hall; by apply Hc]. split_and!; [done..|].
  pose proof (links_insert _ _ (address backend) (host backend) l' Hq) as Hins.
  rewrite Ha in Hins. apply Hins; [unfold zlen in *; lia|auto].
Qed.

Lemma put_quic_wf p net backend conn :
  pool_wf p → link_for backend conn → pool_wf (put_quic p net (address backend) (host backend) conn).
Proof.
  intros (Hc1 & Hc2 & Ht & Hq) Hfor. unfold put_quic. destruct (nt_closed net _); [done|].
  split_and!; [done..|]. destruct Hfor as [<- <-].
  destruct (links_lookup _ _ (lk_addr conn) (lk_host conn) Hc2 Hq) as [Hlen Hall].
  by apply links_push.
Qed.

Lemma connect_quic_isolated p net backend r p' :
  pool_wf p → take_or_connect_quic p net backend = (r, p') →
  pool_wf p' ∧ ∀ s, r = Ok s → link_for backend s.
Proof.
  intros Hwf. unfold take_or_connect_quic.
  destruct (take_quic p net _ _) as [c q] eqn:Htake.
  destruct (take_quic_isolated p net backend c q Hwf Htake) as [Hq Hc].
  destruct c as [c|]; [intros [= <- <-]; split; [done|]; intros s [= <-]; by apply Hc|].
  unfold connect_quic, get_or_init_quic_endpoint.
  assert (∀ ep, pool_wf (with_endpoint q ep)) as Hep by done.
  destruct (quic_endpoint q); [|destruct (_ ≫= _)]; intros [= <- <-]; (split; [done|]); intros s;
    cbn; try done; destruct (forward_err _ _); [|done| |done]; cbn;
    destruct (timed_err _ _ _); cbn; by intros [= <-].
Qed.

Lemma acquire_quic_isolated p net net' await backend r p' :
  pool_wf p → (∀ q, pool_wf q → pool_wf (await q)) →
  acquire_quic p net net' await backend = (r, p') →
  pool_wf p' ∧ ∀ s, r = Ok s → ∃ l, s = H1_quic l ∧ link_for backend l.
Proof.
  intros Hwf Hawait. unfold acquire_quic.
  destruct (take_or_connect_quic p net backend) as [[c|e] q] eqn:Hc;
    destruct (connect_quic_isolated _ _ _ _ _ Hwf Hc) as [Hq Hl]; [|by intros [= <- <-]].
  specialize (Hl c eq_refl). destruct (_ ≫= _); intros [= <- <-].
  - split; [by apply put_quic_wf; [apply Hawait|]|]. intros s.
    destruct (timed_err _ _ _); cbn; [|done]. intros [= <-]. eauto.
  - split; [by apply Hawait|done].
Qed.

Lemma acquire_tcp_isolated p net backend r p' :
  pool_wf p → acquire_tcp p net backend = (r, p') →
  pool_wf p' ∧ ∀ s, r = Ok s → ∃ l, s = H2 l ∧ link_for backend l.
Proof.
  intros Hwf. unfold acquire_tcp. destruct (reuse_pooled_h2 p net _ _) as [c q] eqn:Hc.
  destruct (reuse_isolated _ _ _ _ _ Hwf Hc) as [Hq Hl].
  destruct c as [c|]; [intros [= <- <-]; split; [done|]; intros s [= <-]; eauto|].
  destruct (connect_tcp_h2 q net backend) as [r' q'] eqn:Hr. intros [= <- <-].
  destruct (connect_h2_isolated _ _ _ _ _ Hq Hr) as [Hq' Hl']. split; [done|].
  intros s. destruct r' as [l|]; cbn; [|done]. intros [= <-]. eauto.
Qed.

Lemma tunnel_isolated p net registry backend r p' :
  pool_wf p → open_tunnel_stream p net registry (id backend) = (r, p') →
  pool_wf p' ∧ ∀ c, r = Ok c →
    ∃ t, t ∈ bucket registry (id backend) ∧ ts_connection t = c.1 ∧ ts_session_id t = c.2.
Proof.
  intros Hwf. unfold open_tunnel_stream, acquire_stream, bucket.
  destruct (sessions registry !! id backend) as [[|s0 l]|]; cbn [default from_option Datatypes.id];
    [by intros [= <- <-]| |by intros [= <- <-]].
  destruct ((s0 :: l) !! _) as [t|] eqn:Ht; [|by intros [= <- <-]].
  destruct (nt_closed net _); [by intros [= <- <-]|]. intros [= <- <-]. split; [done|].
  intros c. cbn. destruct (nt_open net); [|done]. intros [= <-]. exists t.
  split; [|done]. by eapply list_elem_of_lookup_2.
Qed.

Lemma raw_quic_isolated p net net' await backend r p' :
  pool_wf p → (∀ q, pool_wf q → pool_wf (await q)) →
  match take_or_connect_quic p net backend with
  | (Err e, p) => (Err e, p)
  | (Ok conn, p) =>
      let p := await p in
      match (_ ← forward_err "raw stream open" (nt_open net);
             forward_err "write raw stream type" (nt_write net)) with
      | Err e => (Err e, p)
      | Ok _ => (Ok (H1_quic conn), put_quic p net' (address backend) (host backend) conn)
      end
  end = (r, p') → pool_wf p' ∧ ∀ s, r = Ok s → ∃ l, s = H1_quic l ∧ link_for backend l.
Proof.
  intros Hwf Hawait.
  destruct (take_or_connect_quic p net backend) as [[c|e] q] eqn:Hc;
    destruct (connect_quic_isolated _ _ _ _ _ Hwf Hc) as [Hq Hl]; [|by intros [= <- <-]].
  specialize (Hl c eq_refl). cbv zeta. destruct (_ ≫= _); intros [= <- <-].
  - split; [by apply put_quic_wf; [apply Hawait|]|]. intros s [= <-]. eauto.
  - split; [by apply Hawait|done].
Qed.

Lemma direct_isolated p net net' await backend r p' :
  pool_wf p → (∀ q, pool_wf q → pool_wf (await q)) →
  match transport backend with
  | Tcp => if is_plaintext (scheme backend) then (acquire_tcp_plaintext net backend, p)
           else acquire_tcp p net backend
  | Quic => acquire_quic p net net' await backend
  end = (r, p') → pool_wf p' ∧ ∀ s, r = Ok s → sender_for (tunnel_registry p) backend s.
Proof.
  intros Hwf Hawait Hd. destruct (transport backend) eqn:Htr.
  - destruct (is_plaintext _) eqn:Hpl.
    + injection Hd as <- <-. split; [done|]. intros s. unfold acquire_tcp_plaintext.
      by intros (_ & _ & (_ & _ & <-%(inj Ok))%result_bind_ok)%result_bind_ok.
    + destruct (acquire_tcp_isolated _ _ _ _ _ Hwf Hd) as [? Hs]. split; [done|].
      intros s (l & -> & Hl)%Hs. done.
  - destruct (acquire_quic_isolated _ _ _ _ _ _ _ Hwf Hawait Hd) as [? Hs]. split; [done|].
    intros s (l & -> & Hl)%Hs. done.
Qed.

(** C8. A connection authenticated for one server name is never used for another.  Whatever
    the network answers and other tasks do meanwhile, the sender [acquire] or [acquire_raw_stream] hands
    out for a backend was verified for the backend's own address and host, or is cleartext because
    the backend is configured so, or is a stream of a session registered for that very
    backend; and the pool stays within its per-host caps. *)
Theorem acquire_isolated (p : ConnPool) (net net' : Net) (await : ConnPool → ConnPool)
    (backend : BackendConfig) (r : Result HttpSender) (p' : ConnPool) :
  pool_wf p → (∀ q, pool_wf q → pool_wf (await q)) →
  acquire p net net' await backend = (r, p') ∨ acquire_raw_stream p net net' await backend = (r, p') →
  pool_wf p' ∧ ∀ s, r = Ok s → sender_for (tunnel_registry p) backend s.
Proof.
  intros Hwf Hawait Hacq.
  pose proof (λ r p', direct_isolated p net net' await backend r p' Hwf Hawait) as Hdirect.
  unfold acquire, acquire_raw_stream in Hacq. destruct (tunnel_registry p) as [registry|] eqn:Hreg.
  1: destruct (is_tunnel_backend registry (id backend)).
  - unfold acquire_tunnel in Hacq.
    destruct (open_tunnel_stream p net registry (id backend)) as [c q] eqn:Hc.
    destruct (tunnel_isolated _ _ _ _ _ _ Hwf Hc) as [Hq Ht].
    assert (p' = q) as -> by (destruct Hacq as [Hacq|Hacq]; congruence). split; [done|].
    intros s ->. destruct c as [c|e]; [|destruct Hacq; simplify_eq].
    destruct (Ht c eq_refl) as (t & Hin & Hcn & Hsid).
    assert (s = H1_tunnel c.1 c.2) as ->; [|by exists registry, t].
    destruct Hacq as [Hacq|Hacq]; injection Hacq as Hacq; [|done].
    cbn in Hacq. apply result_bind_ok in Hacq as (_ & _ & [= <-]). done.
  - destruct Hacq as [Hacq|Hacq]; [by apply Hdirect|].
    destruct (raw_quic_isolated _ _ _ _ _ _ _ Hwf Hawait Hacq) as [? Hs]. split; [done|].
    intros s (l & -> & Hl)%Hs. done.
  - destruct Hacq as [Hacq|Hacq]; [by apply Hdirect|].
    destruct (raw_quic_isolated _ _ _ _ _ _ _ Hwf Hawait Hacq) as [? Hs]. split; [done|].
    intros s (l & -> & Hl)%Hs. done.
Qed.

(** The operations that hand out no sender keep the pool well formed too. *)
Lemma drain_backends_wf p addrs : pool_wf p → pool_wf (drain_backends p addrs).2.
Proof.
  unfold drain_backends. generalize (@nil Link). revert p.
  induction addrs as [|a addrs IH]; intros p closed Hwf; [done|]. cbn [foldl].
  destruct Hwf as (Hc1 & Hc2 & Ht & Hq). cbn [drain_one quic_idle with_tcp with_links].
  destruct (quic_idle p !! a); apply IH; split_and!; try done; by apply links_delete.
Qed.

Lemma drain_wf p : pool_wf p → pool_wf (drain p).2.
Proof.
  intros (Hc1 & Hc2 & _). split_and!; try done; intros addr hs host l Ha; cbn in Ha;
    by rewrite lookup_empty in Ha.
Qed.

Lemma warm_up_tcp_wf p nets backend : pool_wf p → pool_wf (warm_up_tcp p nets backend).
Proof.
  unfold warm_up_tcp. generalize (Z.to_nat (h2_conns_per_backend p -
    match tcp_h2 p !! address backend with Some hs => from_option zlen 0 (hs !! host backend) | None => 0 end)).
  intros n. revert p nets. induction n as [|n IH]; intros p nets Hwf; [by destruct nets|].
  destruct nets as [|net nets]; [done|]. cbn [warm_dials].
  destruct (connect_tcp_h2 p net backend) as [r q] eqn:Hc.
  destruct (connect_h2_isolated _ _ _ _ _ Hwf Hc) as [Hq _]. destruct r; auto.
Qed.

(** ** Connection permits *)

Context `{!SemaphoreLaws}.

(** A run of acquisitions and releases: [held] counts the permits outstanding of each
    backend and [limit] is the [max_connections] it had when it was first tried. *)
Inductive permit_run : gmap string Z → gmap string Z → ConnPool → Prop :=
  | permit_new p : conn_limits p = ∅ → permit_run ∅ ∅ p
  | permit_acquire held limit p p' (backend : BackendConfig) :
      permit_run held limit p → 0 ≤ max_connections backend →
      try_acquire_conn_permit p backend = (Ok (), p') →
      permit_run (<[id backend := default 0 (held !! id backend) + 1]> held)
        (<[id backend := default (max_connections backend) (limit !! id backend)]> limit) p'
  | permit_refused held limit p p' (backend : BackendConfig) e :
      permit_run held limit p → 0 ≤ max_connections backend →
      try_acquire_conn_permit p backend = (Err e, p') →
      permit_run (<[id backend := default 0 (held !! id backend)]> held)
        (<[id backend := default (max_connections backend) (limit !! id backend)]> limit) p'
  | permit_release held limit p b n :
      permit_run held limit p → held !! b = Some n → 0 < n →
      permit_run (<[b := n - 1]> held) limit (drop_conn_permit p b).

Definition permits_ok (held limit : gmap string Z) (p : ConnPool) (b : string) : Prop :=
  match conn_limits p !! b with
  | None => held !! b = None ∧ limit !! b = None
  | Some sem => ∃ h l, held !! b = Some h ∧ limit !! b = Some l ∧ 0 ≤ h ≤ l ∧
                       available_permits sem = l - h
  end.

Lemma permits_insert held limit p b h l sem b' :
  permits_ok held limit p b' → 0 ≤ h ≤ l → available_permits sem = l - h →
  permits_ok (<[b := h]> held) (<[b := l]> limit) (with_limits p (<[b := sem]> (conn_limits p))) b'.
Proof.
  intros Hok Hh Ha. unfold permits_ok. cbn.
  destruct (decide (b = b')) as [->|Hne]; [rewrite !lookup_insert_eq; eauto 7|].
  by rewrite !lookup_insert_ne.
Qed.

Lemma permit_run_ok held limit p b : permit_run held limit p → permits_ok held limit p b.
Proof.
  intros Hrun. revert b.
  induction Hrun as [p Hp|held limit p p' backend _ IH Hmax Htry|held limit p p' backend e _ IH Hmax Htry
                    |held limit p b0 n _ IH Hn Hpos]; intros b.
  - unfold permits_ok. by rewrite Hp, !lookup_empty.
  - revert Htry. unfold try_acquire_conn_permit. pose proof (IH (id backend)) as Hid.
    unfold permits_ok in Hid. destruct (conn_limits p !! id backend) as [sem|]; cbn;
      destruct (sem_try_acquire _) as [sem'|] eqn:Hs; try done; intros [= <-].
    all: rewrite insert_insert_eq.
    + destruct Hid as (h & l & -> & -> & Hb & Ha). cbn.
      assert (available_permits sem ≠ 0) by (intros Hz%try_acquire_none; congruence).
      apply permits_insert; [done|lia|]. rewrite (try_acquire_some _ _ Hs). lia.
    + destruct Hid as [-> ->]. cbn.
      assert (available_permits (sem_new (max_connections backend)) ≠ 0)
        by (intros Hz%try_acquire_none; congruence).
      rewrite available_new in *. apply permits_insert; [done|lia|].
      rewrite (try_acquire_some _ _ Hs), available_new. lia.
  - revert Htry. unfold try_acquire_conn_permit. pose proof (IH (id backend)) as Hid.
    unfold permits_ok in Hid. destruct (conn_limits p !! id backend) as [sem|]; cbn;
      destruct (sem_try_acquire _) as [sem'|] eqn:Hs; try done; intros [= <- <-].
    + destruct Hid as (h & l & -> & -> & Hb & Ha). by apply permits_insert.
    + destruct Hid as [-> ->]. cbn. apply permits_insert; [done|lia|]. rewrite available_new. lia.
  - unfold permits_ok. cbn. destruct (decide (b = b0)) as [->|Hne].
    + rewrite lookup_alter_eq, lookup_insert_eq. specialize (IH b0). unfold permits_ok in IH.
      destruct (conn_limits p !! b0) as [sem|]; cbn; [|destruct IH; congruence].
      destruct IH as (h & l & Hh & Hl & Hb & Ha). rewrite Hn in Hh. injection Hh as ->.
      exists (h - 1), l. rewrite available_release. split_and!; try done; lia.
    + rewrite lookup_alter_ne, lookup_insert_ne by done. apply IH.
Qed.

(** The permits of a backend are bounded by the limit it had when it was first used: at any
    moment the permits held are at most that limit, and the next acquisition is granted
    exactly when they are fewer.  A later change of [max_connections] has no effect. *)
Theorem conn_permits_exact (held limit : gmap string Z) (p : ConnPool) (backend : BackendConfig) :
  permit_run held limit p → 0 ≤ max_connections backend →
  let h := default 0 (held !! id backend) in
  let l := default (max_connections backend) (limit !! id backend) in
  0 ≤ h ≤ l ∧ ((try_acquire_conn_permit p backend).1 = Ok () ↔ h < l).
Proof.
  intros Hrun Hmax. pose proof (permit_run_ok _ _ _ (id backend) Hrun) as Hok.
  unfold permits_ok in Hok. unfold try_acquire_conn_permit.
  destruct (conn_limits p !! id backend) as [sem|]; cbn.
  - destruct Hok as (h & l & -> & -> & Hb & Ha). cbn. split; [done|].
    destruct (sem_try_acquire sem) eqn:Hs; cbn.
    + assert (available_permits sem ≠ 0) by (intros Hz%try_acquire_none; congruence). split; [lia|done].
    + apply try_acquire_none in Hs. split; [done|lia].
  - destruct Hok as [-> ->]. cbn. split; [lia|].
    destruct (sem_try_acquire (sem_new _)) eqn:Hs; cbn.
    + assert (available_permits (sem_new (max_connections backend)) ≠ 0)
        by (intros Hz%try_acquire_none; congruence). rewrite available_new in *. split; [lia|done].
    + apply try_acquire_none in Hs. rewrite available_new in Hs. split; [done|lia].
Qed.
End pool.

(** ** Witnesses *)

Definition demo_net : Net :=
  {| nt_closed _ := false; nt_is_ready _ := true; nt_ready := TimedOut; nt_tcp := Answer (Ok ());
     nt_server_name := Ok (); nt_tls := Answer (Ok ()); nt_http1 := Answer (Ok ());
     nt_http2 := Answer (Ok 7%nat); nt_quic_crypto := Ok (); nt_quic_bind := Ok ();
     nt_quic_connect := Ok (); nt_quic := Answer (Ok 8%nat); nt_open_bi := Answer (Ok ());
     nt_open := Ok (); nt_write := Ok () |}.

Definition demo_tls_backend (host : string) (limit : Z) : BackendConfig :=
  {| id := "db"; pool := "db"; address := {| sa_ip := V4 1; sa_port := 443 |}; host := host;
     weight := f64_one; transport := Tcp; scheme := Https; max_connections := limit;
     wakeable := false |}.

(** A pool that already holds a connection verified for another host of the address. *)
Definition demo_conn_pool : ConnPool :=
  (acquire ConnPool_new demo_net demo_net (λ p, p) (demo_tls_backend "a.example" 1)).2.

Lemma acquire_isolated_witness :
  ∃ s, (acquire demo_conn_pool demo_net demo_net (λ p, p) (demo_tls_backend "b.example" 1)).1 = Ok s ∧
    sender_for None (demo_tls_backend "b.example" 1) s.
Proof.
  assert (∀ host p, pool_wf p → pool_wf
    (acquire p demo_net demo_net (λ p, p) (demo_tls_backend host 1)).2) as Hstep.
  { intros host p Hp. eapply (acquire_isolated p demo_net demo_net (λ p, p) (demo_tls_backend host 1));
      [done|done|left; apply surjective_pairing]. }
  eexists. split; [vm_compute; reflexivity|].
  eapply (acquire_isolated demo_conn_pool demo_net demo_net (λ p, p) (demo_tls_backend "b.example" 1)).
  - apply Hstep. split_and!; [done..| |]; intros addr hs h l Ha; cbn in Ha; by rewrite lookup_empty in Ha.
  - done.
  - left. apply surjective_pairing.
  - vm_compute. reflexivity.
Defined.

Lemma conn_permits_exact_witness :
  (try_acquire_conn_permit (try_acquire_conn_permit ConnPool_new (demo_tls_backend "a" 1)).2
     (demo_tls_backend "a" 9)).1 ≠ Ok ().
Proof.
  pose (q := (try_acquire_conn_permit ConnPool_new (demo_tls_backend "a" 1)).2).
  assert (permit_run (<["db" := default 0 ((∅ : gmap string Z) !! "db") + 1]> ∅)
            (<["db" := default 1 ((∅ : gmap string Z) !! "db")]> ∅) q) as Hrun.
  { apply (permit_acquire ∅ ∅ ConnPool_new q (demo_tls_backend "a" 1)); [by apply permit_new|done|].
    reflexivity. }
  destruct (conn_permits_exact _ _ q (demo_tls_backend "a" 9) Hrun) as [_ H]; [done|].
  intros Hok%H. vm_compute in Hok. discriminate.
Defined.
