(* ===== verification/Body.v ===== *)
(** * Body: [src/proxy/handler/body.rs], [src/compression.rs], [src/proxy/guarded_body.rs]

    Request bodies prepared for replay, response bodies compressed and guarded.  A body is
    bytes in memory, a stream of the network or a length-limited body; what a stream yields
    is the function [chunks], its data frames and how it ended.  The zstd crate is the
    class [Zstd]. *)

From Stdlib Require Import Ascii.
From S2P Require Import Prelude Text Error Http CacheControl Retry Headers.
Local Open Scope Z_scope.

(** What a [BodyExt::collect] can fail with. *)
Inductive BodyError :=
  | LengthLimit
  | BodyFailed (msg : string).

Inductive StreamEnd :=
  | Finished
  | Failed (e : BodyError).

Inductive Body :=
  | Bytes (b : string)
  | Stream (n : nat)
  | LimitedBody (inner : Body) (cap : Z).

(** [zstd_stream data] is everything the decoder yields on [data] and the error it ends
    with, if any. *)
Class Zstd := {
  zstd_decoder : string → result string unit;
  zstd_stream : string → string * option string;
  zstd_encoder : Z → result string unit;
}.

(** [http_body_util::Limited]: a frame longer than what remains fails the stream. *)
Fixpoint limited (remaining : Z) (frames : list string) (fin : StreamEnd) : list string * StreamEnd :=
  match frames with
  | [] => ([], fin)
  | f :: frames =>
      if remaining <? slen f then ([], Failed LengthLimit)
      else let '(out, fin) := limited (remaining - slen f) frames fin in (f :: out, fin)
  end.

Section body.
  Context (chunks : nat → list string * StreamEnd).

Fixpoint frames_of (b : Body) : list string * StreamEnd :=
  match b with
  | Bytes s => ([s], Finished)
  | Stream n => chunks n
  | LimitedBody inner cap => let '(fs, fin) := frames_of inner in limited cap fs fin
  end.

Definition concat_frames (l : list string) : string := foldr String.append "" l.

(** [body.collect().await.map(|c| c.to_bytes())] *)
Definition collect (b : Body) : result BodyError string :=
  match frames_of b with
  | (fs, Finished) => Ok (concat_frames fs)
  | (_, Failed e) => Err e
  end.

(** ** [compression.rs] *)

Context `{Zstd}.

(** [decoder.take(n).read_to_end()]: an error behind the first [n] bytes is not seen. *)
Definition take_to_end (n : Z) (s : string * option string) : result string string :=
  if n <=? slen s.1 then Ok (String.substring 0 (Z.to_nat n) s.1)
  else match s.2 with
       | Some e => Err e
       | None => Ok s.1
       end.

Definition decompress_bounded (data : string) (max_bytes : Z) : Result string :=
  match zstd_decoder data with
  | Err e => Err (Transport ("zstd init: " +:+ e))
  | Ok _ =>
      match take_to_end (max_bytes + 1) (zstd_stream data) with
      | Err e => Err (Transport ("zstd decompress: " +:+ e))
      | Ok output =>
          if max_bytes <? slen output
          then Err (Transport ("decompressed body exceeds " +:+ pretty max_bytes +:+ " byte limit"))
          else Ok output
      end
  end.

(** ** [handler/body.rs] *)

Context `{Http}.

(** The body of a response on its way out. *)
Inductive OutBody :=
  | Plain (b : Body)
  | Compressed (b : Body) (level : Z).

Definition error_response (status : Z) (message : string) : Response OutBody :=
  Build_Response status hm_new (Plain (Bytes message)).

Record ProxyConfig := {
  max_response_body_bytes : Z;
  max_request_body_bytes : Z;
  h2_connections_per_backend : Z;
  max_idle_quic : Z;
  pc_h2_stream_window : Z;
  pc_h2_conn_window : Z;
  inline_compress_threshold : Z;
  quic_channel_capacity : Z;
  wake_timeout_secs : Z;
}.

Record CompressionConfig := {
  compression_enabled : bool;
  compression_level : Z;
  min_bytes : Z;
}.

(** The request parts cloned for each attempt, and the body kept for replay. *)
Record Parts := {
  pt_method : string;
  pt_uri : Uri;
  pt_headers : HeaderMap;
}.

Record ReplayBody := {
  body_bytes : option string;
  streaming_body : option Body;
  req_parts : Parts;
}.

Inductive PreparedBody :=
  | Ready (replay : ReplayBody) (max_attempts : Z)
  | Respond (response : Response OutBody).

Definition declared_length_exceeds (headers : HeaderMap) (cap : Z) : bool :=
  match get_str headers "content-length" ≫= parse_u64 with
  | Some len => cap <? len
  | None => false
  end.

Definition buffer_request_body (body : Body) (cap : Z) : result Z string :=
  match collect (LimitedBody body cap) with
  | Ok bytes => Ok bytes
  | Err LengthLimit => Err 413
  | Err (BodyFailed _) => Err 400
  end.

(** [panicked] is whether the blocking decompression task was lost. *)
Definition decompress_request (req : Request Body) (max_body inline_threshold : Z) (panicked : bool)
    : result (Response OutBody) (Request Body) :=
  match collect (LimitedBody (req_body req) max_body) with
  | Err LengthLimit => Err (error_response 413 "request body too large")
  | Err (BodyFailed _) => Err (error_response 400 "failed to read request body")
  | Ok bytes =>
      if negb (slen bytes <=? inline_threshold) && panicked
      then Err (error_response 500 "decompression failed")
      else
        match decompress_bounded bytes max_body with
        | Err _ => Err (error_response 400 "invalid zstd body")
        | Ok out =>
            Ok (Build_Request (req_method req) (req_uri req)
                  (hm_insert "content-length" (pretty (slen out))
                     (hm_remove "content-encoding" (req_headers req)))
                  (Bytes out))
        end
  end.

(** The [u32] sum [max_retries + 1] wraps in a release build. *)
Definition attempts_for (retries_allowed : bool) (config : RetryConfig) : Z :=
  if retries_allowed then wrap32 (max_retries config + 1) else 1.

(** Returns, beside the body, the status recorded as completed on an early answer. *)
Definition prepare_replay_body (req : Request Body) (config : ProxyConfig) (retry_config : RetryConfig)
    (request_is_zstd panicked : bool) : PreparedBody * option Z :=
  match (if request_is_zstd
         then decompress_request req (max_request_body_bytes config)
                (inline_compress_threshold config) panicked
         else Ok req) with
  | Err response => (Respond response, Some (res_status response))
  | Ok req =>
      let max_attempts := attempts_for (retries_permitted (req_method req) (req_headers req)) retry_config in
      let cap := max_request_body_bytes config in
      let parts := {| pt_method := req_method req; pt_uri := req_uri req; pt_headers := req_headers req |} in
      if (1 <? max_attempts) && negb (declared_length_exceeds (pt_headers parts) cap) then
        match buffer_request_body (req_body req) cap with
        | Ok bytes => (Ready {| body_bytes := Some bytes; streaming_body := None; req_parts := parts |}
                         max_attempts, None)
        | Err status =>
            (Respond (error_response status
               (if status =? 413 then "request body too large" else "failed to read request body")),
             Some status)
        end
      else (Ready {| body_bytes := None; streaming_body := Some (req_body req); req_parts := parts |}
              max_attempts, None)
  end.

Definition compress_response (response : Response Body) (min_bytes level : Z) : Response OutBody :=
  let parts h b := Build_Response (res_status response) h b in
  let too_small := match get_str (res_headers response) "content-length" ≫= parse_u32 with
                   | Some len => len <? min_bytes
                   | None => false
                   end in
  if too_small then parts (res_headers response) (Plain (res_body response))
  else
    match zstd_encoder level with
    | Err _ => error_response 500 "response compression failed"
    | Ok _ =>
        parts (hm_remove "content-length" (hm_insert "content-encoding" "zstd" (res_headers response)))
          (Compressed (res_body response) level)
    end.

Definition maybe_compress (response : Response Body) (accepts_zstd : bool) (directives : CacheDirectives)
    (config : CompressionConfig) : Response OutBody :=
  if compression_enabled config && accepts_zstd && negb (response_is_encoded response) &&
     negb (res_status response =? 206) && negb (no_transform directives)
  then compress_response response (min_bytes config) (compression_level config)
  else Build_Response (res_status response) (res_headers response) (Plain (res_body response)).

(** ** Bounds and labels *)

Lemma substring_all n s : (String.length s ≤ n)%nat → String.substring 0 n s = s.
Proof.
  revert n. induction s as [|a s IH]; intros n Hn; [by destruct n|].
  destruct n; cbn in *; [lia|]. by rewrite IH by lia.
Qed.

Lemma substring_length n s : String.length (String.substring 0 n s) = Nat.min n (String.length s).
Proof.
  revert n. induction s as [|a s IH]; intros n; [by destruct n|]. destruct n; cbn; [done|]. by rewrite IH.
Qed.

(** Bounded decompression neither overshoots nor truncates: it succeeds exactly when the
    decoder accepts the input and its whole output is error-free and within the bound, and
    then returns that output; a longer output is an error however the stream would end. *)
Theorem decompress_bounded_spec (data out : string) (max_bytes : Z) :
  0 ≤ max_bytes →
  decompress_bounded data max_bytes = Ok out ↔
  zstd_decoder data = Ok () ∧ zstd_stream data = (out, None) ∧ slen out ≤ max_bytes.
Proof.
  intros Hmax. unfold decompress_bounded, take_to_end.
  destruct (zstd_decoder data) as [[]|e]; [|naive_solver].
  destruct (zstd_stream data) as [all err]. cbn [fst snd].
  destruct (max_bytes + 1 <=? slen all) eqn:Hlong; bool_hyps.
  - assert (slen (String.substring 0 (Z.to_nat (max_bytes + 1)) all) = max_bytes + 1) as Hs.
    { unfold slen in *. rewrite substring_length. lia. }
    rewrite Hs, (proj2 (Z.ltb_lt _ _)) by lia. split; [done|]. intros (_ & [= -> ->] & ?). lia.
  - destruct err as [e|]; [naive_solver|].
    rewrite (proj2 (Z.ltb_ge _ _)) by lia. split; [intros [= <-]; split_and!; [done..|lia]|].
    by intros (_ & [= ->] & _).
Qed.

Lemma limited_spec cap fs fin out fin' :
  limited cap fs fin = (out, fin') → fin' = Finished →
  out = fs ∧ fin = Finished ∧ (fs = [] ∨ slen (concat_frames fs) ≤ cap).
Proof.
  revert cap out. induction fs as [|f fs IH]; intros cap out; cbn [limited].
  - intros [= <- <-] ->. auto.
  - destruct (cap <? slen f) eqn:Hf; [by intros [= <- <-]|]. bool_hyps.
    destruct (limited (cap - slen f) fs fin) as [o f'] eqn:Hl. intros [= <- <-] ->.
    destruct (IH _ _ Hl eq_refl) as (-> & -> & Hlen). split_and!; [done..|]. right.
    change (concat_frames (f :: fs)) with (f +:+ concat_frames fs). rewrite slen_app.
    destruct Hlen as [->|Hlen]; [change (slen (concat_frames [])) with 0|]; lia.
Qed.

Lemma collect_limited b cap bytes :
  0 ≤ cap → collect (LimitedBody b cap) = Ok bytes → collect b = Ok bytes ∧ slen bytes ≤ cap.
Proof.
  intros Hcap. unfold collect. cbn [frames_of]. destruct (frames_of b) as [fs fin].
  destruct (limited cap fs fin) as [out fin'] eqn:Hl. destruct fin'; [|done]. intros [= <-].
  destruct (limited_spec _ _ _ _ _ Hl eq_refl) as (-> & -> & Hlen). split; [done|].
  by destruct Hlen as [->|].
Qed.

(** What reaches the retry loop.  The body is kept either in memory or as a one-shot stream,
    never both; bytes in memory are the client's whole body, within the cap; and a request
    whose method is not idempotent and carries no idempotency key gets a single attempt. *)
Theorem replay_body_spec (req : Request Body) (config : ProxyConfig) (retry_config : RetryConfig)
    (panicked : bool) (replay : ReplayBody) (n : Z) (recorded : option Z) :
  0 ≤ max_request_body_bytes config →
  prepare_replay_body req config retry_config false panicked = (Ready replay n, recorded) →
  (pt_method (req_parts replay) = req_method req ∧ pt_headers (req_parts replay) = req_headers req) ∧
  n = attempts_for (retries_permitted (req_method req) (req_headers req)) retry_config ∧
  ((∃ b, body_bytes replay = Some b ∧ streaming_body replay = None ∧
         collect (req_body req) = Ok b ∧ slen b ≤ max_request_body_bytes config) ∨
   body_bytes replay = None ∧ streaming_body replay = Some (req_body req)).
Proof.
  intros Hcap. unfold prepare_replay_body. destruct (_ && _).
  - unfold buffer_request_body. destruct (collect (LimitedBody _ _)) as [b|[]] eqn:Hc; try done.
    intros [= <- <- <-]. apply collect_limited in Hc as [Hc Hb]; [|done].
    split_and!; [done..|]. left. exists b. split_and!; done.
  - intros [= <- <- <-]. split_and!; [done..|]. by right.
Qed.
End body.

Section labels.
  Context `{HttpLaws} `{Zstd}.

(** A response never misstates its encoding: an unencoded response leaves the transform
    with a [Content-Encoding] header exactly when its body is compressed, and then without
    a [Content-Length]; an encoded, partial or [no-transform] one leaves unchanged. *)
Theorem compress_labels (response : Response Body) (accepts_zstd : bool) (directives : CacheDirectives)
    (config : CompressionConfig) :
  let out := maybe_compress response accepts_zstd directives config in
  (response_is_encoded response = false →
   (response_is_encoded out = true ↔ ∃ b level, res_body out = Compressed b level) ∧
   (response_is_encoded out = true → contains_key (res_headers out) "content-length" = false)) ∧
  (response_is_encoded response = true ∨ res_status response = 206 ∨ no_transform directives = true →
   res_status out = res_status response ∧ res_headers out = res_headers response ∧
   res_body out = Plain (res_body response)).
Proof.
  unfold maybe_compress, compress_response.
  destruct (_ && _) eqn:Hc; cbv zeta.
  - bool_hyps. split; [|intros [?|[?|?]]; congruence]. intros _.
    destruct (match _ ≫= _ with Some _ => _ | None => _ end).
    + unfold response_is_encoded in *. cbn. split; [|congruence].
      split; [congruence|by intros (? & ? & ?)].
    + destruct (zstd_encoder _); unfold response_is_encoded, contains_key; cbn.
      * rewrite get_all_remove_ne, get_all_insert_eq, get_all_remove_eq by done. split; [|done].
        split; eauto.
      * rewrite !get_all_new. split; [|done]. split; [done|by intros (? & ? & ?)].
  - split; [|done]. intros Henc. unfold response_is_encoded in *. cbn.
    split; [|congruence]. split; [congruence|by intros (? & ? & ?)].
Qed.
End labels.

(** ** [guarded_body.rs]

    The guards are owned by the body, so they live exactly as long as it does; what is
    modelled is the stream the client sees.  [Sleep] fires once its deadline has passed. *)

Inductive GuardedBodyError :=
  | Inner (msg : string)
  | IdleTimeout (d : Z).

(** What polling the inner body answers, and what the guarded body answers. *)
Inductive InnerPoll :=
  | IPending
  | IFrame (f : string)
  | IError (msg : string)
  | IEnd.

Inductive FramePoll :=
  | Pending
  | Frame (f : string)
  | FrameError (e : GuardedBodyError)
  | EndOfBody.

Record GuardedBody := {
  gb_deadline : Z;
  gb_idle_timeout : Z;
  gb_done : bool;
}.

Definition GuardedBody_new (now idle_timeout : Z) : GuardedBody :=
  {| gb_deadline := now + idle_timeout; gb_idle_timeout := idle_timeout; gb_done := false |}.

Definition set_done (b : GuardedBody) : GuardedBody :=
  {| gb_deadline := gb_deadline b; gb_idle_timeout := gb_idle_timeout b; gb_done := true |}.

Definition poll_frame (b : GuardedBody) (now : Z) (inner : InnerPoll) : FramePoll * GuardedBody :=
  if gb_done b then (EndOfBody, b)
  else
    match inner with
    | IFrame f => (Frame f, {| gb_deadline := now + gb_idle_timeout b;
                               gb_idle_timeout := gb_idle_timeout b; gb_done := false |})
    | IError e => (FrameError (Inner e), set_done b)
    | IEnd => (EndOfBody, set_done b)
    | IPending => if gb_deadline b <=? now then (FrameError (IdleTimeout (gb_idle_timeout b)), set_done b)
                  else (Pending, b)
    end.

(** The answers to a sequence of polls. *)
Fixpoint poll_all (b : GuardedBody) (polls : list (Z * InnerPoll)) : list FramePoll * GuardedBody :=
  match polls with
  | [] => ([], b)
  | (now, inner) :: polls =>
      let '(out, b) := poll_frame b now inner in
      let '(outs, b) := poll_all b polls in (out :: outs, b)
  end.

Definition is_live (o : FramePoll) : bool :=
  match o with Pending | Frame _ => true | _ => false end.

(** When the inner body last made progress. *)
Definition last_progress (t0 : Z) (polls : list (Z * InnerPoll)) : Z :=
  foldl (λ t p, match p.2 with IFrame _ => p.1 | _ => t end) t0 polls.

Lemma poll_all_state t0 d polls :
  let '(outs, b) := poll_all (GuardedBody_new t0 d) polls in
  gb_idle_timeout b = d ∧ gb_done b = negb (forallb is_live outs) ∧
  (gb_done b = false → gb_deadline b = last_progress t0 polls + d).
Proof.
  assert (∀ b t, gb_done b = true ∨ gb_deadline b = t + gb_idle_timeout b →
    let '(outs, b') := poll_all b polls in
    gb_idle_timeout b' = gb_idle_timeout b ∧
    gb_done b' = (gb_done b || negb (forallb is_live outs))%bool ∧
    (gb_done b' = false → gb_deadline b' = last_progress t polls + gb_idle_timeout b)) as Hgen.
  { induction polls as [|[now inner] polls IH]; intros b t Hb; cbn [poll_all].
    - cbn. rewrite orb_false_r. split_and!; [done..|]. intros Hd. destruct Hb; [congruence|done].
    - destruct (poll_frame b now inner) as [o b1] eqn:Hp. unfold poll_frame in Hp.
      specialize (IH b1 (match inner with IFrame _ => now | _ => t end)).
      destruct (gb_done b) eqn:Hd; [|destruct inner; [destruct (_ <=? _)|..]]; simplify_eq/=;
        (destruct (poll_all _ polls) as [outs b'];
         destruct IH as (H1 & H2 & H3); [naive_solver|]; rewrite ?Hd in H2;
         split_and!; [done|cbn in *; by rewrite H2|done]). }
  specialize (Hgen (GuardedBody_new t0 d) t0). destruct (poll_all _ polls) as [outs b].
  apply Hgen. by right.
Qed.

Lemma poll_all_snoc b polls now inner :
  poll_all b (polls ++ [(now, inner)]) =
    let '(outs, b) := poll_all b polls in
    let '(o, b) := poll_frame b now inner in (outs ++ [o], b).
Proof.
  revert b. induction polls as [|[t i] polls IH]; intros b; cbn [poll_all app].
  - by destruct (poll_frame b now inner).
  - destruct (poll_frame b t i) as [o b1]. rewrite IH.
    destruct (poll_all b1 polls) as [outs b2]. by destruct (poll_frame b2 now inner).
Qed.

(** A client never takes a truncated transfer for a complete one, and a stalled backend
    cannot hold the guards.  While the transfer is live a poll passes on what the inner
    body yields, and a clean end only when the inner body ended; a poll that finds the
    inner body pending fails exactly when no frame has come for the idle timeout; and once
    the stream has ended, in error or not, it yields nothing more. *)
Theorem guarded_body_spec (t0 d now : Z) (polls : list (Z * InnerPoll)) (inner : InnerPoll)
    (outs outs' : list FramePoll) (b b' : GuardedBody) :
  poll_all (GuardedBody_new t0 d) polls = (outs, b) →
  poll_all (GuardedBody_new t0 d) (polls ++ [(now, inner)]) = (outs', b') →
  last outs' = Some
    (if forallb is_live outs then
       match inner with
       | IFrame f => Frame f
       | IError e => FrameError (Inner e)
       | IEnd => EndOfBody
       | IPending => if last_progress t0 polls + d <=? now then FrameError (IdleTimeout d) else Pending
       end
     else EndOfBody).
Proof.
  intros Hall. pose proof (poll_all_state t0 d polls) as Hst. rewrite Hall in Hst.
  destruct Hst as (Hidle & Hdone & Hdl). rewrite poll_all_snoc, Hall.
  destruct (poll_frame b now inner) as [o b1] eqn:Hp. intros [= <- _]. rewrite last_snoc. f_equal.
  unfold poll_frame in Hp. rewrite Hdone in Hp. rewrite Hdone in Hdl.
  destruct (forallb is_live outs); cbn in *; [|congruence]. rewrite Hdl, Hidle in Hp by done.
  destruct inner; try congruence. destruct (_ <=? _); congruence.
Qed.

Lemma guarded_body_spec_witness :
  last [Frame "a"; Pending; FrameError (IdleTimeout 10)] = Some (FrameError (IdleTimeout 10)).
Proof.
  exact (guarded_body_spec 0 10 13 [(3, IFrame "a"); (9, IPending)] IPending
           [Frame "a"; Pending] _ _ _ eq_refl eq_refl).
Defined.

#[export] Instance stored_zstd : Zstd := {|
  zstd_decoder _ := Ok ();
  zstd_stream data := (data, None);
  zstd_encoder _ := Ok ();
|}.

Lemma decompress_bounded_spec_witness : decompress_bounded "abc" 3 = Ok "abc".
Proof. apply (decompress_bounded_spec "abc" "abc" 3); done. Defined.

Definition demo_config : ProxyConfig :=
  {| max_response_body_bytes := 100; max_request_body_bytes := 100; h2_connections_per_backend := 4;
     max_idle_quic := 16; pc_h2_stream_window := 65536; pc_h2_conn_window := 65536;
     inline_compress_threshold := 8192; quic_channel_capacity := 256; wake_timeout_secs := 30 |}.

Definition demo_retry : RetryConfig :=
  {| max_retries := 2; base_delay_ms := 200; max_delay_ms := 2000; jitter_ms := 100 |}.

Lemma replay_body_spec_witness :
  ∃ replay, prepare_replay_body (λ _, (["he"; "llo"], Finished))
    (Build_Request "GET" {| uri_path := "/"; uri_path_and_query := None |} hm_new (Stream 0))
    demo_config demo_retry false false = (Ready replay 3, None) ∧ body_bytes replay = Some "hello".
Proof.
  eexists. split; [reflexivity|].
  edestruct (replay_body_spec (λ _, (["he"; "llo"], Finished))
    (Build_Request "GET" {| uri_path := "/"; uri_path_and_query := None |} hm_new (Stream 0))
    demo_config demo_retry false) as (_ & _ & [(b & Hb & _ & Hc & _)|[Hb _]]).
  - done.
  - reflexivity.
  - rewrite Hb. vm_compute in Hc. congruence.
  - discriminate Hb.
Defined.

Lemma compress_labels_witness :
  response_is_encoded (maybe_compress (Build_Response 200 hm_new (Bytes "x")) true
    CacheDirectives_default {| compression_enabled := true; compression_level := 3; min_bytes := 256 |}) = true.
Proof.
  destruct (compress_labels (Build_Response 200 hm_new (Bytes "x")) true CacheDirectives_default
    {| compression_enabled := true; compression_level := 3; min_bytes := 256 |}) as [[H _] _].
  - reflexivity.
  - apply H. eexists _, _. reflexivity.
Defined.
