(* ===== verification/Handler.v ===== *)
(** * Handler: [src/proxy/handler.rs] and [src/proxy/handler/*.rs]

    One request through the proxy: admission, cache lookup, routing and queueing, the
    replay body, and the retry loop.  The shared state of the proxy is a [ProxyState];
    while the request awaits, other tasks change it, which is what the [await] functions
    of the environment do.  A run also keeps the trace of what this request did: the
    metrics it recorded, the requests it sent and the guards it took and dropped. *)

From Stdlib Require Import Ascii.
From S2P Require Import Prelude Text Error Net Http Lru Float64 CacheControl Cache Circuit Acl Retry Router.
From S2P Require Import Identity Headers TunnelProtocol Balancer Queue Registry Pool Body.
Local Open Scope Z_scope.

(** ** State *)

Inductive ClientAuthPolicy := Required | Optional | Disabled.

Definition allows_anonymous (p : ClientAuthPolicy) : bool :=
  match p with Required => false | _ => true end.

Record TimeoutConfig := {
  connect_secs : Z;
  handshake_secs : Z;
  request_secs : Z;
  response_idle_secs : Z;
}.

Inductive Metric :=
  | RequestsTotal (status : Z) (backend : string)
  | RateLimitRejections
  | RequestsRejected (reason : string)
  | CacheHits
  | CacheMisses
  | BackendSelections (backend : string)
  | BackendConnLimitRejected (backend : string)
  | CircuitOpenTotal (backend : string)
  | CircuitHalfOpenProbes (backend : string)
  | RetryAttempts (backend : string) (attempt : Z) (outcome : string).

(** The guards of a request: the active-connection gauge, the queue slot with its gauge,
    the connection permit with its gauge, and the half-open probe. *)
Inductive Resource :=
  | RActive
  | RQueue (backend : string) (queue : nat)
  | RConn (backend : string)
  | RProbe (g : HalfOpenGuard).

#[export] Instance HalfOpenGuard_eq_dec : EqDecision HalfOpenGuard.
Proof. solve_decision. Defined.
#[export] Instance Resource_eq_dec : EqDecision Resource.
Proof. solve_decision. Defined.

Section handler.
  Context `{Http} `{!Lru CachedResponse} `{!Lru (BackendHealth * Z)} `{IpNetLib} `{Governor}
          `{Semaphore} `{Zstd}.
  Context (ln : f64 → f64) (chunks : nat → list string * StreamEnd).

Inductive Event :=
  | Recorded (m : Metric)
  | Sent (backend : string) (req : Request Body)
  | Took (r : Resource)
  | Released (r : Resource).

Record ReloadableState := {
  router : Router;
  backend_pools : gmap string BackendPool;
  rl_acl : AccessControl;
}.

Record ProxyState := {
  reloadable : ReloadableState;
  revocation : RevocationSet;
  health_rx : HealthState;
  conn_pool : ConnPool;
  rate_limiter : KeyedLimiter;
  queues : Queues;
  labels : gset string;
  default_queue_depth : Z;
  circuit_breakers : CircuitBreakers;
  shutdown : bool;
  timeouts : TimeoutConfig;
  proxy_config : ProxyConfig;
  compression_config : CompressionConfig;
  retry_config : RetryConfig;
  cache_config : CacheConfig;
  response_cache : ResponseCache;
  client_auth : ClientAuthPolicy;
}.

(** The fields a request changes. *)
Definition update_state (s : ProxyState) (pool : ConnPool) (limiter : KeyedLimiter)
    (qs : Queues) (ls : gset string) (cb : CircuitBreakers) (rc : ResponseCache)
    : ProxyState :=
  {| reloadable := reloadable s; revocation := revocation s; health_rx := health_rx s;
     conn_pool := pool; rate_limiter := limiter; queues := qs; labels := ls;
     default_queue_depth := default_queue_depth s; circuit_breakers := cb; shutdown := shutdown s;
     timeouts := timeouts s; proxy_config := proxy_config s;
     compression_config := compression_config s; retry_config := retry_config s;
     cache_config := cache_config s; response_cache := rc; client_auth := client_auth s |}.

Definition with_conn_pool (s : ProxyState) (p : ConnPool) : ProxyState :=
  update_state s p (rate_limiter s) (queues s) (labels s) (circuit_breakers s) (response_cache s).
Definition with_rate_limiter (s : ProxyState) (l : KeyedLimiter) : ProxyState :=
  update_state s (conn_pool s) l (queues s) (labels s) (circuit_breakers s) (response_cache s).
Definition with_queues (s : ProxyState) (q : Queues) : ProxyState :=
  update_state s (conn_pool s) (rate_limiter s) q (labels s) (circuit_breakers s) (response_cache s).
Definition with_labels (s : ProxyState) (l : gset string) : ProxyState :=
  update_state s (conn_pool s) (rate_limiter s) (queues s) l (circuit_breakers s) (response_cache s).
Definition with_circuits (s : ProxyState) (cb : CircuitBreakers) : ProxyState :=
  update_state s (conn_pool s) (rate_limiter s) (queues s) (labels s) cb (response_cache s).
Definition with_cache (s : ProxyState) (c : ResponseCache) : ProxyState :=
  update_state s (conn_pool s) (rate_limiter s) (queues s) (labels s) (circuit_breakers s) c.

(** A run: the shared state and the trace of this request, latest event first. *)
Record Run := {
  state : ProxyState;
  trace : list Event;
}.

Definition set_state (r : Run) (s : ProxyState) : Run := {| state := s; trace := trace r |}.
Definition emit (e : Event) (r : Run) : Run := {| state := state r; trace := e :: trace r |}.
Definition on_state (f : ProxyState → ProxyState) (r : Run) : Run := set_state r (f (state r)).
Definition record (m : Metric) (r : Run) : Run := emit (Recorded m) r.

(** What the network, the clock and the other tasks do during a request, attempt by
    attempt. *)
Record Env := {
  ev_start : Z;
  ev_panicked : bool;
  ev_body_await : ProxyState → ProxyState;
  ev_now : Z → Z;
  ev_done : Z → Z;
  ev_net : Z → Net;
  ev_net_back : Z → Net;
  ev_dial_await : Z → ProxyState → ProxyState;
  ev_open_await : Z → ProxyState → ProxyState;
  ev_inject : Z → list (string * string);
  ev_send : Z → timed (Z * HeaderMap * nat);
  ev_send_await : Z → ProxyState → ProxyState;
  ev_parked : Z → bool;
  ev_park_await : Z → ProxyState → ProxyState;
  ev_collect_await : Z → ProxyState → ProxyState;
  ev_random : Z → Z;
  ev_sleep_await : Z → Z → ProxyState → ProxyState;
}.

(** ** Labels, metrics and guards *)

Definition SHUTDOWN_RETRY_AFTER_SECS : string := "5".

(** [backend_label] interns the label of the backend. *)
Definition backend_label (id : string) (r : Run) : Run :=
  on_state (λ s, with_labels s ({[id]} ∪ labels s)) r.

Definition record_completion (status : Z) (backend : string) (r : Run) : Run :=
  record (RequestsTotal status backend) r.

(** Dropping a guard. *)
Definition drop_queue (b : string) (l : nat) (r : Run) : Run :=
  emit (Released (RQueue b l)) (on_state (λ s, with_queues s (release_slot l (queues s))) r).

Definition drop_conn (b : string) (r : Run) : Run :=
  emit (Released (RConn b)) (on_state (λ s, with_conn_pool s (drop_conn_permit (conn_pool s) b)) r).

Definition drop_probe (g : option HalfOpenGuard) (r : Run) : Run :=
  match g with
  | None => r
  | Some g => emit (Released (RProbe g))
                (on_state (λ s, with_circuits s (drop_guard (circuit_breakers s) g)) r)
  end.

Definition drop_active (r : Run) : Run := emit (Released RActive) r.

(** The guards bundled into a streaming body, and what dropping that body does. *)
Record ResponseGuards := {
  rg_queue : string;
  rg_queue_permit : nat;
  rg_conn : option string;
  rg_half_open : option HalfOpenGuard;
}.

Definition drop_guards (g : ResponseGuards) (r : Run) : Run :=
  let r := drop_queue (rg_queue g) (rg_queue_permit g) (drop_active r) in
  let r := match rg_conn g with Some b => drop_conn b r | None => r end in
  drop_probe (rg_half_open g) r.

(** A response and, when it streams, the guards its body owns and its idle timeout. *)
Record Served := {
  sv_response : Response OutBody;
  sv_guards : option (ResponseGuards * Z);
}.

Definition answer (response : Response OutBody) : Served :=
  {| sv_response := response; sv_guards := None |}.

(** ** Admission *)

Definition REJECT_REASON_REVOKED : string := "revoked".
Definition REJECT_REASON_NO_IDENTITY : string := "no_identity".

Definition reject_before_routing (now : Z) (client_ip : IpAddr) (identity : option PeerIdentity) (r : Run)
    : option (Response OutBody) * Run :=
  let s := state r in
  if is_err (acl_check (rl_acl (reloadable s)) client_ip)
  then (Some (error_response 403 "access denied"), r)
  else
    let '(limited, l) := rate_check now client_ip (rate_limiter s) in
    let r := set_state r (with_rate_limiter s l) in
    if is_err limited
    then (Some (error_response 429 "rate limited"), record RateLimitRejections r)
    else
      match identity with
      | None =>
          if allows_anonymous (client_auth s) then (None, r)
          else (Some (error_response 403 "client identity required"),
                record (RequestsRejected REJECT_REASON_NO_IDENTITY) r)
      | Some i =>
          if is_revoked (revocation s) i
          then (Some (error_response 403 "revoked"), record (RequestsRejected REJECT_REASON_REVOKED) r)
          else (None, r)
      end.

Inductive ClientAdmission :=
  | Reject (response : Response OutBody)
  | Proceed (client_ip : IpAddr) (identity : option PeerIdentity).

Definition admit_client (connect : option (SocketAddr * option PeerIdentity)) (s : ProxyState)
    : ClientAdmission :=
  let client_ip := match connect with Some ca => sa_ip ca.1 | None => V4 0x7f000001 end in
  let identity := connect ≫= snd in
  if shutdown s
  then Reject (Build_Response 503 (hm_insert "retry-after" SHUTDOWN_RETRY_AFTER_SECS hm_new)
                 (Plain (Bytes "server is shutting down")))
  else Proceed client_ip identity.

(** ** Cache negotiation *)

Definition cache_path (uri : Uri) : string := default (uri_path uri) (uri_path_and_query uri).

Definition try_serve_from_cache (now : Z) (req : Request Body) (identity : string)
    (accepts_zstd is_cacheable_method has_cookie has_range : bool) (r : Run)
    : option (Response OutBody) * Run :=
  let s := state r in
  if negb (cache_enabled (cache_config s) && is_cacheable_method && negb has_cookie && negb has_range)
  then (None, r)
  else
    let key := {| key_method := req_method req; key_path := cache_path (req_uri req);
                  key_identity := identity |} in
    let '(hit, c) := cache_get now key (response_cache s) in
    let r := set_state r (with_cache s c) in
    match hit with
    | Some cached =>
        let cached := Build_Response (res_status cached) (res_headers cached) (Bytes (res_body cached)) in
        (Some (maybe_compress cached accepts_zstd (from_response cached) (compression_config s)),
         record CacheHits r)
    | None => (None, record CacheMisses r)
    end.

Record CacheNegotiation := {
  is_cacheable_method : bool;
  accepts_zstd : bool;
  request_is_zstd : bool;
  request_has_cookie : bool;
  cache_identity_hex : option string;
}.

Inductive CacheDecision :=
  | Hit (response : Response OutBody)
  | Miss (n : CacheNegotiation).

Definition negotiate_cache (now : Z) (req : Request Body) (identity : option PeerIdentity) (r : Run)
    : CacheDecision * Run :=
  let is_cacheable_method := String.eqb (req_method req) "GET" || String.eqb (req_method req) "HEAD" in
  let accepts_zstd := from_option (λ v, contains v "zstd") false (get_str (req_headers req) "accept-encoding") in
  let request_is_zstd := from_option (String.eqb "zstd") false (get_str (req_headers req) "content-encoding") in
  let hex := spki_hex <$> identity in
  let has_cookie := contains_key (req_headers req) "cookie" in
  let has_range := contains_key (req_headers req) "range" in
  match try_serve_from_cache now req (default "" hex) accepts_zstd is_cacheable_method has_cookie has_range r with
  | (Some response, r) => (Hit response, r)
  | (None, r) =>
      (Miss {| is_cacheable_method := is_cacheable_method; accepts_zstd := accepts_zstd;
               request_is_zstd := request_is_zstd; request_has_cookie := has_cookie;
               cache_identity_hex := hex |}, r)
  end.

(** ** Routing and the queue *)

Record ResolvedRoute := {
  rr_backend_id : string;
  rr_pool : BackendPool;
  rr_timeout_secs : option Z;
}.

(** [match_route] never panics (file Router). *)
Definition resolve_backend_pool (s : ReloadableState) (path : string)
    : result (Response OutBody) ResolvedRoute :=
  match match_route (router s) path with
  | Ok (Some m) =>
      match backend_pools s !! rm_backend_id m with
      | Some p => Ok {| rr_backend_id := rm_backend_id m; rr_pool := p; rr_timeout_secs := rm_timeout_secs m |}
      | None => Err (error_response 502 "backend pool not found")
      end
  | _ => Err (error_response 404 "no route matched")
  end.

Record RouteInfo := {
  ri_backend_id : string;
  ri_pool : BackendPool;
  ri_request_timeout : Z;
  ri_response_idle_timeout : Z;
  ri_queue_permit : nat;
}.

Definition route_and_admit (path : string) (r : Run) : result (Response OutBody) RouteInfo * Run :=
  let s := state r in
  match resolve_backend_pool (reloadable s) path with
  | Err response => (Err response, record_completion 404 "" r)
  | Ok resolved =>
      let b := rr_backend_id resolved in
      let r := backend_label b r in
      let s := state r in
      let '(queue, qs) := queue_entry (default_queue_depth s) b (queues s) in
      let '(permit, qs) := acquire_slot queue qs in
      let r := set_state r (with_queues s qs) in
      match permit with
      | Err e => (Err (error_response 503 (error_to_string e)), record_completion 503 b r)
      | Ok _ =>
          let r := emit (Took (RQueue b queue)) r in
          (Ok {| ri_backend_id := b; ri_pool := rr_pool resolved;
                 ri_request_timeout := from_secs (default (request_secs (timeouts s)) (rr_timeout_secs resolved));
                 ri_response_idle_timeout := from_secs (response_idle_secs (timeouts s));
                 ri_queue_permit := queue |}, r)
      end
  end.

(** ** One attempt *)

Record RequestCtx := {
  cx_pool : BackendPool;
  cx_client_ip : IpAddr;
  cx_identity : option PeerIdentity;
  cx_backend_id : string;
  cx_cache_identity : string;
  cx_max_attempts : Z;
  cx_negotiation : CacheNegotiation;
}.

Record RetryState := {
  failed_backends : list string;
  last_response : option (Response Body);
  last_error_msg : option string;
}.

Definition with_failed (t : RetryState) (l : list string) : RetryState :=
  {| failed_backends := l; last_response := last_response t; last_error_msg := last_error_msg t |}.
Definition with_last_response (t : RetryState) (x : Response Body) : RetryState :=
  {| failed_backends := failed_backends t; last_response := Some x; last_error_msg := last_error_msg t |}.
Definition with_last_error (t : RetryState) (x : string) : RetryState :=
  {| failed_backends := failed_backends t; last_response := last_response t; last_error_msg := Some x |}.

Record Selected := {
  sel_backend : BackendConfig;
  sel_half_open : option HalfOpenGuard;
}.

Inductive AttemptOutcome :=
  | Continue
  | Break
  | Return (response : Response OutBody)
  | StreamOut (response : Response OutBody) (conn : string) (half_open : option HalfOpenGuard).

Inductive Skip := SkipBreak | SkipContinue.

(** [ArrayVec<_, MAX_BACKENDS>::try_push] leaves a full vector alone. *)
Definition mark_failed (failed : list string) (id : string) : list string :=
  if bool_decide (id ∈ failed) then failed
  else if MAX_BACKENDS <=? zlen failed then failed else failed ++ [id].

Definition select_backend_excluding (now : Z) (pool : BackendPool) (client_ip : IpAddr) (s : ProxyState)
    (excluded : list string) : Result BackendConfig :=
  let pressure_fn b := connection_pressure (conn_pool s) (Balancer.id b) (max_connections b) in
  match select_with_pressure_excluding ln now pool client_ip (health_rx s) pressure_fn excluded with
  | Some b => Ok b
  | None => Err BackendUnavailable
  end.

Definition select_and_gate (now : Z) (cx : RequestCtx) (t : RetryState) (r : Run)
    : result Skip Selected * RetryState * Run :=
  let s := state r in
  let selection :=
    match select_backend_excluding now (cx_pool cx) (cx_client_ip cx) s (failed_backends t) with
    | Ok b => Ok b
    | Err _ => select_backend_excluding now (cx_pool cx) (cx_client_ip cx) s []
    end in
  match selection with
  | Err e => (Err SkipBreak, with_last_error t (error_to_string e), r)
  | Ok backend =>
      let b := Balancer.id backend in
      let r := record (BackendSelections b) (backend_label b r) in
      let '(permit, p) := try_acquire_conn_permit (conn_pool (state r)) backend in
      let r := on_state (λ s, with_conn_pool s p) r in
      match permit with
      | Err _ =>
          (Err SkipContinue,
           with_failed (with_last_error t "backend connection limit reached")
             (mark_failed (failed_backends t) b),
           record (BackendConnLimitRejected b) r)
      | Ok _ =>
          let r := emit (Took (RConn b)) r in
          let '(cb, (st, guard)) := check (circuit_breakers (state r)) now b in
          let r := on_state (λ s, with_circuits s cb) r in
          match st with
          | Open =>
              (Err SkipContinue,
               with_failed (with_last_error t "circuit open") (mark_failed (failed_backends t) b),
               drop_conn b (record (CircuitOpenTotal b) r))
          | HalfOpen =>
              let r := match guard with Some g => emit (Took (RProbe g)) r | None => r end in
              (Ok {| sel_backend := backend; sel_half_open := guard |}, t, record (CircuitHalfOpenProbes b) r)
          | Closed => (Ok {| sel_backend := backend; sel_half_open := None |}, t, r)
          end
      end
  end.

Definition request_of (p : Parts) (b : Body) : Request Body :=
  Build_Request (pt_method p) (pt_uri p) (pt_headers p) b.

Definition build_retry_req (replay : ReplayBody) : option (Request Body) * ReplayBody :=
  match body_bytes replay with
  | Some bytes => (Some (request_of (req_parts replay) (Bytes bytes)), replay)
  | None =>
      match streaming_body replay with
      | Some body =>
          (Some (request_of (req_parts replay) body),
           {| body_bytes := None; streaming_body := None; req_parts := req_parts replay |})
      | None => (None, replay)
      end
  end.

(** [ConnPool::acquire] on the shared pool: other tasks run before it answers and, for a QUIC
    connection, while the stream is opened. *)
Definition acquire_shared (env : Env) (attempt : Z) (backend : BackendConfig) (r : Run)
    : Result HttpSender * Run :=
  let r := on_state (ev_dial_await env attempt) r in
  let '(dial, p) := acquire_start (conn_pool (state r)) (ev_net env attempt) backend in
  let r := on_state (λ s, with_conn_pool s p) r in
  match dial with
  | Dialled sender => (sender, r)
  | Opening conn =>
      let r := on_state (ev_open_await env attempt) r in
      let '(sender, p) := acquire_finish (conn_pool (state r)) (ev_net env attempt) (ev_net_back env attempt)
                            backend conn in
      (sender, on_state (λ s, with_conn_pool s p) r)
  end.

(** [forward_request]; the request is [Sent] once it is handed to the sender. *)
Definition forward_request (env : Env) (attempt : Z) (req : Request Body) (backend : BackendConfig)
    (identity : option PeerIdentity) (client_ip : IpAddr) (r : Run) : Result (Response Body) * Run :=
  let '(sender, r) := acquire_shared env attempt backend r in
  match (_ ← sender;
         outbound_headers (req_headers req) (Balancer.host backend) client_ip identity
           (ev_inject env attempt)) with
  | Err e => (Err e, r)
  | Ok headers =>
      let out := Build_Request (req_method req) (req_uri req) headers (req_body req) in
      let r := on_state (ev_send_await env attempt) (emit (Sent (Balancer.id backend) out) r) in
      match timed_err "send request" "send request" (ev_send env attempt) with
      | Err e => (Err e, r)
      | Ok (status, headers, n) =>
          (Ok (Build_Response status (strip_hop_by_hop_headers headers)
                 (LimitedBody (Stream n) (max_response_body_bytes (proxy_config (state r))))), r)
      end
  end.

Definition wake_timeout_response (wake_secs : Z) : Response OutBody :=
  let headers := match value_from_str (pretty wake_secs) with
                 | Some v => hm_insert "retry-after" v hm_new
                 | None => hm_new
                 end in
  Build_Response 503 headers (Plain (Bytes "backend waking; retry shortly")).

(** The waiting itself is in file Park; [ev_parked] is its answer. *)
Definition park_for_wake (env : Env) (attempt : Z) (cx : RequestCtx) (r : Run) : AttemptOutcome * Run :=
  let wake_secs := wake_timeout_secs (proxy_config (state r)) in
  let r := on_state (ev_park_await env attempt) r in
  if ev_parked env attempt then (Continue, r)
  else (Return (wake_timeout_response wake_secs), record_completion 503 (cx_backend_id cx) r).

Definition retry_later (env : Env) (attempt : Z) (b : string) (t : RetryState) (r : Run)
    : RetryState * Run :=
  let delay := backoff_delay (ev_random env) attempt (retry_config (state r)) in
  (with_failed t (mark_failed (failed_backends t) b), on_state (ev_sleep_await env attempt delay) r).

Definition fail_backend (now : Z) (b : string) (r : Run) : Run :=
  on_state (λ s, with_circuits s (record_failure (circuit_breakers s) now b)) r.

Definition handle_forward_error (env : Env) (attempt : Z) (cx : RequestCtx) (backend : BackendConfig)
    (e : ReductionError) (t : RetryState) (r : Run) : AttemptOutcome * RetryState * Run :=
  let b := Balancer.id backend in
  if wakeable backend && is_transport_miss e then
    let '(outcome, r) := park_for_wake env attempt cx r in (outcome, t, r)
  else
    let r := record (RetryAttempts b (attempt + 1) "error") (fail_backend (ev_done env attempt) b r) in
    if attempt + 1 <? cx_max_attempts cx then
      let '(t, r) := retry_later env attempt b t r in
      (Continue, with_last_error t (error_to_string e), r)
    else (Return (error_response 502 "backend error"), t, record_completion 502 (cx_backend_id cx) r).

Definition should_cache_response (cx : RequestCtx) (s : ProxyState) (response : Response Body)
    (directives : CacheDirectives) : bool :=
  cache_enabled (cache_config s) && is_cacheable_method (cx_negotiation cx) &&
  is_cacheable_status (res_status response) && negb (response_is_encoded response) &&
  vary_permits_caching (res_headers response) &&
  response_permits_shared_caching (request_has_cookie (cx_negotiation cx)) directives.

Definition store_and_respond (env : Env) (attempt : Z) (cx : RequestCtx) (response : Response Body)
    (directives : CacheDirectives) (parts : Parts) (r : Run) : AttemptOutcome * Run :=
  let status := res_status response in
  let r := on_state (ev_collect_await env attempt) r in
  match collect chunks (res_body response) with
  | Err _ =>
      (Return (error_response 502 "failed to read response"),
       record_completion status (cx_backend_id cx) r)
  | Ok bytes =>
      let key := {| key_method := pt_method parts; key_path := cache_path (pt_uri parts);
                    key_identity := cx_cache_identity cx |} in
      let '(_, c) := cache_put (ev_done env attempt) key status (res_headers response) bytes directives
                       (response_cache (state r)) in
      let r := record_completion status (cx_backend_id cx) (on_state (λ s, with_cache s c) r) in
      (Return (maybe_compress (Build_Response status (res_headers response) (Bytes bytes))
                 (accepts_zstd (cx_negotiation cx)) directives (compression_config (state r))), r)
  end.

(** The winning answer: the breaker is told, then the response is stored or streamed. *)
Definition finish_attempt (env : Env) (attempt : Z) (cx : RequestCtx) (sel : Selected)
    (response : Response Body) (parts : Parts) (r : Run) : AttemptOutcome * Run :=
  let b := Balancer.id (sel_backend sel) in
  let status := res_status response in
  let r :=
    if (500 <=? status) && (status <=? 599) then fail_backend (ev_done env attempt) b r
    else on_state (λ s, with_circuits s (record_success (circuit_breakers s) b)) r in
  let directives := from_response response in
  if should_cache_response cx (state r) response directives
  then store_and_respond env attempt cx response directives parts r
  else
    let r := record_completion status (cx_backend_id cx) r in
    (StreamOut (maybe_compress response (accepts_zstd (cx_negotiation cx)) directives
                  (compression_config (state r))) b (sel_half_open sel), r).

Definition handle_response (env : Env) (attempt : Z) (cx : RequestCtx) (sel : Selected)
    (result : Result (Response Body)) (parts : Parts) (t : RetryState) (r : Run)
    : AttemptOutcome * RetryState * Run :=
  let backend := sel_backend sel in
  let b := Balancer.id backend in
  match result with
  | Err e => handle_forward_error env attempt cx backend e t r
  | Ok response =>
      let retryable := is_retryable_status (res_status response) in
      let r := if retryable
               then record (RetryAttempts b (attempt + 1) "retryable_status")
                      (fail_backend (ev_done env attempt) b r)
               else r in
      if retryable && (attempt + 1 <? cx_max_attempts cx) then
        let '(t, r) := retry_later env attempt b t r in
        (Continue, with_last_response t response, r)
      else
        let '(outcome, r) := finish_attempt env attempt cx sel response parts r in (outcome, t, r)
  end.

(** The guards of an attempt are dropped when it ends, unless the response streams. *)
Definition drop_selected (sel : Selected) (r : Run) : Run :=
  drop_conn (Balancer.id (sel_backend sel)) (drop_probe (sel_half_open sel) r).

Definition run_attempt (env : Env) (attempt : Z) (cx : RequestCtx) (replay : ReplayBody) (t : RetryState)
    (r : Run) : AttemptOutcome * ReplayBody * RetryState * Run :=
  match select_and_gate (ev_now env attempt) cx t r with
  | (Err SkipBreak, t, r) => (Break, replay, t, r)
  | (Err SkipContinue, t, r) => (Continue, replay, t, r)
  | (Ok sel, t, r) =>
      match build_retry_req replay with
      | (None, replay) => (Break, replay, t, drop_selected sel r)
      | (Some req, replay) =>
          let '(result, r) := forward_request env attempt req (sel_backend sel) (cx_identity cx)
                                (cx_client_ip cx) r in
          let '(outcome, t, r) := handle_response env attempt cx sel result (req_parts replay) t r in
          (outcome, replay, t, match outcome with StreamOut _ _ _ => r | _ => drop_selected sel r end)
      end
  end.

(** ** The request *)

(** How the loop [for attempt in 0..max_attempts] ended. *)
Inductive LoopEnd :=
  | Exhausted
  | Returned (response : Response OutBody)
  | Streamed (response : Response OutBody) (conn : string) (half_open : option HalfOpenGuard).

Fixpoint retry_loop (env : Env) (deadline connect_budget : Z) (cx : RequestCtx) (fuel : nat) (attempt : Z)
    (replay : ReplayBody) (t : RetryState) (r : Run) : LoopEnd * RetryState * Run :=
  match fuel with
  | O => (Exhausted, t, r)
  | S fuel =>
      let now := ev_now env attempt in
      if (now <=? deadline) && (connect_budget <? deadline - now) then
        match run_attempt env attempt cx replay t r with
        | (Continue, replay, t, r) => retry_loop env deadline connect_budget cx fuel (attempt + 1) replay t r
        | (Break, _, t, r) => (Exhausted, t, r)
        | (Return response, _, t, r) => (Returned response, t, r)
        | (StreamOut response conn half_open, _, t, r) => (Streamed response conn half_open, t, r)
        end
      else (Exhausted, t, r)
  end.

Definition leave (b : string) (queue : nat) (served : Served) (r : Run) : Served * Run :=
  (served, drop_active (drop_queue b queue r)).

Definition RetryState_new : RetryState :=
  {| failed_backends := []; last_response := None; last_error_msg := None |}.

(** From the replay body to the answer; the request already holds its queue slot. *)
Definition serve (env : Env) (req : Request Body) (client_ip : IpAddr) (identity : option PeerIdentity)
    (negotiation : CacheNegotiation) (info : RouteInfo) (r : Run) : Served * Run :=
  let b := ri_backend_id info in
  let queue := ri_queue_permit info in
  let r := on_state (ev_body_await env) r in
  let s := state r in
  match prepare_replay_body chunks req (proxy_config s) (retry_config s) (request_is_zstd negotiation)
          (ev_panicked env) with
  | (Respond response, recorded) =>
      leave b queue (answer response)
        (match recorded with Some status => record_completion status b r | None => r end)
  | (Ready replay max_attempts, _) =>
      let cx := {| cx_pool := ri_pool info; cx_client_ip := client_ip; cx_identity := identity;
                   cx_backend_id := b; cx_cache_identity := default "" (cache_identity_hex negotiation);
                   cx_max_attempts := max_attempts; cx_negotiation := negotiation |} in
      let deadline := ev_start env + ri_request_timeout info in
      let connect_budget := from_secs (connect_secs (timeouts s)) in
      match retry_loop env deadline connect_budget cx (Z.to_nat max_attempts) 0 replay RetryState_new r with
      | (Returned response, _, r) => leave b queue (answer response) r
      | (Streamed response conn half_open, _, r) =>
          ({| sv_response := response;
              sv_guards := Some ({| rg_queue := b; rg_queue_permit := queue; rg_conn := Some conn;
                                   rg_half_open := half_open |},
                                 ri_response_idle_timeout info) |}, r)
      | (Exhausted, t, r) =>
          match last_response t with
          | Some response =>
              ({| sv_response := Build_Response (res_status response) (res_headers response)
                                   (Plain (res_body response));
                  sv_guards := Some ({| rg_queue := b; rg_queue_permit := queue; rg_conn := None;
                                       rg_half_open := None |},
                                     ri_response_idle_timeout info) |},
               record_completion (res_status response) b r)
          | None => leave b queue (answer (error_response 502 "backend error")) (record_completion 502 b r)
          end
      end
  end.

Definition proxy_handler (env : Env) (connect : option (SocketAddr * option PeerIdentity))
    (req : Request Body) (r : Run) : Served * Run :=
  match admit_client connect (state r) with
  | Reject response => (answer response, r)
  | Proceed client_ip identity =>
      let r := emit (Took RActive) r in
      match reject_before_routing (ev_start env) client_ip identity r with
      | (Some response, r) => (answer response, drop_active r)
      | (None, r) =>
          match negotiate_cache (ev_start env) req identity r with
          | (Hit response, r) => (answer response, drop_active r)
          | (Miss negotiation, r) =>
              match route_and_admit (uri_path (req_uri req)) r with
              | (Err response, r) => (answer response, drop_active r)
              | (Ok info, r) => serve env req client_ip identity negotiation info r
              end
          end
      end
  end.

(** The request until its body is gone. *)
Definition complete (served : Served) (r : Run) : Run :=
  match sv_guards served with
  | Some (g, _) => drop_guards g r
  | None => r
  end.

(** ** Counting over a trace *)

(** The requests handed to a backend, the latest first. *)
Fixpoint sent (tr : list Event) : list (string * Request Body) :=
  match tr with
  | [] => []
  | Sent b q :: tr => (b, q) :: sent tr
  | _ :: tr => sent tr
  end.

Definition sends (tr : list Event) : nat := length (sent tr).

Lemma sends_eq tr tr' : sent tr = sent tr' → sends tr = sends tr'.
Proof. unfold sends. congruence. Qed.

Definition unit_of (y x : Resource) : Z := if decide (y = x) then 1 else 0.

(** How many guards of kind [x] are outstanding. *)
Fixpoint outstanding (x : Resource) (tr : list Event) : Z :=
  match tr with
  | [] => 0
  | Took y :: tr => outstanding x tr + unit_of y x
  | Released y :: tr => outstanding x tr - unit_of y x
  | _ :: tr => outstanding x tr
  end.

(** The per-attempt guards a streaming response carries away. *)
Definition attempt_guards (conn : string) (half_open : option HalfOpenGuard) (x : Resource) : Z :=
  unit_of (RConn conn) x + match half_open with Some g => unit_of (RProbe g) x | None => 0 end.

Definition carried (o : AttemptOutcome) (x : Resource) : Z :=
  match o with StreamOut _ conn half_open => attempt_guards conn half_open x | _ => 0 end.

(** An attempt that leaves the guards and the sends of the trace alone. *)
Definition quiet (r r' : Run) : Prop :=
  sent (trace r') = sent (trace r) ∧ ∀ x, outstanding x (trace r') = outstanding x (trace r).

Lemma quiet_refl r : quiet r r.
Proof. done. Qed.

Lemma quiet_trans r r' r'' : quiet r r' → quiet r' r'' → quiet r r''.
Proof. intros [E1 E2] [E3 E4]. split; [congruence|]. intros x. by rewrite E4, E2. Qed.

Lemma select_and_gate_trace now cx t r res t' r' :
  select_and_gate now cx t r = (res, t', r') →
  sent (trace r') = sent (trace r) ∧
  ∀ x, outstanding x (trace r') = outstanding x (trace r) +
    match res with
    | Ok sel => attempt_guards (Balancer.id (sel_backend sel)) (sel_half_open sel) x
    | Err _ => 0
    end.
Proof.
  unfold select_and_gate. cbv zeta.
  destruct (match select_backend_excluding now _ _ _ (failed_backends t) with Ok b => Ok b | Err _ => _ end)
    as [backend|e]; [|intros [= <- <- <-]; split; [done|]; intros; lia].
  destruct (try_acquire_conn_permit _ backend) as [[[]|e] p];
    [|intros [= <- <- <-]; split; [done|]; intros; cbn; lia].
  destruct (check _ now _) as [cb [[] guard]]; [..|destruct guard]; intros [= <- <- <-];
    (split; [done|]); intros x; cbn; unfold attempt_guards; cbn; lia.
Qed.

Lemma drop_selected_trace sel r :
  sent (trace (drop_selected sel r)) = sent (trace r) ∧
  ∀ x, outstanding x (trace (drop_selected sel r)) =
    outstanding x (trace r) - attempt_guards (Balancer.id (sel_backend sel)) (sel_half_open sel) x.
Proof.
  unfold drop_selected, drop_probe, attempt_guards.
  destruct (sel_half_open sel); (split; [done|]); intros x; cbn; lia.
Qed.

Lemma acquire_shared_trace env attempt backend r : trace (acquire_shared env attempt backend r).2 = trace r.
Proof.
  unfold acquire_shared. destruct (acquire_start _ _ _) as [[sender|conn] p]; [done|].
  by destruct (acquire_finish _ _ _ _ _).
Qed.

Lemma forward_request_trace env attempt req backend identity ip r res r' :
  forward_request env attempt req backend identity ip r = (res, r') →
  (sent (trace r') = sent (trace r) ∨
   ∃ h, outbound_headers (req_headers req) (Balancer.host backend) ip identity (ev_inject env attempt) = Ok h ∧
     sent (trace r') = (Balancer.id backend, Build_Request (req_method req) (req_uri req) h (req_body req)) ::
                       sent (trace r)) ∧
  ∀ x, outstanding x (trace r') = outstanding x (trace r).
Proof.
  unfold forward_request. pose proof (acquire_shared_trace env attempt backend r) as Htr.
  destruct (acquire_shared _ _ _ _) as [sender r1]. cbn [snd] in Htr.
  destruct (_ ≫= _) as [h|e] eqn:Hh; [|intros [= <- <-]; rewrite Htr; split; [by left|done]].
  apply result_bind_ok in Hh as (s & _ & Hh).
  destruct (timed_err _ _ _) as [[[status h'] n]|e]; intros [= <- <-]; cbn; rewrite Htr;
    (split; [right; by exists h|done]).
Qed.

Lemma forward_request_sends env attempt req backend identity ip r res r' :
  forward_request env attempt req backend identity ip r = (res, r') →
  (sends (trace r') ≤ S (sends (trace r)))%nat ∧ ∀ x, outstanding x (trace r') = outstanding x (trace r).
Proof.
  intros [Hs Ho]%forward_request_trace. split; [|done]. unfold sends.
  destruct Hs as [->|(h & _ & ->)]; cbn; lia.
Qed.

Lemma handle_response_trace env attempt cx sel res parts t r out t' r' :
  handle_response env attempt cx sel res parts t r = (out, t', r') →
  quiet r r' ∧ ∀ x, carried out x =
    match out with
    | StreamOut _ _ _ => attempt_guards (Balancer.id (sel_backend sel)) (sel_half_open sel) x
    | _ => 0
    end.
Proof.
  unfold handle_response. destruct res as [response|e].
  - cbv zeta. set (r0 := if is_retryable_status _ then _ else _).
    assert (quiet r r0) as E0 by (subst r0; by destruct (is_retryable_status _)).
    destruct (_ && _); [intros [= <- <- <-]; split; [|done]; by eapply quiet_trans|].
    unfold finish_attempt. cbv zeta.
    set (r1 := if (500 <=? res_status response) && _ then _ else _).
    assert (quiet r r1) as E1 by (subst r1; destruct (_ && (res_status response <=? 599)); by eapply quiet_trans).
    clearbody r0 r1. clear E0.
    destruct (should_cache_response _ _ _ _); [|intros [= <- <- <-]; split; [|done]; by eapply quiet_trans].
    unfold store_and_respond. destruct (collect _ _); cbv zeta; [destruct (cache_put _ _ _ _ _ _ _)|];
      intros [= <- <- <-]; (split; [|done]); by eapply quiet_trans.
  - unfold handle_forward_error, park_for_wake. cbv zeta.
    destruct (_ && _); [|destruct (_ <? _)]; [destruct (ev_parked env attempt)|..];
      intros [= <- <- <-]; done.
Qed.

(** How often a body that is not in memory can still be sent. *)
Definition shots (replay : ReplayBody) : nat :=
  match streaming_body replay with Some _ => 1 | None => 0 end.

Lemma run_attempt_trace env attempt cx replay t r out replay' t' r' :
  run_attempt env attempt cx replay t r = (out, replay', t', r') →
  (sends (trace r') ≤ S (sends (trace r)))%nat ∧
  (body_bytes replay = None → body_bytes replay' = None ∧
     (sends (trace r') + shots replay' ≤ sends (trace r) + shots replay)%nat) ∧
  (∀ x, outstanding x (trace r') = outstanding x (trace r) + carried out x).
Proof.
  unfold run_attempt. destruct (select_and_gate _ cx t r) as [[[sel|[]] t1] r1] eqn:Hsel;
    apply select_and_gate_trace in Hsel as [Hs%sends_eq Ho].
  2,3: intros [= <- <- <- <-]; rewrite Hs; split_and!; [lia|done|]; intros x; rewrite Ho; cbn; lia.
  pose proof (drop_selected_trace sel) as Hdrop. unfold build_retry_req.
  destruct (body_bytes replay) as [bytes|] eqn:Hb; [|destruct (streaming_body replay) as [body|] eqn:Hst].
  3:{ intros [= <- <- <- <-]. destruct (Hdrop r1) as [Hd1%sends_eq Hd2]. rewrite Hd1, Hs.
      split_and!; [lia|done|]. intros x. rewrite Hd2, Ho. cbn. lia. }
  all: destruct (forward_request _ _ _ _ _ _ r1) as [res r2] eqn:Hf;
    apply forward_request_sends in Hf as [Hf1 Hf2];
    destruct (handle_response _ _ _ _ _ _ _ r2) as [[o t2] r3] eqn:Hh;
    apply handle_response_trace in Hh as [[Hh1%sends_eq Hh2] Hh3];
    destruct (Hdrop r3) as [Hd1%sends_eq Hd2]; intros [= <- <- <- <-].
  all: assert (sends (trace (match o with StreamOut _ _ _ => r3 | _ => drop_selected sel r3 end)) =
    sends (trace r2)) as Heq by (destruct o; rewrite ?Hd1; congruence); rewrite Heq.
  all: split_and!; [lia| |].
  - done.
  - intros x. specialize (Hh3 x). specialize (Ho x). specialize (Hf2 x). specialize (Hh2 x).
    specialize (Hd2 x). destruct o; cbn in *; lia.
  - intros _. split; [done|]. unfold shots. rewrite Hst. cbn. lia.
  - intros x. specialize (Hh3 x). specialize (Ho x). specialize (Hf2 x). specialize (Hh2 x).
    specialize (Hd2 x). destruct o; cbn in *; lia.
Qed.

Definition loop_carried (o : LoopEnd) (x : Resource) : Z :=
  match o with Streamed _ conn half_open => attempt_guards conn half_open x | _ => 0 end.

Lemma retry_loop_trace env deadline budget cx fuel attempt replay t r out t' r' :
  retry_loop env deadline budget cx fuel attempt replay t r = (out, t', r') →
  (sends (trace r') ≤ sends (trace r) + fuel)%nat ∧
  (body_bytes replay = None → (sends (trace r') ≤ sends (trace r) + shots replay)%nat) ∧
  (∀ x, outstanding x (trace r') = outstanding x (trace r) + loop_carried out x).
Proof.
  revert attempt replay t r. induction fuel as [|fuel IH]; intros attempt replay t r; cbn [retry_loop].
  - intros [= <- <- <-]. split_and!; [lia..|]. intros x. cbn. lia.
  - destruct (_ && _); [|intros [= <- <- <-]; split_and!; [lia..|]; intros x; cbn; lia].
    destruct (run_attempt _ _ _ _ _ r) as [[[o replay1] t1] r1] eqn:Hrun.
    apply run_attempt_trace in Hrun as (Hr1 & Hr2 & Hr3). destruct o.
    1: { intros (Hi1 & Hi2 & Hi3)%IH. split_and!; [lia| |].
         - intros Hb. destruct (Hr2 Hb) as [Hb' Hs]. specialize (Hi2 Hb'). lia.
         - intros x. rewrite Hi3, Hr3. cbn. lia. }
    all: intros [= <- <- <-]; split_and!; [lia| |intros x; rewrite Hr3; done];
      intros Hb; destruct (Hr2 Hb); lia.
Qed.

Lemma prepare_attempts req config retry_config zstd panicked replay n recorded :
  prepare_replay_body chunks req config retry_config zstd panicked = (Ready replay n, recorded) →
  ∃ req', n = attempts_for (retries_permitted (req_method req') (req_headers req')) retry_config ∧
    req_method req' = req_method req ∧
    (req' = req ∨ ∃ v, req_headers req' =
       hm_insert "content-length" v (hm_remove "content-encoding" (req_headers req))).
Proof.
  unfold prepare_replay_body.
  destruct (if zstd then _ else Ok req) as [req'|resp] eqn:Hreq; [|done].
  intros Hready. exists req'. split.
  { destruct (_ && _); [destruct (buffer_request_body _ _ _)|]; by simplify_eq. }
  destruct zstd; [|simplify_eq; auto]. unfold decompress_request in Hreq.
  destruct (collect _ _) as [b|[]]; try done. destruct (_ && _); [done|].
  destruct (decompress_bounded _ _); [|done]. simplify_eq/=. eauto.
Qed.

Lemma leave_trace b l served r :
  sent (trace (leave b l served r).2) = sent (trace r) ∧
  ∀ x, outstanding x (trace (leave b l served r).2) =
    outstanding x (trace r) - unit_of (RQueue b l) x - unit_of RActive x.
Proof. split; [done|]. intros x. cbn. lia. Qed.

Lemma serve_trace env req ip identity neg info r served r' :
  serve env req ip identity neg info r = (served, r') →
  ∀ x, outstanding x (trace (complete served r')) =
    outstanding x (trace r) - unit_of (RQueue (ri_backend_id info) (ri_queue_permit info)) x - unit_of RActive x.
Proof.
  unfold serve. cbv zeta. destruct (prepare_replay_body _ _ _ _ _ _) as [[replay n|resp] recorded].
  - destruct (retry_loop _ _ _ _ _ _ _ _ _) as [[o t] r1] eqn:Hl.
    apply retry_loop_trace in Hl as (_ & _ & Ho). cbn [trace on_state set_state] in Ho.
    destruct o as [|resp|resp conn ho]; [destruct (last_response t)|..]; intros [= <- <-] x;
      specialize (Ho x); cbn in *; unfold attempt_guards in *.
    1-3: lia.
    destruct ho; cbn in *; lia.
  - intros [= <- <-] x. destruct recorded; cbn; lia.
Qed.

Lemma reject_quiet now ip identity r o r' :
  reject_before_routing now ip identity r = (o, r') →
  quiet r r' ∧ retry_config (state r') = retry_config (state r).
Proof.
  unfold reject_before_routing. destruct (is_err _); [by intros [= <- <-]|].
  destruct (rate_check _ _ _) as [limited l]. destruct (is_err limited); [by intros [= <- <-]|].
  destruct identity; [destruct (is_revoked _ _)|destruct (allows_anonymous _)]; by intros [= <- <-].
Qed.

Lemma negotiate_quiet now req identity r o r' :
  negotiate_cache now req identity r = (o, r') →
  quiet r r' ∧ retry_config (state r') = retry_config (state r).
Proof.
  unfold negotiate_cache, try_serve_from_cache. cbv zeta. destruct (negb _); [by intros [= <- <-]|].
  destruct (cache_get _ _ _) as [[hit|] c]; by intros [= <- <-].
Qed.

Lemma route_trace path r res r' :
  route_and_admit path r = (res, r') →
  sent (trace r') = sent (trace r) ∧
  (∀ x, outstanding x (trace r') = outstanding x (trace r) +
    match res with Ok info => unit_of (RQueue (ri_backend_id info) (ri_queue_permit info)) x | Err _ => 0 end) ∧
  retry_config (state r') = retry_config (state r).
Proof.
  unfold route_and_admit. destruct (resolve_backend_pool _ _); cbv zeta.
  - destruct (queue_entry _ _ _) as [l qs]. destruct (acquire_slot _ _) as [[[]|e] qs1]; intros [= <- <-]; split_and!; try done; intros x; cbn; lia.
  - intros [= <- <-]. split_and!; try done. intros x. cbn. lia.
Qed.

(** C1. No path through the handler leaks or double-frees a guard.  Whatever the backend, the
    network and the other tasks do, once the request's body is gone every guard it took
    (the active-connection gauge, the queue slot, the connection permit, the half-open
    probe) has been released exactly once: the numbers outstanding are those before it. *)
Theorem handler_releases_guards env connect req r served r' x :
  proxy_handler env connect req r = (served, r') →
  outstanding x (trace (complete served r')) = outstanding x (trace r).
Proof.
  unfold proxy_handler. destruct (admit_client _ _) as [resp|ip identity]; [by intros [= <- <-]|].
  destruct (reject_before_routing _ _ _ _) as [o r1] eqn:Hrej. apply reject_quiet in Hrej as [[_ Hrej] _].
  specialize (Hrej x). cbn in Hrej.
  destruct o as [resp|]; [intros [= <- <-]; cbn; lia|].
  destruct (negotiate_cache _ _ _ r1) as [dec r2] eqn:Hneg. apply negotiate_quiet in Hneg as [[_ Hneg] _].
  specialize (Hneg x). destruct dec as [resp|neg]; [intros [= <- <-]; cbn; lia|].
  destruct (route_and_admit _ r2) as [res r3] eqn:Hroute. apply route_trace in Hroute as (_ & Hroute & _).
  specialize (Hroute x). destruct res as [info|resp]; [|intros [= <- <-]; cbn; lia].
  intros Hserve. rewrite (serve_trace _ _ _ _ _ _ _ _ _ Hserve x). lia.
Qed.

(** ** At most one send *)

Lemma retries_permitted_rewritten `{!HttpLaws} method h v :
  retries_permitted method (hm_insert "content-length" v (hm_remove "content-encoding" h)) =
  retries_permitted method h.
Proof.
  unfold retries_permitted, hm_get. by rewrite get_all_insert_ne, get_all_remove_ne by done.
Qed.

Lemma serve_sends env req ip identity neg info r served r' :
  serve env req ip identity neg info r = (served, r') →
  (sends (trace r') ≤ sends (trace r) +
     match (prepare_replay_body chunks req (proxy_config (ev_body_await env (state r)))
              (retry_config (ev_body_await env (state r))) (request_is_zstd neg) (ev_panicked env)).1 with
     | Ready replay n => match body_bytes replay with Some _ => Z.to_nat n
                                                    | None => Nat.min (shots replay) (Z.to_nat n) end
     | Respond _ => 0
     end)%nat.
Proof.
  unfold serve. cbv zeta. cbn [state on_state set_state].
  destruct (prepare_replay_body _ _ _ _ _ _) as [[replay n|resp] recorded]; cbn [fst].
  - destruct (retry_loop _ _ _ _ _ _ _ _ _) as [[o t] r1] eqn:Hl.
    apply retry_loop_trace in Hl as (Hs1 & Hs2 & _). cbn [trace on_state set_state] in *.
    assert (sends (trace r1) ≤ sends (trace r) +
      match body_bytes replay with Some _ => Z.to_nat n | None => Nat.min (shots replay) (Z.to_nat n) end)%nat
      as Hb by (destruct (body_bytes replay); [lia|specialize (Hs2 eq_refl); lia]).
    destruct o as [|resp|resp conn ho]; [destruct (last_response t)|..]; by intros [= <- <-].
  - intros [= <- <-]. rewrite (sends_eq _ (trace r)) by by destruct recorded. lia.
Qed.

(** ** Admission *)

Definition client_of (connect : option (SocketAddr * option PeerIdentity)) : IpAddr * option PeerIdentity :=
  (match connect with Some ca => sa_ip ca.1 | None => V4 0x7f000001 end, connect ≫= snd).

(** Every gate in front of routing is open for this client. *)
Definition admitted (now : Z) (connect : option (SocketAddr * option PeerIdentity)) (s : ProxyState) : Prop :=
  shutdown s = false ∧
  acl_check (rl_acl (reloadable s)) (client_of connect).1 = Ok () ∧
  (rate_check now (client_of connect).1 (rate_limiter s)).1 = Ok () ∧
  match (client_of connect).2 with
  | None => allows_anonymous (client_auth s) = true
  | Some i => is_revoked (revocation s) i = false
  end.

Lemma reject_admitted now connect r r' :
  shutdown (state r) = false →
  reject_before_routing now (client_of connect).1 (client_of connect).2 r = (None, r') →
  admitted now connect (state r) ∧ reloadable (state r') = reloadable (state r).
Proof.
  intros Hsh. unfold reject_before_routing, admitted. destruct (acl_check _ _) as [[]|e]; [|done].
  destruct (rate_check _ _ _) as [[[]|e] l]; [|done]. cbn [is_err is_ok negb fst].
  destruct (client_of connect).2 as [i|].
  - destruct (is_revoked _ _); [done|]. by intros [= <-].
  - destruct (allows_anonymous _); [|done]. by intros [= <-].
Qed.

Lemma negotiate_reloadable now req identity r o r' :
  negotiate_cache now req identity r = (o, r') → reloadable (state r') = reloadable (state r).
Proof.
  unfold negotiate_cache, try_serve_from_cache. cbv zeta. destruct (negb _); [by intros [= <- <-]|].
  destruct (cache_get _ _ _) as [[hit|] c]; by intros [= <- <-].
Qed.

Lemma route_resolved path r info r' :
  route_and_admit path r = (Ok info, r') →
  ∃ resolved, resolve_backend_pool (reloadable (state r)) path = Ok resolved ∧ rr_pool resolved = ri_pool info.
Proof.
  unfold route_and_admit. destruct (resolve_backend_pool _ _) as [resolved|resp]; cbv zeta; [|done].
  cbv zeta. destruct (queue_entry _ _ _) as [l qs]. destruct (acquire_slot _ _) as [[[]|e] qs1]; [|done]. intros [= <- _]. by exists resolved.
Qed.

(** A request that reaches a backend was admitted, and is served by the pool of its route. *)
Lemma handler_serves env connect req r served r' :
  proxy_handler env connect req r = (served, r') →
  sent (trace r') = sent (trace r) ∨
  ∃ neg info resolved r3,
    serve env req (client_of connect).1 (client_of connect).2 neg info r3 = (served, r') ∧
    sent (trace r3) = sent (trace r) ∧ retry_config (state r3) = retry_config (state r) ∧
    admitted (ev_start env) connect (state r) ∧
    resolve_backend_pool (reloadable (state r)) (uri_path (req_uri req)) = Ok resolved ∧
    rr_pool resolved = ri_pool info.
Proof.
  unfold proxy_handler, admit_client. destruct (shutdown (state r)) eqn:Hsh; [intros [= <- <-]; by left|].
  change (match connect with Some ca => sa_ip ca.1 | None => _ end) with (client_of connect).1.
  change (connect ≫= snd) with (client_of connect).2.
  destruct (reject_before_routing _ _ _ _) as [o r1] eqn:Hrej.
  pose proof (reject_quiet _ _ _ _ _ _ Hrej) as [[Hs1 _] Hcfg1]. cbn in Hs1, Hcfg1.
  destruct o as [resp|]; [intros [= <- <-]; by left|]. apply reject_admitted in Hrej as [Hadm Hrl1]; [|done].
  destruct (negotiate_cache _ _ _ r1) as [dec r2] eqn:Hneg.
  pose proof (negotiate_quiet _ _ _ _ _ _ Hneg) as [[Hs2 _] Hcfg2]. apply negotiate_reloadable in Hneg as Hrl2.
  destruct dec as [resp|neg]; [intros [= <- <-]; left; cbn; congruence|].
  destruct (route_and_admit _ r2) as [res r3] eqn:Hroute.
  pose proof (route_trace _ _ _ _ Hroute) as (Hs3 & _ & Hcfg3).
  destruct res as [info|resp]; [|intros [= <- <-]; left; cbn; congruence].
  apply route_resolved in Hroute as (resolved & Hres & Hpool). rewrite Hrl2, Hrl1 in Hres.
  intros Hserve. right. exists neg, info, resolved, r3. split_and!; (done || congruence).
Qed.

(** The handler sends at most as often as the attempts it takes from the retry settings it finds
    once the body has been read, in a state [s]. *)
Lemma handler_sends `{!HttpLaws} env connect req r served r' :
  proxy_handler env connect req r = (served, r') →
  ∃ s, retry_config s = retry_config (state r) ∧
    (sends (trace r') ≤ sends (trace r) +
       Z.to_nat (attempts_for (retries_permitted (req_method req) (req_headers req))
                   (retry_config (ev_body_await env s))))%nat.
Proof.
  intros [Heq%sends_eq|(neg & info & resolved & r3 & Hs & Heq%sends_eq & Hcfg & _)]%handler_serves;
    [exists (state r); split; [done|lia]|].
  exists (state r3). split; [done|]. apply serve_sends in Hs. rewrite Heq in Hs.
  destruct (prepare_replay_body _ _ _ _ _ _) as [[replay n|resp] recorded] eqn:Hp; cbn [fst] in Hs; [|lia].
  apply prepare_attempts in Hp as (req' & -> & Hm & Hh').
  assert (retries_permitted (req_method req') (req_headers req') =
          retries_permitted (req_method req) (req_headers req)) as <-.
  { rewrite Hm. destruct Hh' as [->|[v ->]]; [done|]. apply retries_permitted_rewritten. }
  destruct (body_bytes replay); lia.
Qed.

(** C36. A request that is not safe to replay reaches a backend at most once, whatever fails: when
    the method is not idempotent and the client sent no idempotency key, the handler hands
    it to a backend at most one time.  Any other request is sent at most [max_retries + 1]
    times. *)
Theorem request_send_bound `{!HttpLaws} env connect req r served r' :
  (∀ s, retry_config (ev_body_await env s) = retry_config s) →
  0 ≤ max_retries (retry_config (state r)) →
  proxy_handler env connect req r = (served, r') →
  (sends (trace r') ≤ sends (trace r) +
     if retries_permitted (req_method req) (req_headers req)
     then Z.to_nat (max_retries (retry_config (state r)) + 1) else 1)%nat.
Proof.
  intros Hawait Hmax (s & Hcfg & Hs)%handler_sends. rewrite Hawait, Hcfg in Hs. unfold attempts_for in Hs.
  destruct (retries_permitted (req_method req) (req_headers req)); [|done].
  assert (wrap32 (max_retries (retry_config (state r)) + 1) ≤ max_retries (retry_config (state r)) + 1)
    by (unfold wrap32; apply Z.mod_le; lia).
  lia.
Qed.

(** C20. A client that any gate refuses touches nothing behind it.  When the proxy is draining, or
    access control, the rate limit, the identity requirement or the revocation list refuse
    the client, the answer is 503 (only while draining), 429 or 403; nothing is sent, no
    guard is kept, and the cache, the queues, the connections and the breakers are those
    before the request. *)
Theorem refused_client_isolated env connect req r served r' :
  ¬ admitted (ev_start env) connect (state r) →
  proxy_handler env connect req r = (served, r') →
  (res_status (sv_response served) = 503 ∧ shutdown (state r) = true ∨
   res_status (sv_response served) = 429 ∨ res_status (sv_response served) = 403) ∧
  sv_guards served = None ∧ sends (trace r') = sends (trace r) ∧
  response_cache (state r') = response_cache (state r) ∧ queues (state r') = queues (state r) ∧
  conn_pool (state r') = conn_pool (state r) ∧ circuit_breakers (state r') = circuit_breakers (state r).
Proof.
  intros Hna. unfold proxy_handler, admit_client.
  destruct (shutdown (state r)) eqn:Hsh; [intros [= <- <-]; split_and!; cbn; auto|].
  unfold admitted, client_of in Hna. rewrite Hsh in Hna. cbn [fst snd] in Hna.
  unfold reject_before_routing. cbn [state emit].
  destruct (acl_check _ _) as [[]|e]; cbn [is_err is_ok negb];
    [|intros [= <- <-]; split_and!; cbn; auto].
  destruct (rate_check _ _ _) as [[[]|e] l]; cbn [is_err is_ok negb fst] in *;
    [|intros [= <- <-]; split_and!; cbn; auto].
  destruct (connect ≫= snd) as [i|].
  - destruct (is_revoked _ _) eqn:Hrev; [intros [= <- <-]; split_and!; cbn; auto|].
    exfalso. apply Hna. split_and!; done.
  - destruct (allows_anonymous _) eqn:Han; [|intros [= <- <-]; split_and!; cbn; auto].
    exfalso. apply Hna. split_and!; done.
Qed.

(** ** What may be stored *)

(** An attempt changes the cache only by a store its directives allow. *)
Lemma finish_stores env attempt cx sel response parts r out r' :
  (∀ s, response_cache (ev_collect_await env attempt s) = response_cache s) →
  finish_attempt env attempt cx sel response parts r = (out, r') →
  response_cache (state r') ≠ response_cache (state r) →
  should_cache_response cx (state r) response (from_response response) = true ∧
  no_store (from_response response) = false ∧ is_private (from_response response) = false.
Proof.
  intros Hawait. unfold finish_attempt. cbv zeta.
  set (r1 := if (500 <=? res_status response) && _ then _ else _).
  assert (response_cache (state r1) = response_cache (state r) ∧
          cache_config (state r1) = cache_config (state r)) as [Hc1 Hcfg]
    by (subst r1; by destruct (_ && (res_status response <=? 599))).
  clearbody r1. assert (should_cache_response cx (state r1) response (from_response response) =
    should_cache_response cx (state r) response (from_response response)) as -> by (unfold should_cache_response; by rewrite Hcfg).
  destruct (should_cache_response _ _ _ _) eqn:Hsh.
  - unfold store_and_respond. destruct (collect _ _); cbv zeta.
    + destruct (cache_put _ _ _ _ _ _ _) as [stored c] eqn:Hput. intros [= <- <-] Hne. cbn in Hne.
      cbn [state on_state set_state] in Hput. rewrite Hawait in Hput. unfold cache_put in Hput.
      destruct (no_store _ || is_private _) eqn:Hns; [injection Hput as _ <-; congruence|]. by bool_hyps.
    + intros [= <- <-]. cbn. rewrite Hawait. congruence.
  - intros [= <- <-]. cbn. congruence.
Qed.

(** A header with at most one line is the line that is read. *)
Lemma one_line {A} (l : list A) v v' : (length l ≤ 1)%nat → head l = Some v → v' ∈ l → v' = v.
Proof. destruct l as [|x [|y l]]; cbn; intros; [done|set_solver|lia]. Qed.

(** C21. The shared cache only changes with the backend's consent: when an attempt stores its
    response, caching is on, the request was negotiated as cacheable and has no cookie, and the
    response is a plain 200 without a content encoding.  Its first Cache-Control line names
    public and neither no-store nor private, and its first Vary line, when it is readable, lists
    nothing but what the cache key already separates.  Only the first lines are read: this is
    the consent of the whole response when it has at most one line of each. *)
Theorem stored_with_consent env attempt cx sel response parts r out r' :
  (∀ s, response_cache (ev_collect_await env attempt s) = response_cache s) →
  finish_attempt env attempt cx sel response parts r = (out, r') →
  response_cache (state r') ≠ response_cache (state r) →
  let lines := get_all (res_headers response) in
  cache_enabled (cache_config (state r)) = true ∧
  is_cacheable_method (cx_negotiation cx) = true ∧ request_has_cookie (cx_negotiation cx) = false ∧
  res_status response = 200 ∧ lines "content-encoding" = [] ∧
  (∃ v line, head (lines "cache-control") = Some v ∧ to_str v = Some line ∧
     (∃ part, part ∈ split "," line ∧ names "public" part = true) ∧
     ∀ part, part ∈ split "," line → names "no-store" part = false ∧ names "private" part = false) ∧
  (∀ v line token, head (lines "vary") = Some v → to_str v = Some line → token ∈ split "," line →
     to_ascii_lowercase (trim token) ∈ KEYED_VARY) ∧
  ((length (lines "cache-control") ≤ 1)%nat →
     ∀ v line part, v ∈ lines "cache-control" → to_str v = Some line → part ∈ split "," line →
       names "no-store" part = false ∧ names "private" part = false).
Proof.
  intros Hawait Hfin Hne.
  assert (should_cache_response cx (state r) response (from_response response) = true ∧
          no_store (from_response response) = false ∧ is_private (from_response response) = false) as (Hsh & Hns & Hpr)
    by (by eapply finish_stores).
  unfold should_cache_response, is_cacheable_status, response_permits_shared_caching in Hsh. bool_hyps.
  destruct (from_response_public response) as (v & line & Hv & Hl & E); [done|]. rewrite E in *.
  cbn in Hns, Hpr. rewrite existsb_elem_of_false in Hns, Hpr.
  assert (∀ part, part ∈ split "," line → names "no-store" part = false ∧ names "private" part = false) as Hno by naive_solver.
  split_and!; try done.
  - unfold response_is_encoded, contains_key in *. by destruct (get_all _ "content-encoding").
  - exists v, line. split_and!; [done|done| |done]. by apply existsb_elem_of.
  - by apply vary_permits_iff.
  - intros Hone v' line' part Hv' Hl' Hpart. rewrite (one_line _ _ _ Hone Hv Hv') in Hl'. simplify_eq. by apply Hno.
Qed.

(** ** What modelling showed *)

(** A retryable answer on the final attempt is charged twice: the breaker records a failure
    for the retryable status and then, for a 5xx, a second one for the same answer (for a
    429 it records a success, which forgives the failure just counted). *)
Theorem final_retryable_counts_twice env attempt cx sel response parts t r out t' r' :
  let b := Balancer.id (sel_backend sel) in
  let charged := record_failure (circuit_breakers (state r)) (ev_done env attempt) b in
  is_retryable_status (res_status response) = true → cx_max_attempts cx ≤ attempt + 1 →
  handle_response env attempt cx sel (Ok response) parts t r = (out, t', r') →
  circuit_breakers (state r') =
    if res_status response =? STATUS_TOO_MANY_REQUESTS then record_success charged b
    else record_failure charged (ev_done env attempt) b.
Proof.
  cbv zeta. intros Hre Hmax. unfold handle_response. rewrite Hre.
  rewrite (proj2 (Z.ltb_ge _ _)) by lia. cbn [andb].
  unfold finish_attempt, should_cache_response, is_cacheable_status. cbv zeta.
  assert ((res_status response =? 200) = false) as ->.
  { unfold is_retryable_status, STATUS_BAD_GATEWAY, STATUS_SERVICE_UNAVAILABLE, STATUS_TOO_MANY_REQUESTS in Hre.
    destruct (Z.eqb_spec (res_status response) 200) as [He|]; [by rewrite He in Hre|done]. }
  rewrite andb_false_r. cbn [andb]. intros [= <- <- <-].
  assert ((500 <=? res_status response) && (res_status response <=? 599) =
    negb (res_status response =? STATUS_TOO_MANY_REQUESTS)) as ->.
  { unfold is_retryable_status, STATUS_BAD_GATEWAY, STATUS_SERVICE_UNAVAILABLE, STATUS_TOO_MANY_REQUESTS in *.
    apply orb_true_iff in Hre as [[He|He]%orb_true_iff|He]; apply Z.eqb_eq in He; by rewrite He. }
  by destruct (_ =? STATUS_TOO_MANY_REQUESTS).
Qed.

(** A client whose certificate name is not a valid header value fails the backend: its
    request is not sent, and on the final attempt the selected backend's breaker is charged
    a failure all the same. *)
Theorem unprintable_identity_charges_backend env attempt cx replay t r i sel t1 r1 req replay1 out replay' t' r' :
  cx_identity cx = Some i → value_from_str (common_name i) = None →
  cx_max_attempts cx ≤ attempt + 1 →
  select_and_gate (ev_now env attempt) cx t r = (Ok sel, t1, r1) →
  wakeable (sel_backend sel) = false → sel_half_open sel = None →
  build_retry_req replay = (Some req, replay1) →
  run_attempt env attempt cx replay t r = (out, replay', t', r') →
  sends (trace r') = sends (trace r) ∧
  circuit_breakers (state r') =
    record_failure (circuit_breakers (state (acquire_shared env attempt (sel_backend sel) r1).2)) (ev_done env attempt)
      (Balancer.id (sel_backend sel)).
Proof.
  intros Hid Hcn Hmax Hsel Hwake Hho Hreq. unfold run_attempt. rewrite Hsel, Hreq.
  apply select_and_gate_trace in Hsel as [Hs%sends_eq _].
  destruct (forward_request _ _ _ _ _ _ r1) as [res r2] eqn:Hf.
  assert (∃ e, res = Err e ∧ sends (trace r2) = sends (trace r1) ∧
    circuit_breakers (state r2) = circuit_breakers (state (acquire_shared env attempt (sel_backend sel) r1).2))
    as (e & -> & Hs2 & Hcb).
  { revert Hf. unfold forward_request. pose proof (acquire_shared_trace env attempt (sel_backend sel) r1) as Htr.
    destruct (acquire_shared _ _ _ _) as [sender r3]. cbn [snd] in *.
    destruct (_ ≫= _) as [h|e] eqn:Hb; [|intros [= <- <-]; eexists; by rewrite Htr]. exfalso.
    apply result_bind_ok in Hb as (snd & _ & Hb). unfold outbound_headers in Hb.
    apply result_bind_ok in Hb as (host & _ & (h1 & _ & (h2 & Hb & _)%result_bind_ok)%result_bind_ok).
    unfold apply_identity_headers, forward_value in Hb. rewrite Hid, Hcn in Hb. done. }
  unfold handle_response, handle_forward_error. rewrite Hwake. cbn [andb].
  rewrite (proj2 (Z.ltb_ge _ _)) by lia. cbv zeta. intros [= <- <- <- <-].
  unfold drop_selected, drop_probe. rewrite Hho. unfold sends in *. cbn. split; congruence.
Qed.

(** With [max_retries = u32::MAX] the attempt count wraps to zero in a release build: a
    retryable request is never sent and is answered 502. *)
Theorem retry_count_overflow env req ip identity neg info r served r' :
  request_is_zstd neg = false →
  retries_permitted (req_method req) (req_headers req) = true →
  max_retries (retry_config (ev_body_await env (state r))) = U32_MAX →
  serve env req ip identity neg info r = (served, r') →
  res_status (sv_response served) = 502 ∧ sends (trace r') = sends (trace r).
Proof.
  intros Hz Hret Hmax. unfold serve. cbv zeta. cbn [state on_state set_state].
  unfold prepare_replay_body. rewrite Hz, Hret. unfold attempts_for. rewrite Hmax.
  change (wrap32 (U32_MAX + 1)) with 0. cbn. by intros [= <- <-].
Qed.

End handler.

(** ** Witnesses *)

Definition demo_reloadable (acl : AccessControl) : ReloadableState :=
  {| router := Router_new [{| rc_path_prefix := "/"; rc_backend_id := "p"; rc_timeout_secs := None |}];
     backend_pools := {["p" := demo_pool]}; rl_acl := acl |}.

Definition demo_timeouts : TimeoutConfig :=
  {| connect_secs := 1; handshake_secs := 1; request_secs := 30; response_idle_secs := 60 |}.

(** Breakers that open at the second failure. *)
Definition demo_circuits : CircuitBreakers :=
  CircuitBreakers_new {| cfg_failure_threshold := 2; cfg_recovery_timeout_secs := 60;
                         cfg_half_open_max_requests := 1 |}.

Definition demo_state (retries : Z) : ProxyState :=
  {| reloadable := demo_reloadable (AccessControl_new [] []);
     revocation := RevocationSet_default; health_rx := HealthState_new; conn_pool := ConnPool_new;
     rate_limiter := limiter_per_second 100; queues := Queues_new; labels := ∅; default_queue_depth := 8;
     circuit_breakers := demo_circuits; shutdown := false; timeouts := demo_timeouts;
     proxy_config := Body.demo_config;
     compression_config := {| compression_enabled := false; compression_level := 3; min_bytes := 256 |};
     retry_config := {| max_retries := retries; base_delay_ms := 200; max_delay_ms := 2000; jitter_ms := 0 |};
     cache_config := Cache.demo_cfg; response_cache := ResponseCache_new Cache.demo_cfg;
     client_auth := Required |}.

Definition demo_run (retries : Z) : Run := {| state := demo_state retries; trace := [] |}.

(** A quiet environment in which every backend answers [status]. *)
Definition demo_env (status : Z) (headers : list (string * string)) : Env :=
  {| ev_start := 0; ev_panicked := false; ev_body_await s := s; ev_now _ := 0; ev_done _ := 1;
     ev_net _ := demo_net; ev_net_back _ := demo_net; ev_dial_await _ s := s; ev_open_await _ s := s; ev_inject _ := [];
     ev_send _ := Answer (Ok (status, headers, 0%nat)); ev_send_await _ s := s; ev_parked _ := false;
     ev_park_await _ s := s; ev_collect_await _ s := s; ev_random _ := 0; ev_sleep_await _ _ s := s |}.

Definition demo_chunks (n : nat) : list string * StreamEnd := (["hi"], Finished).

Definition demo_client : option (SocketAddr * option PeerIdentity) :=
  Some ({| sa_ip := V4 7; sa_port := 4000 |}, Some demo_identity).

Definition demo_req (method : string) : Request Body :=
  Build_Request method {| uri_path := "/a"; uri_path_and_query := None |} hm_new (Bytes "b").

Definition demo_handle (status retries : Z) (headers : list (string * string)) (method : string) : Served * Run :=
  proxy_handler demo_ln demo_chunks (demo_env status headers) demo_client (demo_req method) (demo_run retries).

Lemma handler_releases_guards_witness :
  outstanding (RQueue "p" 0)
    (trace (complete (demo_handle 200 2 [] "POST").1 (demo_handle 200 2 [] "POST").2)) = 0.
Proof.
  apply (handler_releases_guards demo_ln demo_chunks (demo_env 200 []) demo_client (demo_req "POST")
           (demo_run 2)). apply surjective_pairing.
Defined.

Lemma request_send_bound_witness :
  (sends (trace (demo_handle 503 2 [] "POST").2) ≤ 1)%nat.
Proof.
  apply (request_send_bound demo_ln demo_chunks (demo_env 503 []) demo_client (demo_req "POST")
           (demo_run 2) (demo_handle 503 2 [] "POST").1).
  - reflexivity.
  - discriminate.
  - apply surjective_pairing.
Defined.

Lemma refused_client_isolated_witness :
  res_status (sv_response (proxy_handler demo_ln demo_chunks (demo_env 200 []) None (demo_req "GET")
    (demo_run 2)).1) = 403.
Proof.
  destruct (refused_client_isolated demo_ln demo_chunks (demo_env 200 []) None (demo_req "GET") (demo_run 2)
    (proxy_handler demo_ln demo_chunks (demo_env 200 []) None (demo_req "GET") (demo_run 2)).1
    (proxy_handler demo_ln demo_chunks (demo_env 200 []) None (demo_req "GET") (demo_run 2)).2)
    as [[[_ H]|[H|H]] _].
  - intros (_ & _ & _ & H). discriminate H.
  - apply surjective_pairing.
  - discriminate H.
  - vm_compute in H. discriminate H.
  - exact H.
Defined.

Definition demo_negotiation : CacheNegotiation :=
  {| is_cacheable_method := true; accepts_zstd := false; request_is_zstd := false;
     request_has_cookie := false; cache_identity_hex := Some "aa" |}.

Definition demo_cx (max : Z) (identity : PeerIdentity) : RequestCtx :=
  {| cx_pool := demo_pool; cx_client_ip := V4 7; cx_identity := Some identity; cx_backend_id := "p";
     cx_cache_identity := "aa"; cx_max_attempts := max; cx_negotiation := demo_negotiation |}.

Definition demo_selected : Selected := {| sel_backend := demo_backend "a"; sel_half_open := None |}.

Definition demo_parts : Parts :=
  {| pt_method := "GET"; pt_uri := {| uri_path := "/a"; uri_path_and_query := None |}; pt_headers := hm_new |}.

Definition demo_answer (status : Z) (headers : list (string * string)) : Response Body :=
  Build_Response status headers (Stream 0).

Lemma stored_with_consent_witness :
  let h := res_headers (demo_answer 200 [("cache-control", "public")]) in
  ∃ v line, head (get_all h "cache-control") = Some v ∧ to_str v = Some line ∧
    (∃ part, part ∈ split "," line ∧ names "public" part = true) ∧
    ∀ part, part ∈ split "," line → names "no-store" part = false ∧ names "private" part = false.
Proof.
  pose (res := finish_attempt demo_chunks (demo_env 200 []) 0 (demo_cx 3 demo_identity) demo_selected
    (demo_answer 200 [("cache-control", "public")]) demo_parts (demo_run 2)).
  eapply (stored_with_consent demo_chunks (demo_env 200 []) 0 (demo_cx 3 demo_identity) demo_selected
    (demo_answer 200 [("cache-control", "public")]) demo_parts (demo_run 2) res.1 res.2).
  - reflexivity.
  - apply surjective_pairing.
  - intros He. apply (f_equal cache_len) in He. vm_compute in He. discriminate He.
Defined.

(** A backend that refuses storage on a second line is not heard: the response is stored. *)
Example second_line_ignored :
  let response := demo_answer 200 [("cache-control", "public"); ("cache-control", "private, no-store")] in
  (length (get_all (res_headers response) "cache-control") = 2)%nat ∧
  cache_len (response_cache (state (finish_attempt demo_chunks (demo_env 200 []) 0 (demo_cx 3 demo_identity)
    demo_selected response demo_parts (demo_run 2)).2)) = 1.
Proof. split; vm_compute; reflexivity. Qed.

(** One answer 503 opens the breaker that is configured to open at the second failure. *)
Definition demo_final : AttemptOutcome * RetryState * Run :=
  handle_response demo_chunks (demo_env 503 []) 0 (demo_cx 1 demo_identity) demo_selected
    (Ok (demo_answer 503 [])) demo_parts RetryState_new (demo_run 2).

Lemma final_retryable_counts_twice_witness :
  (check (circuit_breakers (state demo_final.2)) 2 "a").2.1 = Open.
Proof.
  rewrite (final_retryable_counts_twice demo_chunks (demo_env 503 []) 0 (demo_cx 1 demo_identity)
    demo_selected (demo_answer 503 []) demo_parts RetryState_new (demo_run 2)
    demo_final.1.1 demo_final.1.2 demo_final.2); [vm_compute; reflexivity|reflexivity|done|reflexivity].
Defined.

Definition odd_identity : PeerIdentity := {| common_name := String "233" "clair"; spki_sha256 := [1] |}.

Lemma unprintable_identity_charges_backend_witness :
  ∃ r', (run_attempt demo_ln demo_chunks (demo_env 200 []) 0 (demo_cx 1 odd_identity)
    {| body_bytes := Some "b"; streaming_body := None; req_parts := demo_parts |} RetryState_new
    (demo_run 2)).2 = r' ∧ sends (trace r') = 0%nat.
Proof.
  eexists. split; [reflexivity|].
  pose (res := run_attempt demo_ln demo_chunks (demo_env 200 []) 0 (demo_cx 1 odd_identity)
    {| body_bytes := Some "b"; streaming_body := None; req_parts := demo_parts |} RetryState_new (demo_run 2)).
  pose (gate := select_and_gate demo_ln 0 (demo_cx 1 odd_identity) RetryState_new (demo_run 2)).
  assert (∃ sel, gate.1.1 = Ok sel ∧ wakeable (sel_backend sel) = false ∧ sel_half_open sel = None)
    as (sel & Hsel & Hw & Hh) by (eexists; split_and!; vm_compute; reflexivity).
  eapply (unprintable_identity_charges_backend demo_ln demo_chunks (demo_env 200 []) 0 (demo_cx 1 odd_identity)
    {| body_bytes := Some "b"; streaming_body := None; req_parts := demo_parts |} RetryState_new (demo_run 2)
    odd_identity sel gate.1.2 gate.2 _ _ res.1.1.1 res.1.1.2 res.1.2 res.2);
    [reflexivity|reflexivity|discriminate|..|exact Hw|exact Hh|reflexivity|].
  - rewrite <-Hsel. unfold gate. clear. by destruct (select_and_gate _ _ _ _ _) as [[??]?].
  - unfold res. by destruct (run_attempt _ _ _ _ _ _ _ _) as [[[??]?]?].
Defined.

Definition demo_info : RouteInfo :=
  {| ri_backend_id := "p"; ri_pool := demo_pool; ri_request_timeout := from_secs 30;
     ri_response_idle_timeout := from_secs 60; ri_queue_permit := 0 |}.

Definition demo_overflow : Served * Run :=
  serve demo_ln demo_chunks (demo_env 200 []) (demo_req "GET") (V4 7) (Some demo_identity)
    demo_negotiation demo_info (demo_run U32_MAX).

Lemma retry_count_overflow_witness : res_status (sv_response demo_overflow.1) = 502.
Proof.
  apply (retry_count_overflow demo_ln demo_chunks (demo_env 200 []) (demo_req "GET") (V4 7)
    (Some demo_identity) demo_negotiation demo_info (demo_run U32_MAX) demo_overflow.1 demo_overflow.2);
    [reflexivity|reflexivity|reflexivity|apply surjective_pairing].
Defined.
