(* ===== verification/Config.v ===== *)
(** * Config: [src/config/]

    The configuration: its sections with their defaults, the wire form of a backend, the
    cross-field validation that runs on load and on every reload, and the diff that names
    the sections a reload cannot change.  Parsing the TOML text is [toml]'s and a parameter
    of the loader (file Reload). *)

From Stdlib Require Import Ascii SpecFloat.
From S2P Require Import Prelude Text Error Net Lru Float64 Cache Circuit Acl Retry Router Identity.
From S2P Require Import Balancer IngressProtocol Udp Pool Body Handler.
Local Open Scope Z_scope.

(** ** Listeners *)

Record ListenConfig := {
  li_address : SocketAddr;
  li_transport : TransportKind;
  li_client_auth : ClientAuthPolicy;
}.

Record HttpRedirectConfig := {
  hr_enabled : bool;
  hr_listen : SocketAddr;
  hr_to_host : string;
}.

Definition HttpRedirectConfig_default : HttpRedirectConfig :=
  {| hr_enabled := false; hr_listen := {| sa_ip := V4 0; sa_port := 80 |}; hr_to_host := "" |}.

Record HealthEndpointConfig := {
  he_enabled : bool;
  he_listen : SocketAddr;
}.

Definition HealthEndpointConfig_default : HealthEndpointConfig :=
  {| he_enabled := false; he_listen := {| sa_ip := V4 0x7f000001; sa_port := 9090 |} |}.

Definition builds_verifier (p : ClientAuthPolicy) : bool :=
  match p with Disabled => false | _ => true end.

Definition is_mandatory (p : ClientAuthPolicy) : bool :=
  match p with Required => true | _ => false end.

(** ** TLS *)

Record TlsIdentity := {
  ti_cert_path : string;
  ti_key_path : string;
  ti_ca_cert_path : string;
  ti_crl_path : option string;
}.

Record BarrelStateConfig := {
  bs_env_var : string;
  bs_persist_command : list string;
}.

Record AcmeTlsConfig := {
  ac_domains : list string;
  ac_email : string;
  ac_ca_cert_path : option string;
  ac_cache_dir : string;
  ac_staging : bool;
  ac_directory_url : option string;
  ac_directory_ca_cert : option string;
  ac_barrel_state : option BarrelStateConfig;
}.

(** The crate as built with its [acme] feature. *)
Inductive ServerTlsConfig :=
  | Manual (identity : TlsIdentity)
  | Acme (acme : AcmeTlsConfig).

Definition ca_cert_path (s : ServerTlsConfig) : option string :=
  match s with
  | Manual identity => Some (ti_ca_cert_path identity)
  | Acme acme => ac_ca_cert_path acme
  end.

Definition as_manual (s : ServerTlsConfig) : option TlsIdentity :=
  match s with Manual identity => Some identity | Acme _ => None end.

Record TlsConfig := {
  tls_server : ServerTlsConfig;
  tls_client : option TlsIdentity;
}.

(** ** Sections *)

Definition HARD_MAX_BACKENDS : Z := 256.

Record BalancerConfig := {
  bc_queue_depth : Z;
  bc_drain_timeout_secs : Z;
  bc_max_backends : Z;
}.

Definition BalancerConfig_default : BalancerConfig :=
  {| bc_queue_depth := 1000; bc_drain_timeout_secs := 30; bc_max_backends := 64 |}.

Definition validate_max_backends (max_backends : Z) : result string unit :=
  if max_backends =? 0 then Err "max_backends must be at least 1"
  else if HARD_MAX_BACKENDS <? max_backends then
    Err ("max_backends " +:+ pretty max_backends +:+ " exceeds hard limit " +:+ pretty HARD_MAX_BACKENDS)
  else Ok ().

(** [BalancerConfig::deserialize] on the fields of its wire form, an absent one [None]. *)
Definition BalancerConfig_deserialize (queue_depth drain_timeout_secs max_backends : option Z)
    : result string BalancerConfig :=
  let max_backends := default 64 max_backends in
  _ ← validate_max_backends max_backends;
  Ok {| bc_queue_depth := default 1000 queue_depth;
        bc_drain_timeout_secs := default 30 drain_timeout_secs; bc_max_backends := max_backends |}.

Definition TimeoutConfig_default : TimeoutConfig :=
  {| connect_secs := 5; handshake_secs := 5; request_secs := 30; response_idle_secs := 60 |}.

Record RateLimitConfig := {
  rl_requests_per_second : Z;
  rl_retain_interval_secs : Z;
}.

Definition RateLimitConfig_default : RateLimitConfig :=
  {| rl_requests_per_second := U32_MAX; rl_retain_interval_secs := 300 |}.

Record TracingConfig := {
  tr_otlp_endpoint : option string;
  tr_sample_ratio : f64;
}.

Definition TracingConfig_default : TracingConfig :=
  {| tr_otlp_endpoint := None; tr_sample_ratio := f64_one |}.

Definition ProxyConfig_default : ProxyConfig :=
  {| max_response_body_bytes := 10 * 1024 * 1024; max_request_body_bytes := 10 * 1024 * 1024;
     h2_connections_per_backend := 4; max_idle_quic := 16;
     pc_h2_stream_window := 2 * 1024 * 1024; pc_h2_conn_window := 4 * 1024 * 1024;
     inline_compress_threshold := 8192; quic_channel_capacity := 256; wake_timeout_secs := 30 |}.

Definition CompressionConfig_default : CompressionConfig :=
  {| compression_enabled := true; compression_level := 3; min_bytes := 256 |}.

(** A park may outlast the request: the default wake timeout is not below the default request
    timeout, which the comment on the field asks for and no validation checks. *)
Lemma default_wake_timeout_not_below : ¬ wake_timeout_secs ProxyConfig_default < request_secs TimeoutConfig_default.
Proof. cbn. lia. Qed.

Record HealthConfig := {
  hc_staleness_ttl_secs : Z;
  hc_latency_threshold_ms : Z;
}.

Definition HealthConfig_default : HealthConfig :=
  {| hc_staleness_ttl_secs := 300; hc_latency_threshold_ms := 500 |}.

Definition CircuitBreakerConfig_default : CircuitBreakerConfig :=
  {| cfg_failure_threshold := 5; cfg_recovery_timeout_secs := 60; cfg_half_open_max_requests := 2 |}.

Definition RetryConfig_default : RetryConfig :=
  {| max_retries := 2; base_delay_ms := 200; max_delay_ms := 2000; jitter_ms := 100 |}.

Record TunnelConfig := {
  tc_enabled : bool;
  tc_listen_address : option SocketAddr;
  tc_heartbeat_timeout_secs : Z;
  tc_allowed_backend_ids : list string;
  tc_max_sessions_per_backend : Z;
  tc_registration_timeout_secs : Z;
  tc_control_channel_capacity : Z;
  tc_revocation_path : option string;
  tc_max_total_sessions : option Z;
  tc_max_accepts_per_second_per_ip : option Z;
  tc_control_plane_health : bool;
}.

Definition TunnelConfig_default : TunnelConfig :=
  {| tc_enabled := false; tc_listen_address := None; tc_heartbeat_timeout_secs := 45;
     tc_allowed_backend_ids := []; tc_max_sessions_per_backend := 8;
     tc_registration_timeout_secs := 10; tc_control_channel_capacity := 16;
     tc_revocation_path := None; tc_max_total_sessions := None;
     tc_max_accepts_per_second_per_ip := None; tc_control_plane_health := false |}.

Definition CacheConfig_default : CacheConfig :=
  {| cache_enabled := false; max_entries := 1000; max_entry_bytes := 1024 * 1024; default_ttl_secs := 60 |}.

#[export] Instance ClientAuthPolicy_eq_dec : EqDecision ClientAuthPolicy.
Proof. solve_decision. Defined.
#[export] Instance TlsIdentity_eq_dec : EqDecision TlsIdentity.
Proof. solve_decision. Defined.
#[export] Instance BarrelStateConfig_eq_dec : EqDecision BarrelStateConfig.
Proof. solve_decision. Defined.
#[export] Instance AcmeTlsConfig_eq_dec : EqDecision AcmeTlsConfig.
Proof. solve_decision. Defined.
#[export] Instance ServerTlsConfig_eq_dec : EqDecision ServerTlsConfig.
Proof. solve_decision. Defined.
#[export] Instance TimeoutConfig_eq_dec : EqDecision TimeoutConfig.
Proof. solve_decision. Defined.
#[export] Instance RateLimitConfig_eq_dec : EqDecision RateLimitConfig.
Proof. solve_decision. Defined.
#[export] Instance ProxyConfig_eq_dec : EqDecision ProxyConfig.
Proof. solve_decision. Defined.
#[export] Instance CompressionConfig_eq_dec : EqDecision CompressionConfig.
Proof. solve_decision. Defined.
#[export] Instance HealthConfig_eq_dec : EqDecision HealthConfig.
Proof. solve_decision. Defined.
#[export] Instance CircuitBreakerConfig_eq_dec : EqDecision CircuitBreakerConfig.
Proof. solve_decision. Defined.
#[export] Instance RetryConfig_eq_dec : EqDecision RetryConfig.
Proof. solve_decision. Defined.
#[export] Instance TunnelConfig_eq_dec : EqDecision TunnelConfig.
Proof. solve_decision. Defined.
#[export] Instance CacheConfig_eq_dec : EqDecision CacheConfig.
Proof. solve_decision. Defined.
#[export] Instance RawRelayAuthzEntry_eq_dec : EqDecision RawRelayAuthzEntry.
Proof. solve_decision. Defined.
#[export] Instance RouteConfig_eq_dec : EqDecision RouteConfig.
Proof. solve_decision. Defined.

(** The derived [PartialEq] of the sections that hold a float: [f64]'s own equality. *)
Definition f64_eqb (a b : f64) : bool := SFeqb a b.

Definition TracingConfig_eqb (a b : TracingConfig) : bool :=
  bool_decide (tr_otlp_endpoint a = tr_otlp_endpoint b) && f64_eqb (tr_sample_ratio a) (tr_sample_ratio b).

Definition BackendConfig_eqb (a b : BackendConfig) : bool :=
  bool_decide (id a = id b) && bool_decide (pool a = pool b) && bool_decide (address a = address b) &&
  bool_decide (Balancer.host a = Balancer.host b) && f64_eqb (weight a) (weight b) &&
  bool_decide (transport a = transport b) && bool_decide (scheme a = scheme b) &&
  (max_connections a =? max_connections b) && bool_decide (wakeable a = wakeable b).

(** ** The wire form of a backend *)

Record BackendWire := {
  bw_id : string;
  bw_pool : option string;
  bw_host : option string;
  bw_address : string;
  bw_weight : f64;
  bw_transport : TransportKind;
  bw_scheme : option BackendScheme;
  bw_max_connections : option Z;
  bw_wakeable : option bool;
}.

(** [BackendConfig::deserialize]; [parse_addr] is [SocketAddr::from_str]. *)
Definition BackendConfig_deserialize (parse_addr : string → result string SocketAddr) (wire : BackendWire)
    : result string BackendConfig :=
  address ← match parse_addr (bw_address wire) with
            | Ok a => Ok a
            | Err e => Err ("invalid backend address '" +:+ bw_address wire +:+ "': " +:+ e)
            end;
  _ ← validate_weight (bw_weight wire);
  let max_connections := default DEFAULT_MAX_CONNECTIONS (bw_max_connections wire) in
  _ ← validate_max_connections max_connections;
  id ← ok_or (array_string_from 256 (bw_id wire))
         ("backend id '" +:+ bw_id wire +:+ "' exceeds 256 characters");
  pool ← match bw_pool wire with
         | Some p => ok_or (array_string_from 32 p) ("pool name '" +:+ p +:+ "' exceeds 32 characters")
         | None => ok_or (array_string_from 32 id)
                     ("backend id '" +:+ bw_id wire +:+ "' exceeds 32 characters for default pool name")
         end;
  Ok {| id := id; pool := pool; address := address;
        Balancer.host := default (ip_to_string (sa_ip address)) (bw_host wire);
        weight := bw_weight wire; transport := bw_transport wire;
        scheme := default Https (bw_scheme wire); max_connections := max_connections;
        wakeable := default false (bw_wakeable wire) |}.

(** [BackendConfig::serialize]: a default scheme and a false [wakeable] are left out. *)
Definition BackendConfig_serialize (b : BackendConfig) : BackendWire :=
  {| bw_id := id b; bw_pool := Some (pool b); bw_host := Some (Balancer.host b);
     bw_address := addr_to_string (address b); bw_weight := weight b; bw_transport := transport b;
     bw_scheme := if is_plaintext (scheme b) then Some (scheme b) else None;
     bw_max_connections := Some (max_connections b);
     bw_wakeable := if wakeable b then Some true else None |}.

(** What the deserializer guarantees of a backend. *)
Definition backend_typed (b : BackendConfig) : Prop :=
  validate_weight (weight b) = Ok () ∧ max_connections b ≠ 0 ∧ slen (id b) ≤ 256 ∧ slen (pool b) ≤ 32.

Lemma array_string_from_some cap s t : array_string_from cap s = Some t → t = s ∧ slen s ≤ cap.
Proof. unfold array_string_from. destruct (cap <? slen s) eqn:E; bool_hyps; naive_solver. Qed.

Lemma array_string_from_fits cap s : slen s ≤ cap → array_string_from cap s = Some s.
Proof. intros. unfold array_string_from. by rewrite (proj2 (Z.ltb_ge _ _)). Qed.

Lemma ok_or_ok {E A} (o : option A) (e : E) a : ok_or o e = Ok a ↔ o = Some a.
Proof. destruct o; naive_solver. Qed.

(** A backend that parses has a finite, non-negative weight, room for a connection and names
    within their bounds; and writing it out and parsing it again gives it back, the omitted
    defaults included, when its address reads back. *)
Theorem backend_wire_roundtrip (parse_addr : string → result string SocketAddr) (wire : BackendWire)
    (b : BackendConfig) :
  BackendConfig_deserialize parse_addr wire = Ok b →
  parse_addr (addr_to_string (address b)) = Ok (address b) →
  backend_typed b ∧ BackendConfig_deserialize parse_addr (BackendConfig_serialize b) = Ok b.
Proof.
  intros Hd Haddr. assert (backend_typed b) as Hty.
  { unfold BackendConfig_deserialize in Hd. apply result_bind_ok in Hd as (a & _ & Hd).
    apply result_bind_ok in Hd as ([] & Hw & Hd). apply result_bind_ok in Hd as ([] & Hm & Hd).
    apply result_bind_ok in Hd as (i & Hi & Hd). apply result_bind_ok in Hd as (p & Hp & <-%(inj Ok)).
    apply ok_or_ok, array_string_from_some in Hi as [-> Hi].
    assert (slen p ≤ 32).
    { destruct (bw_pool wire); apply ok_or_ok, array_string_from_some in Hp as [-> ?]; done. }
    unfold validate_max_connections in Hm. destruct (_ =? 0) eqn:E; bool_hyps; [done|]. by split_and!. }
  split; [done|]. destruct Hty as (Hw & Hm & Hi & Hp).
  unfold BackendConfig_deserialize, BackendConfig_serialize. cbn [bw_address]. rewrite Haddr. cbn.
  rewrite Hw. cbn. unfold validate_max_connections. rewrite (proj2 (Z.eqb_neq _ _)) by done. cbn.
  rewrite !array_string_from_fits by done. cbn. destruct b as [? ? ? ? ? ? [] ? []]; reflexivity.
Qed.

Definition demo_wire : BackendWire :=
  {| bw_id := "api"; bw_pool := None; bw_host := None; bw_address := "10.0.0.1:8080"; bw_weight := f64_one;
     bw_transport := Quic; bw_scheme := None; bw_max_connections := None; bw_wakeable := Some true |}.

Definition demo_parse_addr (s : string) : result string SocketAddr :=
  if decide (s = "10.0.0.1:8080") then Ok {| sa_ip := V4 0x0a000001; sa_port := 8080 |} else Err "invalid socket address".

Lemma backend_wire_roundtrip_witness :
  ∃ b, BackendConfig_deserialize demo_parse_addr demo_wire = Ok b ∧ backend_typed b ∧
       BackendConfig_deserialize demo_parse_addr (BackendConfig_serialize b) = Ok b.
Proof.
  eexists. split; [vm_compute; reflexivity|].
  apply (backend_wire_roundtrip demo_parse_addr demo_wire); vm_compute; reflexivity.
Defined.

(** ** The whole configuration *)

Section config.
  Context `{IpNetLib}.

Record AccessControlConfig := {
  acc_allow : list IpNet;
  acc_deny : list IpNet;
}.

Record ReductionConfig := {
  listen : ListenConfig;
  tls : TlsConfig;
  c_backends : list BackendConfig;
  c_routes : list RouteConfig;
  balancer : BalancerConfig;
  proxy : ProxyConfig;
  compression : CompressionConfig;
  health : HealthConfig;
  access : AccessControlConfig;
  ratelimit : RateLimitConfig;
  metrics_endpoint : option string;
  circuit_breaker : CircuitBreakerConfig;
  c_timeouts : TimeoutConfig;
  retry : RetryConfig;
  tracing : TracingConfig;
  tunnel : TunnelConfig;
  cache : CacheConfig;
  raw_relay_authz : list RawRelayAuthzEntry;
  ingress : list IngressConfig;
  http_redirect : HttpRedirectConfig;
  health_endpoint : HealthEndpointConfig;
}.

(** ** Validation *)

(** A [for] loop whose body may return an error. *)
Fixpoint each {A} (f : A → Result unit) (l : list A) : Result unit :=
  match l with
  | [] => Ok ()
  | a :: l => _ ← f a; each f l
  end.

(** The same loop with the set of the keys [seen] so far: [before] runs ahead of the
    insertion, [dup] is the error of a repeated key, [after] runs behind it. *)
Fixpoint each_distinct {A K} `{EqDecision K} (key : A → K) (before : A → Result unit)
    (dup : A → ReductionError) (after : A → Result unit) (seen : list K) (l : list A) : Result unit :=
  match l with
  | [] => Ok ()
  | a :: l =>
      _ ← before a;
      if decide (key a ∈ seen) then Err (dup a)
      else _ ← after a; each_distinct key before dup after (key a :: seen) l
  end.

(** A quoted word of a message. *)
Definition quoted (s : string) : string := String (ascii_of_nat 34) (s +:+ String (ascii_of_nat 34) "").

Definition config_needs_client_tls (c : ReductionConfig) : bool := existsb needs_client_tls (c_backends c).

Definition validate_no_duplicate_backend_ids (c : ReductionConfig) : Result unit :=
  each_distinct id (λ _, Ok ())
    (λ b, Config ("duplicate backend id '" +:+ id b +:+
                  "': each backend id must be unique (health, circuit-breaker, and balancer state are keyed by id)"))
    (λ _, Ok ()) [] (c_backends c).

Definition validate_routes (c : ReductionConfig) : Result unit :=
  let pools := map pool (c_backends c) in
  each_distinct rc_path_prefix
    (λ route, if starts_with (rc_path_prefix route) "/" then Ok () else
       Err (Config ("route path_prefix '" +:+ rc_path_prefix route +:+
         "' must start with '/': request paths always begin with '/', so this route can never match")))
    (λ route, Config ("duplicate route path_prefix '" +:+ rc_path_prefix route +:+
       "': two routes with the same prefix make backend selection ambiguous"))
    (λ route, if decide (rc_backend_id route ∈ pools) then Ok () else
       Err (Config ("route path_prefix '" +:+ rc_path_prefix route +:+ "' references backend_id '" +:+
         rc_backend_id route +:+
         "' with no matching backend pool: define a backend whose pool (defaulting to its id) is '" +:+
         rc_backend_id route +:+ "'")))
    [] (c_routes c).

Definition validate_retry_backoff (c : ReductionConfig) : Result unit :=
  if max_delay_ms (retry c) <? base_delay_ms (retry c) then
    Err (Config ("retry.base_delay_ms (" +:+ pretty (base_delay_ms (retry c)) +:+
      ") must not exceed retry.max_delay_ms (" +:+ pretty (max_delay_ms (retry c)) +:+
      "): the exponential backoff would be clamped to the cap on the first attempt"))
  else Ok ().

(** [Ipv4Addr::is_private], [is_loopback] and [is_link_local], and the two V6 ranges. *)
Definition is_private_listen_addr (ip : IpAddr) : bool :=
  match ip with
  | V4 a =>
      (Z.shiftr a 24 =? 10) || (Z.shiftr a 20 =? 0xac1) || (Z.shiftr a 16 =? 0xc0a8) ||
      (Z.shiftr a 24 =? 127) || (Z.shiftr a 16 =? 0xa9fe)
  | V6 a =>
      let octet0 := Z.shiftr a 120 in
      let octet1 := Z.land (Z.shiftr a 112) 0xff in
      (a =? 1) || (Z.land octet0 0xfe =? 0xfc) ||
      ((octet0 =? 0xfe) && (Z.land octet1 0xc0 =? 0x80))
  end.

Definition MAX_UDP_DATAGRAM_BYTES : Z := 65507.

Definition validate_ingress_caps (i : IngressConfig) : Result unit :=
  if (ic_max_datagram_bytes i =? 0) || (ic_batch_max_datagrams i =? 0) || (ic_batch_max_bytes i =? 0) ||
     (ic_queue_depth_per_backend i =? 0) || (ic_recv_buffer_bytes i =? 0) then
    Err (Config ("ingress '" +:+ ic_id i +:+
      "' has a zero cap: max_datagram_bytes, batch_max_datagrams, batch_max_bytes, queue_depth_per_backend, and recv_buffer_bytes must all be non-zero"))
  else if MAX_UDP_DATAGRAM_BYTES <? ic_max_datagram_bytes i then
    Err (Config ("ingress '" +:+ ic_id i +:+ "' max_datagram_bytes " +:+ pretty (ic_max_datagram_bytes i) +:+
      " exceeds the largest possible UDP payload (" +:+ pretty MAX_UDP_DATAGRAM_BYTES +:+ ")"))
  else if ic_batch_max_bytes i <? ic_max_datagram_bytes i then
    Err (Config ("ingress '" +:+ ic_id i +:+ "' batch_max_bytes " +:+ pretty (ic_batch_max_bytes i) +:+
      " cannot fit one max_datagram_bytes payload (" +:+ pretty (ic_max_datagram_bytes i) +:+
      "): a single datagram would never batch"))
  else if MAX_ENVELOPE_FRAME <? ic_batch_max_bytes i then
    Err (Config ("ingress '" +:+ ic_id i +:+ "' batch_max_bytes " +:+ pretty (ic_batch_max_bytes i) +:+
      " exceeds the envelope frame ceiling (" +:+ pretty MAX_ENVELOPE_FRAME +:+ ")"))
  else Ok ().

Definition quic_backend_ids (c : ReductionConfig) : list string :=
  map id (List.filter (λ b, bool_decide (transport b = Quic)) (c_backends c)).

Definition validate_ingress (c : ReductionConfig) : Result unit :=
  let quic := quic_backend_ids c in
  let has_allowlist := negb (bool_decide (acc_allow (access c) = [])) in
  each_distinct ic_listen
    (λ i,
      if bool_decide (ic_backend_ids i = []) then
        Err (Config ("ingress '" +:+ ic_id i +:+
          "' has no backend_ids: an ingress must fan out to at least one backend"))
      else
        _ ← each (λ b, if decide (b ∈ quic) then Ok () else
               Err (Config ("ingress '" +:+ ic_id i +:+ "' references backend_id '" +:+ b +:+
                 "' which is not a transport = quic backend: ingress dials backends over QUIC+mTLS raw streams")))
             (ic_backend_ids i);
        validate_ingress_caps i)
    (λ i, Config ("duplicate ingress listen address '" +:+ addr_to_string (ic_listen i) +:+
       "': two listeners cannot bind the same port"))
    (λ i,
      if negb (is_private_listen_addr (sa_ip (ic_listen i))) && negb has_allowlist then
        Err (Config ("ingress '" +:+ ic_id i +:+ "' listens on non-private address '" +:+
          addr_to_string (ic_listen i) +:+
          "' without an [access] allow list: a routable ingress must be gated by a CIDR allowlist"))
      else Ok ())
    [] (ingress c).

Definition validate_backend_schemes (c : ReductionConfig) : Result unit :=
  each (λ b,
    if is_plaintext (scheme b) && negb (bool_decide (transport b = Tcp)) then
      Err (Config ("backend '" +:+ id b +:+ "' has scheme = " +:+ quoted "http" +:+
        " (cleartext) but transport = " +:+ quoted "quic" +:+
        ": plain HTTP is only valid over TCP (QUIC always uses TLS)"))
    else Ok ()) (c_backends c).

Definition validate_client_identity (c : ReductionConfig) : Result unit :=
  match tls_client (tls c) with
  | Some _ => Ok ()
  | None =>
      each (λ b,
        if needs_client_tls b then
          let reason := if decide (transport b = Quic)
                        then "transport = " +:+ quoted "quic" +:+ " (QUIC always uses mTLS)"
                        else "scheme = " +:+ quoted "https" +:+ " (TLS to the backend)" in
          Err (Config ("backend '" +:+ id b +:+ "' requires a TLS client identity (" +:+ reason +:+
            ") but [tls.client] is absent: add [tls.client], or set the backend to transport = " +:+
            quoted "tcp" +:+ " with scheme = " +:+ quoted "http"))
        else Ok ()) (c_backends c)
  end.

Definition validate_acme_inbound_ca (c : ReductionConfig) : Result unit :=
  match tls_server (tls c) with
  | Acme acme =>
      if builds_verifier (li_client_auth (listen c)) && bool_decide (ac_ca_cert_path acme = None) then
        Err (Config ("tls.server.acme.ca_cert_path is required when listen.client_auth is " +:+
          quoted "required" +:+ " or " +:+ quoted "optional" +:+
          ": it is the inbound client-cert CA; omit it only under client_auth = " +:+ quoted "disabled"))
      else Ok ()
  | Manual _ => Ok ()
  end.

Definition validate_acme_barrel_state (c : ReductionConfig) : Result unit :=
  match tls_server (tls c) with
  | Acme acme =>
      match ac_barrel_state acme with
      | Some barrel =>
          if bool_decide (bs_persist_command barrel = []) then
            Err (Config "tls.server.acme.barrel_state.persist_command must be non-empty: renewed ACME state could otherwise never be persisted")
          else Ok ()
      | None => Ok ()
      end
  | Manual _ => Ok ()
  end.

(** [str::contains]. *)
Definition str_contains (s pat : string) : bool := bool_decide (String.index 0 pat s ≠ None).

Definition validate_http_redirect (c : ReductionConfig) : Result unit :=
  let r := http_redirect c in
  if negb (hr_enabled r) then Ok ()
  else
    let host := trim (hr_to_host r) in
    if bool_decide (host = "") then
      Err (Config "http_redirect.enabled = true requires a non-empty to_host (the canonical HTTPS hostname to redirect to)")
    else if str_contains host "://" || str_contains host "/" then
      Err (Config ("http_redirect.to_host '" +:+ host +:+
        "' must be a bare host (optionally host:port), not a URL or path"))
    else if bool_decide (hr_listen r = li_address (listen c)) then
      Err (Config ("http_redirect.listen '" +:+ addr_to_string (hr_listen r) +:+
        "' collides with the main listen address: the redirect listener needs its own port (typically 80)"))
    else Ok ().

Definition validate_health_endpoint (c : ReductionConfig) : Result unit :=
  let h := health_endpoint c in
  if negb (he_enabled h) then Ok ()
  else if bool_decide (he_listen h = li_address (listen c)) then
    Err (Config ("health_endpoint.listen '" +:+ addr_to_string (he_listen h) +:+
      "' collides with the main listen address: the health endpoint needs its own port"))
  else if hr_enabled (http_redirect c) && bool_decide (he_listen h = hr_listen (http_redirect c)) then
    Err (Config ("health_endpoint.listen '" +:+ addr_to_string (he_listen h) +:+
      "' collides with http_redirect.listen: the health endpoint needs its own port"))
  else Ok ().

Definition validate (c : ReductionConfig) : Result unit :=
  _ ← validate_no_duplicate_backend_ids c;
  _ ← validate_routes c;
  _ ← validate_retry_backoff c;
  _ ← validate_ingress c;
  _ ← validate_backend_schemes c;
  _ ← validate_client_identity c;
  _ ← validate_acme_inbound_ca c;
  _ ← validate_http_redirect c;
  _ ← validate_health_endpoint c;
  validate_acme_barrel_state c.

(** ** What validation promises *)

Definition ingress_ok (c : ReductionConfig) (i : IngressConfig) : Prop :=
  ic_backend_ids i ≠ [] ∧
  (∀ b, b ∈ ic_backend_ids i → ∃ k, k ∈ c_backends c ∧ id k = b ∧ transport k = Quic) ∧
  ic_max_datagram_bytes i ≠ 0 ∧ ic_batch_max_datagrams i ≠ 0 ∧ ic_batch_max_bytes i ≠ 0 ∧
  ic_queue_depth_per_backend i ≠ 0 ∧ ic_recv_buffer_bytes i ≠ 0 ∧
  ic_max_datagram_bytes i ≤ MAX_UDP_DATAGRAM_BYTES ∧
  ic_max_datagram_bytes i ≤ ic_batch_max_bytes i ≤ MAX_ENVELOPE_FRAME ∧
  (is_private_listen_addr (sa_ip (ic_listen i)) = true ∨ acc_allow (access c) ≠ []).

(** The cross-field rules, as rules. *)
Definition config_valid (c : ReductionConfig) : Prop :=
  NoDup (map id (c_backends c)) ∧
  (NoDup (map rc_path_prefix (c_routes c)) ∧
   ∀ r, r ∈ c_routes c → (∃ rest, rc_path_prefix r = "/" +:+ rest) ∧
                         ∃ b, b ∈ c_backends c ∧ pool b = rc_backend_id r) ∧
  base_delay_ms (retry c) ≤ max_delay_ms (retry c) ∧
  (NoDup (map ic_listen (ingress c)) ∧ ∀ i, i ∈ ingress c → ingress_ok c i) ∧
  (∀ b, b ∈ c_backends c → is_plaintext (scheme b) = true → transport b = Tcp) ∧
  (tls_client (tls c) = None → ∀ b, b ∈ c_backends c → needs_client_tls b = false) ∧
  (∀ acme, tls_server (tls c) = Acme acme →
     (builds_verifier (li_client_auth (listen c)) = true → ac_ca_cert_path acme ≠ None) ∧
     ∀ barrel, ac_barrel_state acme = Some barrel → bs_persist_command barrel ≠ []) ∧
  (hr_enabled (http_redirect c) = true →
     trim (hr_to_host (http_redirect c)) ≠ "" ∧
     String.index 0 "://" (trim (hr_to_host (http_redirect c))) = None ∧
     String.index 0 "/" (trim (hr_to_host (http_redirect c))) = None ∧
     hr_listen (http_redirect c) ≠ li_address (listen c)) ∧
  (he_enabled (health_endpoint c) = true →
     he_listen (health_endpoint c) ≠ li_address (listen c) ∧
     (hr_enabled (http_redirect c) = true → he_listen (health_endpoint c) ≠ hr_listen (http_redirect c))).

Lemma check_ok (b : bool) (e : ReductionError) : (if b then Err e else Ok ()) = Ok () ↔ b = false.
Proof. destruct b; naive_solver. Qed.

Lemma then_ok (r k : Result unit) : (_ ← r; k) = Ok () ↔ r = Ok () ∧ k = Ok ().
Proof. rewrite result_bind_ok. split; [by intros ([] & ? & ?)|intros []; by exists ()]. Qed.

Lemma each_ok {A} (f : A → Result unit) l : each f l = Ok () ↔ ∀ a, a ∈ l → f a = Ok ().
Proof.
  induction l as [|a l IH]; cbn [each]; [split; [by intros _ a ?%elem_of_nil|done]|].
  rewrite then_ok, IH. setoid_rewrite elem_of_cons. naive_solver.
Qed.

Lemma each_distinct_ok {A K} `{EqDecision K} (key : A → K) before dup after seen l :
  each_distinct key before dup after seen l = Ok () ↔
  (∀ a, a ∈ l → before a = Ok () ∧ after a = Ok () ∧ key a ∉ seen) ∧ NoDup (map key l).
Proof.
  revert seen. induction l as [|a l IH]; intros seen; cbn [each_distinct map].
  { split; [|done]. intros _. split; [by intros a ?%elem_of_nil|constructor]. }
  rewrite then_ok, NoDup_cons, elem_of_map. setoid_rewrite elem_of_cons.
  destruct (decide (key a ∈ seen)) as [|Hn]; [naive_solver|].
  rewrite then_ok, IH. setoid_rewrite not_elem_of_cons. split.
  - intros (Hb & Ha & Hl & Hd). split; [naive_solver|]. split; [|done].
    intros (x & Hx & Hin). by destruct (Hl x Hin) as (_ & _ & ? & _).
  - intros (Hl & Hk & Hd). split_and!; [by apply Hl; left|by apply Hl; left| |done].
    intros x Hx. destruct (Hl x (or_intror Hx)) as (? & ? & ?). split_and!; try done.
    intros Heq. apply Hk. by exists x.
Qed.

Lemma if_not_ok (b : bool) (e : ReductionError) : (if b then Ok () else Err e) = Ok () ↔ b = true.
Proof. destruct b; naive_solver. Qed.

Lemma if_decide_ok P `{Decision P} (e : ReductionError) : (if decide P then Ok () else Err e) = Ok () ↔ P.
Proof. destruct (decide P); naive_solver. Qed.

Lemma quic_backend_ids_spec c b :
  b ∈ quic_backend_ids c ↔ ∃ k, k ∈ c_backends c ∧ id k = b ∧ transport k = Quic.
Proof.
  unfold quic_backend_ids. rewrite elem_of_map. setoid_rewrite elem_of_filter_bool.
  setoid_rewrite bool_decide_eq_true. naive_solver.
Qed.

Lemma validate_routes_spec c :
  validate_routes c = Ok () ↔
  NoDup (map rc_path_prefix (c_routes c)) ∧
  ∀ r, r ∈ c_routes c → (∃ rest, rc_path_prefix r = "/" +:+ rest) ∧
                        ∃ b, b ∈ c_backends c ∧ pool b = rc_backend_id r.
Proof.
  unfold validate_routes. rewrite each_distinct_ok.
  setoid_rewrite if_not_ok. setoid_rewrite if_decide_ok. setoid_rewrite starts_with_app.
  setoid_rewrite elem_of_map. setoid_rewrite elem_of_nil. naive_solver.
Qed.

Lemma validate_ingress_caps_spec i :
  validate_ingress_caps i = Ok () ↔
  ic_max_datagram_bytes i ≠ 0 ∧ ic_batch_max_datagrams i ≠ 0 ∧ ic_batch_max_bytes i ≠ 0 ∧
  ic_queue_depth_per_backend i ≠ 0 ∧ ic_recv_buffer_bytes i ≠ 0 ∧
  ic_max_datagram_bytes i ≤ MAX_UDP_DATAGRAM_BYTES ∧
  ic_max_datagram_bytes i ≤ ic_batch_max_bytes i ≤ MAX_ENVELOPE_FRAME.
Proof.
  unfold validate_ingress_caps. split.
  - intros Hok. repeat case_match; bool_hyps; try done; split_and!; lia.
  - intros Hc. repeat case_match; try done; exfalso;
      repeat match goal with E : (_ || _) = true |- _ => apply orb_true_iff in E as [E|E] end; bool_hyps; lia.
Qed.

Lemma validate_ingress_spec c :
  validate_ingress c = Ok () ↔
  NoDup (map ic_listen (ingress c)) ∧ ∀ i, i ∈ ingress c → ingress_ok c i.
Proof.
  unfold validate_ingress, ingress_ok. rewrite each_distinct_ok, Logic.and_comm. apply and_iff_compat_l.
  apply forall_proper; intros i. apply imp_iff_compat_l.
  case_bool_decide as Hb; [naive_solver|]. rewrite then_ok, each_ok, validate_ingress_caps_spec, check_ok.
  setoid_rewrite if_decide_ok. setoid_rewrite quic_backend_ids_spec.
  rewrite andb_false_iff, !negb_false_iff, negb_true_iff, bool_decide_eq_false, elem_of_nil. naive_solver.
Qed.

Lemma validate_schemes_spec c :
  validate_backend_schemes c = Ok () ↔
  ∀ b, b ∈ c_backends c → is_plaintext (scheme b) = true → transport b = Tcp.
Proof.
  unfold validate_backend_schemes. rewrite each_ok. setoid_rewrite check_ok.
  setoid_rewrite andb_false_iff. setoid_rewrite negb_false_iff. setoid_rewrite bool_decide_eq_true.
  split; intros Hall b Hb; specialize (Hall b Hb); destruct (is_plaintext (scheme b)); naive_solver.
Qed.

Lemma validate_identity_spec c :
  validate_client_identity c = Ok () ↔
  (tls_client (tls c) = None → ∀ b, b ∈ c_backends c → needs_client_tls b = false).
Proof.
  unfold validate_client_identity. destruct (tls_client (tls c)); [naive_solver|].
  rewrite each_ok. setoid_rewrite check_ok. naive_solver.
Qed.

Lemma validate_acme_spec c :
  validate_acme_inbound_ca c = Ok () ∧ validate_acme_barrel_state c = Ok () ↔
  ∀ acme, tls_server (tls c) = Acme acme →
    (builds_verifier (li_client_auth (listen c)) = true → ac_ca_cert_path acme ≠ None) ∧
    ∀ barrel, ac_barrel_state acme = Some barrel → bs_persist_command barrel ≠ [].
Proof.
  unfold validate_acme_inbound_ca, validate_acme_barrel_state.
  destruct (tls_server (tls c)) as [|acme]; [naive_solver|].
  rewrite check_ok, andb_false_iff, bool_decide_eq_false.
  assert (∀ P : AcmeTlsConfig → Prop, (∀ a, Acme acme = Acme a → P a) ↔ P acme) as -> by naive_solver.
  destruct (ac_barrel_state acme) as [barrel|]; rewrite ?check_ok, ?bool_decide_eq_false;
    destruct (builds_verifier _); naive_solver.
Qed.

Lemma validate_redirect_spec c :
  validate_http_redirect c = Ok () ↔
  (hr_enabled (http_redirect c) = true →
     trim (hr_to_host (http_redirect c)) ≠ "" ∧
     String.index 0 "://" (trim (hr_to_host (http_redirect c))) = None ∧
     String.index 0 "/" (trim (hr_to_host (http_redirect c))) = None ∧
     hr_listen (http_redirect c) ≠ li_address (listen c)).
Proof.
  unfold validate_http_redirect, str_contains. destruct (hr_enabled (http_redirect c)); cbn [negb]; [|naive_solver].
  repeat case_bool_decide; cbn [orb]; try naive_solver.
  all: destruct (String.index 0 "://" _), (String.index 0 "/" _); naive_solver.
Qed.

Lemma validate_health_spec c :
  validate_health_endpoint c = Ok () ↔
  (he_enabled (health_endpoint c) = true →
     he_listen (health_endpoint c) ≠ li_address (listen c) ∧
     (hr_enabled (http_redirect c) = true → he_listen (health_endpoint c) ≠ hr_listen (http_redirect c))).
Proof.
  unfold validate_health_endpoint. destruct (he_enabled (health_endpoint c)); cbn [negb]; [|naive_solver].
  destruct (hr_enabled (http_redirect c)); repeat case_bool_decide; cbn [andb]; naive_solver.
Qed.

Lemma validate_ok_iff (c : ReductionConfig) : validate c = Ok () ↔ config_valid c.
Proof.
  unfold validate, config_valid. rewrite !then_ok.
  unfold validate_no_duplicate_backend_ids at 1. rewrite each_distinct_ok.
  setoid_rewrite elem_of_nil.
  rewrite validate_routes_spec, validate_ingress_spec, validate_schemes_spec, validate_identity_spec,
    validate_redirect_spec, validate_health_spec, <-validate_acme_spec.
  unfold validate_retry_backoff. rewrite check_ok, Z.ltb_ge. naive_solver.
Qed.

(** The answer is [Ok], or a [Config] error. *)
Definition config_err {A} (r : Result A) : Prop :=
  match r with Ok _ => True | Err e => ∃ msg, e = Config msg end.

Lemma config_err_bind {A B} (r : Result A) (f : A → Result B) :
  config_err r → (∀ a, config_err (f a)) → config_err (r ≫= f).
Proof. destruct r; cbn; auto. Qed.

Lemma config_err_each {A} (f : A → Result unit) l : (∀ a, config_err (f a)) → config_err (each f l).
Proof. intros Hf. induction l; cbn; [done|]. by apply config_err_bind. Qed.

Lemma config_err_distinct {A K} `{EqDecision K} (key : A → K) before dup after seen l :
  (∀ a, config_err (before a)) → (∀ a, ∃ msg, dup a = Config msg) → (∀ a, config_err (after a)) →
  config_err (each_distinct key before dup after seen l).
Proof.
  intros Hb Hd Ha. induction l as [|a l IH] in seen |- *; cbn [each_distinct]; [done|].
  apply config_err_bind; [done|]. intros _. destruct (decide _); [apply Hd|]. by apply config_err_bind.
Qed.

(** One check after the other. *)
Ltac config_err :=
  repeat first
    [ exact I | by eexists | apply config_err_bind | apply config_err_each | apply config_err_distinct
    | progress intros | case_decide | progress cbn [config_err] | case_match ].

Lemma validate_config_err (c : ReductionConfig) : config_err (validate c).
Proof.
  unfold validate, validate_no_duplicate_backend_ids, validate_routes, validate_retry_backoff, validate_ingress,
    validate_ingress_caps, validate_backend_schemes, validate_client_identity, validate_acme_inbound_ca,
    validate_http_redirect, validate_health_endpoint, validate_acme_barrel_state.
  config_err.
Qed.

(** C27. A configuration passes validation exactly when it meets every cross-field rule: backend
    ids, route prefixes and ingress addresses are unique, every route names a pool that
    exists, every ingress feeds QUIC backends within the frame and datagram limits and is
    private or gated by an allow list, cleartext stays on TCP, a client identity is there
    when a backend needs one, and the listeners do not collide.  It fails only with a
    configuration error, never with the parse error that would quarantine the file. *)
Theorem validate_spec (c : ReductionConfig) :
  (validate c = Ok () ↔ config_valid c) ∧ (¬ config_valid c → ∃ msg, validate c = Err (Config msg)).
Proof.
  split; [apply validate_ok_iff|]. intros Hn. rewrite <-validate_ok_iff in Hn.
  pose proof (validate_config_err c) as He. destruct (validate c) as [[]|e]; [done|].
  destruct He as [msg ->]. by exists msg.
Qed.

(** ** Sections fixed at startup *)

Definition changed (b : bool) (section : string) : list string := if b then [section] else [].

Definition restart_required_sections (old new : ReductionConfig) : list string :=
  changed (negb (bool_decide (li_address (listen old) = li_address (listen new)))) "listen.address" ++
  changed (negb (bool_decide (li_transport (listen old) = li_transport (listen new)))) "listen.transport" ++
  changed (negb (bool_decide (tls_server (tls old) = tls_server (tls new))))
    "tls.server (paths; file contents hot-reload)" ++
  changed (negb (bool_decide (tls_client (tls old) = tls_client (tls new))))
    "tls.client (paths; file contents hot-reload)" ++
  changed (negb (bool_decide (c_timeouts old = c_timeouts new))) "timeouts" ++
  changed (negb (bool_decide (proxy old = proxy new))) "proxy" ++
  changed (negb (bool_decide (compression old = compression new))) "compression" ++
  changed (negb (bool_decide (health old = health new))) "health" ++
  changed (negb (bool_decide (ratelimit old = ratelimit new))) "ratelimit" ++
  changed (negb (bool_decide (metrics_endpoint old = metrics_endpoint new))) "metrics" ++
  changed (negb (bool_decide (circuit_breaker old = circuit_breaker new))) "circuit_breaker" ++
  changed (negb (bool_decide (retry old = retry new))) "retry" ++
  changed (negb (TracingConfig_eqb (tracing old) (tracing new))) "tracing" ++
  changed (negb (bool_decide (tunnel old = tunnel new))) "tunnel (revocation file contents hot-reload)" ++
  changed (negb (bool_decide (cache old = cache new))) "cache" ++
  changed (negb (bc_queue_depth (balancer old) =? bc_queue_depth (balancer new))) "balancer.queue_depth" ++
  changed (negb (bool_decide (raw_relay_authz old = raw_relay_authz new))) "raw_relay_authz".
End config.
