(* ===== verification/Reload.v ===== *)
(** * Reload: [src/config_reload.rs], [src/config/watcher.rs], [src/config/mod.rs],
    [src/fs_util.rs], [src/startup/balancing.rs] and [src/tunnel/revocation_reload.rs]

    Building the live state from a configuration, at startup and on every accepted reload,
    and the world in which the file watcher, the reload task, the deferred drains and the
    requests interleave. *)

From Stdlib Require Import SpecFloat.
From S2P Require Import Prelude Text Error Net Http Lru Float64 Cache Circuit Acl Retry Router Identity.
From S2P Require Import Headers Balancer Queue Registry Udp Pool Body Handler Config.
Local Open Scope Z_scope.

Section reload.
  Context `{Http} `{!Lru CachedResponse} `{!Lru (BackendHealth * Z)} `{IpNetLib} `{Governor}
          `{Semaphore} `{Zstd}.

(** ** Building the state *)

Definition members (c : ReductionConfig) (pool_id : string) : list BackendConfig :=
  List.filter (λ b, bool_decide (pool b = pool_id)) (c_backends c).

Fixpoint build_pools_from (c : ReductionConfig) (routes : list RouteConfig)
    (pools : gmap string BackendPool) : Result (gmap string BackendPool) :=
  match routes with
  | [] => Ok pools
  | route :: routes =>
      let pool_id := rc_backend_id route in
      if decide (is_Some (pools !! pool_id)) then build_pools_from c routes pools
      else if bool_decide (members c pool_id = []) then build_pools_from c routes pools
      else
        p ← with_max (members c pool_id) (bc_max_backends (balancer c));
        build_pools_from c routes (<[pool_id := p]> pools)
  end.

Definition build_backend_pools (c : ReductionConfig) : Result (gmap string BackendPool) :=
  build_pools_from c (c_routes c) ∅.

Definition reloadable_of (c : ReductionConfig) (pools : gmap string BackendPool) : ReloadableState :=
  {| router := Router_new (c_routes c); backend_pools := pools;
     rl_acl := AccessControl_new (acc_allow (access c)) (acc_deny (access c)) |}.

Record Balancing := {
  bal_reloadable : ReloadableState;
  bal_configured_backend_ids : gset string;
  bal_health : HealthState;
  bal_rate_limiter : KeyedLimiter;
  bal_circuit_breakers : CircuitBreakers;
}.

Definition build_balancing (c : ReductionConfig) : Result Balancing :=
  pools ← build_backend_pools c;
  limiter ← RateLimit_new (rl_requests_per_second (ratelimit c));
  Ok {| bal_reloadable := reloadable_of c pools;
        bal_configured_backend_ids := dom pools;
        bal_health := with_config (bc_max_backends (balancer c)) (from_secs (hc_staleness_ttl_secs (health c)))
                        (hc_latency_threshold_ms (health c));
        bal_rate_limiter := limiter;
        bal_circuit_breakers := CircuitBreakers_new (circuit_breaker c) |}.

Definition build_proxy_state (c : ReductionConfig) (registry : TunnelRegistry) (rev : RevocationSet)
    (shutdown_token : bool) (inputs : Balancing) : ProxyState :=
  let conn_pool := with_pool_config ConnPool_new (h2_connections_per_backend (proxy c))
                     (max_idle_quic (proxy c)) (pc_h2_stream_window (proxy c)) (pc_h2_conn_window (proxy c)) in
  let conn_pool := if tc_enabled (tunnel c) then with_tunnel_registry conn_pool registry else conn_pool in
  {| reloadable := bal_reloadable inputs; revocation := rev; health_rx := bal_health inputs;
     conn_pool := conn_pool; rate_limiter := bal_rate_limiter inputs; queues := Queues_new; labels := ∅;
     default_queue_depth := bc_queue_depth (balancer c); circuit_breakers := bal_circuit_breakers inputs;
     shutdown := shutdown_token; timeouts := c_timeouts c; proxy_config := proxy c;
     compression_config := compression c; retry_config := retry c; cache_config := cache c;
     response_cache := ResponseCache_new (cache c); client_auth := li_client_auth (listen c) |}.

(** ** Loading *)

(** [load_or_recover]: what [read_to_string] and the parser answer, the time of day and
    whether the rename works; the second component is the name the file was moved to. *)
Definition load_or_recover {T} (path : string) (read : result string string)
    (parse_fn : string → result string T) (now_secs : Z) (renamed : bool) : Result T * option string :=
  match read with
  | Err e => (Err (Io e), None)
  | Ok contents =>
      match parse_fn contents with
      | Ok value => (Ok value, None)
      | Err e => (Err (ConfigParse e),
                  if renamed then Some (path +:+ ".corrupt." +:+ pretty now_secs) else None)
      end
  end.

(** [parse_config] is [toml::from_str]. *)
Definition load_config (parse_config : string → result string ReductionConfig) (path : string) (read : result string string) (now_secs : Z) (renamed : bool)
    : Result ReductionConfig :=
  c ← (load_or_recover path read parse_config now_secs renamed).1;
  _ ← validate c;
  Ok c.

(** [reload_config] on the value [current] of the channel: the result, the sections it warns
    about and the value of the channel after it. *)
Definition reload_config (parse_config : string → result string ReductionConfig) (path : string)
    (read : result string string) (now_secs : Z) (renamed receivers : bool) (current : ReductionConfig)
    : Result unit * list string * ReductionConfig :=
  match load_config parse_config path read now_secs renamed with
  | Err e => (Err e, [], current)
  | Ok c =>
      let inert := restart_required_sections current c in
      if receivers then (Ok (), inert, c)
      else (Err (Error.Config "all config receivers dropped"), inert, current)
  end.

(** [load_revocation_file]; [parse_rev] is [toml::from_str] on the revocation file. *)
Definition load_revocation_file (parse_rev : string → Result (list RevocationEntry))
    (read : result string string) : Result RevocationSet :=
  match read with
  | Err e => Err (Io e)
  | Ok contents => revocation_parse (parse_rev contents)
  end.

Definition load_initial (path : string) (file : Result RevocationSet) : Result RevocationSet :=
  match file with
  | Ok set => Ok set
  | Err e => Err (Error.Config ("failed to load configured revocation file " +:+ path +:+ ": " +:+ error_to_string e))
  end.

(** The watcher's callback and the reload task keep the previous set on a failed read. *)
Definition publish_revocation (file : Result RevocationSet) (current : RevocationSet) : RevocationSet :=
  match file with Ok set => set | Err _ => current end.

(** ** Applying a reload *)

Definition set_reloadable (s : ProxyState) (rl : ReloadableState) (rev : RevocationSet) : ProxyState :=
  {| reloadable := rl; revocation := rev; health_rx := health_rx s;
     conn_pool := conn_pool s; rate_limiter := rate_limiter s; queues := queues s; labels := labels s;
     default_queue_depth := default_queue_depth s; circuit_breakers := circuit_breakers s;
     shutdown := shutdown s; timeouts := timeouts s; proxy_config := proxy_config s;
     compression_config := compression_config s; retry_config := retry_config s;
     cache_config := cache_config s; response_cache := response_cache s; client_auth := client_auth s |}.

Definition backend_addresses (rl : ReloadableState) : gset SocketAddr :=
  list_to_set (concat (map (λ q, map address (backends q.2)) (map_to_list (backend_pools rl)))).

Definition diff_removed_backends (old new : ReloadableState) : list SocketAddr * list string :=
  (elements (backend_addresses old ∖ backend_addresses new),
   elements (dom (backend_pools old) ∖ dom (backend_pools new))).

(** The state the reload task keeps between changes. *)
Record ReloadTask := {
  prev_routes : list RouteConfig;
  prev_backends : list BackendConfig;
}.

Definition list_eqb {A} (eqb : A → A → bool) (l k : list A) : bool :=
  (length l =? length k)%nat && forallb (λ p, eqb p.1 p.2) (zip l k).

Definition routing_changed (c : ReductionConfig) (t : ReloadTask) : bool :=
  negb (bool_decide (c_routes c = prev_routes t)) || negb (list_eqb BackendConfig_eqb (c_backends c) (prev_backends t)).

(** Forgetting the removed pools, id by id. *)
Definition forget_pools (ids : list string) (s : ProxyState) : ProxyState :=
  foldl (λ s id, with_circuits (with_queues s (remove_queue id (queues s)))
                   (remove_backend (circuit_breakers s) id)) s ids.

(** [apply_config_reload]: [rev] is the re-read revocation file, [None] without a configured
    path; [nets] and [await] are the network of the warm-up.  The list is the addresses
    whose drain is spawned.  Publishing cannot fail: the shared state holds a receiver. *)
Definition apply_config_reload (c : ReductionConfig) (rev : option (Result RevocationSet))
    (nets : string → list Net) (await : ConnPool → ConnPool) (t : ReloadTask) (s : ProxyState)
    : list SocketAddr * ReloadTask * ProxyState :=
  let s := match rev with
           | Some file => set_reloadable s (reloadable s) (publish_revocation file (revocation s))
           | None => s
           end in
  match build_backend_pools c with
  | Err _ => ([], t, s)
  | Ok pools =>
      let new_state := reloadable_of c pools in
      let '(removed_addrs, removed_backend_ids) := diff_removed_backends (reloadable s) new_state in
      let s := set_reloadable s new_state (revocation s) in
      let '(t, s) := if routing_changed c t
                     then ({| prev_routes := c_routes c; prev_backends := c_backends c |},
                           with_cache s (cache_clear (response_cache s)))
                     else (t, s) in
      let s := forget_pools removed_backend_ids s in
      (removed_addrs, t, with_conn_pool s (warm_up (conn_pool s) nets await (c_backends c)))
  end.

(** The task [spawn_backend_drain] spawns, after its sleep. *)
Definition run_backend_drain (removed_addrs : list SocketAddr) (s : ProxyState) : ProxyState :=
  let still_active := backend_addresses (reloadable s) in
  let to_evict := List.filter (λ a, negb (bool_decide (a ∈ still_active))) removed_addrs in
  with_conn_pool s (drain_backends (conn_pool s) to_evict).2.

(** ** The pools of a configuration *)

Lemma elem_of_members c k b : b ∈ members c k ↔ b ∈ c_backends c ∧ pool b = k.
Proof. unfold members. by rewrite elem_of_filter_bool, bool_decide_eq_true. Qed.

Definition pools_ok (c : ReductionConfig) (pools : gmap string BackendPool) : Prop :=
  ∀ k p, pools !! k = Some p → backends p = members c k ∧ backends p ≠ [].

Lemma with_max_ok bs max p : with_max bs max = Ok p → backends p = bs.
Proof. unfold with_max. repeat case_match; naive_solver. Qed.

Lemma build_pools_from_ok c routes pools pools' :
  build_pools_from c routes pools = Ok pools' → pools_ok c pools →
  pools_ok c pools' ∧ (∀ k, is_Some (pools !! k) → is_Some (pools' !! k)) ∧
  ∀ route, route ∈ routes → members c (rc_backend_id route) ≠ [] → is_Some (pools' !! rc_backend_id route).
Proof.
  revert pools. induction routes as [|route routes IH]; intros pools; cbn [build_pools_from].
  { intros <-%(inj Ok) Hok. split_and!; [done..|]. by intros route ?%elem_of_nil. }
  destruct (decide (is_Some (pools !! rc_backend_id route))) as [Hs|Hn].
  { intros Hb Hok. destruct (IH _ Hb Hok) as (? & ? & Hr). split_and!; [done..|].
    intros r [->|Hin]%elem_of_cons; [eauto|by apply Hr]. }
  case_bool_decide as Hm.
  { intros Hb Hok. destruct (IH _ Hb Hok) as (? & ? & Hr). split_and!; [done..|].
    intros r [->|Hin]%elem_of_cons; [done|by apply Hr]. }
  rewrite result_bind_ok. intros (p & Hp%with_max_ok & Hb) Hok.
  destruct (IH _ Hb) as (? & Hk & Hr).
  { intros k q. destruct (decide (rc_backend_id route = k)) as [<-|].
    - rewrite lookup_insert_eq. intros [= <-]. by rewrite Hp.
    - rewrite lookup_insert_ne by done. apply Hok. }
  split_and!; [done| |].
  - intros k Hs. apply Hk. rewrite lookup_insert_is_Some. destruct (decide (rc_backend_id route = k)); auto.
  - intros r [->|Hin]%elem_of_cons; [|by apply Hr]. intros _. apply Hk. by rewrite lookup_insert_eq.
Qed.

Lemma build_backend_pools_ok c pools :
  build_backend_pools c = Ok pools →
  pools_ok c pools ∧
  ∀ route, route ∈ c_routes c → members c (rc_backend_id route) ≠ [] → is_Some (pools !! rc_backend_id route).
Proof.
  intros Hb. destruct (build_pools_from_ok _ _ _ _ Hb) as (? & _ & ?); [|done].
  intros k p. by rewrite lookup_empty.
Qed.

(** ** What one reload does *)

Lemma forget_pools_keeps {A} (proj : ProxyState → A) ids s :
  (∀ s qs cb, proj (with_circuits (with_queues s qs) cb) = proj s) →
  proj (forget_pools ids s) = proj s.
Proof.
  intros Hp. unfold forget_pools. revert s. induction ids as [|id ids IH]; intros s; [done|].
  cbn [foldl]. by rewrite IH, Hp.
Qed.

Lemma apply_reload_reloadable c rev nets await t s removed t' s' :
  apply_config_reload c rev nets await t s = (removed, t', s') →
  reloadable s' = match build_backend_pools c with
                  | Ok pools => reloadable_of c pools
                  | Err _ => reloadable s
                  end.
Proof.
  unfold apply_config_reload. destruct (build_backend_pools c) as [pools|e].
  2: { intros [= <- <- <-]. by destruct rev. }
  destruct (routing_changed c t); intros [= <- <- <-]; cbn [reloadable with_conn_pool update_state];
    rewrite (forget_pools_keeps reloadable) by done; done.
Qed.

Lemma forget_pools_queues ids s k :
  q_index (queues (forget_pools ids s)) !! k = if decide (k ∈ ids) then None else q_index (queues s) !! k.
Proof.
  unfold forget_pools. revert s. induction ids as [|i ids IH]; intros s; cbn [foldl].
  { by rewrite decide_False by apply not_elem_of_nil. }
  rewrite IH. cbn. destruct (decide (i = k)) as [->|]; [rewrite lookup_delete_eq|rewrite lookup_delete_ne by done];
    repeat case_decide; set_solver.
Qed.

Lemma forget_pools_arcs ids s : q_arcs (queues (forget_pools ids s)) = q_arcs (queues s).
Proof. unfold forget_pools. revert s. induction ids as [|i ids IH]; intros s; cbn [foldl]; [done|]. by rewrite IH. Qed.

Lemma forget_pools_breakers ids s k :
  breakers (circuit_breakers (forget_pools ids s)) !! k =
  if decide (k ∈ ids) then None else breakers (circuit_breakers s) !! k.
Proof.
  unfold forget_pools. revert s. induction ids as [|i ids IH]; intros s; cbn [foldl].
  { by rewrite decide_False by apply not_elem_of_nil. }
  rewrite IH. cbn. destruct (decide (i = k)) as [->|]; [rewrite lookup_delete_eq|rewrite lookup_delete_ne by done];
    repeat case_decide; set_solver.
Qed.

(** The sections a reload never touches. *)
Definition startup_fixed (s : ProxyState)
    : TimeoutConfig * ProxyConfig * CompressionConfig * RetryConfig * CacheConfig * ClientAuthPolicy * Z :=
  (timeouts s, proxy_config s, compression_config s, retry_config s, cache_config s, client_auth s,
   default_queue_depth s).

(** What one reload does, on every branch.  The denylist changes only on a clean read.  A
    configuration whose pools cannot be built changes nothing else.  Otherwise the cache is
    emptied exactly when a route or a backend changed; exactly the queues and breakers filed
    under the names of pools that disappeared are forgotten, while the queues themselves live
    on for the requests they admitted; and exactly the addresses no
    pool uses any more are handed to a drain.  The sections fixed at startup keep their
    values. *)
Theorem reload_effect c rev nets await t s removed t' s' :
  apply_config_reload c rev nets await t s = (removed, t', s') →
  revocation s' = match rev with Some (Ok set) => set | _ => revocation s end ∧
  startup_fixed s' = startup_fixed s ∧
  match build_backend_pools c with
  | Err _ =>
      removed = [] ∧ t' = t ∧ response_cache s' = response_cache s ∧ queues s' = queues s ∧
      circuit_breakers s' = circuit_breakers s ∧ conn_pool s' = conn_pool s
  | Ok pools =>
      let gone k := k ∈ dom (backend_pools (reloadable s)) ∧ k ∉ dom pools in
      response_cache s' = (if routing_changed c t then cache_clear (response_cache s) else response_cache s) ∧
      (∀ k, q_index (queues s') !! k = if decide (gone k) then None else q_index (queues s) !! k) ∧
      q_arcs (queues s') = q_arcs (queues s) ∧
      (∀ k, breakers (circuit_breakers s') !! k =
            if decide (gone k) then None else breakers (circuit_breakers s) !! k) ∧
      (∀ a, a ∈ removed ↔ a ∈ backend_addresses (reloadable s) ∧ a ∉ backend_addresses (reloadable s'))
  end.
Proof.
  intros Happly. pose proof (apply_reload_reloadable _ _ _ _ _ _ _ _ _ Happly) as Hrl.
  unfold apply_config_reload in Happly. destruct (build_backend_pools c) as [pools|e].
  2: { injection Happly as <- <- <-. by destruct rev as [[]|]. }
  remember (match rev with Some file => _ | None => s end) as s1 eqn:Hs1.
  assert (∀ {A} (proj : ProxyState → A), (∀ rl rv, proj (set_reloadable s rl rv) = proj s) → proj s1 = proj s)
    as Hsame by (subst s1; intros A proj Hp; destruct rev; [apply Hp|done]).
  assert (reloadable s1 = reloadable s) as Hold by (subst s1; by destruct rev).
  assert (revocation s1 = match rev with Some (Ok set) => set | _ => revocation s end) as <-
    by (subst s1; by destruct rev as [[]|]).
  rewrite <-(Hsame _ startup_fixed), <-(Hsame _ response_cache), <-(Hsame _ queues), <-(Hsame _ circuit_breakers),
    <-Hold by done.
  clear Hs1 Hsame Hold. cbn in Happly.
  destruct (routing_changed c t); injection Happly as <- <- <-; cbn [revocation response_cache queues circuit_breakers
    with_conn_pool update_state];
    rewrite !(forget_pools_keeps revocation), !(forget_pools_keeps response_cache) by done;
    (split; [done|]); (split; [by etrans; [apply (forget_pools_keeps startup_fixed)|]|]);
    (split_and!; [done|intros k; rewrite forget_pools_queues|by rewrite forget_pools_arcs|
                  intros k; rewrite forget_pools_breakers|intros a]).
  1, 2, 4, 5: cbn; apply decide_ext; set_solver.
  all: rewrite Hrl; cbn; set_solver.
Qed.

(** ** Drains *)

Lemma drain_backends_lookup addrs acc a :
  let p := acc.2 in
  let p' := (foldl drain_one acc addrs).2 in
  tcp_h2 p' !! a = (if decide (a ∈ addrs) then None else tcp_h2 p !! a) ∧
  quic_idle p' !! a = (if decide (a ∈ addrs) then None else quic_idle p !! a).
Proof.
  revert acc. induction addrs as [|x addrs IH]; intros [closed p]; cbn [foldl].
  { by rewrite !decide_False by apply not_elem_of_nil. }
  destruct (IH (drain_one (closed, p) x)) as [Ht Hq]. cbn zeta in *. rewrite Ht, Hq. clear.
  unfold drain_one. cbn. destruct (quic_idle p !! x) as [hs|] eqn:Hx; cbn;
    destruct (decide (x = a)) as [->|]; rewrite ?lookup_delete_eq, ?lookup_delete_ne by done;
    repeat case_decide; set_solver.
Qed.

(** A drain is exact: when its delay has passed it evicts the idle connections of the
    addresses it was given that no pool uses at that moment, and no others; a backend added
    back meanwhile keeps its connections. *)
Theorem drain_exact (removed : list SocketAddr) (s : ProxyState) (a : SocketAddr) :
  let evicted := a ∈ removed ∧ a ∉ backend_addresses (reloadable s) in
  let p := conn_pool s in
  let p' := conn_pool (run_backend_drain removed s) in
  tcp_h2 p' !! a = (if decide evicted then None else tcp_h2 p !! a) ∧
  quic_idle p' !! a = (if decide evicted then None else quic_idle p !! a).
Proof.
  cbn zeta. unfold run_backend_drain, drain_backends. cbn [conn_pool with_conn_pool update_state].
  destruct (drain_backends_lookup
    (List.filter (λ a, negb (bool_decide (a ∈ backend_addresses (reloadable s)))) removed) ([], conn_pool s) a) as [-> ->].
  assert (a ∈ List.filter (λ a, negb (bool_decide (a ∈ backend_addresses (reloadable s)))) removed ↔
          a ∈ removed ∧ a ∉ backend_addresses (reloadable s)) as Hiff
    by by rewrite elem_of_filter_bool, negb_true_iff, bool_decide_eq_false.
  split; apply decide_ext, Hiff.
Qed.

(** ** Sections that change silently *)

Definition with_listen (c : ReductionConfig) (l : ListenConfig) (i : list IngressConfig)
    (hr : HttpRedirectConfig) (he : HealthEndpointConfig) : ReductionConfig :=
  {| listen := l; tls := tls c; c_backends := c_backends c; c_routes := c_routes c; balancer := balancer c;
     proxy := proxy c; compression := compression c; health := health c; access := access c;
     ratelimit := ratelimit c; metrics_endpoint := metrics_endpoint c; circuit_breaker := circuit_breaker c;
     c_timeouts := c_timeouts c; retry := retry c; tracing := tracing c; tunnel := tunnel c; cache := cache c;
     raw_relay_authz := raw_relay_authz c; ingress := i; http_redirect := hr; health_endpoint := he |}.

Lemma f64_eqb_refl x : is_nan x = false → f64_eqb x x = true.
Proof.
  unfold f64_eqb, SFeqb. destruct x as [[]|[]| |[] m e]; try done; intros _; cbn;
    rewrite Z.compare_refl; by rewrite ?Pos.compare_refl, ?Pos.compare_cont_refl.
Qed.

(** A reload that changes the client-certificate policy, the ingress listeners, the redirect
    or the health endpoint is accepted without any restart warning, and the running policy
    stays the old one: the report of the sections fixed at startup is incomplete. *)
Theorem client_auth_reload_silent c policy i hr he rev nets await t s :
  is_nan (tr_sample_ratio (tracing c)) = false →
  let l := {| li_address := li_address (listen c); li_transport := li_transport (listen c);
              li_client_auth := policy |} in
  restart_required_sections c (with_listen c l i hr he) = [] ∧
  client_auth (apply_config_reload (with_listen c l i hr he) rev nets await t s).2 = client_auth s.
Proof.
  intros Hnan. cbn zeta. split.
  - unfold restart_required_sections, TracingConfig_eqb. cbn. rewrite f64_eqb_refl, Z.eqb_refl by done.
    by rewrite !bool_decide_eq_true_2 by done.
  - unfold apply_config_reload. destruct (build_backend_pools _) as [pools|e]; [|by destruct rev].
    cbn. destruct (routing_changed _ _); cbn; rewrite (forget_pools_keeps client_auth) by done; by destruct rev.
Qed.
(** ** The world *)

Section world.
  Context (parse_config : string → result string ReductionConfig).

(** The channel of accepted configurations with its version and the version the reload task
    has seen, every configuration published so far, the task's memory, the shared state and
    the drains that are waiting out their delay. *)
Record World := {
  w_channel : ReductionConfig;
  w_version : nat;
  w_seen : nat;
  w_published : list ReductionConfig;
  w_task : ReloadTask;
  w_state : ProxyState;
  w_drains : list (list SocketAddr);
}.

Definition with_state (w : World) (s : ProxyState) : World :=
  {| w_channel := w_channel w; w_version := w_version w; w_seen := w_seen w;
     w_published := w_published w; w_task := w_task w; w_state := s; w_drains := w_drains w |}.

Definition world_new (c : ReductionConfig) (s : ProxyState) : World :=
  {| w_channel := c; w_version := 0; w_seen := 0; w_published := [c];
     w_task := {| prev_routes := c_routes c; prev_backends := c_backends c |}; w_state := s; w_drains := [] |}.

(** A save that is rejected leaves the world as it is.  Requests and tunnels change the
    shared state in any way that keeps what was published. *)
Inductive world_step : World → World → Prop :=
  | step_save w path read now_secs renamed receivers inert c :
      reload_config parse_config path read now_secs renamed receivers (w_channel w) = (Ok (), inert, c) →
      world_step w {| w_channel := c; w_version := S (w_version w); w_seen := w_seen w;
                      w_published := c :: w_published w; w_task := w_task w; w_state := w_state w;
                      w_drains := w_drains w |}
  | step_apply w rev nets await removed t s :
      (w_seen w < w_version w)%nat →
      apply_config_reload (w_channel w) rev nets await (w_task w) (w_state w) = (removed, t, s) →
      world_step w {| w_channel := w_channel w; w_version := w_version w; w_seen := w_version w;
                      w_published := w_published w; w_task := t; w_state := s;
                      w_drains := removed :: w_drains w |}
  | step_drain w removed before after :
      w_drains w = before ++ removed :: after →
      world_step w {| w_channel := w_channel w; w_version := w_version w; w_seen := w_seen w;
                      w_published := w_published w; w_task := w_task w;
                      w_state := run_backend_drain removed (w_state w); w_drains := before ++ after |}
  | step_revocation w file :
      world_step w (with_state w (set_reloadable (w_state w) (reloadable (w_state w))
                                   (publish_revocation file (revocation (w_state w)))))
  | step_others w s : reloadable s = reloadable (w_state w) → world_step w (with_state w s).

Inductive world_reachable : World → Prop :=
  | world_start c registry rev bal :
      validate c = Ok () → build_balancing c = Ok bal →
      world_reachable (world_new c (build_proxy_state c registry rev false bal))
  | world_next w w' : world_reachable w → world_step w w' → world_reachable w'.

(** ** The configuration in force *)

(** [c] is published and valid, the live state is the one built from it, and when the task
    has seen the last published configuration and its pools can be built, [c] is that one. *)
Definition in_force (w : World) (c : ReductionConfig) : Prop :=
  c ∈ w_published w ∧ config_valid c ∧
  (∃ pools, build_backend_pools c = Ok pools ∧ reloadable (w_state w) = reloadable_of c pools) ∧
  (w_seen w = w_version w → is_ok (build_backend_pools (w_channel w)) = true → c = w_channel w).

Definition channel_ok (w : World) : Prop :=
  w_channel w ∈ w_published w ∧ config_valid (w_channel w) ∧ (w_seen w ≤ w_version w)%nat.

Lemma reload_config_ok path read now_secs renamed receivers current inert c :
  reload_config parse_config path read now_secs renamed receivers current = (Ok (), inert, c) →
  config_valid c ∧ inert = restart_required_sections current c.
Proof.
  unfold reload_config, load_config. destruct (load_or_recover _ _ _ _ _).1 as [c'|e]; cbn; [|done].
  destruct (validate c') as [[]|e] eqn:Hv; cbn; [|done].
  destruct receivers; intros [= <- <-]. split; [by apply validate_ok_iff|done].
Qed.

Lemma reload_config_accept path read now_secs renamed current c :
  (load_or_recover path read parse_config now_secs renamed).1 = Ok c → validate c = Ok () →
  reload_config parse_config path read now_secs renamed true current = (Ok (), restart_required_sections current c, c).
Proof. intros Hl Hv. unfold reload_config, load_config. rewrite Hl. cbn [mbind result_bind]. by rewrite Hv. Qed.

Lemma in_force_same w w' c :
  w_channel w' = w_channel w → w_version w' = w_version w → w_seen w' = w_seen w →
  w_published w' = w_published w → reloadable (w_state w') = reloadable (w_state w) →
  in_force w c → in_force w' c.
Proof. unfold in_force. by intros -> -> -> -> ->. Qed.

Lemma build_balancing_pools c bal :
  build_balancing c = Ok bal →
  ∃ pools, build_backend_pools c = Ok pools ∧ bal_reloadable bal = reloadable_of c pools.
Proof.
  unfold build_balancing. rewrite result_bind_ok. intros (pools & Hp & Hb). exists pools. split; [done|].
  apply result_bind_ok in Hb as (l & _ & <-%(inj Ok)). done.
Qed.

Lemma world_in_force w : world_reachable w → channel_ok w ∧ ∃ c, in_force w c.
Proof.
  induction 1 as [c registry rev bal Hv Hbal|w w' _ [Hch [c Hc]] Hstep].
  - apply validate_ok_iff in Hv. destruct (build_balancing_pools c bal Hbal) as (pools & Hp & Hr). split.
    + split_and!; [by apply list_elem_of_here|done|cbn; lia].
    + exists c. split_and!; [by apply list_elem_of_here|done|by exists pools|done].
  - destruct Hstep as [w ? ? ? ? ? ? c' Hsave|w ? ? ? ? ? s Hlt Happly|w ? ? ? ?|w ?|w s ?].
    + apply reload_config_ok in Hsave as [Hv _]. destruct Hch as (_ & _ & Hle). split.
      * split_and!; [by apply list_elem_of_here|done|cbn; lia].
      * exists c. destruct Hc as (Hin & Hval & Hp & _). split_and!; [by apply list_elem_of_further|done|done|cbn; lia].
    + destruct Hch as (Hin & Hval & Hle). split; [by split_and!|].
      apply apply_reload_reloadable in Happly. destruct (build_backend_pools (w_channel w)) as [pools|e] eqn:Hb.
      * exists (w_channel w). split_and!; [done|done|exists pools; by split|done].
      * exists c. destruct Hc as (? & ? & Hp & _). split_and!; [done|done|cbn; by rewrite Happly|].
        cbn. by rewrite Hb.
    + split; [done|]. exists c. by apply (in_force_same w).
    + split; [done|]. exists c. by apply (in_force_same w).
    + split; [done|]. exists c. by apply (in_force_same w).
Qed.

(** C9. The live routing table, pools and access list refine a single configuration: whatever
    is saved, and however the watcher, the reload task, the drains and the requests
    interleave, they are exactly those built from one published and valid configuration,
    never a mixture of two; and once the task has caught up it is the last published one,
    unless that one's pools are too large to build. *)
Theorem reload_refines_config (w : World) :
  world_reachable w →
  ∃ c pools, c ∈ w_published w ∧ validate c = Ok () ∧ build_backend_pools c = Ok pools ∧
    router (reloadable (w_state w)) = Router_new (c_routes c) ∧
    backend_pools (reloadable (w_state w)) = pools ∧
    rl_acl (reloadable (w_state w)) = AccessControl_new (acc_allow (access c)) (acc_deny (access c)) ∧
    (w_seen w = w_version w → is_ok (build_backend_pools (w_channel w)) = true → c = w_channel w).
Proof.
  intros [_ [c (Hin & Hv & (pools & Hb & Hr) & Hlast)]]%world_in_force. exists c, pools.
  rewrite Hr. split_and!; try done. by apply validate_ok_iff.
Qed.

(** A route never dangles: in every reachable state, a request whose path matches a route is
    resolved to the pool that route names, whose members are exactly the backends the
    configuration in force puts in that pool, at least one of them. *)
Theorem live_routes_resolve (w : World) (path : string) (m : RouteMatch) :
  world_reachable w →
  match_route (router (reloadable (w_state w))) path = Ok (Some m) →
  ∃ c p, c ∈ w_published w ∧
    resolve_backend_pool (reloadable (w_state w)) path =
      Ok {| rr_backend_id := rm_backend_id m; rr_pool := p; rr_timeout_secs := rm_timeout_secs m |} ∧
    backends p ≠ [] ∧
    ∀ b, b ∈ backends p ↔ b ∈ c_backends c ∧ pool b = rm_backend_id m.
Proof.
  intros [_ [c (Hin & Hv & (pools & Hb & Hr) & _)]]%world_in_force Hm. rewrite Hr in *. cbn in Hm.
  destruct (match_route_configured _ _ _ Hm) as (rc & Hrc & Hid).
  destruct Hv as (_ & (_ & Hroutes) & _). destruct (Hroutes rc Hrc) as (_ & b & Hbin & Hpool).
  destruct (build_backend_pools_ok _ _ Hb) as (Hok & Hall).
  destruct (Hall rc Hrc) as [p Hp].
  { intros Hnil. assert (b ∈ members c (rc_backend_id rc)) as Hmem by by apply elem_of_members.
    rewrite Hnil in Hmem. by apply elem_of_nil in Hmem. }
  destruct (Hok _ _ Hp) as [Hmem Hne]. exists c, p. split_and!; [done| |done|].
  - unfold resolve_backend_pool. cbn. rewrite Hm, Hid, Hp. done.
  - intros b'. by rewrite Hmem, elem_of_members, Hid.
Qed.

End world.
End reload.

(** ** Witnesses *)

Definition demo_addr (n : Z) : SocketAddr := {| sa_ip := V4 n; sa_port := 443 |}.

Definition member (id pool : string) (n : Z) : BackendConfig :=
  {| id := id; pool := pool; address := demo_addr n; Balancer.host := id; weight := f64_one; transport := Tcp;
     scheme := Https; max_connections := 8; wakeable := false |}.

Definition route (prefix pool : string) : RouteConfig :=
  {| rc_path_prefix := prefix; rc_backend_id := pool; rc_timeout_secs := None |}.

Definition demo_identity_files : TlsIdentity :=
  {| ti_cert_path := "s.crt"; ti_key_path := "s.key"; ti_ca_cert_path := "ca.crt"; ti_crl_path := None |}.

(** Every section at its default, over given backends and routes; caching is on. *)
Definition demo_config (bs : list BackendConfig) (rs : list RouteConfig) : ReductionConfig :=
  {| listen := {| li_address := demo_addr 1; li_transport := Tcp; li_client_auth := Required |};
     tls := {| tls_server := Manual demo_identity_files; tls_client := Some demo_identity_files |};
     c_backends := bs; c_routes := rs; balancer := BalancerConfig_default; proxy := ProxyConfig_default;
     compression := CompressionConfig_default; health := HealthConfig_default;
     access := {| acc_allow := []; acc_deny := [] |}; ratelimit := RateLimitConfig_default;
     metrics_endpoint := None; circuit_breaker := CircuitBreakerConfig_default;
     c_timeouts := TimeoutConfig_default; retry := RetryConfig_default; tracing := TracingConfig_default;
     tunnel := TunnelConfig_default; cache := Cache.demo_cfg; raw_relay_authz := []; ingress := [];
     http_redirect := HttpRedirectConfig_default; health_endpoint := HealthEndpointConfig_default |}.

Definition demo_old : ReductionConfig :=
  demo_config [member "a1" "a" 11; member "a" "b" 12] [route "/a" "a"; route "/" "b"].

(** Pool "a" is gone; the backend that happens to be called "a" stays in pool "b". *)
Definition demo_new : ReductionConfig := demo_config [member "a" "b" 12] [route "/" "b"].

(** A parser that knows one text. *)
Definition demo_parse (text : string) : result string ReductionConfig :=
  if decide (text = "new") then Ok demo_new else Err "bad".

Definition demo_bal (c : ReductionConfig) : Balancing :=
  {| bal_reloadable := reloadable_of c (match build_backend_pools c with Ok p => p | Err _ => ∅ end);
     bal_configured_backend_ids := dom (match build_backend_pools c with Ok p => p | Err _ => ∅ end);
     bal_health := with_config 64 (from_secs 300) 500; bal_rate_limiter := limiter_per_second U32_MAX;
     bal_circuit_breakers := CircuitBreakers_new (circuit_breaker c) |}.

Definition demo_proxy (c : ReductionConfig) : ProxyState :=
  build_proxy_state c (TunnelRegistry_new 8) RevocationSet_default false (demo_bal c).

Definition demo_applied : list SocketAddr * ReloadTask * ProxyState :=
  apply_config_reload demo_new None (λ _, []) (λ p, p)
    {| prev_routes := c_routes demo_old; prev_backends := c_backends demo_old |} (demo_proxy demo_old).

(** The world after one save of the new configuration, and after its application. *)
Definition demo_saved : World :=
  {| w_channel := demo_new; w_version := 1; w_seen := 0; w_published := [demo_new; demo_old];
     w_task := {| prev_routes := c_routes demo_old; prev_backends := c_backends demo_old |};
     w_state := demo_proxy demo_old; w_drains := [] |}.

Definition demo_world : World :=
  {| w_channel := demo_new; w_version := 1; w_seen := 1; w_published := [demo_new; demo_old];
     w_task := demo_applied.1.2; w_state := demo_applied.2; w_drains := [demo_applied.1.1] |}.

Lemma demo_bal_ok : build_balancing demo_old = Ok (demo_bal demo_old).
Proof.
  unfold build_balancing, demo_bal. destruct (build_backend_pools demo_old) as [pools|e] eqn:Hb; [reflexivity|].
  vm_compute in Hb. discriminate.
Qed.

Lemma demo_valid : validate demo_old = Ok () ∧ validate demo_new = Ok ().
Proof. split; vm_compute; reflexivity. Qed.

Lemma demo_saved_reachable : world_reachable demo_parse demo_saved.
Proof.
  apply (world_next _ (world_new demo_old (demo_proxy demo_old))).
  - apply (world_start demo_parse demo_old (TunnelRegistry_new 8) RevocationSet_default (demo_bal demo_old));
      [apply demo_valid|apply demo_bal_ok].
  - apply (step_save _ (world_new demo_old (demo_proxy demo_old)) "c.toml" (Ok "new") 0 true true
             (restart_required_sections demo_old demo_new)).
    apply reload_config_accept; [reflexivity|apply demo_valid].
Qed.

Lemma demo_world_reachable : world_reachable demo_parse demo_world.
Proof.
  apply (world_next _ demo_saved); [apply demo_saved_reachable|].
  apply (step_apply _ demo_saved None (λ _, []) (λ p, p) demo_applied.1.1 demo_applied.1.2 demo_applied.2);
    [cbn; lia|]. rewrite <-!surjective_pairing. reflexivity.
Qed.

Lemma reload_refines_config_witness :
  ∃ c pools, c ∈ w_published demo_world ∧ validate c = Ok () ∧ build_backend_pools c = Ok pools ∧
    router (reloadable (w_state demo_world)) = Router_new (c_routes c) ∧
    backend_pools (reloadable (w_state demo_world)) = pools ∧
    rl_acl (reloadable (w_state demo_world)) = AccessControl_new (acc_allow (access c)) (acc_deny (access c)) ∧
    (w_seen demo_world = w_version demo_world →
     is_ok (build_backend_pools (w_channel demo_world)) = true → c = w_channel demo_world).
Proof. apply (reload_refines_config demo_parse demo_world). apply demo_world_reachable. Defined.

Definition demo_match : RouteMatch := {| rm_backend_id := "b"; rm_timeout_secs := None |}.

Lemma live_routes_resolve_witness :
  ∃ c p, c ∈ w_published demo_world ∧
    resolve_backend_pool (reloadable (w_state demo_world)) "/x" =
      Ok {| rr_backend_id := "b"; rr_pool := p; rr_timeout_secs := None |} ∧
    backends p ≠ [] ∧ ∀ b, b ∈ backends p ↔ b ∈ c_backends c ∧ pool b = "b".
Proof.
  apply (live_routes_resolve demo_parse demo_world "/x" demo_match); [apply demo_world_reachable|].
  vm_compute. reflexivity.
Defined.

Lemma reload_effect_witness : startup_fixed demo_applied.2 = startup_fixed (demo_proxy demo_old).
Proof.
  eapply (reload_effect demo_new None (λ _, []) (λ p, p)
            {| prev_routes := c_routes demo_old; prev_backends := c_backends demo_old |}
            (demo_proxy demo_old) demo_applied.1.1 demo_applied.1.2).
  rewrite <-!surjective_pairing. reflexivity.
Defined.

Lemma client_auth_reload_silent_witness :
  client_auth (apply_config_reload
    (with_listen demo_old {| li_address := demo_addr 1; li_transport := Tcp; li_client_auth := Disabled |} []
       HttpRedirectConfig_default HealthEndpointConfig_default) None (λ _, []) (λ p, p)
    {| prev_routes := []; prev_backends := [] |} (demo_proxy demo_old)).2 = Required.
Proof.
  apply (client_auth_reload_silent demo_old Disabled [] HttpRedirectConfig_default HealthEndpointConfig_default
           None (λ _, []) (λ p, p) {| prev_routes := []; prev_backends := [] |} (demo_proxy demo_old)).
  vm_compute. reflexivity.
Defined.

(** ** Two consequences *)

Definition trip (cb : CircuitBreakers) (id : string) : CircuitBreakers := record_failures cb id [0; 0; 0; 0; 0].

Definition demo_tripped : ProxyState :=
  with_circuits (demo_proxy demo_old) (trip (trip (circuit_breakers (demo_proxy demo_old)) "a1") "a").

Definition demo_reloaded : ProxyState :=
  (apply_config_reload demo_new None (λ _, []) (λ p, p)
     {| prev_routes := c_routes demo_old; prev_backends := c_backends demo_old |} demo_tripped).2.

(** Breakers are filed under backend ids but a reload forgets them by pool name.  Here pool
    "a" is removed with its only member "a1", and the backend called "a" stays in pool "b".
    The breaker of the removed backend survives, still open, while the open breaker of the
    backend that stays is closed by the reload. *)
Theorem reload_misfiles_breakers :
  ("a1" ∉ map id (c_backends demo_new)) ∧ ("a" ∈ map id (c_backends demo_new)) ∧
  Circuit.state (circuit_breakers demo_tripped) "a1" = Open ∧ Circuit.state (circuit_breakers demo_tripped) "a" = Open ∧
  Circuit.state (circuit_breakers demo_reloaded) "a1" = Open ∧
  Circuit.state (circuit_breakers demo_reloaded) "a" = Closed.
Proof. split_and!; [by_decide|by_decide|vm_compute; reflexivity..]. Qed.

(** A request under way when the routing changes: its answer, from the old backend, is stored
    after the reload has emptied the cache, and the next request for the path is served
    from it although the path now routes elsewhere. *)
Definition demo_inflight : Run :=
  (finish_attempt demo_chunks (demo_env 200 []) 0 (demo_cx 3 demo_identity) demo_selected
     (demo_answer 200 [("cache-control", "public")]) demo_parts {| Handler.state := demo_reloaded; trace := [] |}).2.

Theorem inflight_repopulates_cache :
  cache_len (response_cache demo_reloaded) = 0 ∧
  res_body <$> (cache_get 2 (demo_key "aa") (response_cache (Handler.state demo_inflight))).1 = Some "hi".
Proof. split; vm_compute; reflexivity. Qed.
