(* ===== verification/Registration.v ===== *)
(** * Registration: [src/tunnel/listener.rs] and [src/tunnel/listener/registration.rs]

    One tunnel connection from the accept loop to the end of its session: the admission
    gates, the commit and its acknowledgement, and the control loop.  What the peer, quinn
    and the clock do is the [Peer] record; what other tasks do to the registry while the
    connection waits is its [await] functions. *)

From S2P Require Import Prelude Text Error Net Lru Float64 Wire Acl Identity TunnelProtocol Balancer Queue Registry.
From S2P Require Import Revocation Pool Config.
Local Open Scope Z_scope.

(** ** Constants *)

Definition REJECT_REASON_CN_MISMATCH : string := "cn_mismatch".
Definition REJECT_REASON_ALLOWLIST : string := "allowlist".
Definition REJECT_REASON_REVOKED : string := "revoked".
Definition REJECT_REASON_GLOBAL_CAP : string := "global_cap".
Definition REJECT_REASON_BACKEND_CAP : string := "backend_cap".
Definition REJECT_REASON_PENDING_CAP : string := "pending_cap".
Definition REJECT_REASON_VERSION : string := "version".

Definition MAX_CONCURRENT_PENDING_REGISTRATIONS : Z := 128.
Definition TUNNEL_IDLE_GRACE_SECS : Z := 15.

(** The largest [VarInt], in milliseconds for a quinn [IdleTimeout]. *)
Definition VARINT_MAX : Z := 2 ^ 62 - 1.

(** The idle timeout of [tunnel_transport_config], in seconds. *)
Definition tunnel_idle_secs (config : TunnelConfig) : Result Z :=
  let idle_secs := saturating_add (tc_heartbeat_timeout_secs config) TUNNEL_IDLE_GRACE_SECS in
  if VARINT_MAX <? idle_secs * 1000 then
    Err (Tunnel ("tunnel.heartbeat_timeout_secs too large for a QUIC idle timeout: " +:+ pretty idle_secs +:+ "s"))
  else Ok idle_secs.

Definition exceeds_session_cap (current_total : Z) (cap : option Z) : bool :=
  match cap with
  | None => false
  | Some limit => limit <=? current_total
  end.

(** ** The connection *)

Inductive TunnelMetric :=
  | RegistrationRejected (reason : string)
  | AcceptsRateLimited
  | SessionsActive (delta : Z)
  | DuplicateSessions
  | HeartbeatTimeouts.

(** What this connection has done: the shared registry, whether it still holds its
    pre-registration permit, the metrics it recorded, what it wrote on the control stream and
    whether it finished it. *)
Record Conn := {
  cn_registry : TunnelRegistry;
  cn_pending : bool;
  cn_metrics : list TunnelMetric;
  cn_out : Writer;
  cn_finished : bool;
}.

Definition cn_with (c : Conn) (r : TunnelRegistry) : Conn :=
  {| cn_registry := r; cn_pending := cn_pending c; cn_metrics := cn_metrics c; cn_out := cn_out c;
     cn_finished := cn_finished c |}.
Definition cn_record (m : TunnelMetric) (c : Conn) : Conn :=
  {| cn_registry := cn_registry c; cn_pending := cn_pending c; cn_metrics := m :: cn_metrics c; cn_out := cn_out c;
     cn_finished := cn_finished c |}.
Definition cn_write (c : Conn) (w : Writer) : Conn :=
  {| cn_registry := cn_registry c; cn_pending := cn_pending c; cn_metrics := cn_metrics c; cn_out := w;
     cn_finished := cn_finished c |}.
Definition drop_pending (c : Conn) : Conn :=
  {| cn_registry := cn_registry c; cn_pending := false; cn_metrics := cn_metrics c; cn_out := cn_out c;
     cn_finished := cn_finished c |}.
Definition finish_stream (c : Conn) : Conn :=
  {| cn_registry := cn_registry c; cn_pending := cn_pending c; cn_metrics := cn_metrics c; cn_out := cn_out c;
     cn_finished := true |}.

(** The peer and the environment of one registration: the answers of the handshake, of the
    identity extraction and of [accept_bi]; the bytes the peer sends; which of the bounded
    waits elapse; the denylist published at each of the two checks, which finds the registry in the
    state it is given; the random bytes; the clock at the commit and when the
    control loop starts; a free
    reject-drain slot; and what other tasks do to the registry before the cap check, before
    the commit, before the second check and during the acknowledgement. *)
Record Peer := {
  pe_connection : nat;
  pe_remote_addr : SocketAddr;
  pe_handshake : timed unit;
  pe_identity : Result PeerIdentity;
  pe_control_stream : timed unit;
  pe_in : list Z;
  pe_preamble_late : bool;
  pe_preamble_stalled : bool;
  pe_register_late : bool;
  pe_rev_admit : TunnelRegistry → RevocationSet;
  pe_rev_commit : TunnelRegistry → RevocationSet;
  pe_random : option (list Z);
  pe_now : Z;
  pe_loop_start : Z;
  pe_drain_slot : bool;
  pe_reject_stalled : bool;
  pe_ack_stalled : bool;
  pe_await_admit : TunnelRegistry → TunnelRegistry;
  pe_await_commit : TunnelRegistry → TunnelRegistry;
  pe_await_recheck : TunnelRegistry → TunnelRegistry;
  pe_await_ack : TunnelRegistry → TunnelRegistry;
}.

Record Established := {
  es_identity : PeerIdentity;
  es_backend_id : string;
  es_pool : string;
  es_capabilities : list string;
}.

Record Committed := {
  co_backend_id : string;
  co_session_id : SessionId;
  co_is_control_peer : bool;
}.

Section registration.
  Context `{Codec TunnelFrame} `{!Lru (BackendHealth * Z)} (frame_debug : TunnelFrame → string).

(** ** Bounded writes and rejections *)

(** A write that outlasts [CONTROL_WRITE_TIMEOUT] is abandoned: none of it counts as written. *)
Definition bounded_control_write (stalled : bool) (frame : TunnelFrame) (w : Writer) : bool * Writer :=
  if stalled then (false, w)
  else let '(r, w) := write_frame frame w in (is_ok r, w).

Definition reject_and_close (p : Peer) (reason : string) (c : Conn) : Conn :=
  if pe_drain_slot p then
    let '(delivered, w) := bounded_control_write (pe_reject_stalled p) (Shutdown reason) (cn_out c) in
    let c := cn_write c w in
    if delivered then finish_stream c else c
  else c.

Definition reject_registration {A} (p : Peer) (reason close_msg : string) (err : ReductionError) (c : Conn)
    : Result A * Conn :=
  (Err err, reject_and_close p close_msg (drop_pending (cn_record (RegistrationRejected reason) c))).

(** [.await.map_err(|_| Tunnel(late))?.map_err(|e| Tunnel(format!("{what}: {e}")))?] *)
Definition timed_tunnel {A} (late what : string) (t : timed A) : Result A :=
  match t with
  | TimedOut => Err (Tunnel late)
  | Answer (Ok a) => Ok a
  | Answer (Err e) => Err (Tunnel (what +:+ ": " +:+ e))
  end.

(** ** Establish *)

Definition accept_registration_stream (p : Peer) : Result PeerIdentity :=
  _ ← timed_tunnel "tunnel handshake timed out" "handshake failed" (pe_handshake p);
  identity ← match pe_identity p with
             | Ok i => Ok i
             | Err e => Err (Tunnel ("peer identity: " +:+ error_to_string e))
             end;
  _ ← timed_tunnel "control stream timed out" "accept control stream" (pe_control_stream p);
  Ok identity.

Definition establish_registration (p : Peer) (c : Conn) : Result Established * Conn :=
  match accept_registration_stream p with
  | Err e => (Err e, c)
  | Ok identity =>
      if pe_preamble_late p then (Err (Tunnel "preamble timed out"), c)
      else
        let '(version, rest) := read_preamble (pe_in p) in
        match version with
        | Err e => (Err e, c)
        | Ok peer_version =>
            if negb (peer_version =? PROTOCOL_VERSION) then
              reject_registration p REJECT_REASON_VERSION "unsupported protocol version"
                (Tunnel ("unsupported protocol version " +:+ pretty peer_version)) c
            else if pe_preamble_stalled p then (Err (Tunnel "write preamble stalled"), c)
            else
              let '(written, w) := write_preamble (cn_out c) in
              let c := cn_write c w in
              match written with
              | Err e => (Err e, c)
              | Ok _ =>
                  if pe_register_late p then (Err (Tunnel "registration timed out"), c)
                  else
                    match (read_frame rest).1 with
                    | Err e => (Err (Tunnel ("read register frame: " +:+ error_to_string e)), c)
                    | Ok (Register backend_id pool capabilities) =>
                        (Ok {| es_identity := identity; es_backend_id := backend_id; es_pool := pool;
                               es_capabilities := capabilities |}, c)
                    | Ok other => (Err (Tunnel ("expected Register frame, got " +:+ frame_debug other)), c)
                    end
              end
        end
  end.

(** ** Admit *)

Definition admit_registration (p : Peer) (config : TunnelConfig) (e : Established) (c : Conn)
    : Result Established * Conn :=
  if negb (bool_decide (es_backend_id e = common_name (es_identity e))) then
    reject_registration p REJECT_REASON_CN_MISMATCH "backend_id does not match certificate"
      (Tunnel "backend_id does not match certificate CN") c
  else if is_revoked (pe_rev_admit p (cn_registry c)) (es_identity e) then
    reject_registration p REJECT_REASON_REVOKED REJECT_REASON_REVOKED (Tunnel "identity revoked") c
  else if negb (bool_decide (tc_allowed_backend_ids config = [])) &&
          negb (bool_decide (es_backend_id e ∈ tc_allowed_backend_ids config)) then
    reject_registration p REJECT_REASON_ALLOWLIST "not in allowlist" (Tunnel "backend not in allowlist") c
  else
    let c := cn_with c (pe_await_admit p (cn_registry c)) in
    if exceeds_session_cap (total_sessions (cn_registry c)) (tc_max_total_sessions config) then
      reject_registration p REJECT_REASON_GLOBAL_CAP "at capacity" (Tunnel "global session cap reached") c
    else (Ok e, c).

(** ** Commit *)

Definition session_for (p : Peer) (e : Established) (sid : SessionId) : TunnelSession :=
  {| ts_session_id := sid; ts_backend_id := es_backend_id e; ts_pool := es_pool e;
     ts_remote_addr := pe_remote_addr p; ts_connected_at := pe_now p; ts_last_heartbeat := pe_now p;
     ts_connection := pe_connection p; ts_identity := es_identity e;
     ts_is_control_peer := bool_decide (CONTROL_CAPABILITY ∈ es_capabilities e) |}.

(** The acknowledged session: the permit goes, the gauge moves, and a second session of the
    same backend is reported. *)
Definition count_session (e : Established) (c : Conn) : Conn :=
  let c := cn_record (SessionsActive 1) (drop_pending c) in
  if 1 <? session_count (cn_registry c) (common_name (es_identity e)) then cn_record DuplicateSessions c else c.

Definition commit_registration (p : Peer) (config : TunnelConfig) (e : Established) (c : Conn)
    : Result Committed * Conn :=
  match SessionId_generate (pe_random p) with
  | Err err => (Err err, c)
  | Ok sid =>
      let session := session_for p e sid in
      let c := cn_with c (pe_await_commit p (cn_registry c)) in
      match register (cn_registry c) session (tc_control_channel_capacity config) with
      | (Err err, r) => reject_registration p REJECT_REASON_BACKEND_CAP "at capacity" err (cn_with c r)
      | (Ok _, r) =>
          let c := cn_with c (pe_await_recheck p r) in
          if is_revoked (pe_rev_commit p (cn_registry c)) (es_identity e) then
            let c := cn_with c (deregister (cn_registry c) (es_backend_id e) sid).2 in
            reject_registration p REJECT_REASON_REVOKED REJECT_REASON_REVOKED (Tunnel "identity revoked") c
          else
            let '(acked, w) := bounded_control_write (pe_ack_stalled p) (RegisterAck sid) (cn_out c) in
            let c := cn_with (cn_write c w) (pe_await_ack p (cn_registry c)) in
            if acked then
              (Ok {| co_backend_id := es_backend_id e; co_session_id := sid;
                     co_is_control_peer := ts_is_control_peer session |}, count_session e c)
            else
              (Err (Tunnel "register ack write failed or stalled"),
               cn_with c (deregister (cn_registry c) (es_backend_id e) sid).2)
      end
  end.

(** The three stages ahead of the control loop. *)
Definition register_peer (p : Peer) (config : TunnelConfig) (c : Conn) : Result Committed * Conn :=
  match establish_registration p c with
  | (Err e, c) => (Err e, c)
  | (Ok e, c) =>
      match admit_registration p config e c with
      | (Err e, c) => (Err e, c)
      | (Ok e, c) => commit_registration p config e c
      end
  end.

(** ** The control loop *)

(** What one turn of the [select!] finds ready: a frame or a read error, the heartbeat
    deadline, a frame queued by the registry or its closed channel, or the shutdown token.
    [stalled] is whether the write the turn makes outlasts its bound.  [Others] is what the
    other tasks do to the registry between two turns. *)
Inductive LoopEvent :=
  | Inbound (now : Z) (frame : Result TunnelFrame) (stalled : bool)
  | Elapsed (now : Z)
  | Outbound (frame : option TunnelFrame) (stalled : bool)
  | Cancelled (stalled : bool)
  | Others (f : TunnelRegistry → TunnelRegistry).

Record LoopCtx := {
  lc_backend_id : string;
  lc_session_id : SessionId;
  lc_heartbeat_timeout : Z;
  lc_is_control_peer : bool;
}.

(** [lp_health] is the state behind [health_tx], [None] when the transport is off. *)
Record Loop := {
  lp_conn : Conn;
  lp_health : option HealthState;
  lp_last_heartbeat : Z;
}.

Definition on_conn (f : Conn → Conn) (l : Loop) : Loop :=
  {| lp_conn := f (lp_conn l); lp_health := lp_health l; lp_last_heartbeat := lp_last_heartbeat l |}.

Definition loop_write (stalled : bool) (frame : TunnelFrame) (l : Loop) : bool * Loop :=
  let '(ok, w) := bounded_control_write stalled frame (cn_out (lp_conn l)) in
  (ok, on_conn (λ c, cn_write c w) l).

(** [Heartbeat], stamping the session and answering. *)
Definition on_heartbeat (x : LoopCtx) (now : Z) (stalled : bool) (l : Loop) : bool * Loop :=
  let l := {| lp_conn := cn_with (lp_conn l) (record_heartbeat (cn_registry (lp_conn l)) now (lc_backend_id x)
                                               (lc_session_id x)).2;
              lp_health := lp_health l; lp_last_heartbeat := now |} in
  loop_write stalled HeartbeatAck l.

Definition on_health (x : LoopCtx) (now : Z) (reported : string) (available : bool) (l : Loop) : Loop :=
  match lp_health l with
  | Some state =>
      if lc_is_control_peer x then
        let entry := {| bh_backend_id := reported; bh_load := f64_zero; bh_latency_ms := 0;
                        bh_availability := if available then Online else Offline |} in
        {| lp_conn := lp_conn l; lp_health := Some (update now [entry] state);
           lp_last_heartbeat := lp_last_heartbeat l |}
      else l
  | None => l
  end.

(** One turn: whether the loop goes on, and its state. *)
Definition loop_turn (x : LoopCtx) (ev : LoopEvent) (l : Loop) : bool * Loop :=
  match ev with
  | Inbound now (Ok (Heartbeat _)) stalled => on_heartbeat x now stalled l
  | Inbound now (Ok (Shutdown _)) _ => (false, l)
  | Inbound now (Ok (Health reported available)) _ => (true, on_health x now reported available l)
  | Inbound now (Ok (RefuseWake refused)) _ =>
      (true, if lc_is_control_peer x then on_conn (λ c, cn_with c (note_refusal (cn_registry c) refused)) l else l)
  | Inbound _ (Ok _) _ => (true, l)
  | Inbound _ (Err _) _ => (false, l)
  | Elapsed now =>
      if lp_last_heartbeat l + lc_heartbeat_timeout x <=? now
      then (false, on_conn (cn_record HeartbeatTimeouts) l) else (true, l)
  | Outbound (Some (Shutdown reason)) stalled =>
      let '(ok, l) := loop_write stalled (Shutdown reason) l in
      (false, if ok then on_conn finish_stream l else l)
  | Outbound _ _ => (false, l)
  | Cancelled stalled => (false, (loop_write stalled (Shutdown "proxy shutting down") l).2)
  | Others f => (true, on_conn (λ c, cn_with c (f (cn_registry c))) l)
  end.

(** The loop over the events: whether it has ended, and its state. *)
Fixpoint run_control_loop (x : LoopCtx) (evs : list LoopEvent) (l : Loop) : bool * Loop :=
  match evs with
  | [] => (false, l)
  | ev :: evs =>
      let '(continue, l) := loop_turn x ev l in
      if continue then run_control_loop x evs l else (true, l)
  end.

(** The whole connection: [None] while its control loop runs. *)
Definition handle_tunnel_connection (p : Peer) (config : TunnelConfig) (evs : list LoopEvent) (health : option HealthState)
    (c : Conn) : option (Result unit) * Conn :=
  match register_peer p config c with
  | (Err e, c) => (Some (Err e), drop_pending c)
  | (Ok co, c) =>
      let x := {| lc_backend_id := co_backend_id co; lc_session_id := co_session_id co;
                  lc_heartbeat_timeout := from_secs (tc_heartbeat_timeout_secs config);
                  lc_is_control_peer := co_is_control_peer co |} in
      let '(ended, l) := run_control_loop x evs {| lp_conn := c; lp_health := health; lp_last_heartbeat := pe_loop_start p |} in
      let c := lp_conn l in
      if ended then
        (Some (Ok ()), cn_record (SessionsActive (-1))
                         (cn_with c (deregister (cn_registry c) (co_backend_id co) (co_session_id co)).2))
      else (None, c)
  end.

(** ** Nothing is left behind *)

(** No session carries the id; or only sessions of the bucket [b0] do. *)
Definition lacks (sid : SessionId) (r : TunnelRegistry) : Prop :=
  ∀ b s, s ∈ bucket r b → ts_session_id s ≠ sid.
Definition only (sid : SessionId) (b0 : string) (r : TunnelRegistry) : Prop :=
  ∀ b s, s ∈ bucket r b → ts_session_id s = sid → b = b0.

(** The active-sessions gauge. *)
Definition active (ms : list TunnelMetric) : Z :=
  foldr (λ m acc, match m with SessionsActive d => d + acc | _ => acc end) 0 ms.

Lemma lacks_only sid b0 r : lacks sid r → only sid b0 r.
Proof. intros Hl b s Hs Hid. by apply Hl in Hs. Qed.

Lemma register_only sid r s capacity r' :
  lacks sid r → register r s capacity = (Ok (), r') → only sid (ts_backend_id s) r'.
Proof.
  intros Hl Hr b x [Hx|(_ & -> & ->)]%(elem_of_register _ _ _ _ _ _ _ Hr) Hid; [by apply Hl in Hx|done].
Qed.

Lemma register_refused_lacks sid r s capacity e r' :
  lacks sid r → register r s capacity = (Err e, r') → lacks sid r'.
Proof. intros Hl Hr b x [Hx|(? & _)]%(elem_of_register _ _ _ _ _ _ _ Hr); [by apply (Hl b)|done]. Qed.

Lemma deregister_lacks sid b0 r : only sid b0 r → lacks sid (deregister r b0 sid).2.
Proof.
  intros Ho b s Hs Hid. destruct (deregister_no_new r b0 sid b s Hs) as (s' & Hs' & [He _]).
  rewrite He in Hid. rewrite (Ho b s' Hs' Hid) in Hs. apply deregister_gone in Hs. congruence.
Qed.

Lemma heartbeat_only sid b0 r now b : only sid b0 r → only sid b0 (record_heartbeat r now b sid).2.
Proof.
  intros Ho b' s. rewrite elem_of_bucket. unfold record_heartbeat.
  destruct (sessions r !! b) as [l|] eqn:Hl; [|rewrite <-elem_of_bucket; apply Ho].
  destruct (list_find _ l) as [[i x]|] eqn:Hf; [|rewrite <-elem_of_bucket; apply Ho].
  apply list_find_Some in Hf as (Hi & Hx & _). cbn. destruct (decide (b = b')) as [<-|Hne].
  - intros _ _. apply (Ho b x); [|done]. apply elem_of_bucket. exists l. split; [done|].
    by eapply list_elem_of_lookup_2.
  - rewrite lookup_insert_ne by done. rewrite <-elem_of_bucket. apply Ho.
Qed.

Lemma note_refusal_sessions r b : sessions (note_refusal r b) = sessions r.
Proof.
  unfold note_refusal. destruct (array_string_from 256 b) as [k|]; [|done].
  by destruct (notify_keeps (with_refused r ({[k]} ∪ refused r)) b) as [-> _].
Qed.

(** ** Rejections *)

Lemma reject_and_close_conn p reason c :
  cn_registry (reject_and_close p reason c) = cn_registry c ∧ cn_metrics (reject_and_close p reason c) = cn_metrics c ∧
  cn_pending (reject_and_close p reason c) = cn_pending c.
Proof.
  unfold reject_and_close. destruct (pe_drain_slot p); [|done].
  destruct (bounded_control_write _ _ _) as [[] w]; done.
Qed.

Lemma reject_conn {A} p reason msg err c (res : Result A) c' :
  reject_registration p reason msg err c = (res, c') →
  res = Err err ∧ cn_registry c' = cn_registry c ∧ active (cn_metrics c') = active (cn_metrics c) ∧ cn_pending c' = false.
Proof.
  intros [= <- <-]. destruct (reject_and_close_conn p msg (drop_pending (cn_record (RegistrationRejected reason) c)))
    as (-> & -> & ->). done.
Qed.

(** ** The stages *)

Lemma establish_conn p c res c' :
  establish_registration p c = (res, c') →
  cn_registry c' = cn_registry c ∧ active (cn_metrics c') = active (cn_metrics c) ∧
  (∀ e, res = Ok e → pe_identity p = Ok (es_identity e)).
Proof.
  unfold establish_registration. destruct (accept_registration_stream p) as [i|e] eqn:Ha; [|by intros [= <- <-]].
  assert (pe_identity p = Ok i) as Hi.
  { revert Ha. unfold accept_registration_stream. destruct (timed_tunnel _ _ (pe_handshake p)); [|done].
    destruct (pe_identity p); [|done]. destruct (timed_tunnel _ _ (pe_control_stream p)); by intros [= <-]. }
  destruct (pe_preamble_late p); [by intros [= <- <-]|].
  destruct (read_preamble (pe_in p)) as [[v|e] rest]; [|by intros [= <- <-]].
  destruct (negb _); [intros (-> & -> & -> & _)%reject_conn; done|].
  destruct (pe_preamble_stalled p); [by intros [= <- <-]|].
  destruct (write_preamble (cn_out c)) as [[u|e] w]; [|by intros [= <- <-]].
  destruct (pe_register_late p); [by intros [= <- <-]|].
  destruct (read_frame rest).1 as [[]|e]; intros [= <- <-]; split_and!; try done. by intros e [= <-].
Qed.

Lemma admit_conn p config e c res c' :
  admit_registration p config e c = (res, c') →
  cn_registry c' ∈ [cn_registry c; pe_await_admit p (cn_registry c)] ∧
  active (cn_metrics c') = active (cn_metrics c) ∧
  (∀ e', res = Ok e' → e' = e ∧ es_backend_id e = common_name (es_identity e) ∧
     is_revoked (pe_rev_admit p (cn_registry c)) (es_identity e) = false ∧
     (tc_allowed_backend_ids config = [] ∨ es_backend_id e ∈ tc_allowed_backend_ids config) ∧
     cn_registry c' = pe_await_admit p (cn_registry c) ∧
     exceeds_session_cap (total_sessions (cn_registry c')) (tc_max_total_sessions config) = false).
Proof.
  unfold admit_registration. destruct (negb (bool_decide (_ = common_name _))) eqn:Hcn;
    [intros (-> & -> & -> & _)%reject_conn; split; [set_solver|done]|].
  destruct (is_revoked _ _) eqn:Hr; [intros (-> & -> & -> & _)%reject_conn; split; [set_solver|done]|].
  destruct (_ && _) eqn:Hl; [intros (-> & -> & -> & _)%reject_conn; split; [set_solver|done]|].
  destruct (exceeds_session_cap _ _) eqn:Hx; [intros (-> & -> & -> & _)%reject_conn; split; [set_solver|done]|].
  intros [= <- <-]. split_and!; [set_solver|done|]. intros ? [= <-].
  apply negb_false_iff, bool_decide_eq_true in Hcn. split_and!; try done.
  apply andb_false_iff in Hl as [Hl|Hl]; apply negb_false_iff, bool_decide_eq_true in Hl; auto.
Qed.

(** The other tasks' effects on the registry while the loop runs. *)
Definition others (evs : list LoopEvent) : list (TunnelRegistry → TunnelRegistry) :=
  omap (λ ev, match ev with Others f => Some f | _ => None end) evs.

(** Session ids are random: no other task files a session under this connection's id. *)
Definition id_unused (p : Peer) (evs : list LoopEvent) (sid : SessionId) : Prop :=
  (∀ r, lacks sid r → lacks sid (pe_await_admit p r) ∧ lacks sid (pe_await_commit p r)) ∧
  (∀ f b0 r, f ∈ pe_await_recheck p :: pe_await_ack p :: others evs → only sid b0 r → only sid b0 (f r)).

Lemma count_session_conn e c :
  cn_registry (count_session e c) = cn_registry c ∧ active (cn_metrics (count_session e c)) = active (cn_metrics c) + 1 ∧
  cn_pending (count_session e c) = false ∧ cn_out (count_session e c) = cn_out c.
Proof. rewrite (Z.add_comm _ 1). unfold count_session. by destruct (1 <? _). Qed.

(** What a committed registration has done, and what a refused one leaves. *)
Lemma commit_conn p config e c evs sid res c' :
  SessionId_generate (pe_random p) = Ok sid → id_unused p evs sid → lacks sid (cn_registry c) →
  commit_registration p config e c = (res, c') →
  match res with
  | Ok co => co_backend_id co = es_backend_id e ∧ co_session_id co = sid ∧ cn_pending c' = false ∧
      active (cn_metrics c') = active (cn_metrics c) + 1 ∧ only sid (es_backend_id e) (cn_registry c')
  | Err _ => lacks sid (cn_registry c') ∧ active (cn_metrics c') = active (cn_metrics c)
  end.
Proof.
  intros Hg [Hf Ho] Hl. unfold commit_registration. rewrite Hg.
  apply Hf in Hl as [_ Hl]. cbn [cn_registry cn_with].
  destruct (register _ _ _) as [[[]|err] r] eqn:Hr;
    [|intros (-> & -> & -> & _)%reject_conn; split; [by eapply register_refused_lacks|done]].
  eapply (register_only sid) in Hl; [|done]. cbn in Hl.
  apply (Ho (pe_await_recheck p)) in Hl; [|set_solver].
  destruct (is_revoked _ _); [intros (-> & -> & -> & _)%reject_conn; split; [by apply deregister_lacks|done]|].
  destruct (bounded_control_write _ _ _) as [acked w]. cbn [cn_registry cn_with cn_write].
  apply (Ho (pe_await_ack p)) in Hl; [|set_solver].
  destruct acked; intros [= <- <-]; [|split; [by apply deregister_lacks|done]].
  destruct (count_session_conn e (cn_with (cn_write (cn_with (cn_with c (pe_await_commit p (cn_registry c)))
    (pe_await_recheck p r)) w) (pe_await_ack p (pe_await_recheck p r)))) as (-> & -> & -> & _). done.
Qed.

Lemma generate_failed p config e c err res c' :
  SessionId_generate (pe_random p) = Err err → commit_registration p config e c = (res, c') →
  res = Err err ∧ c' = c.
Proof. unfold commit_registration. intros -> [= <- <-]. done. Qed.

Lemma bounded_write_ok stalled frame w w' :
  bounded_control_write stalled frame w = (true, w') → stalled = false ∧ write_frame frame w = (Ok (), w').
Proof. unfold bounded_control_write. destruct stalled; [done|]. by destruct (write_frame _ _) as [[[]|] ?]; intros [= <-]. Qed.

(** ** The control loop *)

Lemma loop_write_keeps stalled frame l ok l' :
  loop_write stalled frame l = (ok, l') →
  cn_registry (lp_conn l') = cn_registry (lp_conn l) ∧ cn_metrics (lp_conn l') = cn_metrics (lp_conn l) ∧
  cn_pending (lp_conn l') = cn_pending (lp_conn l) ∧ lp_health l' = lp_health l ∧
  lp_last_heartbeat l' = lp_last_heartbeat l.
Proof. unfold loop_write. destruct (bounded_control_write _ _ _) as [ok' w]. by intros [= <- <-]. Qed.

Lemma on_health_keeps x now b a l :
  lp_conn (on_health x now b a l) = lp_conn l ∧ lp_last_heartbeat (on_health x now b a l) = lp_last_heartbeat l ∧
  (lc_is_control_peer x = false → on_health x now b a l = l).
Proof. unfold on_health. by destruct (lp_health l), (lc_is_control_peer x). Qed.

Lemma only_sessions sid b0 r r' : sessions r' = sessions r → only sid b0 r → only sid b0 r'.
Proof. intros Hs Ho b s. rewrite elem_of_bucket, Hs, <-elem_of_bucket. apply Ho. Qed.

Lemma loop_turn_keeps x ev l go l' :
  loop_turn x ev l = (go, l') →
  (∀ f, f ∈ others [ev] → only (lc_session_id x) (lc_backend_id x) (cn_registry (lp_conn l)) →
     only (lc_session_id x) (lc_backend_id x) (f (cn_registry (lp_conn l)))) →
  only (lc_session_id x) (lc_backend_id x) (cn_registry (lp_conn l)) →
  only (lc_session_id x) (lc_backend_id x) (cn_registry (lp_conn l')) ∧
  active (cn_metrics (lp_conn l')) = active (cn_metrics (lp_conn l)) ∧ cn_pending (lp_conn l') = cn_pending (lp_conn l).
Proof.
  intros Ht Hf Ho. destruct ev as [now [[]|] stalled|now|[[]|] stalled|stalled|f]; cbn [loop_turn] in Ht;
    try (injection Ht as <- <-; done).
  - unfold on_heartbeat in Ht. apply loop_write_keeps in Ht as (-> & -> & -> & _). cbn. auto using heartbeat_only.
  - injection Ht as <- <-. destruct (on_health_keeps x now backend_id available l) as (-> & _ & _). done.
  - injection Ht as <- <-. destruct (lc_is_control_peer x); [|done]. cbn. split; [|done].
    eapply only_sessions; [apply note_refusal_sessions|done].
  - destruct (_ <=? now); injection Ht as <- <-; done.
  - destruct (loop_write _ _ l) as [ok l2] eqn:Hw. apply loop_write_keeps in Hw as (Hr & Hm & Hp & _).
    injection Ht as <- <-. destruct ok; cbn; rewrite Hr, Hm, Hp; done.
  - destruct (loop_write _ _ l) as [ok l2] eqn:Hw. apply loop_write_keeps in Hw as (Hr & Hm & Hp & _).
    injection Ht as <- <-. cbn. rewrite Hr, Hm, Hp. done.
  - injection Ht as <- <-. cbn. split; [apply Hf; [set_solver|done]|done].
Qed.

Lemma run_loop_keeps x evs l ended l' :
  (∀ f b0 r, f ∈ others evs → only (lc_session_id x) b0 r → only (lc_session_id x) b0 (f r)) →
  run_control_loop x evs l = (ended, l') →
  only (lc_session_id x) (lc_backend_id x) (cn_registry (lp_conn l)) →
  only (lc_session_id x) (lc_backend_id x) (cn_registry (lp_conn l')) ∧
  active (cn_metrics (lp_conn l')) = active (cn_metrics (lp_conn l)) ∧ cn_pending (lp_conn l') = cn_pending (lp_conn l).
Proof.
  intros Hf. induction evs as [|ev evs IH] in l, Hf |- *; cbn [run_control_loop]; [by intros [= <- <-]|].
  destruct (loop_turn x ev l) as [go l2] eqn:Ht. intros Hrun Ho.
  assert (∀ f, f ∈ others [ev] ++ others evs → f ∈ others (ev :: evs)) as Hin.
  { intros f. by destruct ev. }
  eapply loop_turn_keeps in Ht as (Ho2 & Hm & Hp); [|by intros f Hfe; apply Hf, Hin, elem_of_app; left|done].
  destruct go; [|by injection Hrun as <- <-].
  edestruct (IH l2) as (? & Hm' & Hp'); [by intros f b0 r Hfe; apply Hf, Hin, elem_of_app; right|done|done|].
  split_and!; [done|congruence..].
Qed.

(** The last heartbeat the loop has seen, from the one it started with. *)
Definition latest_beat (start : Z) (evs : list LoopEvent) : Z :=
  foldl (λ t ev, match ev with Inbound now (Ok (Heartbeat _)) _ => now | _ => t end) start evs.

Lemma loop_turn_beat x ev l go l' :
  loop_turn x ev l = (go, l') → lp_last_heartbeat l' = latest_beat (lp_last_heartbeat l) [ev].
Proof.
  intros Ht. destruct ev as [now [[]|] stalled|now|[[]|] stalled|stalled|f]; cbn [loop_turn] in Ht;
    try (injection Ht as <- <-; done).
  - unfold on_heartbeat in Ht. by apply loop_write_keeps in Ht as (_ & _ & _ & _ & ->).
  - injection Ht as <- <-. by destruct (on_health_keeps x now backend_id available l) as (_ & -> & _).
  - injection Ht as <- <-. by destruct (lc_is_control_peer x).
  - by destruct (_ <=? now); injection Ht as <- <-.
  - destruct (loop_write _ _ l) as [ok l2] eqn:Hw. apply loop_write_keeps in Hw as (_ & _ & _ & _ & Hb).
    injection Ht as <- <-. by destruct ok.
  - destruct (loop_write _ _ l) as [ok l2] eqn:Hw. apply loop_write_keeps in Hw as (_ & _ & _ & _ & Hb).
    by injection Ht as <- <-.
Qed.

Lemma run_loop_silent x evs now l :
  latest_beat (lp_last_heartbeat l) evs + lc_heartbeat_timeout x <= now →
  (run_control_loop x (evs ++ [Elapsed now]) l).1 = true.
Proof.
  induction evs as [|ev evs IH] in l |- *; cbn [app run_control_loop].
  - cbn. intros Hle%Z.leb_le. by rewrite Hle.
  - destruct (loop_turn x ev l) as [[] l'] eqn:Ht; [|done]. apply loop_turn_beat in Ht.
    intros Hle. apply IH. rewrite Ht. done.
Qed.

(** A registration succeeds only for the identity it proved, allowed and not revoked. *)
Lemma register_peer_inv p config c res c' :
  register_peer p config c = (res, c') →
  (∃ e, res = Err e ∧ active (cn_metrics c') = active (cn_metrics c) ∧
        cn_registry c' ∈ [cn_registry c; pe_await_admit p (cn_registry c)]) ∨
  ∃ e c1, pe_identity p = Ok (es_identity e) ∧ active (cn_metrics c1) = active (cn_metrics c) ∧
    es_backend_id e = common_name (es_identity e) ∧
    is_revoked (pe_rev_admit p (cn_registry c)) (es_identity e) = false ∧
    (tc_allowed_backend_ids config = [] ∨ es_backend_id e ∈ tc_allowed_backend_ids config) ∧
    cn_registry c1 = pe_await_admit p (cn_registry c) ∧
    exceeds_session_cap (total_sessions (cn_registry c1)) (tc_max_total_sessions config) = false ∧
    commit_registration p config e c1 = (res, c').
Proof.
  unfold register_peer. destruct (establish_registration p c) as [[e|err] c0] eqn:He;
    apply establish_conn in He as (Hr0 & Hm0 & Hi); [|intros [= <- <-]; left; exists err; rewrite Hr0; split_and!; [done..|set_solver]].
  destruct (admit_registration p config e c0) as [[e'|err] c1] eqn:Ha;
    apply admit_conn in Ha as (Hr1 & Hm1 & Hok); rewrite Hr0 in *.
  - destruct (Hok e' eq_refl) as (-> & ? & ? & ? & ? & ?). intros Hc. right. exists e, c1.
    split_and!; [by apply Hi|congruence|done..].
  - intros [= <- <-]. left. exists err. split_and!; [done|congruence|done].
Qed.

(** ** What holds of a connection *)

(** C13. A peer is acknowledged only when the name it registers is the common name its certificate
    proved, the allowlist is empty or holds the name, the global cap had room and the registry,
    as the other tasks had left it, took the session.  The denylist is read twice and refuses it
    neither time, and the second reading finds the session filed: it comes after the registration
    and whatever the other tasks did since.  The acknowledgement is then the last thing written,
    it carries the session's id, and the pre-registration permit is released. *)
Theorem registration_admission p config c co c' :
  register_peer p config c = (Ok co, c') →
  let r0 := pe_await_commit p (pe_await_admit p (cn_registry c)) in
  ∃ i session r1 l w, pe_identity p = Ok i ∧ co_backend_id co = common_name i ∧
    ts_identity session = i ∧ ts_backend_id session = co_backend_id co ∧ ts_session_id session = co_session_id co ∧
    is_revoked (pe_rev_admit p (cn_registry c)) i = false ∧
    (tc_allowed_backend_ids config = [] ∨ co_backend_id co ∈ tc_allowed_backend_ids config) ∧
    exceeds_session_cap (total_sessions (pe_await_admit p (cn_registry c))) (tc_max_total_sessions config) = false ∧
    register r0 session (tc_control_channel_capacity config) = (Ok (), r1) ∧
    sessions r1 !! co_backend_id co = Some l ∧ session ∈ l ∧
    is_revoked (pe_rev_commit p (pe_await_recheck p r1)) i = false ∧
    cn_registry c' = pe_await_ack p (pe_await_recheck p r1) ∧
    write_frame (RegisterAck (co_session_id co)) w = (Ok (), cn_out c') ∧ cn_pending c' = false.
Proof.
  intros [(? & ? & _)|(e & c1 & Hi & _ & Hcn & Hr1 & Hal & Hadm & Hcap & Hc)]%register_peer_inv; [done|].
  revert Hc. unfold commit_registration. destruct (SessionId_generate _) as [sid|]; [|done].
  rewrite <-Hadm. cbn [cn_registry cn_with].
  destruct (register _ _ _) as [[[]|] r] eqn:Hr; [|by intros [= ]].
  destruct (is_revoked (pe_rev_commit p _) _) eqn:Hr2; [by intros [= ]|].
  destruct (bounded_control_write _ _ _) as [[] w'] eqn:Hw; [|done]. intros [= <- <-].
  apply bounded_write_ok in Hw as [_ Hw].
  destruct (register_filed _ _ _ _ Hr) as (l & Hl & Hin).
  edestruct count_session_conn as (-> & _ & -> & ->).
  exists (es_identity e), (session_for p e sid), r, l. eexists. split_and!; done.
Qed.

(** C10. When a connection's task ends, however it ends (refused at any gate, its acknowledgement
    lost, the peer gone, silent or told to stop, the session revoked under it), no session
    with its id is left in the registry, the pre-registration permit is released and the
    active-sessions gauge is back where it was; whatever the other tasks did to the registry
    in between, as long as none filed a session under the same id. *)
Theorem tunnel_connection_balanced p config evs health c res c' :
  (∀ sid, SessionId_generate (pe_random p) = Ok sid → lacks sid (cn_registry c) ∧ id_unused p evs sid) →
  handle_tunnel_connection p config evs health c = (Some res, c') →
  (∀ sid, SessionId_generate (pe_random p) = Ok sid → lacks sid (cn_registry c')) ∧
  cn_pending c' = false ∧ active (cn_metrics c') = active (cn_metrics c).
Proof.
  intros Hid. unfold handle_tunnel_connection. destruct (register_peer p config c) as [[co|e] c1] eqn:Hp;
    destruct (register_peer_inv _ _ _ _ _ Hp) as [(? & Hres & Hm & Hreg)|(es & c0 & _ & Hm & _ & _ & _ & Hr0 & _ & Hc)].
  - done.
  - destruct (SessionId_generate (pe_random p)) as [sid|] eqn:Hg; [|by eapply generate_failed in Hc as [? _]].
    destruct (Hid sid eq_refl) as [Hl Hu].
    eapply (commit_conn _ _ _ _ _ _ _ _ Hg Hu) in Hc as (Hb & Hs & Hpd & Hm1 & Ho); [|rewrite Hr0; by apply Hu].
    destruct (run_control_loop _ _ _) as [ended l] eqn:Hrun.
    eapply run_loop_keeps in Hrun as (Ho' & Hm2 & Hpd'); [| |by cbn; rewrite Hb, Hs];
      [|intros f b0 r Hf; cbn; rewrite Hs; apply Hu; set_solver].
    cbn in Ho', Hm2, Hpd'. destruct ended; [|done]. intros [= <- <-]. split_and!.
    + intros ? [= <-]. cbn. rewrite <-Hs. by apply deregister_lacks.
    + cbn. congruence.
    + change (-1 + active (cn_metrics (lp_conn l)) = active (cn_metrics c)). lia.
  - intros [= <- <-]. split_and!; [|done|done]. intros sid Hg. destruct (Hid sid Hg) as [Hl Hu]. cbn.
    apply elem_of_cons in Hreg as [->|Hreg%list_elem_of_singleton]; [done|]. rewrite Hreg. by apply Hu.
  - intros [= <- <-]. destruct (SessionId_generate (pe_random p)) as [sid|] eqn:Hg.
    + destruct (Hid sid eq_refl) as [Hl Hu].
      eapply (commit_conn _ _ _ _ _ _ _ _ Hg Hu) in Hc as [? ?]; [|rewrite Hr0; by apply Hu].
      split_and!; [by intros ? [= <-]|done|by etrans].
    + eapply generate_failed in Hc as [_ ->]; [|done]. by split_and!.
Qed.

(** C33. A silent peer does not stay: whatever frames it has sent, when the timer fires a
    heartbeat timeout after its last heartbeat (after its control loop started, when there
    was none) its connection has ended.  Only heartbeats move the deadline. *)
Theorem silent_peer_ends p config evs health c co c1 now :
  register_peer p config c = (Ok co, c1) →
  latest_beat (pe_loop_start p) evs + from_secs (tc_heartbeat_timeout_secs config) <= now →
  (handle_tunnel_connection p config (evs ++ [Elapsed now]) health c).1 = Some (Ok ()).
Proof.
  intros Hp Hle. unfold handle_tunnel_connection. rewrite Hp.
  destruct (run_control_loop _ _ _) as [ended l] eqn:Hrun.
  eapply (f_equal fst) in Hrun as Hend. rewrite run_loop_silent in Hend by exact Hle.
  cbn in Hend. by rewrite <-Hend.
Qed.

(** A peer that did not register with the control capability cannot speak for other
    backends: whatever it sends, the health state is unchanged and no refusal is noted. *)
Theorem plain_peer_powerless x evs l ended l' :
  lc_is_control_peer x = false → others evs = [] → run_control_loop x evs l = (ended, l') →
  lp_health l' = lp_health l ∧ refused (cn_registry (lp_conn l')) = refused (cn_registry (lp_conn l)).
Proof.
  intros Hx. induction evs as [|ev evs IH] in l |- *; cbn [run_control_loop]; [by intros _ [= <- <-]|].
  intros Hoth. assert (others evs = []) as Hevs by by destruct ev. specialize (λ l, IH l Hevs).
  destruct (loop_turn x ev l) as [go l2] eqn:Ht. intros Hrun.
  assert (lp_health l2 = lp_health l ∧ refused (cn_registry (lp_conn l2)) = refused (cn_registry (lp_conn l))) as [Hh Hr].
  { destruct ev as [now [[]|] stalled|now|[[]|] stalled|stalled|f]; cbn [loop_turn] in Ht;
      try (injection Ht as <- <-; done).
    - unfold on_heartbeat in Ht. apply loop_write_keeps in Ht as (-> & _ & _ & -> & _). cbn. split; [done|].
      unfold record_heartbeat. repeat case_match; done.
    - injection Ht as <- <-. by rewrite (proj2 (proj2 (on_health_keeps x now backend_id available l)) Hx).
    - injection Ht as <- <-. by rewrite Hx.
    - by destruct (_ <=? now); injection Ht as <- <-.
    - destruct (loop_write _ _ l) as [ok l3] eqn:Hw. apply loop_write_keeps in Hw as (? & _ & _ & ? & _).
      injection Ht as <- <-. destruct ok; cbn; split; congruence.
    - destruct (loop_write _ _ l) as [ok l3] eqn:Hw. apply loop_write_keeps in Hw as (? & _ & _ & ? & _).
      injection Ht as <- <-. cbn. split; congruence. }
  destruct go; [|injection Hrun as <- <-; done]. rewrite <-Hh, <-Hr. by apply IH.
Qed.
End registration.

(** ** Examples *)

#[local] Instance demo_frame_codec : Codec TunnelFrame := countable_codec TunnelFrame.

Definition demo_writer : Writer := {| sent := []; room := None |}.

(** A peer that registers as "db" under a certificate for "db", among nothing else. *)
Definition demo_peer : Peer :=
  {| pe_connection := 7; pe_remote_addr := {| sa_ip := V4 0x0a000001; sa_port := 4433 |};
     pe_handshake := Answer (Ok ()); pe_identity := Ok (ts_identity (demo_session 1 "db" "db"));
     pe_control_stream := Answer (Ok ());
     pe_in := sent (write_frame (Register "db" "p" []) (write_preamble demo_writer).2).2;
     pe_preamble_late := false; pe_preamble_stalled := false; pe_register_late := false;
     pe_rev_admit _ := demo_revocation; pe_rev_commit _ := demo_revocation; pe_random := Some [0; 0; 0; 0; 0; 0; 0; 9];
     pe_now := 0; pe_loop_start := 5; pe_drain_slot := true; pe_reject_stalled := false; pe_ack_stalled := false;
     pe_await_admit := λ r, r; pe_await_commit := λ r, r; pe_await_recheck := λ r, r; pe_await_ack := λ r, r |}.

Definition demo_conn : Conn :=
  {| cn_registry := TunnelRegistry_new 4; cn_pending := true; cn_metrics := []; cn_out := demo_writer;
     cn_finished := false |}.

Definition demo_minted : SessionId := {| session_bytes := bytes_of "sess-0000000000000009" |}.
Definition demo_committed : Committed :=
  {| co_backend_id := "db"; co_session_id := demo_minted; co_is_control_peer := false |}.

Lemma demo_registered :
  (register_peer (λ _, "frame") demo_peer TunnelConfig_default demo_conn).1 = Ok demo_committed.
Proof. vm_compute. reflexivity. Qed.

Lemma registration_admission_witness :
  ∃ i session r1 l w, pe_identity demo_peer = Ok i ∧ "db" = common_name i ∧
    ts_identity session = i ∧ ts_backend_id session = "db" ∧ ts_session_id session = demo_minted ∧
    is_revoked demo_revocation i = false ∧
    (tc_allowed_backend_ids TunnelConfig_default = [] ∨ "db" ∈ tc_allowed_backend_ids TunnelConfig_default) ∧
    exceeds_session_cap (total_sessions (TunnelRegistry_new 4)) (tc_max_total_sessions TunnelConfig_default) = false ∧
    register (TunnelRegistry_new 4) session (tc_control_channel_capacity TunnelConfig_default) = (Ok (), r1) ∧
    sessions r1 !! "db" = Some l ∧ session ∈ l ∧ is_revoked demo_revocation i = false ∧
    cn_registry (register_peer (λ _, "frame") demo_peer TunnelConfig_default demo_conn).2 = r1 ∧
    write_frame (RegisterAck demo_minted) w =
      (Ok (), cn_out (register_peer (λ _, "frame") demo_peer TunnelConfig_default demo_conn).2) ∧
    cn_pending (register_peer (λ _, "frame") demo_peer TunnelConfig_default demo_conn).2 = false.
Proof.
  apply (registration_admission (λ _, "frame") demo_peer TunnelConfig_default demo_conn demo_committed).
  rewrite <-demo_registered. apply surjective_pairing.
Defined.

Definition demo_events : list LoopEvent :=
  [Inbound 1000 (Ok (Heartbeat 1)) false; Inbound 2000 (Ok (Health "web" false)) false].

Lemma demo_ended :
  (handle_tunnel_connection (λ _, "frame") demo_peer TunnelConfig_default
     (demo_events ++ [Elapsed (1000 + from_secs 45)]) None demo_conn).1 = Some (Ok ()).
Proof. vm_compute. reflexivity. Qed.

Lemma silent_peer_ends_witness :
  (handle_tunnel_connection (λ _, "frame") demo_peer TunnelConfig_default
     (demo_events ++ [Elapsed (1000 + from_secs 45)]) None demo_conn).1 = Some (Ok ()).
Proof.
  apply (silent_peer_ends (λ _, "frame") demo_peer TunnelConfig_default demo_events None demo_conn demo_committed
    (register_peer (λ _, "frame") demo_peer TunnelConfig_default demo_conn).2).
  - rewrite <-demo_registered. apply surjective_pairing.
  - vm_compute. discriminate.
Defined.

Lemma tunnel_connection_balanced_witness :
  active (cn_metrics (handle_tunnel_connection (λ _, "frame") demo_peer TunnelConfig_default
     (demo_events ++ [Elapsed (1000 + from_secs 45)]) None demo_conn).2) = active (cn_metrics demo_conn).
Proof.
  eapply (tunnel_connection_balanced (λ _, "frame") demo_peer TunnelConfig_default
    (demo_events ++ [Elapsed (1000 + from_secs 45)]) None demo_conn (Ok ())).
  - intros sid _. split; [by intros b s ?%elem_of_nil|]. split; [done|].
    intros f b0 r Hf. by repeat (apply elem_of_cons in Hf as [->|Hf]; [done|]); apply elem_of_nil in Hf.
  - rewrite <-demo_ended. apply surjective_pairing.
Defined.

Lemma plain_peer_powerless_witness :
  lp_health (run_control_loop {| lc_backend_id := "db"; lc_session_id := demo_minted; lc_heartbeat_timeout := from_secs 45;
      lc_is_control_peer := false |} (demo_events ++ [Inbound 3000 (Ok (RefuseWake "web")) false])
    {| lp_conn := demo_conn; lp_health := Some HealthState_new; lp_last_heartbeat := 0 |}).2 = Some HealthState_new.
Proof.
  eapply (plain_peer_powerless {| lc_backend_id := "db"; lc_session_id := demo_minted;
    lc_heartbeat_timeout := from_secs 45; lc_is_control_peer := false |}
    (demo_events ++ [Inbound 3000 (Ok (RefuseWake "web")) false])
    {| lp_conn := demo_conn; lp_health := Some HealthState_new; lp_last_heartbeat := 0 |});
    [reflexivity|reflexivity|apply surjective_pairing].
Defined.
