(* ===== verification/CompressBody.v ===== *)
(** * CompressBody: [src/proxy/compress_body.rs]

    The streaming compressor of a response body: its phases, the output buffer the encoder
    writes into pass by pass, and the chunks handed to the blocking pool.  The raw encoder of
    the zstd crate is the class [ZstdStream]; what the inner body and the blocking task answer
    to each poll are two scripts. *)

From S2P Require Import Prelude.
Local Open Scope Z_scope.

(** ** The encoder *)

(** [zs_run enc input room] reads some of [input] and writes at most [room] bytes;
    [zs_finish enc room] writes at most [room] bytes of what is held and answers how much is
    left.  [zs_decode] is a decoder, and [zs_steps enc n] bounds the passes the encoder needs
    for [n] more bytes. *)
Class ZstdStream := {
  zs_state : Type;
  zs_new : Z → result string zs_state;
  zs_run : zs_state → list Z → Z → result string (Z * list Z * zs_state);
  zs_finish : zs_state → Z → result string (Z * list Z * zs_state);
  zs_decode : list Z → option (list Z);
  zs_steps : zs_state → Z → nat;
}.

(** [zs_open enc i o]: the encoder has read [i] and written [o]; [zs_ending] is the same once
    [finish] was called.  When nothing is left the output decodes to the input. *)
Class ZstdStreamLaws `{ZstdStream} := {
  zs_open : zs_state → list Z → list Z → Prop;
  zs_ending : zs_state → list Z → list Z → Prop;
  zs_new_open level enc : zs_new level = Ok enc → zs_open enc [] [];
  zs_run_open enc i o input room n w enc' :
    zs_open enc i o → 0 < room → zs_run enc input room = Ok (n, w, enc') →
    0 ≤ n ≤ zlen input ∧ zlen w ≤ room ∧ zs_open enc' (i ++ take (Z.to_nat n) input) (o ++ w);
  zs_finish_ending enc i o room left w enc' :
    zs_open enc i o ∨ zs_ending enc i o → 0 < room → zs_finish enc room = Ok (left, w, enc') →
    zlen w ≤ room ∧ zs_ending enc' i (o ++ w) ∧ (left = 0 → zs_decode (o ++ w) = Some i);
  zs_run_steps enc input room n w enc' :
    zs_run enc input room = Ok (n, w, enc') → ¬ (w = [] ∧ n = 0) →
    (zs_steps enc' (zlen input - n) < zs_steps enc (zlen input))%nat;
  zs_finish_steps enc room left w enc' :
    zs_finish enc room = Ok (left, w, enc') → left ≠ 0 → w ≠ [] →
    (zs_steps enc' 0 < zs_steps enc 0)%nat;
}.

Definition OUTPUT_BUF_SIZE : Z := 16384.
Definition OFFLOAD_THRESHOLD_BYTES : Z := 32 * 1024.

(** ** The body *)

Inductive CompressError :=
  | Inner (e : string)
  | ZstdError (e : string).

Inductive CompressionPhase := Streaming | Offloading | Flushing | Done.

#[export] Instance CompressionPhase_eq_dec : EqDecision CompressionPhase.
Proof. solve_decision. Defined.

Inductive Frame :=
  | FData (b : list Z)
  | FTrailers (t : list (string * string)).

(** [PSpins] is a poll that never returns. *)
Inductive FramePoll :=
  | PSpins
  | PPending
  | PEnd
  | PErr (e : CompressError)
  | PFrame (f : Frame).

Inductive Step :=
  | Ready (p : FramePoll)
  | Continue.

(** What the inner body answers to a poll, and what the join handle answers. *)
Inductive InnerPoll :=
  | InPending
  | InEnd
  | InError (e : string)
  | InFrame (f : Frame).

Inductive JobPoll :=
  | JPending
  | JFinished
  | JPanicked (e : string).

Section body.
  Context `{ZstdStream}.

(** The outcome of a loop; [None] when it goes on for ever. *)
Definition Looped (A : Type) : Type := option (result string A).

(** [z_task] is what the spawned task will return, if it ever does. *)
Record CompressedBody := {
  z_inner : list InnerPoll;
  z_jobs : list JobPoll;
  z_encoder : option zs_state;
  z_task : option (Looped (zs_state * list Z));
  z_phase : CompressionPhase;
}.

Definition with_level (inner : list InnerPoll) (jobs : list JobPoll) (level : Z) : result string CompressedBody :=
  encoder ← zs_new level;
  Ok {| z_inner := inner; z_jobs := jobs; z_encoder := Some encoder; z_task := None; z_phase := Streaming |}.

Definition z_with (b : CompressedBody) (encoder : option zs_state) (task : option (Looped (zs_state * list Z)))
    (phase : CompressionPhase) : CompressedBody :=
  {| z_inner := z_inner b; z_jobs := z_jobs b; z_encoder := encoder; z_task := task; z_phase := phase |}.

Definition z_set_phase (b : CompressedBody) (phase : CompressionPhase) : CompressedBody :=
  z_with b (z_encoder b) (z_task b) phase.

(** The two polls; a script that has run out is pending. *)
Definition poll_inner (b : CompressedBody) : InnerPoll * CompressedBody :=
  match z_inner b with
  | [] => (InPending, b)
  | p :: rest => (p, {| z_inner := rest; z_jobs := z_jobs b; z_encoder := z_encoder b; z_task := z_task b;
                        z_phase := z_phase b |})
  end.

Definition poll_job (b : CompressedBody) : JobPoll * CompressedBody :=
  match z_jobs b with
  | [] => (JPending, b)
  | p :: rest => (p, {| z_inner := z_inner b; z_jobs := rest; z_encoder := z_encoder b; z_task := z_task b;
                        z_phase := z_phase b |})
  end.

(** ** Passes of the encoder *)

(** [size] is the length of the output buffer and [out] its filled part.  The loops of the code
    are not bounded: running out of [fuel], which is more than the passes that make progress,
    means that they do not end. *)
Fixpoint run_passes (fuel : nat) (encoder : zs_state) (input : list Z) (pos size : Z) (out : list Z)
    : Looped (list Z * zs_state) :=
  match fuel with
  | O => None
  | S fuel =>
      if pos <? zlen input then
        match zs_run encoder (drop (Z.to_nat pos) input) (size - zlen out) with
        | Err e => Some (Err e)
        | Ok (n, written, encoder) =>
            if (zlen written =? 0) && (n =? 0) then Some (Err "zstd encoder made no progress")
            else
              let out := out ++ written in
              let size := if zlen out =? size then size + OUTPUT_BUF_SIZE else size in
              run_passes fuel encoder input (pos + n) size out
        end
      else Some (Ok (out, encoder))
  end.

Definition compress_chunk (encoder : zs_state) (input : list Z) : Looped (list Z * zs_state) :=
  run_passes (S (zs_steps encoder (zlen input))) encoder input 0 (Z.max OUTPUT_BUF_SIZE (zlen input)) [].

Fixpoint finish_passes (fuel : nat) (encoder : zs_state) (size : Z) (out : list Z)
    : Looped (list Z * zs_state) :=
  match fuel with
  | O => None
  | S fuel =>
      match zs_finish encoder (size - zlen out) with
      | Err e => Some (Err e)
      | Ok (remaining, written, encoder) =>
          let out := out ++ written in
          if remaining =? 0 then Some (Ok (out, encoder))
          else if (zlen written =? 0) && (zlen out <? size) then
            Some (Err "zstd encoder made no progress during finish")
          else
            let size := if zlen out =? size then size + OUTPUT_BUF_SIZE else size in
            finish_passes fuel encoder size out
      end
  end.

Definition finish_encoder (encoder : zs_state) : Looped (list Z * zs_state) :=
  finish_passes (S (zs_steps encoder 0)) encoder OUTPUT_BUF_SIZE [].

Definition compress_chunk_owned (encoder : zs_state) (input : list Z) : Looped (zs_state * list Z) :=
  match compress_chunk encoder input with
  | None => None
  | Some r => Some ('(compressed, encoder) ← r; Ok (encoder, compressed))
  end.

(** The join handle on the result [r] of the task. *)
Definition flatten_join (panicked : option string) (r : result string (zs_state * list Z))
    : result string (zs_state * list Z) :=
  match panicked with
  | None => r
  | Some e => Err ("compression task join failed: " +:+ e)
  end.

(** ** The phases *)

Definition encoder_missing : FramePoll := PErr (ZstdError "compressor state lost").

Definition emit (compressed : list Z) : Step :=
  if decide (compressed = []) then Continue else Ready (PFrame (FData compressed)).

Definition poll_offloading (b : CompressedBody) : Step * CompressedBody :=
  match z_task b with
  | None => (Ready encoder_missing, z_set_phase b Done)
  | Some None => (Ready PPending, b)
  | Some (Some r) =>
      let '(job, b) := poll_job b in
      match (match job with
             | JPending => None
             | JFinished => Some (flatten_join None r)
             | JPanicked e => Some (flatten_join (Some e) r)
             end) with
      | None => (Ready PPending, b)
      | Some (Ok (enc, compressed)) => (emit compressed, z_with b (Some enc) None Streaming)
      | Some (Err e) => (Ready (PErr (ZstdError e)), z_with b (z_encoder b) None Done)
      end
  end.

Definition offload_chunk (input : list Z) (b : CompressedBody) : Step * CompressedBody :=
  match z_encoder b with
  | None => (Ready encoder_missing, z_set_phase b Done)
  | Some enc => (Continue, z_with b None (Some (compress_chunk_owned enc input)) Offloading)
  end.

Definition compress_inline (data : list Z) (b : CompressedBody) : Step * CompressedBody :=
  match z_encoder b with
  | None => (Ready encoder_missing, z_set_phase b Done)
  | Some enc =>
      match compress_chunk enc data with
      | None => (Ready PSpins, b)
      | Some (Err e) => (Ready (PErr (ZstdError e)), z_set_phase b Done)
      | Some (Ok (compressed, enc)) => (emit compressed, z_with b (Some enc) (z_task b) (z_phase b))
      end
  end.

Definition compress_frame (frame : Frame) (b : CompressedBody) : Step * CompressedBody :=
  match frame with
  | FTrailers _ => (Ready (PFrame frame), b)
  | FData data => if OFFLOAD_THRESHOLD_BYTES <? zlen data then offload_chunk data b else compress_inline data b
  end.

Definition poll_streaming (b : CompressedBody) : Step * CompressedBody :=
  match poll_inner b with
  | (InPending, b) => (Ready PPending, b)
  | (InEnd, b) => (Continue, z_set_phase b Flushing)
  | (InError e, b) => (Ready (PErr (Inner e)), b)
  | (InFrame f, b) => compress_frame f b
  end.

Definition poll_flushing (b : CompressedBody) : Step * CompressedBody :=
  match z_encoder b with
  | None => (Ready encoder_missing, z_set_phase b Done)
  | Some enc =>
      match finish_encoder enc with
      | None => (Ready PSpins, b)
      | Some (Err e) => (Ready (PErr (ZstdError e)), z_set_phase b Done)
      | Some (Ok (flushed, enc)) =>
          let b := z_with b (Some enc) (z_task b) Done in
          if decide (flushed = []) then (Ready PEnd, b) else (Ready (PFrame (FData flushed)), b)
      end
  end.

Definition poll_step (b : CompressedBody) : Step * CompressedBody :=
  match z_phase b with
  | Done => (Ready PEnd, b)
  | Offloading => poll_offloading b
  | Streaming => poll_streaming b
  | Flushing => poll_flushing b
  end.

(** The loop of [poll_frame]: a turn that continues has taken an answer off a script. *)
Fixpoint poll_loop (fuel : nat) (b : CompressedBody) : option (FramePoll * CompressedBody) :=
  match fuel with
  | O => None
  | S fuel =>
      match poll_step b with
      | (Ready p, b) => Some (p, b)
      | (Continue, b) => poll_loop fuel b
      end
  end.

Definition poll_frame (b : CompressedBody) : FramePoll * CompressedBody :=
  default (PPending, b) (poll_loop (S (length (z_inner b) + length (z_jobs b))) b).

Definition is_end_stream (b : CompressedBody) : bool :=
  match z_phase b with Done => true | _ => false end.

(** What the consumer sees in [n] polls. *)
Fixpoint drive (n : nat) (b : CompressedBody) : list FramePoll * CompressedBody :=
  match n with
  | O => ([], b)
  | S n => let '(p, b) := poll_frame b in let '(ps, b) := drive n b in (p :: ps, b)
  end.

(** ** What the frames carry *)

Definition frame_data (f : Frame) : list Z := match f with FData b => b | FTrailers _ => [] end.
Definition frame_trailers (f : Frame) : list (list (string * string)) :=
  match f with FData _ => [] | FTrailers t => [t] end.

Definition out_frames (ps : list FramePoll) : list Frame :=
  omap (λ p, match p with PFrame f => Some f | _ => None end) ps.
Definition in_frames (ps : list InnerPoll) : list Frame :=
  omap (λ p, match p with InFrame f => Some f | _ => None end) ps.

Definition data (fs : list Frame) : list Z := concat (map frame_data fs).
Definition trailers (fs : list Frame) : list (list (string * string)) := concat (map frame_trailers fs).

(** ** The passes end, and lose nothing *)

Section laws.
  Context `{!ZstdStreamLaws}.

(** The buffer always has room: it grows as soon as it is full. *)
Lemma grown (out w : list Z) (size : Z) :
  zlen w ≤ size - zlen out →
  zlen (out ++ w) < (if zlen (out ++ w) =? size then size + OUTPUT_BUF_SIZE else size).
Proof. rewrite zlen_app. destruct (_ =? size) eqn:E; bool_hyps; unfold OUTPUT_BUF_SIZE; lia. Qed.

Lemma run_passes_spec fuel enc input pos size out i o :
  zs_open enc (i ++ take (Z.to_nat pos) input) (o ++ out) → 0 ≤ pos ≤ zlen input →
  (zs_steps enc (zlen input - pos) < fuel)%nat → zlen out < size →
  ∃ r, run_passes fuel enc input pos size out = Some r ∧
       ∀ out' enc', r = Ok (out', enc') → zs_open enc' (i ++ input) (o ++ out').
Proof.
  induction fuel as [|fuel IH] in enc, pos, size, out |- *; intros Ho Hpos Hs Hsize; [lia|]. cbn [run_passes].
  destruct (pos <? zlen input) eqn:Hp; bool_hyps.
  - assert (zlen (drop (Z.to_nat pos) input) = zlen input - pos) as Hd by (unfold zlen in *; rewrite length_drop; lia).
    destruct (zs_run _ _ _) as [[[n w] enc']|e] eqn:Hr; [|by eexists].
    assert (0 < size - zlen out) as Hroom by lia.
    destruct (zs_run_open _ _ _ _ _ _ _ _ Ho Hroom Hr) as (Hn & Hw & Ho'). rewrite Hd in Hn.
    destruct ((zlen w =? 0) && (n =? 0)) eqn:Hz; [by eexists|].
    apply IH; [|lia| |].
    + rewrite <-!app_assoc in Ho'. rewrite Z2Nat.inj_add by lia.
      rewrite <-(take_drop (Z.to_nat pos) input) at 1.
      rewrite take_app_ge by (rewrite length_take; lia). rewrite length_take_le by (unfold zlen in *; lia).
      by rewrite Nat.add_comm, Nat.add_sub.
    + apply zs_run_steps in Hr; [|intros [-> ->]; done]. rewrite Hd in Hr.
      replace (zlen input - (pos + n)) with (zlen input - pos - n) by lia. lia.
    + by apply grown.
  - eexists. split; [done|]. intros ? ? [= <- <-]. by rewrite take_ge in Ho by (unfold zlen in *; lia).
Qed.

Lemma compress_chunk_open enc input i o :
  zs_open enc i o →
  ∃ r, compress_chunk enc input = Some r ∧
       ∀ compressed enc', r = Ok (compressed, enc') → zs_open enc' (i ++ input) (o ++ compressed).
Proof.
  intros Ho. apply run_passes_spec; [by rewrite !app_nil_r|unfold zlen; lia|rewrite Z.sub_0_r; lia|].
  unfold OUTPUT_BUF_SIZE, zlen; cbn; lia.
Qed.

Lemma finish_passes_spec fuel enc size out i o :
  zs_open enc i (o ++ out) ∨ zs_ending enc i (o ++ out) → (zs_steps enc 0 < fuel)%nat →
  zlen out < size →
  ∃ r, finish_passes fuel enc size out = Some r ∧
       ∀ out' enc', r = Ok (out', enc') → zs_decode (o ++ out') = Some i.
Proof.
  induction fuel as [|fuel IH] in enc, size, out |- *; intros Ho Hs Hsize; [lia|]. cbn [finish_passes].
  destruct (zs_finish _ _) as [[[left w] enc']|e] eqn:Hf; [|by eexists].
  assert (0 < size - zlen out) as Hroom by lia.
  destruct (zs_finish_ending _ _ _ _ _ _ _ Ho Hroom Hf) as (Hw & He & Hdec). rewrite <-app_assoc in He, Hdec.
  destruct (left =? 0) eqn:Hl; bool_hyps.
  { eexists. split; [done|]. intros ? ? [= <- <-]. auto. }
  destruct ((zlen w =? 0) && (zlen (out ++ w) <? size)) eqn:Hz; [by eexists|].
  assert (w ≠ []) as Hne.
  { intros ->. rewrite app_nil_r in Hz. apply andb_false_iff in Hz as [?|?]; bool_hyps; [done|lia]. }
  apply IH; [by right| |].
  - apply zs_finish_steps in Hf; [lia|done..].
  - by apply grown.
Qed.

Lemma finish_encoder_decodes enc i o :
  zs_open enc i o →
  ∃ r, finish_encoder enc = Some r ∧ ∀ flushed enc', r = Ok (flushed, enc') → zs_decode (o ++ flushed) = Some i.
Proof. intros Ho. apply finish_passes_spec; [left; by rewrite app_nil_r|lia|done]. Qed.

(** ** The invariant of a body *)

(** The inner answers [pre] taken so far: their data is what the encoder was given, their
    trailers and errors went to the consumer. *)
Definition taken (l : list InnerPoll) (b : CompressedBody) (ps : list FramePoll) (pre : list InnerPoll) : Prop :=
  l = pre ++ z_inner b ∧ (InEnd ∉ pre) ∧ trailers (out_frames ps) = trailers (in_frames pre) ∧
  (∀ e, InError e ∈ pre → PErr (Inner e) ∈ ps).

Definition body_ok (l : list InnerPoll) (b : CompressedBody) (ps : list FramePoll) : Prop :=
  match z_phase b with
  | Streaming => (PEnd ∉ ps) ∧ z_task b = None ∧ ∃ enc pre, z_encoder b = Some enc ∧ taken l b ps pre ∧
      zs_open enc (data (in_frames pre)) (data (out_frames ps))
  | Offloading => (PEnd ∉ ps) ∧ z_encoder b = None ∧ ∃ r pre, z_task b = Some (Some r) ∧ taken l b ps pre ∧
      ∀ enc w, r = Ok (enc, w) → zs_open enc (data (in_frames pre)) (data (out_frames ps) ++ w)
  | Flushing => (PEnd ∉ ps) ∧ z_task b = None ∧ ∃ enc pre rest, z_encoder b = Some enc ∧ l = pre ++ InEnd :: rest ∧ (InEnd ∉ pre) ∧
      trailers (out_frames ps) = trailers (in_frames pre) ∧ (∀ e, InError e ∈ pre → PErr (Inner e) ∈ ps) ∧
      zs_open enc (data (in_frames pre)) (data (out_frames ps))
  | Done => (∃ e, PErr e ∈ ps) ∨ ∃ pre rest, l = pre ++ InEnd :: rest ∧ (InEnd ∉ pre) ∧
      trailers (out_frames ps) = trailers (in_frames pre) ∧ (∀ e, InError e ∉ pre) ∧
      zs_decode (data (out_frames ps)) = Some (data (in_frames pre))
  end.

Lemma data_app fs gs : data (fs ++ gs) = data fs ++ data gs.
Proof. unfold data. by rewrite map_app, concat_app. Qed.
Lemma trailers_app fs gs : trailers (fs ++ gs) = trailers fs ++ trailers gs.
Proof. unfold trailers. by rewrite map_app, concat_app. Qed.
Lemma out_frames_snoc ps p : out_frames (ps ++ [p]) = out_frames ps ++ out_frames [p].
Proof. apply omap_app. Qed.
Lemma in_frames_snoc ps p : in_frames (ps ++ [p]) = in_frames ps ++ in_frames [p].
Proof. apply omap_app. Qed.

Lemma out_data_snoc ps p : data (out_frames (ps ++ [p])) = data (out_frames ps) ++ data (out_frames [p]).
Proof. by rewrite out_frames_snoc, data_app. Qed.
Lemma out_trailers_snoc ps p :
  trailers (out_frames (ps ++ [p])) = trailers (out_frames ps) ++ trailers (out_frames [p]).
Proof. by rewrite out_frames_snoc, trailers_app. Qed.
Lemma in_data_snoc ps p : data (in_frames (ps ++ [p])) = data (in_frames ps) ++ data (in_frames [p]).
Proof. by rewrite in_frames_snoc, data_app. Qed.
Lemma in_trailers_snoc ps p :
  trailers (in_frames (ps ++ [p])) = trailers (in_frames ps) ++ trailers (in_frames [p]).
Proof. by rewrite in_frames_snoc, trailers_app. Qed.

Lemma data_frame w : data (out_frames [PFrame (FData w)]) = w.
Proof. unfold data. cbn. apply app_nil_r. Qed.


Lemma taken_snoc l b b' ps p pre :
  taken l b ps pre → z_inner b' = z_inner b → trailers (out_frames [p]) = [] → taken l b' (ps ++ [p]) pre.
Proof.
  intros (Hl & Hend & Ht & He) Hi Hp. split_and!; [by rewrite Hi|done| |set_solver].
  by rewrite out_trailers_snoc, Hp, app_nil_r.
Qed.

Lemma not_end_snoc ps p : PEnd ∉ ps → p ≠ PEnd → PEnd ∉ ps ++ [p].
Proof. set_solver. Qed.

(** What a turn leaves; it comes to an end. *)
Definition turn_ok (l : list InnerPoll) (ps : list FramePoll) (r : Step * CompressedBody) : Prop :=
  match r.1 with Ready p => p ≠ PSpins ∧ body_ok l r.2 (ps ++ [p]) | Continue => body_ok l r.2 ps end.

#[local] Arguments turn_ok : simpl never.

(** Emitting what the encoder wrote, or going on when it wrote nothing. *)
Lemma emit_ok l b b' ps pre enc w :
  PEnd ∉ ps → z_phase b' = Streaming → z_task b' = None → z_encoder b' = Some enc → z_inner b' = z_inner b →
  taken l b ps pre → zs_open enc (data (in_frames pre)) (data (out_frames ps) ++ w) →
  turn_ok l ps (emit w, b').
Proof.
  intros Hend Hph Htask Henc Hi Ht Ho. unfold turn_ok, emit, body_ok. cbn [fst snd].
  destruct (decide (w = [])) as [->|Hne]; rewrite Hph.
  - rewrite app_nil_r in Ho. split_and!; [done|done|]. exists enc, pre. split_and!; [done| |done].
    destruct Ht as (Hl & ?). by rewrite <-Hi in Hl.
  - split; [done|]. split_and!; [by apply not_end_snoc|done|]. exists enc, pre. split_and!; [done| |].
    + by eapply taken_snoc.
    + by rewrite out_data_snoc, data_frame.
Qed.

Lemma err_done l b ps e : z_phase b = Done → turn_ok l ps (Ready (PErr e), b).
Proof. unfold turn_ok, body_ok. cbn [fst snd]. intros ->. split; [done|]. left. exists e. set_solver. Qed.

(** ** One turn *)

Lemma offloading_ok l b ps : z_phase b = Offloading → body_ok l b ps → turn_ok l ps (poll_offloading b).
Proof.
  intros Hph. unfold body_ok. rewrite Hph. intros (Hend & Henc & r & pre & Htask & Ht & Ho).
  unfold poll_offloading, poll_job. rewrite Htask.
  destruct (z_jobs b) as [|[| |e] jobs]; cbn.
  1, 2: unfold turn_ok, body_ok; cbn; rewrite Hph; split; [done|]; split_and!; [by apply not_end_snoc|done|];
        exists r, pre; split_and!; [done|by eapply taken_snoc|]; rewrite out_data_snoc; cbn; by rewrite app_nil_r.
  - destruct r as [[enc w]|e]; [|by apply err_done].
    eapply (emit_ok l b _ ps pre enc w); eauto.
  - by apply err_done.
Qed.

Lemma inline_ok l b b0 ps pre w :
  (PEnd ∉ ps) → z_phase b = Streaming → z_task b = None → z_inner b = z_inner b0 →
  taken l b0 ps pre →
  (∃ enc i, z_encoder b = Some enc ∧ data (in_frames pre) = i ++ w ∧ zs_open enc i (data (out_frames ps))) →
  turn_ok l ps (compress_inline w b).
Proof.
  intros Hend Hph Htask Hi Ht (enc & i & Henc & Hd & Ho). unfold compress_inline. rewrite Henc.
  destruct (compress_chunk_open enc w _ _ Ho) as ([[compressed enc']|e] & -> & Hc); [|by apply err_done].
  eapply (emit_ok l b0 _ ps pre enc'); eauto. rewrite Hd. by eapply Hc.
Qed.

Lemma offload_ok l b b0 ps pre w :
  (PEnd ∉ ps) → z_inner b = z_inner b0 → taken l b0 ps pre →
  (∃ enc i, z_encoder b = Some enc ∧ data (in_frames pre) = i ++ w ∧ zs_open enc i (data (out_frames ps))) →
  turn_ok l ps (offload_chunk w b).
Proof.
  intros Hend Hi (Hl & Ht) (enc & i & Henc & Hd & Ho). unfold offload_chunk. rewrite Henc.
  unfold turn_ok, body_ok. cbn. unfold compress_chunk_owned.
  destruct (compress_chunk_open enc w _ _ Ho) as (r & -> & Hr).
  split_and!; [done|done|]. eexists _, pre. split_and!; [done| |].
  - split; [by cbn; rewrite Hi|done].
  - intros enc' w'. rewrite result_bind_ok. intros ([c e] & Hc & [= <- <-]). rewrite Hd. by apply Hr.
Qed.

Lemma streaming_ok l b ps : z_phase b = Streaming → body_ok l b ps → turn_ok l ps (poll_streaming b).
Proof.
  intros Hph. unfold body_ok. rewrite Hph. intros (Hend & Htask & enc & pre & Henc & Ht & Ho).
  unfold poll_streaming, poll_inner. destruct (z_inner b) as [|[| |e|f] rest] eqn:Hi.
  - unfold turn_ok, body_ok. cbn. rewrite Hph. split; [done|]. split_and!; [by apply not_end_snoc|done|]. exists enc, pre.
    split_and!; [done|by eapply taken_snoc|]. rewrite out_data_snoc. cbn. by rewrite app_nil_r.
  - unfold turn_ok, body_ok. cbn. rewrite Hph. split; [done|]. split_and!; [by apply not_end_snoc|done|]. exists enc, (pre ++ [InPending]).
    destruct Ht as (Hl & Hne & Htr & He). split_and!; [done| |].
    + split_and!; [by rewrite Hl, Hi, <-app_assoc|set_solver| |set_solver].
      rewrite out_trailers_snoc, in_trailers_snoc. cbn. by rewrite !app_nil_r.
    + rewrite out_data_snoc, in_data_snoc. cbn. by rewrite !app_nil_r.
  - unfold turn_ok, body_ok. cbn. destruct Ht as (Hl & Hne & Htr & He). rewrite Hi in Hl.
    split_and!; [done|done|]. by exists enc, pre, rest.
  - unfold turn_ok, body_ok. cbn. rewrite Hph. split; [done|]. split_and!; [by apply not_end_snoc|done|]. exists enc, (pre ++ [InError e]).
    destruct Ht as (Hl & Hne & Htr & He). split_and!; [done| |].
    + split_and!; [by rewrite Hl, Hi, <-app_assoc|set_solver| |set_solver].
      rewrite out_trailers_snoc, in_trailers_snoc. cbn. by rewrite !app_nil_r.
    + rewrite out_data_snoc, in_data_snoc. cbn. by rewrite !app_nil_r.
  - destruct Ht as (Hl & Hne & Htr & He). destruct f as [w|t]; cbn [compress_frame].
    + set (b1 := {| z_inner := rest; z_jobs := _ |}).
      assert (taken l b1 ps (pre ++ [InFrame (FData w)])) as Ht1.
      { split_and!; [by rewrite Hl, Hi, <-app_assoc|set_solver| |set_solver].
        rewrite in_trailers_snoc. cbn. by rewrite app_nil_r. }
      assert (∃ enc i, z_encoder b1 = Some enc ∧ data (in_frames (pre ++ [InFrame (FData w)])) = i ++ w ∧
                zs_open enc i (data (out_frames ps))) as Hw.
      { exists enc, (data (in_frames pre)). split_and!; [done| |done]. rewrite in_data_snoc. unfold data at 2. cbn.
        by rewrite app_nil_r. }
      destruct (_ <? _); [by eapply (offload_ok l b1 b1)|by eapply (inline_ok l b1 b1)].
    + unfold turn_ok, body_ok. cbn. rewrite Hph. split; [done|]. split_and!; [by apply not_end_snoc|done|].
      exists enc, (pre ++ [InFrame (FTrailers t)]). split_and!; [done| |].
      * split_and!; [by rewrite Hl, Hi, <-app_assoc|set_solver| |set_solver].
        by rewrite out_trailers_snoc, in_trailers_snoc, Htr.
      * rewrite out_data_snoc, in_data_snoc. unfold data at 2 4. cbn. by rewrite !app_nil_r.
Qed.

Lemma flushing_ok l b ps : z_phase b = Flushing → body_ok l b ps → turn_ok l ps (poll_flushing b).
Proof.
  intros Hph. unfold body_ok. rewrite Hph.
  intros (Hend & Htask & enc & pre & rest & Henc & Hl & Hne & Htr & He & Ho).
  unfold poll_flushing. rewrite Henc.
  destruct (finish_encoder_decodes _ _ _ Ho) as ([[w enc']|e] & -> & Hdec); [|by apply err_done].
  specialize (Hdec w enc' eq_refl).
  assert (∀ p, data (out_frames [p]) = w → trailers (out_frames [p]) = [] →
            body_ok l (z_with b (Some enc') (z_task b) Done) (ps ++ [p])) as Hfin.
  { intros p Hp Hq. unfold body_ok. cbn.
    destruct (existsb (λ x, match x with PErr _ => true | _ => false end) ps) eqn:Hx; [left|right].
    - apply existsb_elem_of in Hx as ([] & Hin & ?); try done. exists e. set_solver.
    - exists pre, rest. split_and!; [done|done| | |by rewrite out_data_snoc, Hp].
      + by rewrite out_trailers_snoc, Hq, app_nil_r.
      + intros e Hin%He. by apply (proj1 (existsb_elem_of_false _ _) Hx) in Hin. }
  unfold turn_ok. destruct (decide (w = [])) as [->|Hw]; cbn; (split; [done|]); apply Hfin; try done. apply data_frame.
Qed.

Lemma turn_preserves l b ps : body_ok l b ps → turn_ok l ps (poll_step b).
Proof.
  intros Hok. unfold poll_step. destruct (z_phase b) eqn:Hph;
    [by apply streaming_ok|by apply offloading_ok|by apply flushing_ok|].
  unfold turn_ok, body_ok in *. cbn. split; [done|]. rewrite Hph in *. destruct Hok as [[e He]|(pre & rest & ? & ? & ? & ? & ?)].
  - left. exists e. set_solver.
  - right. exists pre, rest. rewrite out_data_snoc, out_trailers_snoc. cbn. by rewrite !app_nil_r.
Qed.

(** ** The loop ends *)

Definition script (b : CompressedBody) : nat := length (z_inner b) + length (z_jobs b).

Lemma emit_script b b' w b'' : (emit w, b') = (Continue, b'') → (script b' < script b)%nat → (script b'' < script b)%nat.
Proof. intros [= _ <-]. done. Qed.

Lemma turn_script b b' : poll_step b = (Continue, b') → (script b' < script b)%nat.
Proof.
  unfold poll_step. destruct (z_phase b) eqn:Hph.
  - unfold poll_streaming, poll_inner. destruct (z_inner b) as [|[| |e|f] rest] eqn:Hi; try done.
    + intros [= <-]. unfold script. cbn. rewrite Hi. cbn. lia.
    + set (b1 := {| z_inner := rest; z_jobs := _ |}).
      assert (script b1 < script b)%nat as Hlt by (unfold script; cbn; rewrite Hi; cbn; lia).
      unfold compress_frame, offload_chunk, compress_inline. destruct f; [|done]. destruct (_ <? _).
      * destruct (z_encoder b1); [|done]. by intros [= <-].
      * destruct (z_encoder b1); [|done]. destruct (compress_chunk _ _) as [[[w enc]|]|]; [|done..].
        intros Heq. by eapply emit_script.
  - unfold poll_offloading, poll_job. destruct (z_task b) as [[r|]|]; [|done..].
    destruct (z_jobs b) as [|j jobs] eqn:Hj; [done|].
    destruct (match j with JPending => None | JFinished => Some (flatten_join None r)
              | JPanicked e => Some (flatten_join (Some e) r) end) as [[[enc w]|e]|]; [|done|done].
    intros Heq. eapply emit_script; [done|]. unfold script. cbn. rewrite Hj. cbn. lia.
  - unfold poll_flushing. destruct (z_encoder b); [|done]. destruct (finish_encoder _) as [[[w enc]|]|]; [|done..].
    by destruct (decide (w = [])).
  - done.
Qed.

Lemma poll_loop_ends fuel b : (script b < fuel)%nat → is_Some (poll_loop fuel b).
Proof.
  induction fuel as [|fuel IH] in b |- *; intros Hlt; [lia|]. cbn [poll_loop].
  destruct (poll_step b) as [[p|] b'] eqn:Hs; [done|]. apply turn_script in Hs. apply IH. lia.
Qed.

Lemma poll_loop_ok fuel l b ps p b' :
  body_ok l b ps → poll_loop fuel b = Some (p, b') → p ≠ PSpins ∧ body_ok l b' (ps ++ [p]).
Proof.
  induction fuel as [|fuel IH] in b |- *; [done|]. cbn [poll_loop]. intros Hok.
  apply turn_preserves in Hok. unfold turn_ok in Hok. destruct (poll_step b) as [[q|] b2]; cbn in Hok; [|by apply IH].
  by intros [= <- <-].
Qed.

Lemma poll_frame_loop b : poll_loop (S (script b)) b = Some (poll_frame b).
Proof.
  unfold poll_frame. destruct (poll_loop_ends (S (script b)) b) as [[q c] Hq]; [lia|].
  unfold script in *. by rewrite Hq.
Qed.

Lemma poll_frame_ok l b ps p b' :
  body_ok l b ps → poll_frame b = (p, b') → p ≠ PSpins ∧ body_ok l b' (ps ++ [p]).
Proof. intros Hok Hp. eapply poll_loop_ok; [done|]. by rewrite poll_frame_loop, Hp. Qed.

Lemma drive_ok n l b ps qs b' :
  body_ok l b ps → drive n b = (qs, b') → (PSpins ∉ qs) ∧ body_ok l b' (ps ++ qs).
Proof.
  induction n as [|n IH] in b, ps, qs |- *; cbn [drive]; intros Hok.
  { intros [= <- <-]. rewrite app_nil_r. split; [apply not_elem_of_nil|done]. }
  destruct (poll_frame b) as [p b1] eqn:Hp. destruct (drive n b1) as [qs' b2] eqn:Hd. intros [= <- <-].
  destruct (poll_frame_ok _ _ _ _ _ Hok Hp) as [Hne Hok1]. destruct (IH _ _ _ Hok1 Hd) as [Hs Hok2].
  split; [by apply not_elem_of_cons|]. by rewrite <-app_assoc in Hok2.
Qed.

Lemma with_level_ok inner jobs level b : with_level inner jobs level = Ok b → body_ok inner b [].
Proof.
  unfold with_level. rewrite result_bind_ok. intros (enc & Hnew & <-%(inj Ok)). unfold body_ok. cbn.
  split_and!; [apply not_elem_of_nil|done|]. exists enc, [].
  split_and!; [done| |by eapply zs_new_open]. split_and!; [done|apply not_elem_of_nil|done|by intros e ?%elem_of_nil].
Qed.

Lemma no_trailers fs : trailers fs = [] → Forall (λ f, ∃ w, f = FData w) fs.
Proof. induction fs as [|[w|t] fs IH]; [constructor|constructor; [by eexists|auto]|done]. Qed.

(** C22. A body read to its end is complete or in error.  When the consumer has seen the end of the
    stream, it has seen an error, or the data frames decode to exactly the bytes the inner body
    produced up to its end; whatever the chunk sizes, the output the encoder holds back, the
    chunks sent to the blocking pool and the polls that were pending.  A body without trailers
    is data frames and nothing else.  Trailers come through unchanged and in their own order,
    which may be ahead of data the encoder still holds: a consumer that stops at them has not
    read the body to its end. *)
Theorem compressed_body_faithful inner jobs level b n ps b' :
  with_level inner jobs level = Ok b → drive n b = (ps, b') → PEnd ∈ ps →
  (∃ e, PErr e ∈ ps) ∨
  ∃ pre rest, inner = pre ++ InEnd :: rest ∧ (InEnd ∉ pre) ∧ (∀ e, InError e ∉ pre) ∧
    zs_decode (data (out_frames ps)) = Some (data (in_frames pre)) ∧
    trailers (out_frames ps) = trailers (in_frames pre) ∧
    (trailers (in_frames pre) = [] → Forall (λ f, ∃ w, f = FData w) (out_frames ps)).
Proof.
  intros Hok%with_level_ok Hd Hend. destruct (drive_ok _ _ _ _ _ _ Hok Hd) as [_ Hok'].
  change ([] ++ ps) with ps in Hok'. unfold body_ok in Hok'. destruct (z_phase b'); [by destruct Hok'..|].
  destruct Hok' as [?|(pre & rest & ? & ? & Ht & ? & ?)]; [by left|]. right. exists pre, rest.
  split_and!; try done. intros E. apply no_trailers. by rewrite Ht.
Qed.

(** ** A body that is fed reaches its end *)

(** The scripts never answer pending, and answer for long enough. *)
Definition fed (b : CompressedBody) : Prop :=
  (InPending ∉ z_inner b) ∧ (JPending ∉ z_jobs b) ∧
  match z_phase b with
  | Streaming => InEnd ∈ z_inner b ∧ (length (z_inner b) ≤ length (z_jobs b))%nat
  | Offloading => InEnd ∈ z_inner b ∧ (length (z_inner b) < length (z_jobs b))%nat
  | _ => True
  end.

#[local] Arguments compress_chunk : simpl never.
#[local] Arguments finish_encoder : simpl never.

Definition advanced (b b' : CompressedBody) : Prop :=
  z_phase b' = Done ∨ (fed b' ∧ (script b' < script b)%nat).

Lemma chunk_ends l b ps w :
  body_ok l b ps → z_phase b = Streaming → ∃ enc r, z_encoder b = Some enc ∧ compress_chunk enc w = Some r.
Proof.
  unfold body_ok. intros Hok Hph. rewrite Hph in Hok. destruct Hok as (_ & _ & enc & pre & Henc & _ & Ho). exists enc.
  destruct (compress_chunk_open enc w _ _ Ho) as (r & Hr & _). by exists r.
Qed.

Lemma turn_advances l b ps : body_ok l b ps → fed b → z_phase b ≠ Done → advanced b (poll_step b).2.
Proof.
  intros Hok (Hi & Hj & Hf) Hd. unfold poll_step, advanced, fed, script. destruct (z_phase b) eqn:Hph; [| | |done].
  - destruct Hf as [Hend Hlen]. unfold poll_streaming, poll_inner.
    destruct (z_inner b) as [|[| |e|f] rest] eqn:Hin; [by apply elem_of_nil in Hend|set_solver|..]; cbn.
    + right. split; [split_and!; [set_solver|done|done]|lia].
    + right. rewrite Hph. split; [split_and!; [set_solver|done|set_solver|cbn in Hlen; lia]|lia].
    + assert ((InPending ∉ rest) ∧ InEnd ∈ rest) as [? ?] by set_solver. cbn in Hlen.
      destruct f as [w|t]; cbn [compress_frame].
      * destruct (chunk_ends _ _ _ w Hok Hph) as (enc & r & Henc & Hr).
        unfold offload_chunk, compress_inline. cbn. rewrite Henc, Hr. destruct (_ <? _); cbn.
        -- right. split; [split_and!; (done || lia)|lia].
        -- destruct r as [[? ?]|]; cbn; [|by left]. rewrite Hph. right. split; [split_and!; (done || lia)|lia].
      * cbn. rewrite Hph. right. split; [split_and!; (done || lia)|lia].
  - destruct Hf as [Hend Hlen]. unfold body_ok in Hok. rewrite Hph in Hok. destruct Hok as (_ & _ & r & pre & Htask & _).
    unfold poll_offloading, poll_job. rewrite Htask.
    destruct (z_jobs b) as [|[| |e] jobs] eqn:Hjobs; cbn in *; [lia|set_solver| |by left].
    destruct r as [[enc w]|e]; cbn; [|by left]. right.
    assert (JPending ∉ jobs) by set_solver. split; [split_and!; (done || lia)|lia].
  - unfold body_ok in Hok. rewrite Hph in Hok. destruct Hok as (_ & _ & enc & pre & rest & Henc & _ & _ & _ & _ & Ho).
    destruct (finish_encoder_decodes _ _ _ Ho) as (r & Hr & _). unfold poll_flushing. rewrite Henc, Hr.
    left. destruct r as [[w enc']|]; [|done]. by destruct (decide (w = [])).
Qed.

Lemma done_loop fuel b r : z_phase b = Done → poll_loop fuel b = Some r → r = (PEnd, b).
Proof. intros Hd. destruct fuel; [done|]. cbn [poll_loop]. unfold poll_step. rewrite Hd. by intros [= <-]. Qed.

Lemma poll_loop_advances fuel l b ps p b' :
  body_ok l b ps → fed b → z_phase b ≠ Done → poll_loop fuel b = Some (p, b') → advanced b b'.
Proof.
  induction fuel as [|fuel IH] in b, ps |- *; [done|]. cbn [poll_loop]. intros Hok Hf Hd.
  pose proof (turn_advances _ _ _ Hok Hf Hd) as Ha. pose proof (turn_preserves _ _ _ Hok) as Hok2.
  unfold turn_ok in Hok2. destruct (poll_step b) as [[q|] b2] eqn:Hs; cbn in Ha, Hok2.
  { by intros [= <- <-]. }
  intros Hl. destruct (decide (z_phase b2 = Done)) as [Hdone|Hnd].
  { apply done_loop in Hl; [|done]. injection Hl as -> ->. by left. }
  destruct Ha as [Hdone|[Hf2 Hlt]]; [done|].
  destruct (IH b2 ps Hok2 Hf2 Hnd Hl) as [?|[? ?]]; [by left|right; split; [done|lia]].
Qed.

Lemma poll_frame_advances l b ps p b' :
  body_ok l b ps → fed b → z_phase b ≠ Done → poll_frame b = (p, b') → advanced b b'.
Proof. intros Hok Hf Hd Hp. eapply poll_loop_advances; [done..|]. by rewrite poll_frame_loop, Hp. Qed.

Lemma done_ends n b : z_phase b = Done → PEnd ∈ (drive (S n) b).1.
Proof.
  intros Hd. cbn [drive].
  assert (poll_frame b = (PEnd, b)) as -> by (unfold poll_frame; cbn [poll_loop]; unfold poll_step; by rewrite Hd).
  destruct (drive n b). set_solver.
Qed.

Lemma fed_ends n l b ps :
  body_ok l b ps → fed b → z_phase b ≠ Done → (script b < n)%nat → PEnd ∈ (drive (S n) b).1.
Proof.
  induction n as [|n IH] in b, ps |- *; [lia|]. intros Hok Hf Hd Hlt. change (drive (S (S n)) b) with
    (let '(p, b) := poll_frame b in let '(ps, b) := drive (S n) b in (p :: ps, b)).
  destruct (poll_frame b) as [p b'] eqn:Hp. pose proof (poll_frame_advances _ b _ p b' Hok Hf Hd Hp) as Ha.
  destruct (poll_frame_ok _ _ _ _ _ Hok Hp) as [_ Hok'].
  assert (PEnd ∈ (drive (S n) b').1) as Hin.
  { destruct Ha as [?|[? ?]]; [by apply done_ends|]. destruct (decide (z_phase b' = Done)); [by apply done_ends|].
    eapply IH; [done|done|done|lia]. }
  destruct (drive (S n) b') as [ps' b'']. cbn in *. set_solver.
Qed.

(** C38. A compressed body ends.  Every poll returns: the encoder is driven by loops without a
    bound of their own, which stop because a pass that makes no progress is an error, given an
    encoder that needs finitely many passes with progress for a chunk.  And when the inner body
    reaches its end and neither it nor the blocking pool keeps a poll pending, the consumer
    sees the end within two polls more than there are answers, even when the encoder fails on
    the way. *)
Theorem compressed_body_ends inner jobs level b n :
  with_level inner jobs level = Ok b →
  (PSpins ∉ (drive n b).1) ∧
  ((InPending ∉ inner) → InEnd ∈ inner → (JPending ∉ jobs) → (length inner ≤ length jobs)%nat →
   PEnd ∈ (drive (S (S (length inner + length jobs))) b).1).
Proof.
  intros Hw. pose proof (with_level_ok _ _ _ _ Hw) as Hok. split.
  - destruct (drive n b) as [ps b'] eqn:Hd. by destruct (drive_ok _ _ _ _ _ _ Hok Hd).
  - intros Hi He Hj Hl. unfold with_level in Hw. apply result_bind_ok in Hw as (enc & Hnew & <-%(inj Ok)).
    eapply fed_ends; [done|by split_and!|done|unfold script; cbn; lia].
Qed.
End laws.
End body.

(** ** An encoder for the examples *)

(** It stores: it holds back up to eight bytes, and ends its output with a zero. *)
Record Stored := {
  st_held : list Z;
  st_closed : bool;
}.

Definition stored_write (room : Z) (all : list Z) (closed : bool) : list Z * Stored :=
  (take (Z.to_nat room) all, {| st_held := drop (Z.to_nat room) all; st_closed := closed |}).

Definition stored_run (s : Stored) (input : list Z) (room : Z) : result string (Z * list Z * Stored) :=
  if st_closed s then Err "the frame has ended"
  else
    let all := st_held s ++ input in
    if zlen all <=? 8 then Ok (zlen input, [], {| st_held := all; st_closed := false |})
    else let '(w, s) := stored_write room all false in Ok (zlen input, w, s).

Definition stored_finish (s : Stored) (room : Z) : result string (Z * list Z * Stored) :=
  let all := if st_closed s then st_held s else st_held s ++ [0] in
  let '(w, s) := stored_write room all true in Ok (zlen (st_held s), w, s).

Definition stored_decode (o : list Z) : option (list Z) :=
  match last o with Some 0 => Some (removelast o) | _ => None end.

Definition stored_steps (s : Stored) (n : Z) : nat :=
  2 * Z.to_nat n + length (st_held s) + (if st_closed s then 0 else 1).

#[local] Instance stored_stream : ZstdStream := {|
  zs_state := Stored;
  zs_new _ := Ok {| st_held := []; st_closed := false |};
  zs_run := stored_run;
  zs_finish := stored_finish;
  zs_decode := stored_decode;
  zs_steps := stored_steps;
|}.

Lemma stored_write_spec room all closed w s :
  stored_write room all closed = (w, s) →
  w ++ st_held s = all ∧ st_closed s = closed ∧ (0 ≤ room → zlen w ≤ room).
Proof.
  unfold stored_write. intros [= <- <-]. cbn. split_and!; [apply take_drop|done|].
  intros ?. unfold zlen. rewrite length_take. lia.
Qed.

Definition stored_open (s : Stored) (i o : list Z) : Prop := st_closed s = false ∧ o ++ st_held s = i.
Definition stored_ending (s : Stored) (i o : list Z) : Prop := st_closed s = true ∧ o ++ st_held s = i ++ [0].

Lemma stored_run_open enc i o input room n w enc' :
  stored_open enc i o → 0 < room → stored_run enc input room = Ok (n, w, enc') →
  0 ≤ n ≤ zlen input ∧ zlen w ≤ room ∧ stored_open enc' (i ++ take (Z.to_nat n) input) (o ++ w).
Proof.
  unfold stored_run, stored_open. intros [Hc Ho] Hroom. rewrite Hc.
  assert (take (Z.to_nat (zlen input)) input = input) as Ht by (apply take_ge; unfold zlen; lia).
  destruct (_ <=? 8).
  - intros [= <- <- <-]. rewrite Ht. cbn. split_and!; [unfold zlen; cbn; lia..|done|].
    by rewrite app_nil_r, <-Ho, app_assoc.
  - destruct (stored_write _ _ _) as [w' s'] eqn:Hw. intros [= <- <- <-].
    apply stored_write_spec in Hw as (Hall & Hcl & Hlen). rewrite Ht.
    split_and!; [unfold zlen; lia..|apply Hlen; lia|done|]. by rewrite <-app_assoc, Hall, <-Ho, app_assoc.
Qed.

Lemma stored_finish_ending enc i o room left w enc' :
  stored_open enc i o ∨ stored_ending enc i o → 0 < room → stored_finish enc room = Ok (left, w, enc') →
  zlen w ≤ room ∧ stored_ending enc' i (o ++ w) ∧ (left = 0 → stored_decode (o ++ w) = Some i).
Proof.
  unfold stored_finish, stored_open, stored_ending. intros Ho Hroom.
  destruct (stored_write _ _ _) as [w' s'] eqn:Hw. intros [= <- <- <-].
  apply stored_write_spec in Hw as (Hall & Hcl & Hlen).
  assert ((o ++ w') ++ st_held s' = i ++ [0]) as Heq.
  { rewrite <-app_assoc, Hall. destruct Ho as [[-> <-]|[-> <-]]; [by rewrite app_assoc|done]. }
  split_and!; [apply Hlen; lia|done|done|]. intros Hz.
  assert (st_held s' = []) as Hnil by (destruct (st_held s'); [done|unfold zlen in Hz; cbn in Hz; lia]).
  rewrite Hnil, app_nil_r in Heq. rewrite Heq. unfold stored_decode. by rewrite last_snoc, removelast_last.
Qed.

Lemma stored_run_steps enc input room n w enc' :
  stored_run enc input room = Ok (n, w, enc') → ¬ (w = [] ∧ n = 0) →
  (stored_steps enc' (zlen input - n) < stored_steps enc (zlen input))%nat.
Proof.
  unfold stored_run, stored_steps. destruct (st_closed enc) eqn:Hc; [done|].
  destruct (_ <=? 8).
  - intros [= <- <- <-] Hne. cbn. rewrite length_app. unfold zlen.
    assert (length input ≠ 0)%nat; [|lia]. intros Hz. apply Hne. split; [done|unfold zlen; lia].
  - destruct (stored_write _ _ _) as [w' s'] eqn:Hw. intros [= <- <- <-] Hne.
    apply stored_write_spec in Hw as (Hall & -> & _). apply (f_equal length) in Hall. rewrite !length_app in Hall.
    unfold zlen. assert (length w' ≠ 0 ∨ length input ≠ 0)%nat; [|lia].
    destruct (decide (length w' = 0%nat)) as [Hz|]; [|by left]. right. intros Hi. apply Hne.
    split; [by destruct w'|unfold zlen; lia].
Qed.

Lemma stored_finish_steps enc room left w enc' :
  stored_finish enc room = Ok (left, w, enc') → left ≠ 0 → w ≠ [] →
  (stored_steps enc' 0 < stored_steps enc 0)%nat.
Proof.
  unfold stored_finish, stored_steps.
  destruct (stored_write _ _ _) as [w' s'] eqn:Hw. intros [= <- <- <-] _ Hne.
  apply stored_write_spec in Hw as (Hall & -> & _). apply (f_equal length) in Hall. rewrite length_app in Hall.
  assert (length w' ≠ 0)%nat by (intros Hz; apply Hne; by destruct w').
  destruct (st_closed enc); rewrite ?length_app in Hall; cbn in *; lia.
Qed.

Lemma stored_new_open (level : Z) enc : zs_new level = Ok enc → stored_open enc [] [].
Proof. by intros [= <-]. Qed.

#[local] Instance stored_stream_laws : ZstdStreamLaws := {|
  zs_open := stored_open;
  zs_ending := stored_ending;
  zs_new_open := stored_new_open;
  zs_run_open := stored_run_open;
  zs_finish_ending := stored_finish_ending;
  zs_run_steps := stored_run_steps;
  zs_finish_steps := stored_finish_steps;
|}.

Definition demo_frames : list InnerPoll :=
  [InFrame (FData [1; 2; 3]); InPending; InFrame (FData [4; 5; 6; 7; 8; 9; 10]); InEnd].

Definition demo_body (inner : list InnerPoll) : CompressedBody :=
  {| z_inner := inner; z_jobs := replicate 4 JFinished; z_encoder := Some {| st_held := []; st_closed := false |};
     z_task := None; z_phase := Streaming |}.

Lemma compressed_body_faithful_witness :
  (∃ e, PErr e ∈ (drive 4 (demo_body demo_frames)).1) ∨
  ∃ pre rest, demo_frames = pre ++ InEnd :: rest ∧ (InEnd ∉ pre) ∧ (∀ e, InError e ∉ pre) ∧
    zs_decode (data (out_frames (drive 4 (demo_body demo_frames)).1)) = Some (data (in_frames pre)) ∧
    trailers (out_frames (drive 4 (demo_body demo_frames)).1) = trailers (in_frames pre) ∧
    (trailers (in_frames pre) = [] → Forall (λ f, ∃ w, f = FData w) (out_frames (drive 4 (demo_body demo_frames)).1)).
Proof.
  apply (compressed_body_faithful demo_frames (replicate 4 JFinished) 3 (demo_body demo_frames) 4
    (drive 4 (demo_body demo_frames)).1 (drive 4 (demo_body demo_frames)).2); [reflexivity|apply surjective_pairing|].
  vm_compute. repeat (apply list_elem_of_here || apply list_elem_of_further).
Defined.

Lemma compressed_body_ends_witness :
  (PSpins ∉ (drive 8 (demo_body [InFrame (FData [1; 2; 3]); InEnd])).1) ∧
  PEnd ∈ (drive 8 (demo_body [InFrame (FData [1; 2; 3]); InEnd])).1.
Proof.
  destruct (compressed_body_ends [InFrame (FData [1; 2; 3]); InEnd] (replicate 4 JFinished) 3
    (demo_body [InFrame (FData [1; 2; 3]); InEnd]) 8) as [Hs He]; [reflexivity|].
  split; [exact Hs|]. apply He; [set_solver|set_solver|cbn; set_solver|cbn; lia].
Defined.

(** Trailers overtake the data the encoder still holds: a response with trailers is seen as
    the trailers first and the rest of its bytes behind them, where a consumer that stops at
    the trailers never looks. *)
Theorem trailers_overtake_data :
  (drive 3 (demo_body [InFrame (FData [1; 2; 3]); InFrame (FTrailers [("grpc-status", "0")]); InEnd])).1 =
    [PFrame (FTrailers [("grpc-status", "0")]); PFrame (FData [1; 2; 3; 0]); PEnd].
Proof. vm_compute. reflexivity. Qed.
