(* ===== verification/Relay.v ===== *)
(** * Relay: [src/proxy/relay.rs] and [src/proxy/raw_relay/lifetime.rs]

    The byte pump between two streams with its idle watchdog, and the two watchers that tie
    a pipe to the revocation list and to the access list.  Times are nanoseconds since the
    relay started; what the pump, the timer and the token do is a list of events. *)

From S2P Require Import Prelude Error.
Local Open Scope Z_scope.

(** ** The tracker *)

Definition NANOS_PER_MS : Z := 1000000.

Inductive RelayEnd := Completed | IdleTimeout | Cancelled.

Record RelayStats := {
  bytes_a_to_b : Z;
  bytes_b_to_a : Z;
  duration : Z;
  relay_end : RelayEnd;
}.

Record ActivityTracker := {
  last_activity_ms : Z;
  a_to_b : Z;
  b_to_a : Z;
}.

Definition ActivityTracker_new : ActivityTracker := {| last_activity_ms := 0; a_to_b := 0; b_to_a := 0 |}.

Definition touch (now : Z) (t : ActivityTracker) : ActivityTracker :=
  {| last_activity_ms := Z.min (now / NANOS_PER_MS) U64_MAX; a_to_b := a_to_b t; b_to_a := b_to_a t |}.

Inductive Side := A | B.

(** A read of [n] bytes from a side, and a write of [n] bytes to a side. *)
Definition poll_read (side : Side) (n now : Z) (t : ActivityTracker) : ActivityTracker :=
  if 0 <? n then
    touch now
      match side with
      | A => {| last_activity_ms := last_activity_ms t; a_to_b := wrap64 (a_to_b t + n); b_to_a := b_to_a t |}
      | B => {| last_activity_ms := last_activity_ms t; a_to_b := a_to_b t; b_to_a := wrap64 (b_to_a t + n) |}
      end
  else t.

Definition poll_write (n now : Z) (t : ActivityTracker) : ActivityTracker :=
  if 0 <? n then touch now t else t.

(** ** The relay *)

(** One thing that happens: a successful read or write, the watchdog's timer, the end of
    [copy_bidirectional], or the cancelled token. *)
Inductive RelayEvent :=
  | Read (side : Side) (n now : Z)
  | Write (n now : Z)
  | Timer (now : Z)
  | CopyDone (r : result string unit) (now : Z)
  | TokenCancelled (now : Z).

(** [armed] is the watchdog's [armed_at_ms]. *)
Record Relay := {
  tracker : ActivityTracker;
  armed : Z;
}.

Definition Relay_new : Relay := {| tracker := ActivityTracker_new; armed := 0 |}.

Definition deadline (idle_timeout : Z) (r : Relay) : Z := armed r * NANOS_PER_MS + idle_timeout.

(** The watchdog at a wake-up of its timer: whether it returns, and what it is armed for. *)
Definition idle_watchdog (idle_timeout now : Z) (r : Relay) : bool * Relay :=
  if now <? deadline idle_timeout r then (false, r)
  else if last_activity_ms (tracker r) =? armed r then (true, r)
  else (false, {| tracker := tracker r; armed := last_activity_ms (tracker r) |}).

Definition stats (now : Z) (r : Relay) (fin : RelayEnd) : Result RelayStats :=
  Ok {| bytes_a_to_b := a_to_b (tracker r); bytes_b_to_a := b_to_a (tracker r); duration := now; relay_end := fin |}.

Definition relay_turn (idle_timeout : Z) (ev : RelayEvent) (r : Relay) : option (Result RelayStats) * Relay :=
  match ev with
  | Read side n now => (None, {| tracker := poll_read side n now (tracker r); armed := armed r |})
  | Write n now => (None, {| tracker := poll_write n now (tracker r); armed := armed r |})
  | Timer now =>
      let '(idle, r) := idle_watchdog idle_timeout now r in
      (if idle then Some (stats now r IdleTimeout) else None, r)
  | CopyDone (Ok _) now => (Some (stats now r Completed), r)
  | CopyDone (Err e) _ => (Some (Err (ConnectTunnel ("relay error: " +:+ e))), r)
  | TokenCancelled now => (Some (stats now r Cancelled), r)
  end.

(** [relay_bidirectional] over the events: its result, [None] while it runs. *)
Fixpoint relay_bidirectional (idle_timeout : Z) (evs : list RelayEvent) (r : Relay)
    : option (Result RelayStats) * Relay :=
  match evs with
  | [] => (None, r)
  | ev :: evs =>
      match relay_turn idle_timeout ev r with
      | (Some res, r) => (Some res, r)
      | (None, r) => relay_bidirectional idle_timeout evs r
      end
  end.

(** ** What it reports *)

Definition event_time (ev : RelayEvent) : Z :=
  match ev with Read _ _ t | Write _ t | Timer t | CopyDone _ t | TokenCancelled t => t end.

(** Bytes moved by an event, and whether it counts as activity. *)
Definition moved (side : Side) (ev : RelayEvent) : Z :=
  match ev, side with
  | Read A n _, A | Read B n _, B => Z.max 0 n
  | _, _ => 0
  end.
Definition is_activity (ev : RelayEvent) : bool :=
  match ev with Read _ n _ | Write n _ => 0 <? n | _ => false end.

Definition total_moved (side : Side) (evs : list RelayEvent) : Z := foldr (λ ev acc, moved side ev + acc) 0 evs.

(** The times of the events do not go back and stay below what a [u64] of milliseconds holds. *)
Fixpoint ordered (from : Z) (evs : list RelayEvent) : Prop :=
  match evs with
  | [] => True
  | ev :: evs => from ≤ event_time ev ≤ U64_MAX ∧ ordered (event_time ev) evs
  end.

Definition tracked (side : Side) (t : ActivityTracker) : Z := match side with A => a_to_b t | B => b_to_a t end.

Lemma turn_moved idle ev r res r' side :
  relay_turn idle ev r = (res, r') → cong64 (tracked side (tracker r')) (tracked side (tracker r) + moved side ev).
Proof.
  intros Ht. destruct ev as [s n t|n t|t|[[]|e] t|t]; cbn [relay_turn] in Ht.
  - injection Ht as <- <-. cbn. unfold poll_read. destruct (0 <? n) eqn:Hn; bool_hyps.
    + destruct s, side; cbn; rewrite ?Z.max_r, ?Z.add_0_r by lia; try apply wrap64_cong; by apply cong64_of_eq.
    + destruct s, side; cbn; apply cong64_of_eq; rewrite ?Z.max_l by lia; lia.
  - injection Ht as <- <-. cbn. unfold poll_write. apply cong64_of_eq. destruct (0 <? n), side; cbn; lia.
  - destruct (idle_watchdog idle t r) as [b r2] eqn:Hw. injection Ht as <- <-. apply cong64_of_eq.
    unfold idle_watchdog in Hw. repeat case_match; injection Hw as <- <-; destruct side; cbn; lia.
  - injection Ht as <- <-. apply cong64_of_eq. destruct side; cbn; lia.
  - injection Ht as <- <-. apply cong64_of_eq. destruct side; cbn; lia.
  - injection Ht as <- <-. apply cong64_of_eq. destruct side; cbn; lia.
Qed.

(** The last activity is no earlier than what the watchdog is armed for, and no later than [now]. *)
Definition relay_ok (now : Z) (r : Relay) : Prop := armed r ≤ last_activity_ms (tracker r) ≤ now / NANOS_PER_MS.

Lemma touch_last now t : 0 ≤ now ≤ U64_MAX → last_activity_ms (touch now t) = now / NANOS_PER_MS.
Proof. intros Hn. cbn. apply Z.min_l. unfold U64_MAX, NANOS_PER_MS in *. apply Z.div_le_upper_bound; lia. Qed.

(** An event either is activity and stamps the tracker, or leaves the stamp. *)
Lemma turn_ok idle ev r res r' from :
  0 ≤ from → relay_ok from r → from ≤ event_time ev ≤ U64_MAX → relay_turn idle ev r = (res, r') →
  relay_ok (event_time ev) r' ∧
  last_activity_ms (tracker r') =
    (if is_activity ev then event_time ev / NANOS_PER_MS else last_activity_ms (tracker r)).
Proof.
  intros Hfrom [Ha Hl] Ht Hr.
  assert (from / NANOS_PER_MS ≤ event_time ev / NANOS_PER_MS) as Hmono by (apply Z.div_le_mono; [done|lia]).
  unfold relay_ok. destruct ev as [s n t|n t|t|[[]|e] t|t]; cbn [relay_turn event_time is_activity] in *;
    try (injection Hr as <- <-; split; [lia|done]).
  - injection Hr as <- <-. cbn [tracker armed]. unfold poll_read. destruct (0 <? n); [|split; [lia|done]].
    rewrite touch_last by lia. split; [lia|done].
  - injection Hr as <- <-. cbn [tracker armed]. unfold poll_write. destruct (0 <? n); [|split; [lia|done]].
    rewrite touch_last by lia. split; [lia|done].
  - destruct (idle_watchdog idle t r) as [b r2] eqn:Hw. injection Hr as <- <-.
    unfold idle_watchdog in Hw. repeat case_match; injection Hw as <- <-; cbn; split; (done || lia).
Qed.

(** The events up to and including the one that ended the relay. *)
Lemma relay_split idle evs r from res r' :
  0 ≤ from → relay_ok from r → ordered from evs → relay_bidirectional idle evs r = (Some res, r') →
  ∃ pre ev rest r1 from', evs = pre ++ ev :: rest ∧ relay_ok from' r1 ∧ from ≤ from' ≤ event_time ev ∧
    event_time ev ≤ U64_MAX ∧ relay_turn idle ev r1 = (Some res, r') ∧
    (∀ e, e ∈ pre → is_activity e = true → event_time e / NANOS_PER_MS ≤ last_activity_ms (tracker r1)) ∧
    last_activity_ms (tracker r) ≤ last_activity_ms (tracker r1) ∧
    ∀ side, cong64 (tracked side (tracker r1)) (tracked side (tracker r) + total_moved side pre).
Proof.
  induction evs as [|ev evs IH] in r, from |- *; [done|]. cbn [relay_bidirectional ordered].
  intros Hfrom Hok [Ht Hord]. destruct (relay_turn idle ev r) as [[res1|] r1] eqn:Hturn.
  - intros [= <- <-]. exists [], ev, evs, r, from. split_and!; try done; try lia; [set_solver|].
    intros side. apply cong64_of_eq. cbn. lia.
  - intros Hrun. destruct (turn_ok _ _ _ _ _ _ Hfrom Hok Ht Hturn) as [Hok1 Hlast].
    destruct (IH r1 (event_time ev)) as (pre & ev' & rest & r2 & from' & -> & Hok2 & Hfr & Hmax & Hfin & Hact & Hle & Hmv);
      [lia|done|done|done|].
    assert (last_activity_ms (tracker r) ≤ last_activity_ms (tracker r1)) as Hstep.
    { rewrite Hlast. destruct (is_activity ev); [|done]. destruct Hok as [_ Hl].
      assert (from / NANOS_PER_MS ≤ event_time ev / NANOS_PER_MS) by (apply Z.div_le_mono; [done|lia]). lia. }
    exists (ev :: pre), ev', rest, r2, from'. split_and!; try done; try lia.
    + intros e [->|He]%elem_of_cons Hae; [|by apply Hact]. rewrite Hae in Hlast. lia.
    + intros side. rewrite (Hmv side), (turn_moved _ _ _ _ _ side Hturn). apply cong64_of_eq. unfold total_moved. cbn [foldr]. lia.
Qed.

(** A relay that ends without an error reports why and how much: the bytes of each direction
    are those read from that side (modulo the 64-bit counter), its duration is the time of
    the event that ended it, and it ends idle only when the timer finds that nothing was
    read or written for the whole timeout, up to the millisecond the tracker rounds to. *)
Theorem relay_reports idle_timeout evs st r' :
  ordered 0 evs → relay_bidirectional idle_timeout evs Relay_new = (Some (Ok st), r') →
  ∃ pre ev rest, evs = pre ++ ev :: rest ∧ duration st = event_time ev ∧
    cong64 (bytes_a_to_b st) (total_moved A pre) ∧ cong64 (bytes_b_to_a st) (total_moved B pre) ∧
    match relay_end st with
    | Completed => ∃ now, ev = CopyDone (Ok ()) now
    | Cancelled => ∃ now, ev = TokenCancelled now
    | IdleTimeout => ∃ now, ev = Timer now ∧
        ∀ e, e ∈ pre → is_activity e = true → event_time e < now - idle_timeout + NANOS_PER_MS
    end.
Proof.
  intros Hord Hrun.
  destruct (relay_split idle_timeout evs Relay_new 0 _ _ (Z.le_refl 0) ltac:(done) Hord Hrun)
    as (pre & ev & rest & r1 & from' & -> & Hok & Hfr & Hmax & Hfin & Hact & _ & Hmv).
  exists pre, ev, rest. split; [done|].
  pose proof (Hmv A) as HA. pose proof (Hmv B) as HB. cbn in HA, HB.
  destruct ev as [s n t|n t|t|[[]|e] t|t]; cbn [relay_turn] in Hfin; try done.
  - destruct (idle_watchdog idle_timeout t r1) as [[] r2] eqn:Hw; [|done]. injection Hfin as <- <-. cbn.
    unfold idle_watchdog in Hw. destruct (t <? _) eqn:Hdl; [done|]. destruct (_ =? armed r1) eqn:Heq; [|done].
    injection Hw as <-. bool_hyps. split_and!; [done|done|done|]. exists t. split; [done|].
    intros e He Ha. specialize (Hact e He Ha). unfold deadline in Hdl.
    pose proof (Z.mul_succ_div_gt (event_time e) NANOS_PER_MS ltac:(done)). unfold NANOS_PER_MS in *. lia.
  - injection Hfin as <- <-. cbn. split_and!; [done|done|done|]. by exists t.
  - injection Hfin as <- <-. cbn. split_and!; [done|done|done|]. by exists t.
Qed.

Lemma idle_ends_from idle_timeout evs from r0 r t1 t2 :
  0 ≤ from → relay_ok from r0 → ordered from evs → relay_bidirectional idle_timeout evs r0 = (None, r) →
  last_activity_ms (tracker r) * NANOS_PER_MS + idle_timeout ≤ t1 ≤ t2 →
  is_Some (relay_bidirectional idle_timeout (evs ++ [Timer t1; Timer t2]) r0).1.
Proof.
  induction evs as [|ev evs IH] in from, r0 |- *; intros Hpos Hok Hord Hrun Hle; cbn [app relay_bidirectional] in *.
  - injection Hrun as ->. cbn [relay_turn]. unfold idle_watchdog, deadline. destruct Hok as [Ha _].
    assert ((t1 <? armed r * NANOS_PER_MS + idle_timeout) = false) as ->
      by (apply Z.ltb_ge; unfold NANOS_PER_MS in *; lia).
    destruct (_ =? armed r); [done|]. cbn [tracker armed]. rewrite Z.eqb_refl.
    assert ((t2 <? last_activity_ms (tracker r) * NANOS_PER_MS + idle_timeout) = false) as -> by (apply Z.ltb_ge; lia).
    done.
  - destruct Hord as [Ht Hord]. destruct (relay_turn idle_timeout ev r0) as [[res|] r1] eqn:Hturn; [done|].
    destruct (turn_ok _ _ _ _ _ _ Hpos Hok Ht Hturn) as [Hok1 _].
    apply (IH (event_time ev)); [lia|done..].
Qed.

(** A relay over which nothing moves any more ends: whatever happened before, two wake-ups of
    the timer past the timeout of the last activity end it. *)
Theorem relay_idle_ends idle_timeout evs r t1 t2 :
  ordered 0 evs → relay_bidirectional idle_timeout evs Relay_new = (None, r) →
  last_activity_ms (tracker r) * NANOS_PER_MS + idle_timeout ≤ t1 ≤ t2 →
  is_Some (relay_bidirectional idle_timeout (evs ++ [Timer t1; Timer t2]) Relay_new).1.
Proof. by apply (idle_ends_from idle_timeout evs 0 Relay_new r t1 t2). Qed.

Definition demo_events : list RelayEvent :=
  [Read A 5 2000000; Write 5 2100000; Timer 3000000; Read B 7 4500000].

Lemma relay_reports_witness :
  ∃ pre ev rest, demo_events ++ [Timer 9000000; Timer 9500000] = pre ++ ev :: rest ∧ 9500000 = event_time ev ∧
    cong64 5 (total_moved A pre) ∧ cong64 7 (total_moved B pre) ∧
    ∃ now, ev = Timer now ∧ ∀ e, e ∈ pre → is_activity e = true → event_time e < now - 3000000 + NANOS_PER_MS.
Proof.
  apply (relay_reports 3000000 (demo_events ++ [Timer 9000000; Timer 9500000])
    {| bytes_a_to_b := 5; bytes_b_to_a := 7; duration := 9500000; relay_end := IdleTimeout |}
    {| tracker := {| last_activity_ms := 4; a_to_b := 5; b_to_a := 7 |}; armed := 4 |}).
  - cbn. unfold U64_MAX. lia.
  - vm_compute. reflexivity.
Defined.

Lemma relay_idle_ends_witness :
  is_Some (relay_bidirectional 3000000 (demo_events ++ [Timer 9000000; Timer 9500000]) Relay_new).1.
Proof.
  apply (relay_idle_ends 3000000 demo_events {| tracker := {| last_activity_ms := 4; a_to_b := 5; b_to_a := 7 |}; armed := 2 |}).
  - cbn. unfold U64_MAX. lia.
  - vm_compute. reflexivity.
  - cbn. unfold NANOS_PER_MS. lia.
Defined.

(** ** The watchers *)

(** A [tokio::sync::watch] channel: its value, its version, and whether the sender is gone. *)
Record Chan (V : Type) := {
  ch_value : V;
  ch_version : nat;
  ch_closed : bool;
}.
Arguments ch_value {_} _.
Arguments ch_version {_} _.
Arguments ch_closed {_} _.
Arguments Build_Chan {_} _ _ _.

Section watch.
  Context {V : Type} (bad : V → bool).

(** A watcher is about to borrow the value, waits in its [select!], or has returned; [seen] is
    the version its receiver has marked. *)
Inductive Watcher :=
  | Looking (seen : nat)
  | Waiting (seen : nat)
  | Gone.

Record Pipe := {
  pp_chan : Chan V;
  pp_watcher : Watcher;
  pp_cancelled : bool;
}.

(** One turn of the watcher's loop, whatever it is ready to do. *)
Definition watcher_turn (p : Pipe) : Pipe :=
  let c := pp_chan p in
  match pp_watcher p with
  | Looking seen =>
      if bad (ch_value c) then {| pp_chan := c; pp_watcher := Gone; pp_cancelled := true |}
      else {| pp_chan := c; pp_watcher := Waiting seen; pp_cancelled := pp_cancelled p |}
  | Waiting seen =>
      if pp_cancelled p then {| pp_chan := c; pp_watcher := Gone; pp_cancelled := true |}
      else if negb (ch_version c =? seen)%nat
      then {| pp_chan := c; pp_watcher := Looking (ch_version c); pp_cancelled := false |}
      else if ch_closed c then {| pp_chan := c; pp_watcher := Gone; pp_cancelled := false |}
      else p
  | Gone => p
  end.

(** The pipe among the others: the channel is published on or closed, the relay ends, the
    watcher takes a turn. *)
Inductive pipe_step : Pipe → Pipe → Prop :=
  | ps_publish p v : ch_closed (pp_chan p) = false →
      pipe_step p {| pp_chan := Build_Chan v (S (ch_version (pp_chan p))) false; pp_watcher := pp_watcher p;
                     pp_cancelled := pp_cancelled p |}
  | ps_close p :
      pipe_step p {| pp_chan := Build_Chan (ch_value (pp_chan p)) (ch_version (pp_chan p)) true;
                     pp_watcher := pp_watcher p; pp_cancelled := pp_cancelled p |}
  | ps_end p : pipe_step p {| pp_chan := pp_chan p; pp_watcher := pp_watcher p; pp_cancelled := true |}
  | ps_watcher p : pipe_step p (watcher_turn p).

(** A receiver cloned before or after the last publication. *)
Inductive pipe_reachable : Pipe → Prop :=
  | pipe_start c seen : (seen <= ch_version c)%nat →
      pipe_reachable {| pp_chan := c; pp_watcher := Looking seen; pp_cancelled := false |}
  | pipe_next p p' : pipe_reachable p → pipe_step p p' → pipe_reachable p'.

Definition pipe_ok (p : Pipe) : Prop :=
  match pp_watcher p with
  | Looking seen => (seen <= ch_version (pp_chan p))%nat
  | Waiting seen => (seen <= ch_version (pp_chan p))%nat ∧
      (seen = ch_version (pp_chan p) → bad (ch_value (pp_chan p)) = false)
  | Gone => pp_cancelled p = true ∨ (ch_closed (pp_chan p) = true ∧ bad (ch_value (pp_chan p)) = false)
  end.

Lemma watcher_turn_ok p : pipe_ok p → pipe_ok (watcher_turn p).
Proof.
  unfold pipe_ok, watcher_turn. destruct (pp_watcher p) as [seen|seen|] eqn:Hw.
  - intros Hs. destruct (bad _) eqn:Hb; cbn; [by left|]. done.
  - intros [Hs Hb]. destruct (pp_cancelled p); cbn; [by left|].
    destruct (ch_version (pp_chan p) =? seen)%nat eqn:Hv; cbn; [|lia].
    apply Nat.eqb_eq in Hv. destruct (ch_closed (pp_chan p)) eqn:Hc; cbn; [by right; auto|]. by rewrite Hw.
  - intros Ho. by rewrite Hw.
Qed.

Lemma pipe_reachable_ok p : pipe_reachable p → pipe_ok p.
Proof.
  induction 1 as [c seen Hs|p p' _ IH Hstep]; [done|]. destruct Hstep as [p v Hopen|p|p|p]; [..|by apply watcher_turn_ok];
    unfold pipe_ok in *; cbn in *; destruct (pp_watcher p) as [seen|seen|]; try done.
  - lia.
  - destruct IH as [Hs _]. split; [lia|]. intros ->. lia.
  - destruct IH as [->|[Hc _]]; [by left|]. congruence.
  - destruct IH as [->|[_ Hb]]; [by left|by right].
  - by left.
Qed.

(** A pipe does not outlive a denial: in every reachable state in which the published value
    denies the peer, two turns of the watcher leave the relay's token cancelled; an update
    that lands between the watcher's look and its wait is not missed. *)
Lemma denied_pipe_cancelled p :
  pipe_reachable p → bad (ch_value (pp_chan p)) = true → pp_cancelled (watcher_turn (watcher_turn p)) = true.
Proof.
  intros Hr Hbad. apply pipe_reachable_ok in Hr. unfold pipe_ok in Hr. unfold watcher_turn at 2.
  destruct (pp_watcher p) as [seen|seen|] eqn:Hw.
  - rewrite Hbad. done.
  - destruct Hr as [_ Hr]. destruct (pp_cancelled p); [done|].
    destruct (ch_version (pp_chan p) =? seen)%nat eqn:Hv; cbn.
    + apply Nat.eqb_eq in Hv. rewrite Hr in Hbad by done. done.
    + unfold watcher_turn. cbn. by rewrite Hbad.
  - unfold watcher_turn. rewrite Hw. destruct Hr as [?|[_ Hr]]; [done|congruence].
Qed.
End watch.
