(* ===== verification/RawRelay.v ===== *)
(** * RawRelay: [src/proxy/raw_relay.rs] and [src/proxy/raw_relay/*.rs]

    One raw stream: admission, the routing header, the per-device authorization, the gates of
    the backend, the dial and the pipe.  The run keeps the shared state of the proxy and the
    trace of what this stream did; what the peer, the network, the clock and the other tasks
    do is the [RawEnv] record. *)

From Stdlib Require Import Ascii.
From S2P Require Import Prelude Text Error Net Http Lru Float64 Wire CacheControl Cache Circuit Acl Router Identity.
From S2P Require Import Headers Balancer Queue Registry Pool Body Handler Relay.
Local Open Scope Z_scope.

(** ** Constants *)

Definition DEFAULT_RAW_RELAY_IDLE_TIMEOUT_SECS : Z := 300.
Definition MAX_BACKEND_ID_LEN : Z := 256.
Definition MAX_CONCURRENT_RAW_RELAYS : Z := 128.
Definition ROUTING_HEADER_LEN_PREFIX_BYTES : nat := 2.
Definition REJECT_REASON_ACL : string := "acl".
Definition REJECT_REASON_RATE_LIMIT : string := "rate_limit".
Definition REJECT_REASON_UNAUTHORIZED : string := "unauthorized".
Definition REJECT_REASON_CAPACITY : string := "capacity".
Definition REJECT_REASON_NO_BACKEND : string := "no_backend".
Definition REJECT_REASON_CIRCUIT_OPEN : string := "circuit_open".

(** ** The routing header *)

Definition continuation (b : Z) : bool := (0x80 <=? b) && (b <=? 0xbf).

(** Well-formed UTF-8, sequence by sequence. *)
Fixpoint is_utf8 (fuel : nat) (bs : list Z) : bool :=
  match fuel with
  | O => false
  | S fuel =>
      match bs with
      | [] => true
      | b0 :: rest =>
          if b0 <=? 0x7f then is_utf8 fuel rest
          else
            match rest with
            | b1 :: rest =>
                if (0xc2 <=? b0) && (b0 <=? 0xdf) then continuation b1 && is_utf8 fuel rest
                else
                  match rest with
                  | b2 :: rest =>
                      if (0xe0 <=? b0) && (b0 <=? 0xef) then
                        ((if b0 =? 0xe0 then 0xa0 else 0x80) <=? b1) && (b1 <=? (if b0 =? 0xed then 0x9f else 0xbf)) &&
                        continuation b2 && is_utf8 fuel rest
                      else
                        match rest with
                        | b3 :: rest =>
                            (0xf0 <=? b0) && (b0 <=? 0xf4) &&
                            ((if b0 =? 0xf0 then 0x90 else 0x80) <=? b1) && (b1 <=? (if b0 =? 0xf4 then 0x8f else 0xbf)) &&
                            continuation b2 && continuation b3 && is_utf8 fuel rest
                        | [] => false
                        end
                  | [] => false
                  end
            | [] => false
            end
      end
  end.

Definition string_of_bytes (bs : list Z) : string :=
  foldr (λ b s, String (ascii_of_nat (Z.to_nat b)) s) "" bs.

(** [String::from_utf8]; [message] is the text of its error. *)
Definition from_utf8 (message : list Z → string) (bs : list Z) : result string string :=
  if is_utf8 (S (length bs)) bs then Ok (string_of_bytes bs) else Err (message bs).

(** The body of the timeout: what it reads off the stream. *)
Definition read_header (message : list Z → string) (stream : list Z) : Result string :=
  let '(res, stream) := read_exact ROUTING_HEADER_LEN_PREFIX_BYTES stream in
  match res with
  | Err e => Err (Forward ("read routing header length: " +:+ e))
  | Ok len_buf =>
      let len := from_be_bytes len_buf in
      if (len =? 0) || (MAX_BACKEND_ID_LEN <? len) then Err (Forward ("invalid backend_id length: " +:+ pretty len))
      else
        match (read_exact (Z.to_nat len) stream).1 with
        | Err e => Err (Forward ("read routing header: " +:+ e))
        | Ok id_buf =>
            match from_utf8 message id_buf with
            | Err e => Err (Forward ("invalid backend_id UTF-8: " +:+ e))
            | Ok backend_id => Ok backend_id
            end
        end
  end.

Definition read_routing_header (late : bool) (message : list Z → string) (stream : list Z) : Result string :=
  if late then Err (Forward "routing header timed out") else read_header message stream.

(** ** The run *)

Inductive RawMetric :=
  | RelayRejected (reason : string)
  | RelayConnLimitRejected (backend : string)
  | RelayErrors
  | RelayBytes (n : Z)
  | RelayActive (delta : Z).

(** [Piped] is the relay started between the client and the backend. *)
Inductive RawEvent :=
  | RawRecorded (m : RawMetric)
  | RawTook (x : Resource)
  | RawReleased (x : Resource)
  | Piped (identity : PeerIdentity) (backend_id : string) (backend : BackendConfig).

Section raw_relay.
  Context `{Http} `{!Lru CachedResponse} `{!Lru (BackendHealth * Z)} `{IpNetLib} `{Governor}
          `{Semaphore} `{Zstd}.
  Context (ln : f64 → f64).

Record RawRun := {
  raw_state : ProxyState;
  raw_trace : list RawEvent;
}.

Definition raw_emit (e : RawEvent) (r : RawRun) : RawRun :=
  {| raw_state := raw_state r; raw_trace := e :: raw_trace r |}.
Definition raw_on (f : ProxyState → ProxyState) (r : RawRun) : RawRun :=
  {| raw_state := f (raw_state r); raw_trace := raw_trace r |}.
Definition raw_record (m : RawMetric) : RawRun → RawRun := raw_emit (RawRecorded m).

(** The identity of the peer's certificate; the bytes of the stream and whether the header
    came too late; the clock at admission, at selection and at the end; the network of the
    dial; what the relay answers; what the other tasks do meanwhile. *)
Record RawEnv := {
  re_identity : option PeerIdentity;
  re_stream : list Z;
  re_header_late : bool;
  re_utf8_message : list Z → string;
  re_start : Z;
  re_now : Z;
  re_done : Z;
  re_net : Net;
  re_net_back : Net;
  re_pool_await : ConnPool → ConnPool;
  re_relay : Result RelayStats;
  re_header_await : ProxyState → ProxyState;
  re_dial_await : ProxyState → ProxyState;
  re_relay_await : ProxyState → ProxyState;
}.

Definition raw_drop_conn (b : string) (r : RawRun) : RawRun :=
  raw_emit (RawReleased (RConn b)) (raw_on (λ s, with_conn_pool s (drop_conn_permit (conn_pool s) b)) r).

Definition raw_drop_probe (g : option HalfOpenGuard) (r : RawRun) : RawRun :=
  match g with
  | None => r
  | Some g => raw_emit (RawReleased (RProbe g)) (raw_on (λ s, with_circuits s (drop_guard (circuit_breakers s) g)) r)
  end.

(** ** Admission *)

Definition check_admission (now : Z) (acl : AccessControl) (limiter : KeyedLimiter) (client_ip : IpAddr)
    (identity : option PeerIdentity) (rs : RevocationSet) : result string unit * KeyedLimiter :=
  if is_err (acl_check acl client_ip) then (Err REJECT_REASON_ACL, limiter)
  else
    let '(limited, limiter) := rate_check now client_ip limiter in
    if is_err limited then (Err REJECT_REASON_RATE_LIMIT, limiter)
    else
      match identity with
      | None => (Err REJECT_REASON_NO_IDENTITY, limiter)
      | Some i => (if is_revoked rs i then Err REJECT_REASON_REVOKED else Ok (), limiter)
      end.

Definition authorize_raw_edge (env : RawEnv) (client_ip : IpAddr) (raw_authz : RawRelayAuthz) (r : RawRun)
    : Result (option (PeerIdentity * string)) * RawRun :=
  let s := raw_state r in
  let '(admission, limiter) := check_admission (re_start env) (rl_acl (reloadable s)) (rate_limiter s) client_ip
                                 (re_identity env) (revocation s) in
  let r := raw_on (λ s, with_rate_limiter s limiter) r in
  match admission with
  | Err reason => (Ok None, raw_record (RelayRejected reason) r)
  | Ok _ =>
      match re_identity env with
      | None => (Ok None, r)
      | Some i =>
          let r := raw_on (re_header_await env) r in
          match read_routing_header (re_header_late env) (re_utf8_message env) (re_stream env) with
          | Err e => (Err e, r)
          | Ok backend_id =>
              if negb (raw_is_allowed raw_authz backend_id i)
              then (Ok None, raw_record (RelayRejected REJECT_REASON_UNAUTHORIZED) r)
              else (Ok (Some (i, backend_id)), r)
          end
      end
  end.

(** ** The stream *)

Definition record_relay_outcome (now : Z) (backend : BackendConfig) (res : Result RelayStats) (r : RawRun) : RawRun :=
  match res with
  | Ok stats =>
      let r := raw_on (λ s, with_circuits s (record_success (circuit_breakers s) (Balancer.id backend))) r in
      raw_record (RelayBytes (saturating_add (bytes_a_to_b stats) (bytes_b_to_a stats))) r
  | Err _ =>
      let r := raw_on (λ s, with_circuits s (record_failure (circuit_breakers s) now (Balancer.id backend))) r in
      raw_record RelayErrors r
  end.

(** The gauge, the pipe and its outcome. *)
Definition pipe (env : RawEnv) (identity : PeerIdentity) (backend_id : string) (backend : BackendConfig) (r : RawRun)
    : RawRun :=
  let r := raw_record (RelayActive 1) r in
  let r := raw_on (re_relay_await env) (raw_emit (Piped identity backend_id backend) r) in
  let r := raw_record (RelayActive (-1)) r in
  record_relay_outcome (re_done env) backend (re_relay env) r.

(** The dial, under the permit and the probe. *)
Definition dial_and_pipe (env : RawEnv) (identity : PeerIdentity) (backend_id : string) (backend : BackendConfig)
    (r : RawRun) : Result unit * RawRun :=
  let '(stream, p) := acquire_raw_stream (conn_pool (raw_state r)) (re_net env) (re_net_back env)
                        (re_pool_await env) backend in
  let r := raw_on (re_dial_await env) (raw_on (λ s, with_conn_pool s p) r) in
  match stream with
  | Err e =>
      (Err e, raw_on (λ s, with_circuits s (record_failure (circuit_breakers s) (re_done env) (Balancer.id backend))) r)
  | Ok _ => (Ok (), pipe env identity backend_id backend r)
  end.

(** The permit, around the dial. *)
Definition with_permit (env : RawEnv) (identity : PeerIdentity) (backend_id : string) (backend : BackendConfig)
    (r : RawRun) : Result unit * RawRun :=
  let b := Balancer.id backend in
  let '(permit, p) := try_acquire_conn_permit (conn_pool (raw_state r)) backend in
  let r := raw_on (λ s, with_conn_pool s p) r in
  match permit with
  | Err _ => (Ok (), raw_record (RelayConnLimitRejected b) r)
  | Ok _ =>
      let '(res, r) := dial_and_pipe env identity backend_id backend (raw_emit (RawTook (RConn b)) r) in
      (res, raw_drop_conn b r)
  end.

(** From the pool to the pipe. *)
Definition route_raw (env : RawEnv) (client_ip : IpAddr) (i : PeerIdentity) (backend_id : string) (r : RawRun)
    : Result unit * RawRun :=
  let s := raw_state r in
  match backend_pools (reloadable s) !! backend_id with
  | None => (Err (Forward ("unknown backend pool for raw relay: " +:+ backend_id)), r)
  | Some pool =>
      match select_with_pressure ln (re_now env) pool client_ip (health_rx s)
              (λ b, connection_pressure (conn_pool s) (Balancer.id b) (max_connections b)) with
      | None => (Ok (), raw_record (RelayRejected REJECT_REASON_NO_BACKEND) r)
      | Some backend =>
          let '(cb, (st, guard)) := check (circuit_breakers s) (re_now env) (Balancer.id backend) in
          let r := raw_on (λ s, with_circuits s cb) r in
          if decide (st = Open) then (Ok (), raw_record (RelayRejected REJECT_REASON_CIRCUIT_OPEN) r)
          else
            let r := match guard with Some g => raw_emit (RawTook (RProbe g)) r | None => r end in
            let '(res, r) := with_permit env i backend_id backend r in
            (res, raw_drop_probe guard r)
      end
  end.

Definition handle_raw_stream (env : RawEnv) (remote_addr : SocketAddr) (raw_authz : RawRelayAuthz) (r : RawRun)
    : Result unit * RawRun :=
  let client_ip := sa_ip remote_addr in
  match authorize_raw_edge env client_ip raw_authz r with
  | (Err e, r) => (Err e, r)
  | (Ok None, r) => (Ok (), r)
  | (Ok (Some (i, backend_id)), r) => route_raw env client_ip i backend_id r
  end.

(** One stream received by [run_raw_relay_handler] with [active] relays running: refused at the
    cap, or spawned, its failure counted. *)
Definition accept_raw (env : RawEnv) (remote_addr : SocketAddr) (raw_authz : RawRelayAuthz) (active : Z) (r : RawRun)
    : RawRun :=
  if MAX_CONCURRENT_RAW_RELAYS <=? active then raw_record (RelayRejected REJECT_REASON_CAPACITY) r
  else
    match handle_raw_stream env remote_addr raw_authz r with
    | (Err _, r) => raw_record RelayErrors r
    | (Ok _, r) => r
    end.

(** ** Lifetime *)

Definition cancel_on_revocation (identity : PeerIdentity) : Pipe (V := RevocationSet) → Pipe :=
  watcher_turn (λ rs, is_revoked rs identity).

Definition cancel_on_acl_denial (client_ip : IpAddr) : Pipe (V := ReloadableState) → Pipe :=
  watcher_turn (λ rl, is_err (acl_check (rl_acl rl) client_ip)).

(** ** Accounts of a trace *)

Fixpoint raw_outstanding (x : Resource) (tr : list RawEvent) : Z :=
  match tr with
  | [] => 0
  | RawTook y :: tr => raw_outstanding x tr + unit_of y x
  | RawReleased y :: tr => raw_outstanding x tr - unit_of y x
  | _ :: tr => raw_outstanding x tr
  end.

Fixpoint raw_active (tr : list RawEvent) : Z :=
  match tr with
  | [] => 0
  | RawRecorded (RelayActive d) :: tr => raw_active tr + d
  | _ :: tr => raw_active tr
  end.

Fixpoint pipes (tr : list RawEvent) : list (PeerIdentity * string * BackendConfig) :=
  match tr with
  | [] => []
  | Piped i b backend :: tr => (i, b, backend) :: pipes tr
  | _ :: tr => pipes tr
  end.

(** The same account of guards and gauge, with the pipes [ps] more. *)
Definition adds (ps : list (PeerIdentity * string * BackendConfig)) (r r' : RawRun) : Prop :=
  (∀ x, raw_outstanding x (raw_trace r') = raw_outstanding x (raw_trace r)) ∧
  raw_active (raw_trace r') = raw_active (raw_trace r) ∧ pipes (raw_trace r') = ps ++ pipes (raw_trace r).

Lemma pipe_adds env i bid backend r : adds [(i, bid, backend)] r (pipe env i bid backend r).
Proof.
  unfold pipe, record_relay_outcome. destruct (re_relay env); (split_and!; [done| |done]); cbn; lia.
Qed.

Lemma dial_adds env i bid backend r res r' :
  dial_and_pipe env i bid backend r = (res, r') → ∃ ps, adds ps r r' ∧ ps `sublist_of` [(i, bid, backend)].
Proof.
  unfold dial_and_pipe. destruct (acquire_raw_stream _ _ _ _ _) as [[c|e] p]; intros [= <- <-].
  - exists [(i, bid, backend)]. split; [|done]. apply (pipe_adds env i bid backend (raw_on _ (raw_on _ r))).
  - exists []. split; [by split_and!|apply sublist_nil_l].
Qed.

Lemma permit_adds env i bid backend r res r' :
  with_permit env i bid backend r = (res, r') → ∃ ps, adds ps r r' ∧ ps `sublist_of` [(i, bid, backend)].
Proof.
  unfold with_permit. destruct (try_acquire_conn_permit _ backend) as [[u|e] p].
  - destruct (dial_and_pipe _ _ _ _ _) as [res1 r1] eqn:Hd. intros [= <- <-].
    destruct (dial_adds _ _ _ _ _ _ _ Hd) as (ps & (Ho & Ha & Hp) & Hs). exists ps. split; [|done].
    split_and!; [|done|done]. intros x. cbn. rewrite Ho. cbn. lia.
  - intros [= <- <-]. exists []. split; [by split_and!|apply sublist_nil_l].
Qed.

(** What the edge lets through. *)
Definition authorized (env : RawEnv) (client_ip : IpAddr) (raw_authz : RawRelayAuthz) (s : ProxyState)
    (i : PeerIdentity) (bid : string) : Prop :=
  acl_check (rl_acl (reloadable s)) client_ip = Ok () ∧
  (rate_check (re_start env) client_ip (rate_limiter s)).1 = Ok () ∧
  re_identity env = Some i ∧ is_revoked (revocation s) i = false ∧
  read_routing_header (re_header_late env) (re_utf8_message env) (re_stream env) = Ok bid ∧
  raw_is_allowed raw_authz bid i = true.

Lemma check_admission_ok now acl limiter ip identity rs limiter' :
  check_admission now acl limiter ip identity rs = (Ok (), limiter') →
  acl_check acl ip = Ok () ∧ (rate_check now ip limiter).1 = Ok () ∧
  ∃ i, identity = Some i ∧ is_revoked rs i = false.
Proof.
  unfold check_admission. destruct (acl_check acl ip) as [[]|]; [|done]. cbn.
  destruct (rate_check now ip limiter) as [[[]|] l]; cbn; [|done].
  destruct identity as [i|]; [|done]. destruct (is_revoked rs i) eqn:Hr; [done|]. intros _. by eauto.
Qed.

Lemma authorize_adds env ip authz r res r' :
  authorize_raw_edge env ip authz r = (res, r') →
  adds [] r r' ∧ (∀ i bid, res = Ok (Some (i, bid)) → authorized env ip authz (raw_state r) i bid).
Proof.
  unfold authorize_raw_edge. destruct (check_admission _ _ _ _ _ _) as [[[]|reason] l] eqn:Hc;
    [|intros [= <- <-]; by split_and!].
  apply check_admission_ok in Hc as (Hacl & Hrate & i & Hi & Hrev). rewrite Hi.
  destruct (read_routing_header _ _ _) as [bid|e] eqn:Hh; [|intros [= <- <-]; by split_and!].
  destruct (raw_is_allowed authz bid i) eqn:Ha; cbn [negb]; intros [= <- <-]; (split; [by split_and!|]); [|done].
  intros i' bid' [= <- <-]. by split_and!.
Qed.

Lemma route_adds env ip i bid r res r' :
  route_raw env ip i bid r = (res, r') →
  ∃ ps, adds ps r r' ∧ (length ps <= 1)%nat ∧
    ∀ x, x ∈ ps → ∃ backend pool, x = (i, bid, backend) ∧
      backend_pools (reloadable (raw_state r)) !! bid = Some pool ∧ backend ∈ backends pool ∧
      (check (circuit_breakers (raw_state r)) (re_now env) (Balancer.id backend)).2.1 ≠ Open.
Proof.
  unfold route_raw.
  destruct (backend_pools _ !! bid) as [pool|] eqn:Hpool;
    [|by intros [= <- <-]; exists []; split_and!; [split_and!|cbn; lia|set_solver]].
  destruct (select_with_pressure _ _ _ _ _ _) as [backend|] eqn:Hsel;
    [|by intros [= <- <-]; exists []; split_and!; [split_and!|cbn; lia|set_solver]].
  apply select_member in Hsel. destruct (check _ _ _) as [cb [st guard]] eqn:Hck.
  destruct (decide (st = Open)) as [->|Hst];
    [by intros [= <- <-]; exists []; split_and!; [split_and!|cbn; lia|set_solver]|].
  destruct (with_permit _ _ _ _ _) as [res1 r1] eqn:Hw. intros [= <- <-].
  apply permit_adds in Hw as (ps & (Ho & Ha & Hp) & Hs). exists ps. split_and!.
  - split_and!; [intros x; specialize (Ho x)|..]; destruct guard as [g|]; cbn in *; (done || lia).
  - apply sublist_length in Hs. done.
  - intros x Hx. apply (elem_of_sublist _ _ _ Hx), list_elem_of_singleton in Hs as ->.
    exists backend, pool. by rewrite Hck.
Qed.

Lemma adds_trans ps r1 r2 r3 : adds [] r1 r2 → adds ps r2 r3 → adds ps r1 r3.
Proof.
  intros (Ho & Ha & Hp) (Ho' & Ha' & Hp'). split_and!; [intros x|..]; [by rewrite Ho', Ho|by rewrite Ha', Ha|].
  by rewrite Hp', Hp.
Qed.

(** ** What holds of a raw stream *)

(** C17. A raw stream leaves nothing behind: however it ends, every permit and half-open probe it
    took is released exactly once and the gauge of active relays is back where it was. *)
Theorem raw_stream_balanced env addr authz r res r' x :
  handle_raw_stream env addr authz r = (res, r') →
  raw_outstanding x (raw_trace r') = raw_outstanding x (raw_trace r) ∧
  raw_active (raw_trace r') = raw_active (raw_trace r).
Proof.
  unfold handle_raw_stream. destruct (authorize_raw_edge _ _ _ _) as [[[[i bid]|]|e] r1] eqn:Ha;
    apply authorize_adds in Ha as [Ha _]; [|by intros [= <- <-]; destruct Ha as (? & ? & _)..].
  intros (ps & Hadds & _)%route_adds. by destruct (adds_trans _ _ _ _ Ha Hadds) as (? & ? & _).
Qed.

Lemma raw_stream_pipes env addr authz r res r' :
  handle_raw_stream env addr authz r = (res, r') →
  ∃ ps, pipes (raw_trace r') = ps ++ pipes (raw_trace r) ∧
    ∀ x, x ∈ ps → authorized env (sa_ip addr) authz (raw_state r) x.1.1 x.1.2.
Proof.
  unfold handle_raw_stream. destruct (authorize_raw_edge _ _ _ _) as [[[[i bid]|]|e] r1] eqn:Ha;
    apply authorize_adds in Ha as [Ha Hauth];
    [|by intros [= <- <-]; exists []; destruct Ha as (_ & _ & ?); split; [|set_solver]..].
  intros (ps & Hadds & _ & Hps)%route_adds. exists ps. split; [by apply (adds_trans _ _ _ _ Ha Hadds)|].
  intros x (backend & pool & -> & _)%Hps. by apply Hauth.
Qed.

(** C16. No byte is relayed for a peer that is not entitled: a stream opens at most one pipe, and
    only for a peer whose address the access list and the rate limiter let in, whose
    certificate proves an identity that is not revoked and that the allow list of the backend
    named in its header contains, towards a member of the pool of that name, as configured
    once the peer is admitted, whose breaker is not open then. *)
Theorem raw_pipe_authorized env addr authz r res r' :
  handle_raw_stream env addr authz r = (res, r') →
  let s1 := raw_state (authorize_raw_edge env (sa_ip addr) authz r).2 in
  ∃ ps, pipes (raw_trace r') = ps ++ pipes (raw_trace r) ∧ (length ps <= 1)%nat ∧
    ∀ x, x ∈ ps → ∃ i bid backend pool, x = (i, bid, backend) ∧
      authorized env (sa_ip addr) authz (raw_state r) i bid ∧
      backend_pools (reloadable s1) !! bid = Some pool ∧ backend ∈ backends pool ∧
      (check (circuit_breakers s1) (re_now env) (Balancer.id backend)).2.1 ≠ Open.
Proof.
  unfold handle_raw_stream. destruct (authorize_raw_edge _ _ _ _) as [[[[i bid]|]|e] r1] eqn:Ha;
    apply authorize_adds in Ha as [Ha Hauth];
    [|by intros [= <- <-]; exists []; destruct Ha as (_ & _ & ?); split_and!; [|cbn; lia|set_solver]..].
  intros (ps & Hadds & Hlen & Hps)%route_adds. exists ps. split_and!; [by apply (adds_trans _ _ _ _ Ha Hadds)|done|].
  intros x (backend & pool & -> & Hp)%Hps. exists i, bid, backend, pool.
  by split_and!; [|apply Hauth|apply Hp..].
Qed.

(** C19. A pipe does not outlive its peer's rights: in every reachable state of a pipe in which the
    published revocation list names its identity, or the published access list denies its
    address, two turns of the watcher leave the relay cancelled. *)
Theorem denied_pipe_torn_down (i : PeerIdentity) (ip : IpAddr) (p : Pipe (V := RevocationSet))
    (q : Pipe (V := ReloadableState)) :
  pipe_reachable (λ rs, is_revoked rs i) p → pipe_reachable (λ rl, is_err (acl_check (rl_acl rl) ip)) q →
  (is_revoked (ch_value (pp_chan p)) i = true →
     pp_cancelled (cancel_on_revocation i (cancel_on_revocation i p)) = true) ∧
  (acl_check (rl_acl (ch_value (pp_chan q))) ip ≠ Ok () →
     pp_cancelled (cancel_on_acl_denial ip (cancel_on_acl_denial ip q)) = true).
Proof.
  intros Hp Hq. split; intros Hd.
  - by apply denied_pipe_cancelled.
  - apply denied_pipe_cancelled; [done|]. destruct (acl_check _ _) as [[]|]; done.
Qed.
End raw_relay.

(** ** Examples *)

Definition demo_raw_authz : RawRelayAuthz :=
  {| by_backend := {["p" := {| bp_cns := {[common_name demo_identity]}; bp_spkis := ∅ |}]} |}.

(** A peer that asks for the pool "p", and a relay that ends after moving three bytes. *)
Definition demo_raw_env : RawEnv :=
  {| re_identity := Some demo_identity; re_stream := [0; 1; 112]; re_header_late := false;
     re_utf8_message := λ _, ""; re_start := 0; re_now := 1; re_done := 2; re_net := demo_net; re_net_back := demo_net;
     re_pool_await := λ p, p;
     re_relay := Ok {| bytes_a_to_b := 2; bytes_b_to_a := 1; duration := 9; relay_end := Completed |};
     re_header_await := λ s, s; re_dial_await := λ s, s; re_relay_await := λ s, s |}.

Definition demo_raw_run : RawRun := {| raw_state := demo_state 0; raw_trace := [] |}.
Definition demo_remote : SocketAddr := {| sa_ip := V4 7; sa_port := 4000 |}.

Definition demo_raw : Result unit * RawRun :=
  handle_raw_stream demo_ln demo_raw_env demo_remote demo_raw_authz demo_raw_run.

Lemma demo_raw_pipes : length (pipes (raw_trace demo_raw.2)) = 1%nat.
Proof. vm_compute. reflexivity. Qed.

Lemma raw_stream_balanced_witness :
  raw_outstanding (RConn "a") (raw_trace demo_raw.2) = 0 ∧ raw_active (raw_trace demo_raw.2) = 0.
Proof.
  apply (raw_stream_balanced demo_ln demo_raw_env demo_remote demo_raw_authz demo_raw_run demo_raw.1 demo_raw.2).
  apply surjective_pairing.
Defined.

Lemma raw_pipe_authorized_witness :
  let s1 := raw_state (authorize_raw_edge demo_raw_env (V4 7) demo_raw_authz demo_raw_run).2 in
  ∃ ps, pipes (raw_trace demo_raw.2) = ps ++ [] ∧ (length ps <= 1)%nat ∧
    ∀ x, x ∈ ps → ∃ i bid backend pool, x = (i, bid, backend) ∧
      authorized demo_raw_env (V4 7) demo_raw_authz (demo_state 0) i bid ∧
      backend_pools (reloadable s1) !! bid = Some pool ∧ backend ∈ backends pool ∧
      (check (circuit_breakers s1) 1 (Balancer.id backend)).2.1 ≠ Open.
Proof.
  apply (raw_pipe_authorized demo_ln demo_raw_env demo_remote demo_raw_authz demo_raw_run demo_raw.1 demo_raw.2).
  apply surjective_pairing.
Defined.

(** The peer is revoked after the watcher looked, and before it waits. *)
Definition demo_revoking : Pipe (V := RevocationSet) :=
  {| pp_chan := Build_Chan {| rs_spki := ∅; rs_backend_ids := {[common_name demo_identity]} |} 1 false;
     pp_watcher := Waiting 0; pp_cancelled := false |}.

Definition demo_denying : Pipe (V := ReloadableState) :=
  {| pp_chan := Build_Chan (demo_reloadable (AccessControl_new [] [])) 0 false; pp_watcher := Looking 0;
     pp_cancelled := false |}.

Lemma denied_pipe_torn_down_witness :
  pp_cancelled (cancel_on_revocation demo_identity (cancel_on_revocation demo_identity demo_revoking)) = true.
Proof.
  apply (denied_pipe_torn_down demo_identity (V4 7) demo_revoking demo_denying).
  - pose (p0 := {| pp_chan := Build_Chan RevocationSet_default 0 false; pp_watcher := Looking 0; pp_cancelled := false |}).
    apply (pipe_next _ (watcher_turn (λ rs, is_revoked rs demo_identity) p0)); [|by apply ps_publish].
    apply (pipe_next _ p0); [|by apply ps_watcher]. by apply pipe_start.
  - by apply pipe_start.
  - vm_compute. reflexivity.
Defined.
