(* ===== verification/TcpIngress.v ===== *)
(** * TcpIngress: [src/ingress/tcp.rs]

    The TCP ingress: the accept loop with its admission and its connection cap, one task per
    admitted connection, and the counters that account for every connection.  A task runs
    from the selection of its backend to the end of its relay; what the network, the clock
    and the other tasks do meanwhile is the [TcpEnv] record. *)

From S2P Require Import Prelude Text Error Net Lru Float64 Wire Circuit Acl Balancer Queue Registry Pool IngressProtocol Udp.
From S2P Require Import Relay.
Local Open Scope Z_scope.

(** ** Counters *)

Definition TCP_WORKER_ID : Z := 0.
Definition DEFAULT_TCP_MAX_CONNECTIONS : Z := 10000.
Definition DEFAULT_TCP_IDLE_TIMEOUT_SECS : Z := 300.

Inductive TcpDropReason := TAcl | TRateLimit | TCapacity | TNoBackend | TCircuitOpen | TProtocol.

#[export] Instance TcpDropReason_eq_dec : EqDecision TcpDropReason.
Proof. solve_decision. Defined.

Definition tcp_reason_str (r : TcpDropReason) : string :=
  match r with
  | TAcl => "acl"
  | TRateLimit => "rate_limit"
  | TCapacity => "capacity"
  | TNoBackend => "no_backend"
  | TCircuitOpen => "circuit_open"
  | TProtocol => "protocol"
  end.

Record TcpIngressCounters := {
  tc_accepted : Z;
  tc_relayed : Z;
  tc_dropped : TcpDropReason → Z;
}.

Definition TcpIngressCounters_new : TcpIngressCounters :=
  {| tc_accepted := 0; tc_relayed := 0; tc_dropped := λ _, 0 |}.

Definition record_accepted (c : TcpIngressCounters) : TcpIngressCounters :=
  {| tc_accepted := wrap64 (tc_accepted c + 1); tc_relayed := tc_relayed c; tc_dropped := tc_dropped c |}.

Definition record_relayed (c : TcpIngressCounters) : TcpIngressCounters :=
  {| tc_accepted := tc_accepted c; tc_relayed := wrap64 (tc_relayed c + 1); tc_dropped := tc_dropped c |}.

Definition tcp_record_drop (reason : TcpDropReason) (c : TcpIngressCounters) : TcpIngressCounters :=
  {| tc_accepted := tc_accepted c; tc_relayed := tc_relayed c;
     tc_dropped := λ r, if decide (r = reason) then wrap64 (tc_dropped c r + 1) else tc_dropped c r |}.

Definition total_dropped (c : TcpIngressCounters) : Z :=
  tc_dropped c TAcl + tc_dropped c TRateLimit + tc_dropped c TCapacity + tc_dropped c TNoBackend +
  tc_dropped c TCircuitOpen + tc_dropped c TProtocol.

(** ** One connection *)

Section tcp.
  Context `{!Lru (BackendHealth * Z)} `{IpNetLib} `{Governor} `{Semaphore} `{Codec Envelope}.
  Context (ln : f64 → f64).

Definition tcp_admit (now : Z) (acl : AccessControl) (limiter : KeyedLimiter) (peer : IpAddr)
    : result TcpDropReason unit * KeyedLimiter :=
  if is_err (acl_check acl peer) then (Err TAcl, limiter)
  else
    let '(r, limiter) := rate_check now peer limiter in
    (if is_err r then Err TRateLimit else Ok (), limiter).

(** The stream of the backend after the preamble and the two frames that announce the peer. *)
Definition announce (ingress_id : string) (peer : SocketAddr) (stream : Writer) : Result Writer :=
  let '(r, stream) := write_preamble stream in
  _ ← r;
  let '(r, stream) := write_frame (Hello ingress_id TCP_WORKER_ID) stream in
  _ ← r;
  let '(r, stream) := write_frame (Open_ (from_socket_addr peer)) stream in
  _ ← r;
  Ok stream.

(** The shared objects of the connections of one ingress. *)
Record Shared := {
  sh_conn_pool : ConnPool;
  sh_circuit : CircuitBreakers;
}.

Definition sh_with_circuit (s : Shared) (cb : CircuitBreakers) : Shared :=
  {| sh_conn_pool := sh_conn_pool s; sh_circuit := cb |}.

(** The clock at the gate and at the end; the health state; the network of the dial and the
    stream it opens; what the relay answers; what the other tasks do meanwhile. *)
Record TcpEnv := {
  te_now : Z;
  te_done : Z;
  te_health : HealthState;
  te_net : Net;
  te_net_back : Net;
  te_pool_await : ConnPool → ConnPool;
  te_stream : Writer;
  te_relay : Result RelayStats;
  te_dial_await : Shared → Shared;
  te_relay_await : Shared → Shared;
}.

Definition open_backend_stream (env : TcpEnv) (backend : BackendConfig) (peer : SocketAddr) (ingress_id : string)
    (s : Shared) : Result Writer * Shared :=
  let '(r, p) := acquire_raw_stream (sh_conn_pool s) (te_net env) (te_net_back env) (te_pool_await env) backend in
  let s := te_dial_await env {| sh_conn_pool := p; sh_circuit := sh_circuit s |} in
  match r with
  | Err e => (Err e, s)
  | Ok _ => (announce ingress_id peer (te_stream env), s)
  end.

Definition relay_bidirectional_result (r : Result RelayStats) : Result (Z * Z) :=
  stats ← r;
  Ok (saturating_add (bytes_a_to_b stats) (bytes_b_to_a stats), duration stats).

(** The calls on the counters that a connection makes. *)
Inductive Count :=
  | ActiveAdd (delta : Z)
  | RecordRelayed (bytes duration : Z)
  | RecordDrop (reason : TcpDropReason).

(** [handle_connection], with the calls it makes on the counters, in their order; the half-open
    guard is dropped when it returns. *)
Definition handle_connection (env : TcpEnv) (peer : SocketAddr) (pool : BackendPool) (ingress_id : string) (s : Shared)
    : list Count * Shared :=
  match select ln (te_now env) pool (sa_ip peer) (te_health env) with
  | None => ([RecordDrop TNoBackend], s)
  | Some backend =>
      let b := Balancer.id backend in
      let '(cb, (circuit_state, guard)) := check (sh_circuit s) (te_now env) b in
      let s := sh_with_circuit s cb in
      let release s := match guard with
                       | Some g => sh_with_circuit s (drop_guard (sh_circuit s) g)
                       | None => s
                       end in
      if decide (circuit_state = Open) then ([RecordDrop TCircuitOpen], release s)
      else
        let '(stream, s) := open_backend_stream env backend peer ingress_id s in
        match stream with
        | Err _ =>
            ([RecordDrop TProtocol], release (sh_with_circuit s (record_failure (sh_circuit s) (te_done env) b)))
        | Ok _ =>
            let s := te_relay_await env s in
            match relay_bidirectional_result (te_relay env) with
            | Ok (bytes, took) =>
                ([ActiveAdd 1; ActiveAdd (-1); RecordRelayed bytes took],
                 release (sh_with_circuit s (record_success (sh_circuit s) b)))
            | Err _ =>
                ([ActiveAdd 1; ActiveAdd (-1); RecordDrop TProtocol],
                 release (sh_with_circuit s (record_failure (sh_circuit s) (te_done env) b)))
            end
        end
  end.

(** The gauge of the active relays is a metric only. *)
Definition count (o : Count) (c : TcpIngressCounters) : TcpIngressCounters :=
  match o with
  | ActiveAdd _ => c
  | RecordRelayed _ _ => record_relayed c
  | RecordDrop reason => tcp_record_drop reason c
  end.

Definition counted (os : list Count) (c : TcpIngressCounters) : TcpIngressCounters := foldl (λ c o, count o c) c os.

(** ** The ingress *)

(** [ti_running] is the number of connection tasks alive, each with its permit. *)
Record TcpIngress := {
  ti_counters : TcpIngressCounters;
  ti_limiter : KeyedLimiter;
  ti_permits : Sem;
  ti_running : nat;
  ti_shared : Shared;
}.

(** One [listener.accept()] that answered a connection. *)
Definition accept_one (now : Z) (acl : AccessControl) (peer : SocketAddr) (t : TcpIngress) : TcpIngress :=
  let c := record_accepted (ti_counters t) in
  let '(r, limiter) := tcp_admit now acl (ti_limiter t) (sa_ip peer) in
  match r with
  | Err reason =>
      {| ti_counters := tcp_record_drop reason c; ti_limiter := limiter; ti_permits := ti_permits t;
         ti_running := ti_running t; ti_shared := ti_shared t |}
  | Ok _ =>
      match sem_try_acquire (ti_permits t) with
      | None =>
          {| ti_counters := tcp_record_drop TCapacity c; ti_limiter := limiter; ti_permits := ti_permits t;
             ti_running := ti_running t; ti_shared := ti_shared t |}
      | Some permits =>
          {| ti_counters := c; ti_limiter := limiter; ti_permits := permits; ti_running := S (ti_running t);
             ti_shared := ti_shared t |}
      end
  end.

(** A task that has run: its counts, and its permit back. *)
Definition finish_one (env : TcpEnv) (peer : SocketAddr) (pool : BackendPool) (ingress_id : string) (t : TcpIngress)
    : TcpIngress :=
  let '(os, s) := handle_connection env peer pool ingress_id (ti_shared t) in
  {| ti_counters := counted os (ti_counters t); ti_limiter := ti_limiter t; ti_permits := sem_release (ti_permits t);
     ti_running := pred (ti_running t); ti_shared := s |}.

(** [spawn_tcp_ingress]: the pool and the state of the listener it starts. *)
Definition spawn_tcp_ingress (bind : result string unit) (config : IngressConfig) (members : list BackendConfig)
    (max_backends requests_per_second : Z) (s : Shared) : Result (BackendPool * Z * TcpIngress) :=
  match bind with
  | Err e => Err (Ingress ("bind tcp " +:+ addr_to_string (ic_listen config) +:+ ": " +:+ e))
  | Ok _ =>
      pool ← with_max members max_backends;
      limiter ← RateLimit_new requests_per_second;
      Ok (pool, from_secs (default DEFAULT_TCP_IDLE_TIMEOUT_SECS (ic_idle_timeout_secs config)),
          {| ti_counters := TcpIngressCounters_new; ti_limiter := limiter;
             ti_permits := sem_new (default DEFAULT_TCP_MAX_CONNECTIONS (ic_max_connections config));
             ti_running := 0; ti_shared := s |})
  end.

(** Accepts and ends of tasks, in any order. *)
Inductive tcp_step (acl : AccessControl) (pool : BackendPool) (ingress_id : string) : TcpIngress → TcpIngress → Prop :=
  | ts_accept t now peer : tcp_step acl pool ingress_id t (accept_one now acl peer t)
  | ts_finish t env peer : (0 < ti_running t)%nat →
      tcp_step acl pool ingress_id t (finish_one env peer pool ingress_id t).

Inductive tcp_reachable (acl : AccessControl) (pool : BackendPool) (ingress_id : string) (max : Z) : TcpIngress → Prop :=
  | tcp_start limiter s :
      tcp_reachable acl pool ingress_id max
        {| ti_counters := TcpIngressCounters_new; ti_limiter := limiter; ti_permits := sem_new max; ti_running := 0;
           ti_shared := s |}
  | tcp_next t t' : tcp_reachable acl pool ingress_id max t → tcp_step acl pool ingress_id t t' →
      tcp_reachable acl pool ingress_id max t'.

(** ** The account *)

Lemma dropped_one reason c : cong64 (total_dropped (tcp_record_drop reason c)) (total_dropped c + 1).
Proof.
  unfold total_dropped, tcp_record_drop. cbn.
  destruct reason; repeat case_decide; try done; rewrite wrap64_cong; apply cong64_of_eq; lia.
Qed.

(** A count that closes the account of a connection. *)
Definition closes (o : Count) : Prop := match o with ActiveAdd _ => False | _ => True end.

Lemma count_one o c :
  closes o →
  tc_accepted (count o c) = tc_accepted c ∧
  cong64 (tc_relayed (count o c) + total_dropped (count o c)) (tc_relayed c + total_dropped c + 1).
Proof.
  destruct o as [d|b d|reason]; cbn [count]; [done|intros _; split; [done|]..].
  - unfold record_relayed, total_dropped. cbn. rewrite wrap64_cong. apply cong64_of_eq. lia.
  - rewrite dropped_one. apply cong64_of_eq. cbn. lia.
Qed.

(** Whichever way a connection returns, it has closed its account once and left the gauge of
    the active relays as it was. *)
Lemma counts_once env peer pool ingress_id s :
  ∃ o, closes o ∧ ((handle_connection env peer pool ingress_id s).1 = [o] ∨
                   (handle_connection env peer pool ingress_id s).1 = [ActiveAdd 1; ActiveAdd (-1); o]).
Proof.
  unfold handle_connection. destruct (select _ _ _ _ _) as [backend|]; [|by eexists; split; [|by left]].
  destruct (check _ _ _) as [cb [st guard]]. destruct (decide (st = Open)); [by eexists; split; [|by left]|].
  destruct (open_backend_stream _ _ _ _ _) as [[w|e] s1]; [|by eexists; split; [|by left]].
  destruct (relay_bidirectional_result _) as [[b d]|e]; by eexists; split; [|by right].
Qed.

Lemma counted_once env peer pool ingress_id s c :
  let c' := counted (handle_connection env peer pool ingress_id s).1 c in
  tc_accepted c' = tc_accepted c ∧
  cong64 (tc_relayed c' + total_dropped c') (tc_relayed c + total_dropped c + 1).
Proof. destruct (counts_once env peer pool ingress_id s) as (o & Ho & [-> | ->]); by apply count_one. Qed.

Section laws.
  Context `{!SemaphoreLaws}.

Definition tcp_account (max : Z) (t : TcpIngress) : Prop :=
  cong64 (tc_accepted (ti_counters t))
         (tc_relayed (ti_counters t) + total_dropped (ti_counters t) + Z.of_nat (ti_running t)) ∧
  available_permits (ti_permits t) + Z.of_nat (ti_running t) = max ∧ 0 ≤ available_permits (ti_permits t).

Lemma accept_ok max now acl peer t : tcp_account max t → tcp_account max (accept_one now acl peer t).
Proof.
  intros (Hc & Hp & Hn). unfold accept_one. destruct (tcp_admit _ _ _ _) as [[u|reason] l]; unfold tcp_account; cbn.
  - destruct (sem_try_acquire (ti_permits t)) as [p|] eqn:Hs; cbn; (split; [|split]); try done.
    + rewrite wrap64_cong, Hc. apply cong64_of_eq. unfold total_dropped. cbn. lia.
    + apply try_acquire_some in Hs. lia.
    + assert (available_permits (ti_permits t) ≠ 0) by (intros Hz%try_acquire_none; congruence).
      apply try_acquire_some in Hs. lia.
    + rewrite wrap64_cong, Hc, (dropped_one TCapacity (record_accepted (ti_counters t))).
      apply cong64_of_eq. unfold total_dropped. cbn. lia.
  - split; [|done]. rewrite wrap64_cong, Hc, (dropped_one reason (record_accepted (ti_counters t))).
    apply cong64_of_eq. unfold total_dropped. cbn. lia.
Qed.

Lemma finish_ok max env peer pool ingress_id t :
  (0 < ti_running t)%nat → tcp_account max t → tcp_account max (finish_one env peer pool ingress_id t).
Proof.
  intros Hr (Hc & Hp & Hn). unfold finish_one.
  destruct (counted_once env peer pool ingress_id (ti_shared t) (ti_counters t)) as [Ha Hs].
  destruct (handle_connection _ _ _ _ _) as [os s]. cbn [fst] in Ha, Hs. unfold tcp_account.
  cbn [ti_counters ti_running ti_permits]. rewrite Ha. rewrite available_release. split_and!; [|lia|lia].
  rewrite Hc, Hs. apply cong64_of_eq. lia.
Qed.

Lemma tcp_ok acl pool ingress_id max t : 0 ≤ max → tcp_reachable acl pool ingress_id max t → tcp_account max t.
Proof.
  intros Hmax. induction 1 as [limiter s|t t' _ IH Hstep].
  - split_and!; cbn; [done|rewrite available_new; lia|rewrite available_new; lia].
  - destruct Hstep; [by apply accept_ok|by apply finish_ok].
Qed.

(** C24. Every connection the ingress accepted is accounted for: whatever order connections come and
    end in, the accepted ones are the relayed, the dropped and the running ones (modulo the
    64-bit counters), so once all have settled the accepted are exactly the relayed and the
    dropped; and no more run at a time than the cap allows. *)
Theorem tcp_ingress_accounting acl pool ingress_id max t :
  0 ≤ max → tcp_reachable acl pool ingress_id max t →
  cong64 (tc_accepted (ti_counters t))
         (tc_relayed (ti_counters t) + total_dropped (ti_counters t) + Z.of_nat (ti_running t)) ∧
  Z.of_nat (ti_running t) ≤ max ∧
  (∀ now peer, sem_try_acquire (ti_permits t) = None → ti_running (accept_one now acl peer t) = ti_running t).
Proof.
  intros Hmax (Hc & Hp & Hn)%tcp_ok; [|done]. split_and!; [done|lia|].
  intros now peer Hs. unfold accept_one. destruct (tcp_admit _ _ _ _) as [[u|reason] l]; [|done]. by rewrite Hs.
Qed.
End laws.

(** The bytes that announce a peer are its preamble and the two frames, and nothing is sent
    when one of them does not fit. *)
Lemma announce_sends ingress_id peer w w' :
  announce ingress_id peer w = Ok w' →
  ∃ w1 w2, write_preamble w = (Ok (), w1) ∧ write_frame (Hello ingress_id TCP_WORKER_ID) w1 = (Ok (), w2) ∧
    write_frame (Open_ (from_socket_addr peer)) w2 = (Ok (), w').
Proof.
  unfold announce. destruct (write_preamble w) as [[[]|] w1] eqn:Hw1; [|done]. cbn [mbind result_bind].
  destruct (write_frame (Hello _ _) w1) as [[[]|] w2] eqn:Hw2; [|done]. cbn [mbind result_bind].
  destruct (write_frame (Open_ _) w2) as [[[]|] w3] eqn:Hw3; [|done]. intros [= <-]. by exists w1, w2.
Qed.

(** A connection is relayed only behind the announcement of its peer: when it counts as
    relayed, the breaker of a member of the pool was not open, the dial succeeded and the
    preamble, the hello and the peer's address were written ahead of its bytes. *)
Theorem relayed_behind_announcement env peer pool ingress_id s bytes took :
  RecordRelayed bytes took ∈ (handle_connection env peer pool ingress_id s).1 →
  ∃ backend w1 w2 w3 st, select ln (te_now env) pool (sa_ip peer) (te_health env) = Some backend ∧
    (check (sh_circuit s) (te_now env) (Balancer.id backend)).2.1 ≠ Open ∧
    write_preamble (te_stream env) = (Ok (), w1) ∧ write_frame (Hello ingress_id TCP_WORKER_ID) w1 = (Ok (), w2) ∧
    write_frame (Open_ (from_socket_addr peer)) w2 = (Ok (), w3) ∧
    te_relay env = Ok st ∧ bytes = saturating_add (bytes_a_to_b st) (bytes_b_to_a st).
Proof.
  assert (∀ o, RecordRelayed bytes took ∈ [o] → o = RecordRelayed bytes took) as Hone
    by (intros o Hin; by apply list_elem_of_singleton in Hin).
  unfold handle_connection. destruct (select _ _ _ _ _) as [backend|] eqn:Hs; [|by intros ?%Hone].
  destruct (check _ _ _) as [cb [st guard]] eqn:Hck. destruct (decide (st = Open)) as [|Hst]; [by intros ?%Hone|].
  destruct (open_backend_stream _ _ _ _ _) as [[w|e] s1] eqn:Ho; [|by intros ?%Hone].
  destruct (relay_bidirectional_result (te_relay env)) as [[b d]|e] eqn:Hr; cbn [fst];
    intros [?|[?|Hin%Hone]%elem_of_cons]%elem_of_cons; try done. injection Hin as -> ->.
  apply result_bind_ok in Hr as (stats & Hrel & [= <- <-]).
  unfold open_backend_stream in Ho. destruct (acquire_raw_stream _ _ _ _ _) as [[c|e] p]; [|done].
  injection Ho as Ha <-. apply announce_sends in Ha as (w1 & w2 & Hw1 & Hw2 & Hw3).
  exists backend, w1, w2, w, stats. rewrite Hck. by split_and!.
Qed.
End tcp.

(** ** Examples *)

Definition demo_peer : SocketAddr := {| sa_ip := V4 7; sa_port := 4000 |}.

Definition demo_shared : Shared :=
  {| sh_conn_pool := ConnPool_new;
     sh_circuit := CircuitBreakers_new {| cfg_failure_threshold := 2; cfg_recovery_timeout_secs := 60;
                                          cfg_half_open_max_requests := 1 |} |}.

Definition demo_tcp_env : TcpEnv :=
  {| te_now := 0; te_done := 1; te_health := HealthState_new; te_net := demo_net; te_net_back := demo_net;
     te_pool_await := λ p, p; te_stream := fresh_writer;
     te_relay := Ok {| bytes_a_to_b := 2; bytes_b_to_a := 1; duration := 9; relay_end := Completed |};
     te_dial_await := λ s, s; te_relay_await := λ s, s |}.

Definition demo_tcp : list Count * Shared := handle_connection demo_ln demo_tcp_env demo_peer demo_pool "in" demo_shared.

Lemma demo_tcp_relayed : demo_tcp.1 = [ActiveAdd 1; ActiveAdd (-1); RecordRelayed 3 9].
Proof. vm_compute. reflexivity. Qed.

Lemma relayed_behind_announcement_witness :
  ∃ backend w1 w2 w3 st, select demo_ln 0 demo_pool (V4 7) HealthState_new = Some backend ∧
    (check (sh_circuit demo_shared) 0 (Balancer.id backend)).2.1 ≠ Open ∧
    write_preamble fresh_writer = (Ok (), w1) ∧ write_frame (Hello "in" TCP_WORKER_ID) w1 = (Ok (), w2) ∧
    write_frame (Open_ (from_socket_addr demo_peer)) w2 = (Ok (), w3) ∧
    te_relay demo_tcp_env = Ok st ∧ 3 = saturating_add (bytes_a_to_b st) (bytes_b_to_a st).
Proof.
  apply (relayed_behind_announcement demo_ln demo_tcp_env demo_peer demo_pool "in" demo_shared 3 9).
  change (RecordRelayed 3 9 ∈ demo_tcp.1). rewrite demo_tcp_relayed. do 2 apply list_elem_of_further. apply list_elem_of_here.
Defined.

Definition demo_listener : TcpIngress :=
  {| ti_counters := TcpIngressCounters_new; ti_limiter := limiter_per_second 100; ti_permits := sem_new 1;
     ti_running := 0; ti_shared := demo_shared |}.

(** A second connection while the first runs is dropped for capacity. *)
Lemma tcp_ingress_accounting_witness :
  cong64 2 (0 + total_dropped (ti_counters (accept_one 1 (AccessControl_new [] []) demo_peer
              (accept_one 0 (AccessControl_new [] []) demo_peer demo_listener))) + 1).
Proof.
  apply (tcp_ingress_accounting demo_ln (AccessControl_new [] []) demo_pool "in" 1
    (accept_one 1 (AccessControl_new [] []) demo_peer (accept_one 0 (AccessControl_new [] []) demo_peer demo_listener)));
    [done|].
  eapply tcp_next; [|apply ts_accept]. eapply tcp_next; [|apply ts_accept]. apply tcp_start.
Defined.
