(* ===== verification/Lifecycle.v ===== *)
(** * Lifecycle: [src/redirect.rs], [src/health_endpoint.rs], [src/fs_watch.rs],
    [src/transport/tcp.rs] and [src/startup/serve.rs]

    The edges of the process: the cleartext redirect, the readiness probes, the debounced file
    watcher behind every hot reload, the accept loop with the routing of handshakes, and the
    bounded shutdown. *)

From S2P Require Import Prelude Text Error Net Http Body Config.
Local Open Scope Z_scope.

(** ** The redirect *)

Section redirect.
  Context `{Http}.

Definition REDIRECT_STATUS : Z := 308.
Definition DEFAULT_PATH : string := "/".

Definition redirect_location (host path_and_query : string) : string := "https://" +:+ host +:+ path_and_query.

Definition build_redirect (host path_and_query : string) : Response string :=
  match value_from_str (redirect_location host path_and_query) with
  | Some value => Build_Response REDIRECT_STATUS (hm_insert "location" value hm_new) ""
  | None => Build_Response 400 hm_new ""
  end.

Definition redirect_handler {B} (target_host : string) (req : Request B) : Response string :=
  build_redirect target_host (default DEFAULT_PATH (uri_path_and_query (req_uri req))).

(** The redirect goes where the configuration says: whatever the method, the headers and the
    body of a request, the answer is a 308 whose one [location] is the configured host over
    HTTPS with the path and query of the request, or a 400 without a location. *)
Theorem redirect_configured_host `{!HttpLaws} {B} (host : string) (req : Request B) :
  let response := redirect_handler host req in
  let target := "https://" +:+ host +:+ default "/" (uri_path_and_query (req_uri req)) in
  (res_status response = 308 ∧ get_all (res_headers response) "location" = [target]) ∨
  (res_status response = 400 ∧ get_all (res_headers response) "location" = [] ∧
     forall_chars is_visible target = false).
Proof.
  cbv zeta. unfold redirect_handler, build_redirect, redirect_location. destruct (value_from_str _) as [v|] eqn:Hv.
  - left. apply value_from_str_exact in Hv as ->. split; [done|]. cbn. by rewrite get_all_insert.
  - right. split_and!; [done|apply get_all_new|]. destruct (forall_chars _ _) eqn:Hf; [|done].
    by rewrite (value_from_str_visible _ Hf) in Hv.
Qed.
End redirect.

(** ** Readiness *)

Definition STATE_STARTING : Z := 0.
Definition STATE_READY : Z := 1.
Definition STATE_DRAINING : Z := 2.

Definition is_ready (state : Z) : bool := state =? STATE_READY.

Definition label (state : Z) : string :=
  if state =? STATE_READY then "ready" else if state =? STATE_DRAINING then "draining" else "starting".

Definition livez : Z * string := (200, "alive").

Definition readyz (state : Z) : Z * string :=
  if is_ready state then (200, "ready")
  else if decide (label state = "draining") then (503, "draining")
  else (503, "starting").

(** The endpoint: the shared flag, the token, and whether its listener still accepts. *)
Record Endpoint := {
  ep_state : Z;
  ep_shutdown : bool;
  ep_accepting : bool;
}.

Definition Endpoint_new : Endpoint := {| ep_state := STATE_STARTING; ep_shutdown := false; ep_accepting := true |}.

(** A probe on a new connection. *)
Definition probe (e : Endpoint) : option (Z * string) := if ep_accepting e then Some (readyz (ep_state e)) else None.

(** Startup announces readiness before the signal can fire; the signal cancels the token; the
    task of the endpoint marks it draining; its serve loop stops accepting. *)
Inductive ep_step : Endpoint → Endpoint → Prop :=
  | ep_ready e : ep_shutdown e = false →
      ep_step e {| ep_state := STATE_READY; ep_shutdown := false; ep_accepting := ep_accepting e |}
  | ep_signal e : ep_step e {| ep_state := ep_state e; ep_shutdown := true; ep_accepting := ep_accepting e |}
  | ep_drain e : ep_shutdown e = true →
      ep_step e {| ep_state := STATE_DRAINING; ep_shutdown := true; ep_accepting := ep_accepting e |}
  | ep_stop e : ep_shutdown e = true →
      ep_step e {| ep_state := ep_state e; ep_shutdown := true; ep_accepting := false |}.

Inductive ep_reachable : Endpoint → Prop :=
  | ep_start : ep_reachable Endpoint_new
  | ep_next e e' : ep_reachable e → ep_step e e' → ep_reachable e'.

(** The account of readiness: ready exactly between the announcement and the drain. *)
Definition ep_ok (e : Endpoint) : Prop :=
  (ep_state e = STATE_DRAINING → ep_shutdown e = true) ∧ (ep_accepting e = false → ep_shutdown e = true) ∧
  (ep_state e = STATE_STARTING ∨ ep_state e = STATE_READY ∨ ep_state e = STATE_DRAINING).

Lemma ep_reachable_ok e : ep_reachable e → ep_ok e.
Proof.
  induction 1 as [|e e' _ (H1 & H2 & H3) Hstep]; [split_and!; [done..|by left]|].
  destruct Hstep as [e Hs|e|e Hs|e Hs]; unfold ep_ok; cbn; split_and!; auto; intros Ha; try done.
  by rewrite H2 in Hs.
Qed.

(** A probe that is answered tells the truth: 200 only before the shutdown has drained the
    endpoint, 503 with "draining" only once the shutdown began; and when the listener of the
    endpoint has stopped, which the same token makes it do, no new connection is answered
    at all, so the "draining" answer is not there to be seen for the rest of the drain. *)
Theorem probes_truthful e e' :
  ep_reachable e → ep_step e e' →
  (probe e = Some (200, "ready") → ep_state e = STATE_READY) ∧
  (probe e = Some (503, "draining") → ep_shutdown e = true) ∧
  (ep_state e = STATE_DRAINING → ep_state e' = STATE_DRAINING) ∧
  (probe e = None → probe e' = None ∧ ep_shutdown e = true).
Proof.
  intros (H1 & H2 & H3)%ep_reachable_ok Hstep. unfold probe, readyz, label, is_ready. split_and!.
  - destruct (ep_accepting e); [|done]. destruct (_ =? STATE_READY) eqn:E; [by bool_hyps|].
    by destruct (decide _).
  - destruct (ep_accepting e); [|done]. destruct H3 as [Heq|[Heq|Heq]]; rewrite Heq; cbn; try done. intros _. by apply H1.
  - intros Hd. specialize (H1 Hd). destruct Hstep; cbn; congruence.
  - destruct (ep_accepting e) eqn:Ha; [done|]. intros _. split; [|auto]. destruct Hstep; cbn; try done; by rewrite Ha.
Qed.

(** ** The file watcher *)

Inductive WatchSetupFailure := Fatal | Warn.

Inductive EventKind := Modify | Create | OtherKind.

Record FsEvent := {
  fe_kind : EventKind;
  fe_paths : list string;
}.

(** A call of the callback: the generation and the event of its worker, and the generation when
    it began. *)
Record Call := {
  ca_generation : Z;
  ca_event : FsEvent;
  ca_began_at : Z;
}.

(** The watcher's state: the generation, the workers asleep and the workers that found
    themselves the newest, each with the generation and the event it was spawned for, and the
    calls so far, the latest first. *)
Record Debouncer := {
  db_generation : Z;
  db_asleep : list (Z * FsEvent);
  db_chosen : list (Z * FsEvent);
  db_calls : list Call;
}.

Definition Debouncer_new : Debouncer := {| db_generation := 0; db_asleep := []; db_chosen := []; db_calls := [] |}.

(** The events the callback schedules a worker for. *)
Definition triggers (trigger_set : list string) (ev : FsEvent) : bool :=
  match fe_kind ev with
  | OtherKind => false
  | _ => existsb (λ p, bool_decide (p ∈ trigger_set)) (fe_paths ev)
  end.

Definition on_fs_event (trigger_set : list string) (result : result string FsEvent) (d : Debouncer) : Debouncer :=
  match result with
  | Err _ => d
  | Ok ev =>
      if triggers trigger_set ev then
        let my_generation := wrap64 (db_generation d + 1) in
        {| db_generation := my_generation; db_asleep := db_asleep d ++ [(my_generation, ev)];
           db_chosen := db_chosen d; db_calls := db_calls d |}
      else d
  end.

(** The worker at position [i] after its sleep: it goes on when its event is still the newest. *)
Definition worker_wakes (i : nat) (d : Debouncer) : Debouncer :=
  match db_asleep d !! i with
  | None => d
  | Some (my_generation, ev) =>
      {| db_generation := db_generation d; db_asleep := delete i (db_asleep d);
         db_chosen := if db_generation d =? my_generation then db_chosen d ++ [(my_generation, ev)] else db_chosen d;
         db_calls := db_calls d |}
  end.

(** A worker that goes on calls the callback; other events may have come since it looked. *)
Definition callback_begins (i : nat) (d : Debouncer) : Debouncer :=
  match db_chosen d !! i with
  | None => d
  | Some (my_generation, ev) =>
      {| db_generation := db_generation d; db_asleep := db_asleep d; db_chosen := delete i (db_chosen d);
         db_calls := {| ca_generation := my_generation; ca_event := ev; ca_began_at := db_generation d |} :: db_calls d |}
  end.

(** Events, wake-ups and calls, in any order. *)
Inductive FsStep :=
  | Notified (result : result string FsEvent)
  | Woken (i : nat)
  | Called (i : nat).

Definition fs_step (trigger_set : list string) (d : Debouncer) (s : FsStep) : Debouncer :=
  match s with
  | Notified r => on_fs_event trigger_set r d
  | Woken i => worker_wakes i d
  | Called i => callback_begins i d
  end.

(** The events that trigger, in order. *)
Definition triggering (trigger_set : list string) (steps : list FsStep) : list FsEvent :=
  omap (λ s, match s with Notified (Ok ev) => if triggers trigger_set ev then Some ev else None | _ => None end) steps.

(** The workers of a debouncer that were not superseded, by generation and event. *)
Definition workers (d : Debouncer) : list (Z * FsEvent) :=
  db_asleep d ++ db_chosen d ++ ((λ c, (ca_generation c, ca_event c)) <$> db_calls d).

(** After the events [acc]: each worker carries the generation of its event, no event has two,
    and the worker of the last event is on its way, or has called; the last call to begin then
    began after it. *)
Definition debounced (acc : list FsEvent) (d : Debouncer) : Prop :=
  db_generation d = zlen acc ∧
  (∀ g ev, (g, ev) ∈ workers d → 1 ≤ g ∧ acc !! Z.to_nat (g - 1) = Some ev) ∧
  NoDup (workers d).*1 ∧
  (acc = [] ∨ zlen acc ∈ (db_asleep d ++ db_chosen d).*1 ∨
   zlen acc ∈ (ca_generation <$> db_calls d) ∧ Forall (λ c, ca_began_at c = zlen acc) (take 1 (db_calls d))).

Lemma debounced_workers acc d d' :
  debounced acc d → db_generation d' = db_generation d → (∃ l, workers d ≡ₚ l ++ workers d') →
  (acc = [] ∨ zlen acc ∈ (db_asleep d' ++ db_chosen d').*1 ∨
   zlen acc ∈ (ca_generation <$> db_calls d') ∧ Forall (λ c, ca_began_at c = zlen acc) (take 1 (db_calls d'))) →
  debounced acc d'.
Proof.
  intros (Hg & Hs & Hn & _) Hg' [l Hl] Hlast. split_and!; [by rewrite Hg'| | |done].
  - intros g ev Hin. apply Hs. rewrite Hl. set_solver.
  - rewrite Hl, fmap_app in Hn. by apply NoDup_app in Hn as (_ & _ & ?).
Qed.

Lemma worker_debounced acc i d : debounced acc d → debounced acc (worker_wakes i d).
Proof.
  intros Hd. pose proof Hd as (Hg & Hs & _ & Hl). unfold worker_wakes.
  destruct (db_asleep d !! i) as [[g ev]|] eqn:Hi; [|done]. pose proof (delete_Permutation _ _ _ Hi) as Hp.
  generalize dependent (delete i (db_asleep d)). intros rest Hp. rewrite Hg. destruct (Z.eqb_spec (zlen acc) g) as [<-|Hne]; (eapply debounced_workers; [done|done| |]).
  - exists []. unfold workers. cbn. rewrite Hp, <-(app_assoc (db_chosen d)). cbn. by rewrite <-!Permutation_middle.
  - destruct Hl as [?|[Hl|?]]; [by left| |by right; right]. right; left. cbn in *.
    rewrite app_assoc, fmap_app, elem_of_app. right. cbn. set_solver.
  - exists [(g, ev)]. unfold workers. cbn. by rewrite Hp.
  - destruct Hl as [?|[Hl|?]]; [by left| |by right; right]. right; left. cbn in *.
    rewrite Hp in Hl. cbn in Hl. apply elem_of_cons in Hl as [?|?]; [congruence|done].
Qed.

Lemma call_debounced acc i d : debounced acc d → debounced acc (callback_begins i d).
Proof.
  intros Hd. pose proof Hd as (Hg & Hs & _ & Hl). unfold callback_begins.
  destruct (db_chosen d !! i) as [[g ev]|] eqn:Hi; [|done]. pose proof (delete_Permutation _ _ _ Hi) as Hp.
  generalize dependent (delete i (db_chosen d)). intros rest Hp. eapply debounced_workers; [done|done| |].
  - exists []. unfold workers. cbn. rewrite Hp. cbn. apply Permutation_app_head, Permutation_middle.
  - destruct Hl as [?|[Hl|[Hl _]]]; [by left| |].
    + cbn in *. rewrite Hp in Hl. rewrite <-Permutation_middle in Hl. cbn in Hl.
      apply elem_of_cons in Hl as [<-|Hl]; [|by right; left]. right; right. split; [left|]. rewrite take_0. by apply Forall_singleton.
    + right; right. cbn. split; [by right|]. rewrite take_0. by apply Forall_singleton.
Qed.

Lemma event_debounced trigger_set acc ev d :
  zlen acc < U64_MAX → triggers trigger_set ev = true → debounced acc d →
  debounced (acc ++ [ev]) (on_fs_event trigger_set (Ok ev) d).
Proof.
  intros Hlt Ht (Hg & Hs & Hn & Hl). unfold on_fs_event. rewrite Ht, Hg.
  assert (wrap64 (zlen acc + 1) = zlen acc + 1) as Hw.
  { unfold wrap64. apply Z.mod_small. unfold zlen, U64_MAX in *. lia. }
  rewrite Hw. set (d' := Build_Debouncer _ _ _ _).
  assert (workers d' ≡ₚ (zlen acc + 1, ev) :: workers d) as Hp.
  { unfold workers, d'. cbn. rewrite <-app_assoc. symmetry. apply Permutation_middle. }
  assert (∀ g ev', (g, ev') ∈ workers d → g ≤ zlen acc) as Hle.
  { intros g ev' [? Hlk%lookup_lt_Some]%Hs. unfold zlen. lia. }
  split_and!.
  - by rewrite zlen_app.
  - intros g ev' Hin. rewrite Hp in Hin. apply elem_of_cons in Hin as [[= -> ->]|Hin].
    + split; [unfold zlen; lia|]. replace (Z.to_nat _) with (length acc) by (unfold zlen; lia). by rewrite list_lookup_middle.
    + destruct (Hs _ _ Hin) as [? Hlk]. split; [done|]. by apply lookup_app_l_Some.
  - rewrite Hp. cbn. constructor; [|done]. intros ([g ev'] & Hg' & Hin)%list_elem_of_fmap. cbn in Hg'.
    apply Hle in Hin. lia.
  - right; left. unfold d'. cbn. rewrite zlen_app, !fmap_app. set_solver.
Qed.

Lemma steps_debounced trigger_set steps acc d :
  zlen (acc ++ triggering trigger_set steps) ≤ U64_MAX → debounced acc d →
  debounced (acc ++ triggering trigger_set steps) (foldl (fs_step trigger_set) d steps).
Proof.
  induction steps as [|s steps IH] in acc, d |- *; cbn [foldl]; intros Hlt Hd.
  { by rewrite app_nil_r. }
  destruct s as [[ev|e]|i|i]; cbn [fs_step].
  - unfold triggering in *. cbn [omap list_omap] in *. destruct (triggers trigger_set ev) eqn:Ht.
    + change (ev :: ?l) with ([ev] ++ l) in *. rewrite app_assoc in *. apply IH; [done|].
      apply event_debounced; [|done|done]. rewrite !zlen_app in Hlt. unfold zlen in *. cbn in Hlt. lia.
    + apply IH; [done|]. unfold on_fs_event. by rewrite Ht.
  - by apply IH.
  - apply IH; [done|]. by apply worker_debounced.
  - apply IH; [done|]. by apply call_debounced.
Qed.

(** C37. A save is never lost: whatever order notifications, wake-ups and calls come in, once no
    worker is asleep or about to call, the callback has been called with the last event that
    touched a watched file, after that event; the last call to begin, whichever event it has,
    also began after it; no event is called for twice, and an event that touches no watched
    file, or a watcher error, not at all.  A call is given one event, not those it superseded,
    and may have been overtaken since its worker looked. *)
Theorem last_save_reloaded trigger_set steps :
  let events := triggering trigger_set steps in
  let d := foldl (fs_step trigger_set) Debouncer_new steps in
  zlen events ≤ U64_MAX → db_asleep d = [] → db_chosen d = [] →
  (∀ ev, last events = Some ev → ∃ c, c ∈ db_calls d ∧ ca_generation c = zlen events ∧ ca_event c = ev) ∧
  (∀ c, head (db_calls d) = Some c → ca_began_at c = zlen events) ∧
  (∀ c, c ∈ db_calls d → 1 ≤ ca_generation c ∧ events !! Z.to_nat (ca_generation c - 1) = Some (ca_event c)) ∧
  NoDup (ca_generation <$> db_calls d).
Proof.
  intros events d Hlt Ha Hc. destruct (steps_debounced trigger_set steps [] Debouncer_new) as (Hg & Hs & Hn & Hl); [done| |].
  { split_and!; [done|by intros g ev ?%elem_of_nil|constructor|by left]. }
  change ([] ++ triggering trigger_set steps) with events in *. fold d in Hg, Hs, Hn, Hl.
  unfold workers in Hs, Hn. rewrite Ha, Hc in Hs, Hn, Hl. cbn [app] in Hs, Hn, Hl.
  assert (∀ c, c ∈ db_calls d → 1 ≤ ca_generation c ∧ events !! Z.to_nat (ca_generation c - 1) = Some (ca_event c)) as Hcalls.
  { intros c Hin. apply Hs, list_elem_of_fmap. by exists c. }
  assert (NoDup (ca_generation <$> db_calls d)) as Hnodup by (by rewrite <-list_fmap_compose in Hn).
  destruct Hl as [He|[Hl|[Hl Hh]]]; [|by apply elem_of_nil in Hl|]; split_and!; try done.
  - intros ev. by rewrite He.
  - intros c Hhd. destruct (Hcalls c) as [_ Hlk]; [destruct (db_calls d); [done|]; injection Hhd as ->; left|].
    by rewrite He in Hlk.
  - intros ev Hev. apply list_elem_of_fmap in Hl as (c & Hgen & Hin). exists c. split_and!; [done|done|].
    destruct (Hcalls c Hin) as [_ Hlk]. rewrite <-Hgen in Hlk. rewrite last_lookup in Hev.
    replace (Z.to_nat (zlen events - 1)) with (pred (length events)) in Hlk by (unfold zlen; lia). congruence.
  - intros c Hhd. destruct (db_calls d); [done|]. injection Hhd as ->. by inversion Hh.
Qed.

(** The directories watched at setup: the parents of the triggers, each once. *)
Fixpoint setup_watches (context : string) (parent : string → option string) (watch : string → result string unit)
    (on_failure : WatchSetupFailure) (paths watched : list string) : Result (list string) :=
  match paths with
  | [] => Ok watched
  | path :: paths =>
      match parent path with
      | None =>
          match on_failure with
          | Fatal => Err (Error.Config (context +:+ ": cannot watch " +:+ path +:+ " without a parent directory"))
          | Warn => setup_watches context parent watch on_failure paths watched
          end
      | Some dir =>
          if decide (dir ∈ watched) then setup_watches context parent watch on_failure paths watched
          else
            match watch dir with
            | Ok _ => setup_watches context parent watch on_failure paths (watched ++ [dir])
            | Err e =>
                match on_failure with
                | Fatal => Err (Error.Config (context +:+ ": failed to watch " +:+ dir +:+ ": " +:+ e))
                | Warn => setup_watches context parent watch on_failure paths watched
                end
            end
      end
  end.

(** The watch of the configuration covers every trigger, or startup fails. *)
Lemma fatal_watches_all context parent watch paths watched dirs :
  setup_watches context parent watch Fatal paths watched = Ok dirs →
  watched ⊆ dirs ∧ ∀ p, p ∈ paths → ∃ dir, parent p = Some dir ∧ dir ∈ dirs.
Proof.
  induction paths as [|p paths IH] in watched |- *; cbn [setup_watches].
  { intros [= <-]. split; [done|]. by intros p ?%elem_of_nil. }
  destruct (parent p) as [dir|] eqn:Hp; [|done].
  assert (∀ w, watched ⊆ w → dir ∈ w → setup_watches context parent watch Fatal paths w = Ok dirs →
            watched ⊆ dirs ∧ ∀ q, q ∈ p :: paths → ∃ dir, parent q = Some dir ∧ dir ∈ dirs) as Hrest.
  { intros w Hsub Hin (Hw & Hall)%IH. split; [set_solver|]. intros q [->|Hq]%elem_of_cons; [|by apply Hall].
    exists dir. split; [done|set_solver]. }
  destruct (decide (dir ∈ watched)); [by apply Hrest|]. destruct (watch dir); [|done]. apply Hrest; set_solver.
Qed.

(** What the system answers when the notifications of a watcher are set up. *)
Record WatchEnv := {
  we_init : result string unit;
  we_parent : string → option string;
  we_watch : string → result string unit;
}.

(** A watcher that is kept: its name, the files it reloads for, and the directories watched. *)
Record Watcher := {
  wa_context : string;
  wa_triggers : list string;
  wa_dirs : list string;
}.

(** The set-up; what a watcher does once it runs is the [Debouncer]. *)
Definition spawn_trailing_edge_watcher (env : WatchEnv) (trigger_paths : list string) (context : string)
    (on_setup_failure : WatchSetupFailure) : Result Watcher :=
  match we_init env with
  | Err e => Err (Error.Config (context +:+ " watcher init: " +:+ e))
  | Ok _ =>
      dirs ← setup_watches context (we_parent env) (we_watch env) on_setup_failure trigger_paths [];
      Ok {| wa_context := context; wa_triggers := trigger_paths; wa_dirs := dirs |}
  end.

Lemma warn_watches_ok context parent watch paths watched :
  is_ok (setup_watches context parent watch Warn paths watched) = true.
Proof.
  induction paths as [|p paths IH] in watched |- *; cbn [setup_watches]; [done|].
  destruct (parent p); [|done]. destruct (decide _); [done|]. by destruct (watch s).
Qed.

(** A best-effort watcher fails only when the notifications cannot be had at all. *)
Lemma warn_watcher_err env paths context e :
  spawn_trailing_edge_watcher env paths context Warn = Err e →
  ∃ m, we_init env = Err m ∧ e = Error.Config (context +:+ " watcher init: " +:+ m).
Proof.
  unfold spawn_trailing_edge_watcher. destruct (we_init env) as [|m]; [|intros [= <-]; by exists m].
  pose proof (warn_watches_ok context (we_parent env) (we_watch env) paths []).
  by destruct (setup_watches _ _ _ _ _ _).
Qed.

Lemma watcher_ok env paths context policy w :
  spawn_trailing_edge_watcher env paths context policy = Ok w → wa_context w = context ∧ wa_triggers w = paths.
Proof.
  unfold spawn_trailing_edge_watcher. destruct (we_init env); [|done].
  by intros (dirs & _ & <-%(inj Ok))%result_bind_ok.
Qed.

(** ** The accept loop *)

Definition INITIAL_BACKOFF_MS : Z := 50.
Definition MAX_BACKOFF_MS : Z := 5000.
Definition BACKOFF_MULTIPLIER : Z := 2.

Definition next_backoff (current : Z) : Z := Z.min (current * BACKOFF_MULTIPLIER) MAX_BACKOFF_MS.

(** The sleeps of the accept loop over what [accept] answers, in order. *)
Fixpoint accept_sleeps (backoff : Z) (accepted : list bool) : list Z :=
  match accepted with
  | [] => []
  | true :: rest => accept_sleeps INITIAL_BACKOFF_MS rest
  | false :: rest => backoff :: accept_sleeps (next_backoff backoff) rest
  end.

(** A failing [accept] never spins and never stalls the loop for more than the ceiling. *)
Lemma accept_sleeps_bounded accepted backoff :
  INITIAL_BACKOFF_MS ≤ backoff ≤ MAX_BACKOFF_MS →
  Forall (λ s, INITIAL_BACKOFF_MS ≤ s ≤ MAX_BACKOFF_MS) (accept_sleeps backoff accepted).
Proof.
  induction accepted as [|[] accepted IH] in backoff |- *; intros Hb; cbn [accept_sleeps]; [done|by apply IH|].
  constructor; [done|]. apply IH. unfold next_backoff, INITIAL_BACKOFF_MS, MAX_BACKOFF_MS, BACKOFF_MULTIPLIER in *. lia.
Qed.

(** What becomes of one handshake: a stream for the HTTP layer, or nothing. *)
Inductive Handshake := Forwarded | Dropped_.

Definition ACME_TLS_ALPN_PROTO : string := "acme-tls/1".

Definition is_acme_probe (challenge_config : bool) (alpn : option (list string)) : bool :=
  challenge_config && existsb (String.eqb ACME_TLS_ALPN_PROTO) (default [] alpn).

(** [hello] is the offered ALPN of a ClientHello that could be read; [mtls] and [challenge] are
    whether the handshake under each configuration completes; [late] is the timeout. *)
Definition run_handshake (late : bool) (hello : option (option (list string))) (challenge_config mtls challenge : bool)
    : Handshake :=
  if late then Dropped_
  else
    match hello with
    | None => Dropped_
    | Some alpn => if is_acme_probe challenge_config alpn then Dropped_ else if mtls then Forwarded else Dropped_
    end.

(** Mutual TLS is not bypassed through the challenge: a stream reaches the HTTP layer only when
    the handshake under the mutual-TLS configuration completed in time, whatever protocols
    the client offers; a client that offers the challenge protocol while a challenge is
    configured never reaches it. *)
Lemma handshake_forwards_mtls late hello challenge_config mtls challenge :
  run_handshake late hello challenge_config mtls challenge = Forwarded →
  late = false ∧ mtls = true ∧ ∃ alpn, hello = Some alpn ∧
    (challenge_config = true → ACME_TLS_ALPN_PROTO ∉ default [] alpn).
Proof.
  unfold run_handshake, is_acme_probe. destruct late; [done|]. destruct hello as [alpn|]; [|done].
  destruct (challenge_config && _) eqn:E; [done|]. destruct mtls; [|done]. intros _. split_and!; [done|done|].
  exists alpn. split; [done|]. intros ->. rewrite andb_true_l in E. intros Hin.
  apply (proj1 (existsb_elem_of_false _ _) E) in Hin. by rewrite String.eqb_refl in Hin.
Qed.

(** ** Shutdown *)

Inductive ShutdownOutcome := Graceful | ForcedTimeout.

(** [serve_bounded]: the server's future resolves at [served], if ever, and the token is
    cancelled at [signal], if ever; the earlier of the two arms wins. *)
Definition serve_bounded (served : option (Z * result string unit)) (signal : option Z) (drain_timeout : Z)
    : option (Z * Result ShutdownOutcome) :=
  let forced := (λ t, t + drain_timeout) <$> signal in
  match served, forced with
  | Some (t, r), Some f =>
      if t <=? f then Some (t, match r with Ok _ => Ok Graceful | Err e => Err (Io e) end)
      else Some (f, Ok ForcedTimeout)
  | Some (t, r), None => Some (t, match r with Ok _ => Ok Graceful | Err e => Err (Io e) end)
  | None, Some f => Some (f, Ok ForcedTimeout)
  | None, None => None
  end.

Definition DRAIN_POLL_INTERVAL : Z := 250 * 1000000.

(** [drain_connections] from [start], over what it finds at each poll: the time and the number
    of active connections; the number of polls it made, [None] when they run out. *)
Fixpoint drain_polls (deadline : Z) (polls : list (Z * Z)) : option nat :=
  match polls with
  | [] => None
  | (now, active) :: polls =>
      if active <=? 0 then Some 1%nat
      else if deadline <=? now then Some 1%nat
      else S <$> drain_polls deadline polls
  end.

(** [run]: a shutdown that was forced does not wait a second time. *)
Definition residual_drain (outcome : ShutdownOutcome) (drain_timeout : Z) : Z :=
  match outcome with ForcedTimeout => 0 | Graceful => drain_timeout end.

(** The polls of a drain: each at least one interval after the one before. *)
Fixpoint spaced (from : Z) (polls : list (Z * Z)) : Prop :=
  match polls with
  | [] => True
  | (now, _) :: polls => from ≤ now ∧ spaced (now + DRAIN_POLL_INTERVAL) polls
  end.

Lemma drain_ends deadline polls from :
  spaced from polls → deadline - from < Z.of_nat (pred (length polls)) * DRAIN_POLL_INTERVAL + 1 → polls ≠ [] →
  is_Some (drain_polls deadline polls).
Proof.
  induction polls as [|[now active] polls IH] in from |- *; [done|]. cbn [spaced drain_polls length pred].
  intros [Hn Hs] Hlt _. destruct (active <=? 0); [done|]. destruct (deadline <=? now) eqn:Hd; [done|]. bool_hyps.
  destruct polls as [|q polls]; [cbn in Hlt; lia|].
  destruct (IH (now + DRAIN_POLL_INTERVAL)) as [n ->]; [done| |done|done].
  cbn [length pred] in *. unfold DRAIN_POLL_INTERVAL in *. lia.
Qed.

(** Shutdown ends: once the signal has fired, the server has returned no later than the drain
    timeout after it, even when a connection hangs; the drain that follows polls at most once
    more than the intervals of its timeout, and a forced shutdown polls only once. *)
Theorem shutdown_bounded served signal drain_timeout t res start polls :
  0 ≤ drain_timeout → serve_bounded served (Some signal) drain_timeout = Some (t, Ok res) →
  spaced start polls →
  residual_drain res drain_timeout ≤ Z.of_nat (pred (length polls)) * DRAIN_POLL_INTERVAL → polls ≠ [] →
  t ≤ signal + drain_timeout ∧ is_Some (drain_polls (start + residual_drain res drain_timeout) polls) ∧
  (res = ForcedTimeout → drain_polls start polls = Some 1%nat).
Proof.
  intros Hpos Hserve Hspaced Hlen Hne. split_and!.
  - unfold serve_bounded in Hserve. cbn in Hserve. destruct served as [[t' r]|].
    + destruct (t' <=? _) eqn:E; bool_hyps; injection Hserve as <- _; lia.
    + injection Hserve as <- _. lia.
  - apply (drain_ends _ _ start Hspaced); [lia|done].
  - intros ->. destruct polls as [|[now active] polls]; [done|]. cbn. destruct Hspaced as [Hn _].
    destruct (active <=? 0); [done|]. by assert ((start <=? now) = true) as -> by (apply Z.leb_le; lia).
Qed.

(** ** Examples *)

Definition demo_redirect_request : Request string :=
  Build_Request "GET" {| uri_path := "/a"; uri_path_and_query := Some "/a?b=1" |} (hm_insert "host" "evil.example" hm_new) "".

Lemma redirect_configured_host_witness :
  let response := redirect_handler "example.com" demo_redirect_request in
  (res_status response = 308 ∧ get_all (res_headers response) "location" = ["https://example.com/a?b=1"]) ∨
  (res_status response = 400 ∧ get_all (res_headers response) "location" = [] ∧
     forall_chars is_visible "https://example.com/a?b=1" = false).
Proof. exact (redirect_configured_host "example.com" demo_redirect_request). Defined.

(** Validation trims the host of the redirect and the redirect does not: a host with a blank in
    front passes, and is sent with the blank. *)
Theorem redirect_host_untrimmed (c : ReductionConfig) :
  hr_enabled (http_redirect c) = true → hr_to_host (http_redirect c) = " example.com" →
  hr_listen (http_redirect c) ≠ li_address (listen c) →
  validate_http_redirect c = Ok () ∧
  get_all (res_headers (redirect_handler (hr_to_host (http_redirect c)) demo_redirect_request)) "location" =
    ["https:// example.com/a?b=1"].
Proof.
  intros He Hh Hl. unfold validate_http_redirect. rewrite He, Hh. split; [|reflexivity].
  by rewrite (bool_decide_false _ Hl).
Qed.

Lemma probes_truthful_witness :
  (probe {| ep_state := STATE_DRAINING; ep_shutdown := true; ep_accepting := false |} = None →
   probe {| ep_state := STATE_DRAINING; ep_shutdown := true; ep_accepting := false |} = None ∧ true = true).
Proof.
  apply (probes_truthful {| ep_state := STATE_DRAINING; ep_shutdown := true; ep_accepting := false |}
    {| ep_state := STATE_DRAINING; ep_shutdown := true; ep_accepting := false |}).
  - eapply ep_next; [|by apply (ep_stop {| ep_state := STATE_DRAINING; ep_shutdown := true; ep_accepting := true |})].
    eapply ep_next; [|by apply (ep_drain {| ep_state := STATE_STARTING; ep_shutdown := true; ep_accepting := true |})].
    eapply ep_next; [|by apply (ep_signal Endpoint_new)]. apply ep_start.
  - by apply (ep_stop {| ep_state := STATE_DRAINING; ep_shutdown := true; ep_accepting := false |}).
Defined.

Definition demo_save (n : nat) : FsEvent := {| fe_kind := Modify; fe_paths := ["c.toml"; pretty n] |}.

(** Two saves; the worker of the first finds itself the newest and is overtaken by the second
    before it calls. *)
Definition demo_saves : list FsStep :=
  [Notified (Ok (demo_save 1)); Woken 0; Notified (Ok (demo_save 2)); Woken 0; Called 1; Called 0].

Lemma last_save_reloaded_witness :
  (∃ c, c ∈ db_calls (foldl (fs_step ["c.toml"]) Debouncer_new demo_saves) ∧ ca_generation c = 2 ∧ ca_event c = demo_save 2) ∧
  ca_event <$> head (db_calls (foldl (fs_step ["c.toml"]) Debouncer_new demo_saves)) = Some (demo_save 1).
Proof.
  split; [|reflexivity]. apply (last_save_reloaded ["c.toml"] demo_saves).
  - vm_compute. discriminate.
  - vm_compute. reflexivity.
  - vm_compute. reflexivity.
  - vm_compute. reflexivity.
Defined.

Lemma shutdown_bounded_witness :
  1030 ≤ 1000 + 30 ∧ is_Some (drain_polls (2000 + 0) [(2000, 3)]) ∧
  (ForcedTimeout = ForcedTimeout → drain_polls 2000 [(2000, 3)] = Some 1%nat).
Proof.
  apply (shutdown_bounded None 1000 30 1030 ForcedTimeout 2000 [(2000, 3)]).
  - lia.
  - reflexivity.
  - cbn. lia.
  - cbn. lia.
  - discriminate.
Defined.
