(* ===== verification/Acme.v ===== *)
(** * Acme: [src/tls/acme.rs], [src/tls/secret_state.rs] and [atomic_write] of [src/fs_util.rs]

    The ACME certificate: the resolver that serves it and the challenge certificates, the
    provisioning run with its custody of the secret state, and the renewal loop with its
    pacing.  The CA, the file system and the store command are parameters (what they answer
    during one run is the [Provision] record), and so are the JSON, PEM and X.509 codecs
    ([AcmeJson] and [Pki]).  Times are seconds. *)

From S2P Require Import Prelude Text Config Error.
Local Open Scope Z_scope.

(** ** Constants *)

Definition ACME_TLS_ALPN_PROTO : string := "acme-tls/1".
Definition ACME_IDENTIFIER_OID : list Z := [1; 3; 6; 1; 5; 5; 7; 1; 31].
Definition ACME_RENEWAL_BUFFER_SECS : Z := 30 * 24 * 60 * 60.
Definition ACME_RETRY_INTERVAL_SECS : Z := 43200.
Definition ACME_FAILURE_BACKOFF_BASE_SECS : Z := 300.
Definition ACME_FAILURE_BACKOFF_MAX_SECS : Z := 21600.
Definition ACME_FAILURE_BACKOFF_MAX_DOUBLINGS : Z := 16.
Definition LETS_ENCRYPT_PRODUCTION_URL : string := "https://acme-v02.api.letsencrypt.org/directory".
Definition LETS_ENCRYPT_STAGING_URL : string := "https://acme-staging-v02.api.letsencrypt.org/directory".

(** ** The secret state *)

Record AcmeSecretState := {
  account_credentials : option string;
  cert_chain_pem : option string;
  key_pem : option string;
}.

Definition AcmeSecretState_default : AcmeSecretState :=
  {| account_credentials := None; cert_chain_pem := None; key_pem := None |}.

(** [serde_json] on the state. *)
Class AcmeJson := {
  to_vec : AcmeSecretState → result string string;
  from_slice : string → result string AcmeSecretState;
}.

Class AcmeJsonLaws `{AcmeJson} := {
  from_to_vec s b : to_vec s = Ok b → from_slice b = Ok s ∧ b ≠ "";
}.

(** [rcgen], [rustls] and [x509_parser]: certificates and keys are their DER bytes. *)
Inductive KeysMatch := Consistent | Unknown | Inconsistent (e : string).

Record CustomExtension := {
  ext_oid : list Z;
  ext_content : list Z;
  ext_critical : bool;
}.

Class Pki := {
  certificate_params : list string → result string unit;
  self_signed : list string → list CustomExtension → string → result string string;
  serialize_request : list string → string → result string string;
  serialize_pem : string → string;
  any_ecdsa_type : string → result string string;
  pem_certs : string → result string (list string);
  pem_key : string → result string string;
  keys_match : list string → string → KeysMatch;
  not_after : string → result string Z;
}.

Record CertifiedKey := {
  ck_cert : list string;
  ck_key : string;
}.

(** [.map_err(|e| ReductionError::Acme(format!("{what}: {e}")))]. *)
Definition acme_err {A} (what : string) (r : result string A) : Result A :=
  match r with Ok a => Ok a | Err e => Err (Acme (what +:+ ": " +:+ e)) end.

Section secret_state.
  Context `{AcmeJson}.

Definition to_json (s : AcmeSecretState) : Result string := acme_err "serialize acme state" (to_vec s).
Definition from_json (bytes : string) : Result AcmeSecretState := acme_err "parse acme state" (from_slice bytes).

Definition acme_state_is_empty (s : AcmeSecretState) : bool :=
  match account_credentials s, cert_chain_pem s, key_pem s with
  | None, None, None => true
  | _, _, _ => false
  end.

(** ** Custody *)

Inductive SecretStore :=
  | File (cache_dir : string)
  | Barrel (env_var : string) (persist_command : list string).

Definition from_acme_config (config : AcmeTlsConfig) : SecretStore :=
  match ac_barrel_state config with
  | Some barrel => Barrel (bs_env_var barrel) (bs_persist_command barrel)
  | None => File (ac_cache_dir config)
  end.

(** What holds the state: the file of the cache directory (absent, unreadable or its bytes),
    the environment the process was started with, and the blobs the store command has been
    given, the latest first. *)
Record Custody := {
  cu_file : option (result string string);
  cu_env : string → option string;
  cu_stored : list string;
}.

Definition load_from_file (cu : Custody) : Result (option AcmeSecretState) :=
  match cu_file cu with
  | None => Ok None
  | Some read => bytes ← acme_err "read acme state" read; s ← from_json bytes; Ok (Some s)
  end.

Definition parse_env_blob (raw : string) : Result (option AcmeSecretState) :=
  s ← from_json raw; Ok (Some s).

Definition load_from_env (env_var : string) (cu : Custody) : Result (option AcmeSecretState) :=
  match cu_env cu env_var with
  | Some value => if decide (value = "") then Ok None else parse_env_blob value
  | None => Ok None
  end.

Definition load (store : SecretStore) (cu : Custody) : Result (option AcmeSecretState) :=
  match store with
  | File _ => load_from_file cu
  | Barrel env_var _ => load_from_env env_var cu
  end.

(** What the file system answers while a file is replaced, and the spawned command up to its exit
    status. *)
Record StoreEnv := {
  so_create_dir : result string unit;
  so_temp : result string unit;
  so_write : result string unit;
  so_flush : result string unit;
  so_rename : result string unit;
  so_command : result string unit;
}.

Definition io {A} (r : result string A) : Result A := match r with Ok a => Ok a | Err e => Err (Io e) end.

(** [crate::fs_util::atomic_write]: everything is written beside the destination, which changes
    in the last step or not at all. *)
Definition atomic_write (en : StoreEnv) (parent : option string) (data : string) (dest : option (result string string))
    : Result unit * option (result string string) :=
  match parent with
  | None => (Err (Error.Config "atomic_write: no parent directory"), dest)
  | Some _ =>
      match (_ ← io (so_temp en); _ ← io (so_write en); _ ← io (so_flush en); io (so_rename en)) with
      | Ok _ => (Ok (), Some (Ok data))
      | Err e => (Err e, dest)
      end
  end.

Definition persist_to_file (cache_dir : string) (en : StoreEnv) (s : AcmeSecretState) (cu : Custody)
    : Result unit * Custody :=
  match (_ ← acme_err "create cache dir" (so_create_dir en); to_json s) with
  | Err e => (Err e, cu)
  | Ok blob =>
      let '(written, file) := atomic_write en (Some cache_dir) blob (cu_file cu) in
      (match written with Ok _ => Ok () | Err e => Err (Acme ("write acme state: " +:+ error_to_string e)) end,
       {| cu_file := file; cu_env := cu_env cu; cu_stored := cu_stored cu |})
  end.

Definition persist_via_command (command : list string) (en : StoreEnv) (s : AcmeSecretState)
    (cu : Custody) : Result unit * Custody :=
  match command with
  | [] => (Err (Acme "barrel persist_command is empty"), cu)
  | program :: _ =>
      match (blob ← to_json s; _ ← acme_err ("barrel store command " +:+ program) (so_command en); Ok blob) with
      | Ok blob => (Ok (), {| cu_file := cu_file cu; cu_env := cu_env cu; cu_stored := blob :: cu_stored cu |})
      | Err e => (Err e, cu)
      end
  end.

Definition persist (store : SecretStore) (en : StoreEnv) (s : AcmeSecretState) (cu : Custody)
    : Result unit * Custody :=
  match store with
  | File cache_dir => persist_to_file cache_dir en s cu
  | Barrel _ command => persist_via_command command en s cu
  end.

(** The next process: the agent injects the last blob it was given. *)
Definition restarted (store : SecretStore) (cu : Custody) : Custody :=
  match store with
  | File _ => cu
  | Barrel env_var _ =>
      {| cu_file := cu_file cu;
         cu_env := λ v, if decide (v = env_var) then match cu_stored cu with b :: _ => Some b | [] => cu_env cu v end
                        else cu_env cu v;
         cu_stored := cu_stored cu |}
  end.

End secret_state.

(** ** The resolver *)

Record AcmeCertResolver := {
  rv_cert : option CertifiedKey;
  rv_challenge_certs : gmap string CertifiedKey;
}.

Definition AcmeCertResolver_new : AcmeCertResolver := {| rv_cert := None; rv_challenge_certs := ∅ |}.

Definition set_cert (key : CertifiedKey) (r : AcmeCertResolver) : AcmeCertResolver :=
  {| rv_cert := Some key; rv_challenge_certs := rv_challenge_certs r |}.
Definition set_challenge_cert (domain : string) (key : CertifiedKey) (r : AcmeCertResolver) : AcmeCertResolver :=
  {| rv_cert := rv_cert r; rv_challenge_certs := <[domain := key]> (rv_challenge_certs r) |}.
Definition clear_challenge_certs (r : AcmeCertResolver) : AcmeCertResolver :=
  {| rv_cert := rv_cert r; rv_challenge_certs := ∅ |}.
Definition has_cert (r : AcmeCertResolver) : bool :=
  match rv_cert r with Some _ => true | None => false end.

Definition resolve (alpn : option (list string)) (sni : option string) (r : AcmeCertResolver)
    : option CertifiedKey :=
  if existsb (String.eqb ACME_TLS_ALPN_PROTO) (default [] alpn)
  then sni ≫= λ s, rv_challenge_certs r !! s
  else rv_cert r.

(** ** One provisioning run *)

Inductive AuthorizationStatus := AuthPending | AuthValid | AuthOther (status : string).
Inductive OrderStatus := OrderReady | OrderOther (status : string).

(** One authorization of the order: its status, whether it offers a TLS-ALPN challenge, its
    DNS name ([None] for another identifier), the digest of its key authorization, the key
    pair generated for it and the answer to [set_ready]. *)
Record Authorization := {
  az_status : AuthorizationStatus;
  az_challenge : bool;
  az_domain : option string;
  az_digest : list Z;
  az_key : result string string;
  az_ready : result string unit;
}.

(** What the CA, the system and the store answer during one run. *)
Record Provision := {
  pv_builder : option string → result string unit;
  pv_parse_credentials : string → result string unit;
  pv_restore : string → result string unit;
  pv_create : string → string → result string string;
  pv_persist_account : StoreEnv;
  pv_order : list string → result string (list (result string Authorization));
  pv_ready : result string OrderStatus;
  pv_key : result string string;
  pv_finalize : string → result string unit;
  pv_chain : result string string;
  pv_persist_cert : StoreEnv;
}.

(** The task's world: the custody, the resolver, the accounts created at the CA (the latest
    first) and the two counters. *)
Record World := {
  wd_custody : Custody;
  wd_resolver : AcmeCertResolver;
  wd_accounts : list string;
  wd_renewals : Z;
  wd_failures : Z;
}.

Definition with_resolver (r : AcmeCertResolver) (w : World) : World :=
  {| wd_custody := wd_custody w; wd_resolver := r; wd_accounts := wd_accounts w;
     wd_renewals := wd_renewals w; wd_failures := wd_failures w |}.
Definition with_custody (cu : Custody) (w : World) : World :=
  {| wd_custody := cu; wd_resolver := wd_resolver w; wd_accounts := wd_accounts w;
     wd_renewals := wd_renewals w; wd_failures := wd_failures w |}.
Definition with_account (credentials : string) (w : World) : World :=
  {| wd_custody := wd_custody w; wd_resolver := wd_resolver w; wd_accounts := credentials :: wd_accounts w;
     wd_renewals := wd_renewals w; wd_failures := wd_failures w |}.
Definition renewed (w : World) : World :=
  {| wd_custody := wd_custody w; wd_resolver := wd_resolver w; wd_accounts := wd_accounts w;
     wd_renewals := wd_renewals w + 1; wd_failures := wd_failures w |}.
Definition renewal_failed (w : World) : World :=
  {| wd_custody := wd_custody w; wd_resolver := wd_resolver w; wd_accounts := wd_accounts w;
     wd_renewals := wd_renewals w; wd_failures := wd_failures w + 1 |}.

Section acme.
  Context `{AcmeJson, Pki} (config : AcmeTlsConfig).

(** The custody the task is built with. *)
Definition store : SecretStore := from_acme_config config.

Definition build_certified_key_from_pem (cert_pem key_pem : string) : Result CertifiedKey :=
  certs ← acme_err "failed to parse cert PEM" (pem_certs cert_pem);
  if decide (certs = []) then Err (Acme "no certificates in PEM")
  else
    key ← acme_err "failed to parse key PEM" (pem_key key_pem);
    signing_key ← acme_err "failed to create signing key" (any_ecdsa_type key);
    match keys_match certs signing_key with
    | Consistent | Unknown => Ok {| ck_cert := certs; ck_key := signing_key |}
    | Inconsistent e => Err (Acme ("cached cert/key mismatch: " +:+ e))
    end.

(** The extension's value: a DER OCTET STRING of the digest. *)
Definition build_tls_alpn_challenge_cert (domain : string) (digest : list Z) (generated : result string string)
    : Result CertifiedKey :=
  key_pair ← acme_err "challenge cert keygen" generated;
  _ ← acme_err "challenge cert params" (certificate_params [domain]);
  if 255 <? Z.of_nat (length digest) then Err (Acme "challenge digest too long for ASN.1 length")
  else
    let asn1_value := 4 :: Z.of_nat (length digest) :: digest in
    let ext := {| ext_oid := ACME_IDENTIFIER_OID; ext_content := asn1_value; ext_critical := true |} in
    cert ← acme_err "challenge cert sign" (self_signed [domain] [ext] key_pair);
    signing_key ← acme_err "challenge cert signing key" (any_ecdsa_type key_pair);
    Ok {| ck_cert := [cert]; ck_key := signing_key |}.

Definition directory_url : string :=
  match ac_directory_url config with
  | Some url => url
  | None => if ac_staging config then LETS_ENCRYPT_STAGING_URL else LETS_ENCRYPT_PRODUCTION_URL
  end.

Definition account_builder (pv : Provision) : Result unit :=
  match ac_directory_ca_cert config with
  | Some path => acme_err "failed to build account client with root" (pv_builder pv (Some path))
  | None => acme_err "failed to build account client" (pv_builder pv None)
  end.

(** The state with the account's credentials. *)
Definition get_or_create_account (pv : Provision) (s : AcmeSecretState) (w : World)
    : Result AcmeSecretState * World :=
  match account_credentials s with
  | Some json =>
      ((_ ← acme_err "failed to parse account credentials" (pv_parse_credentials pv json);
        _ ← account_builder pv;
        _ ← acme_err "failed to restore account" (pv_restore pv json);
        Ok s), w)
  | None =>
      match (_ ← account_builder pv;
             acme_err "failed to create ACME account" (pv_create pv directory_url ("mailto:" +:+ ac_email config))) with
      | Err e => (Err e, w)
      | Ok credentials =>
          let w := with_account credentials w in
          let s := {| account_credentials := Some credentials; cert_chain_pem := cert_chain_pem s;
                      key_pem := key_pem s |} in
          let '(r, cu) := persist store (pv_persist_account pv) s (wd_custody w) in
          ((_ ← r; Ok s), with_custody cu w)
      end
  end.

(** The loop over the authorizations. *)
Fixpoint take_challenges (azs : list (result string Authorization)) (r : AcmeCertResolver)
    : Result unit * AcmeCertResolver :=
  match azs with
  | [] => (Ok (), r)
  | Err e :: _ => (Err (Acme ("failed to get authorization: " +:+ e)), r)
  | Ok az :: azs =>
      match az_status az with
      | AuthValid => take_challenges azs r
      | AuthOther status =>
          (Err (Acme ("unexpected authorization status: " +:+ status)), clear_challenge_certs r)
      | AuthPending =>
          if negb (az_challenge az) then (Err (Acme "no tls-alpn-01 challenge found"), r)
          else
            match az_domain az with
            | None => (Err (Acme "tls-alpn-01 requires a DNS identifier"), clear_challenge_certs r)
            | Some domain =>
                match build_tls_alpn_challenge_cert domain (az_digest az) (az_key az) with
                | Err e => (Err e, r)
                | Ok challenge_cert =>
                    let r := set_challenge_cert domain challenge_cert r in
                    match az_ready az with
                    | Err e => (Err (Acme ("failed to signal challenge ready: " +:+ e)), r)
                    | Ok _ => take_challenges azs r
                    end
                end
            end
      end
  end.

(** The issued chain and its key, up to the persist. *)
Definition obtain_chain (pv : Provision) : Result (string * string) :=
  cert_key ← acme_err "failed to generate cert key" (pv_key pv);
  _ ← acme_err "failed to create CSR params" (certificate_params (ac_domains config));
  csr_der ← acme_err "failed to serialize CSR" (serialize_request (ac_domains config) cert_key);
  _ ← acme_err "failed to finalize order" (pv_finalize pv csr_der);
  chain ← acme_err "failed to download cert" (pv_chain pv);
  Ok (chain, serialize_pem cert_key).

Definition finalize_and_cache (pv : Provision) (s : AcmeSecretState) (w : World) : Result CertifiedKey * World :=
  match obtain_chain pv with
  | Err e => (Err e, w)
  | Ok (chain, key) =>
      let s := {| account_credentials := account_credentials s; cert_chain_pem := Some chain;
                  key_pem := Some key |} in
      let '(r, cu) := persist store (pv_persist_cert pv) s (wd_custody w) in
      ((_ ← r; build_certified_key_from_pem chain key), with_custody cu w)
  end.

(** From the new order to the ready one: the challenges, taken and cleared. *)
Definition validate_order (pv : Provision) (r : AcmeCertResolver) : Result unit * AcmeCertResolver :=
  match acme_err "failed to create order" (pv_order pv (ac_domains config)) with
  | Err e => (Err e, r)
  | Ok azs =>
      match take_challenges azs r with
      | (Err e, r) => (Err e, r)
      | (Ok _, r) =>
          ((status ← acme_err "failed waiting for order ready" (pv_ready pv);
            match status with
            | OrderReady => Ok ()
            | OrderOther status => Err (Acme ("unexpected order status: " +:+ status))
            end), clear_challenge_certs r)
      end
  end.

Definition provision_cert (pv : Provision) (w : World) : Result CertifiedKey * World :=
  match load store (wd_custody w) with
  | Err e => (Err e, w)
  | Ok loaded =>
      match get_or_create_account pv (default AcmeSecretState_default loaded) w with
      | (Err e, w) => (Err e, w)
      | (Ok s, w) =>
          let '(validated, r) := validate_order pv (wd_resolver w) in
          let w := with_resolver r w in
          match validated with
          | Err e => (Err e, w)
          | Ok _ => finalize_and_cache pv s w
          end
      end
  end.

(** ** Pacing *)

Definition failure_backoff (consecutive_failures : Z) : Z :=
  if consecutive_failures =? 0 then 0
  else
    let doublings := Z.min (consecutive_failures - 1) ACME_FAILURE_BACKOFF_MAX_DOUBLINGS in
    Z.min (saturating_mul ACME_FAILURE_BACKOFF_BASE_SECS (Z.shiftl 1 doublings)) ACME_FAILURE_BACKOFF_MAX_SECS.

(** [now] is a non-negative [i64], so the saturating difference only clips below zero. *)
Definition time_until_expiry_from_certified (now : Z) (key : CertifiedKey) : Z :=
  match ck_cert key with
  | [] => 0
  | cert_der :: _ =>
      match not_after cert_der with
      | Ok t => Z.max (t - now) 0
      | Err _ => 0
      end
  end.

Definition time_until_renewal_from_certified (now : Z) (key : CertifiedKey) : Z :=
  saturating_sub (time_until_expiry_from_certified now key) ACME_RENEWAL_BUFFER_SECS.

Definition next_renewal_sleep (now consecutive_failures : Z) (r : AcmeCertResolver) : Z :=
  let renewal_in := match rv_cert r with
                    | Some key => time_until_renewal_from_certified now key
                    | None => ACME_RETRY_INTERVAL_SECS
                    end in
  Z.max renewal_in (failure_backoff consecutive_failures).

(** ** Startup and the loop *)

Definition load_cached_cert (cu : Custody) : option CertifiedKey :=
  match load store cu with
  | Ok (Some s) =>
      match cert_chain_pem s, key_pem s with
      | Some cert_pem, Some key_pem =>
          match build_certified_key_from_pem cert_pem key_pem with Ok key => Some key | Err _ => None end
      | _, _ => None
      end
  | _ => None
  end.

Definition serve_stale_or_fail (now : Z) (cached : option CertifiedKey) (e : ReductionError) (w : World)
    : Result unit * World :=
  match cached with
  | Some key =>
      if 0 <? time_until_expiry_from_certified now key
      then (Ok (), with_resolver (set_cert key (wd_resolver w)) w)
      else (Err e, w)
  | None => (Err e, w)
  end.

(** [now] when the cache is read, [now'] when the provisioning has failed. *)
Definition provision_initial_cert (now now' : Z) (pv : Provision) (w : World) : Result unit * World :=
  let cached := load_cached_cert (wd_custody w) in
  let fresh := match cached with Some key => 0 <? time_until_renewal_from_certified now key | None => false end in
  match cached, fresh with
  | Some key, true => (Ok (), with_resolver (set_cert key (wd_resolver w)) w)
  | _, _ =>
      match provision_cert pv w with
      | (Ok key, w) => (Ok (), with_resolver (set_cert key (wd_resolver w)) (renewed w))
      | (Err e, w) => serve_stale_or_fail now' cached e (renewal_failed w)
      end
  end.

(** One attempt of the loop: the consecutive failures and the world after it. *)
Definition attempt (pv : Provision) (failures : Z) (w : World) : Z * World :=
  match provision_cert pv w with
  | (Ok key, w) => (0, with_resolver (set_cert key (wd_resolver w)) (renewed w))
  | (Err _, w) => (Z.min (failures + 1) U32_MAX, renewal_failed w)
  end.

(** An attempt to provision: its time, the failures the loop had counted, and whether it failed. *)
Record Attempt := {
  at_time : Z;
  at_failures : Z;
  at_failed : bool;
}.

(** The loop over the answers to its attempts, each with the seconds it takes: its attempts and
    the final world.  The answers end where the shutdown interrupts a sleep. *)
Fixpoint run (turns : list (Provision * Z)) (now failures : Z) (w : World) : list Attempt * World :=
  match turns with
  | [] => ([], w)
  | (pv, took) :: turns =>
      let at_ := now + next_renewal_sleep now failures (wd_resolver w) in
      let failed := is_err (provision_cert pv w).1 in
      let '(failures', w) := attempt pv failures w in
      let '(times, w) := run turns (at_ + took) failures' w in
      ({| at_time := at_; at_failures := failures; at_failed := failed |} :: times, w)
  end.

(** The task of a process: startup provisions at [now], unless the cached certificate is fresh,
    and the loop takes over at [now'] with no failure counted. *)
Definition task (now now' : Z) (pv : Provision) (turns : list (Provision * Z)) (w : World) : list Attempt * World :=
  let fresh := match load_cached_cert (wd_custody w) with
               | Some key => 0 <? time_until_renewal_from_certified now key
               | None => false
               end in
  let initial := if fresh then []
                 else [{| at_time := now; at_failures := 0; at_failed := is_err (provision_cert pv w).1 |}] in
  match provision_initial_cert now now' pv w with
  | (Ok _, w) => let '(times, w) := run turns now' 0 w in (initial ++ times, w)
  | (Err _, w) => (initial, w)
  end.

(** ** The resolver's two faces *)

(** A client is served a challenge certificate only by asking for [acme-tls/1] with the name it
    is for, and such a client is never served the certificate of the site; every other client
    gets the site's certificate whatever challenges are pending. *)
Theorem resolver_separates alpn sni r :
  (ACME_TLS_ALPN_PROTO ∈ default [] alpn → ∀ k, resolve alpn sni r = Some k ↔ ∃ s, sni = Some s ∧ rv_challenge_certs r !! s = Some k) ∧
  (ACME_TLS_ALPN_PROTO ∉ default [] alpn → resolve alpn sni r = rv_cert r).
Proof.
  unfold resolve. split.
  - intros Hin k.
    replace (existsb _ _) with true
      by (symmetry; apply existsb_exists; exists ACME_TLS_ALPN_PROTO; split; [by apply list_elem_of_In|apply String.eqb_refl]).
    destruct sni as [s|]; cbn; naive_solver.
  - intros Hni. replace (existsb _ _) with false; [done|].
    symmetry. apply not_true_iff_false. intros (p & Hp & <-%String.eqb_eq)%existsb_exists.
    by apply Hni, list_elem_of_In.
Qed.

(** ** What a run leaves *)

Lemma persist_custody st en s cu r cu' :
  persist st en s cu = (r, cu') →
  cu_env cu' = cu_env cu ∧
  match r with
  | Err _ => cu' = cu
  | Ok _ => ∃ b, to_vec s = Ok b ∧
      match st with File _ => cu_file cu' = Some (Ok b) | Barrel _ _ => head (cu_stored cu') = Some b end
  end.
Proof.
  destruct st as [dir|env cmd]; cbn; unfold persist_to_file, persist_via_command, atomic_write, to_json, acme_err.
  - destruct (so_create_dir en); cbn; [|by intros [= <- <-]].
    destruct (to_vec s) as [b|]; cbn; [|by intros [= <- <-]].
    destruct (_ ≫= _); intros [= <- <-]; [by eauto|by destruct cu].
  - destruct cmd; cbn; [by intros [= <- <-]|].
    destruct (to_vec s) as [b|]; cbn; [destruct (so_command en)|]; cbn; intros [= <- <-]; naive_solver.
Qed.

Lemma take_challenges_cert azs r : rv_cert (take_challenges azs r).2 = rv_cert r.
Proof.
  revert r. induction azs as [|[az|e] azs IH]; intros r; cbn; [done| |done].
  destruct (az_status az); [|by apply IH|done].
  destruct (negb _); [done|]. destruct (az_domain az); [|done].
  destruct (build_tls_alpn_challenge_cert _ _ _); [|done].
  destruct (az_ready az); [by rewrite IH|done].
Qed.

Lemma validate_order_cert pv r : rv_cert (validate_order pv r).2 = rv_cert r.
Proof.
  unfold validate_order. destruct (acme_err _ _) as [azs|]; [|done].
  pose proof (take_challenges_cert azs r) as Hc. destruct (take_challenges azs r) as [[] r']; exact Hc.
Qed.

Lemma get_or_create_account_resolver pv s w : wd_resolver (get_or_create_account pv s w).2 = wd_resolver w.
Proof.
  unfold get_or_create_account. destruct (account_credentials s); [done|].
  destruct (_ ≫= _); [|done]. by destruct (persist _ _ _ _).
Qed.

Lemma finalize_and_cache_resolver pv s w : wd_resolver (finalize_and_cache pv s w).2 = wd_resolver w.
Proof.
  unfold finalize_and_cache. destruct (obtain_chain pv) as [[chain key]|]; [|done]. by destruct (persist _ _ _ _).
Qed.

Lemma provision_cert_cert pv w : rv_cert (wd_resolver (provision_cert pv w).2) = rv_cert (wd_resolver w).
Proof.
  unfold provision_cert. destruct (load _ _) as [loaded|]; [|done].
  pose proof (get_or_create_account_resolver pv (default AcmeSecretState_default loaded) w) as Hr.
  destruct (get_or_create_account _ _ _) as [[s|e] w']; cbn in Hr; [|cbn; by rewrite Hr].
  pose proof (validate_order_cert pv (wd_resolver w')) as Hv.
  destruct (validate_order _ _) as [[] r]; cbn in Hv.
  - rewrite finalize_and_cache_resolver. cbn. by rewrite Hv, Hr.
  - cbn. by rewrite Hv, Hr.
Qed.
(** ** The certificate outlives the process *)

(** What the store hands the next process when [s] was the last state written. *)
Definition holds (s : AcmeSecretState) (cu : Custody) : Prop :=
  load store (restarted store cu) = Ok (Some s).

Lemma persisted_holds `{!AcmeJsonLaws} en s cu u cu' :
  persist store en s cu = (Ok u, cu') → holds s cu'.
Proof.
  intros (_ & b & Hb & Hst)%persist_custody. destruct (from_to_vec s b Hb) as [Hs Hne].
  unfold holds. destruct store as [dir|env cmd]; cbn.
  - unfold load_from_file, from_json. rewrite Hst. cbn. by rewrite Hs.
  - unfold load_from_env, restarted. cbn. rewrite decide_True by done.
    destruct (cu_stored cu') as [|b' bs]; [done|]. injection Hst as ->.
    rewrite decide_False by done. unfold parse_env_blob, from_json. by rewrite Hs.
Qed.

Lemma account_of_run pv s s' w w' :
  get_or_create_account pv s w = (Ok s', w') → is_Some (account_credentials s').
Proof.
  unfold get_or_create_account. destruct (account_credentials s) eqn:Ha.
  - intros [= (_ & _ & (_ & _ & (_ & _ & [= <-])%result_bind_ok)%result_bind_ok)%result_bind_ok _]. by rewrite Ha.
  - destruct (_ ≫= _); [|done]. destruct (persist _ _ _ _) as [[] cu]; [|done].
    by intros [= <- <-].
Qed.

(** C31. A successful run leaves in the custody, as one blob, everything the next process needs: it
    finds the account, so it registers no other one, and it builds the very key the run
    returned. *)
Theorem provision_survives_restart `{!AcmeJsonLaws} pv w key w' :
  provision_cert pv w = (Ok key, w') →
  load_cached_cert (restarted store (wd_custody w')) = Some key ∧
  ∃ s, holds s (wd_custody w') ∧ is_Some (account_credentials s).
Proof.
  unfold provision_cert. destruct (load store _) as [loaded|]; [|done].
  destruct (get_or_create_account _ _ _) as [[s|e] w1] eqn:Ha; [|done]. apply account_of_run in Ha.
  destruct (validate_order _ _) as [[] r]; [|done].
  unfold finalize_and_cache. destruct (obtain_chain pv) as [[chain key_]|]; [|done].
  destruct (persist _ _ _ _) as [[] cu] eqn:Hp; [|done]. intros [= Hk <-].
  apply persisted_holds in Hp. split.
  - unfold load_cached_cert. change (wd_custody (with_custody _ _)) with cu. unfold holds in Hp.
    rewrite Hp. cbn. cbn in Hk. by rewrite Hk.
  - eauto.
Qed.

(** ** Startup *)

(** Startup succeeds exactly when it has something to serve: the cached certificate, if its
    renewal is not due, or the new one, or, after a failed run, the cached one if it has not
    expired; when it fails the resolver serves what it served before. *)
Theorem initial_cert_spec now now' pv w res w' :
  provision_initial_cert now now' pv w = (res, w') →
  let cached := load_cached_cert (wd_custody w) in
  match res with
  | Ok _ => ∃ key, rv_cert (wd_resolver w') = Some key ∧
      ((cached = Some key ∧ 0 < time_until_renewal_from_certified now key ∧ wd_accounts w' = wd_accounts w) ∨
       (provision_cert pv w).1 = Ok key ∨
       ((∃ e, (provision_cert pv w).1 = Err e) ∧ cached = Some key ∧ 0 < time_until_expiry_from_certified now' key))
  | Err e => (provision_cert pv w).1 = Err e ∧ rv_cert (wd_resolver w') = rv_cert (wd_resolver w) ∧
      ∀ key, cached = Some key → time_until_expiry_from_certified now' key = 0
  end.
Proof.
  unfold provision_initial_cert, serve_stale_or_fail. pose proof (provision_cert_cert pv w) as Hc.
  destruct (load_cached_cert _) as [key|] eqn:El;
    [destruct (Z.ltb_spec 0 (time_until_renewal_from_certified now key)) as [Hlt|Hge]|];
    [by intros [= <- <-]; exists key; split; [|left]| |];
    destruct (provision_cert pv w) as [[k|e] w1]; cbn in Hc |- *.
  - intros [= <- <-]. eauto 10.
  - destruct (Z.ltb_spec 0 (time_until_expiry_from_certified now' key)); intros [= <- <-]; cbn; [eauto 10|].
    split_and!; [done..|]. intros ? [= <-]. unfold time_until_expiry_from_certified in *.
    destruct (ck_cert key); [done|]. destruct (not_after _); [lia|done].
  - intros [= <- <-]. eauto 10.
  - intros [= <- <-]. by split_and!.
Qed.

(** ** The loop *)

Lemma attempt_cert pv failures w key :
  rv_cert (wd_resolver w) = Some key → is_Some (rv_cert (wd_resolver (attempt pv failures w).2)).
Proof.
  intros Hk. pose proof (provision_cert_cert pv w) as Hc. unfold attempt.
  destruct (provision_cert pv w) as [[k|e] w1]; cbn in *; [by eexists|]. rewrite Hc, Hk. by eexists.
Qed.

(** Whatever the CA and the store answer, the loop never takes the site's certificate away:
    once a certificate is served, one is served after any number of renewals. *)
Theorem renewal_keeps_serving turns now failures w :
  has_cert (wd_resolver w) = true → has_cert (wd_resolver (run turns now failures w).2) = true.
Proof.
  unfold has_cert. revert now failures w. induction turns as [|[pv took] turns IH]; intros now failures w Hw; [done|].
  destruct (rv_cert (wd_resolver w)) as [key|] eqn:Hk; [|done].
  destruct (attempt_cert pv failures w key Hk) as [key' Hk'].
  cbn. destruct (attempt pv failures w) as [failures' w1].
  specialize (IH (now + next_renewal_sleep now failures (wd_resolver w) + took) failures' w1).
  cbn in Hk'. rewrite Hk' in IH. destruct (run turns _ failures' w1) as [times w2]. by apply IH.
Qed.
(** *** Pacing of the failures *)

Lemma failure_backoff_min n k :
  1 ≤ k ≤ n → k ≤ 4 → ACME_FAILURE_BACKOFF_BASE_SECS * 2 ^ (k - 1) ≤ failure_backoff n ≤ ACME_FAILURE_BACKOFF_MAX_SECS.
Proof.
  intros Hk Hk4. unfold failure_backoff, saturating_mul, ACME_FAILURE_BACKOFF_BASE_SECS, ACME_FAILURE_BACKOFF_MAX_SECS,
    ACME_FAILURE_BACKOFF_MAX_DOUBLINGS, U64_MAX. rewrite (proj2 (Z.eqb_neq n 0)) by lia.
  rewrite Z.shiftl_1_l.
  assert (2 ^ (k - 1) ≤ 2 ^ Z.min (n - 1) 16) by (apply Z.pow_le_mono_r; lia).
  assert (2 ^ (k - 1) ≤ 2 ^ 3) by (apply Z.pow_le_mono_r; lia). lia.
Qed.

Lemma next_renewal_sleep_floor now n r : failure_backoff n ≤ next_renewal_sleep now n r.
Proof. unfold next_renewal_sleep. lia. Qed.

(** Each attempt of the loop follows the one before it by at least the backoff of the failures
    so far. *)
Lemma run_step turns now failures w i a a' :
  Forall (λ turn, 0 ≤ turn.2) turns →
  (run turns now failures w).1 !! i = Some a → (run turns now failures w).1 !! S i = Some a' →
  (at_failed a = true → at_failures a' = Z.min (at_failures a + 1) U32_MAX) ∧
  at_time a + failure_backoff (at_failures a') ≤ at_time a'.
Proof.
  revert now failures w i. induction turns as [|[pv took] turns IH]; intros now failures w i Htook Hi Hi'; [done|].
  inversion Htook as [|?? Ht Hts]; subst. cbn in Ht. cbn in Hi, Hi'.
  assert (is_err (provision_cert pv w).1 = true → (attempt pv failures w).1 = Z.min (failures + 1) U32_MAX) as Hc.
  { unfold attempt. by destruct (provision_cert pv w) as [[] ?]. }
  destruct (attempt pv failures w) as [failures1 w1]. cbn in Hc.
  set (now1 := now + next_renewal_sleep now failures (wd_resolver w) + took) in *.
  specialize (IH now1 failures1 w1).
  destruct (run turns now1 failures1 w1) as [times w2] eqn:Er. cbn in IH, Hi, Hi'. destruct i as [|i].
  - injection Hi as <-. destruct turns as [|[pv1 took1] turns]; cbn in Er; [by injection Er as <- <-|].
    destruct (attempt pv1 failures1 w1), (run turns _ _ _). injection Er as <- <-. injection Hi' as <-. cbn.
    pose proof (next_renewal_sleep_floor now1 failures1 (wd_resolver w1)). split; [done|lia].
  - by apply (IH i).
Qed.

Lemma failure_backoff_nonneg n : 0 ≤ n → 0 ≤ failure_backoff n.
Proof.
  intros Hn. destruct (decide (n = 0)) as [->|]; [done|].
  pose proof (failure_backoff_min n 1). unfold ACME_FAILURE_BACKOFF_BASE_SECS in *. cbn in *. lia.
Qed.

Lemma run_nonneg turns now failures w i a :
  0 ≤ failures → (run turns now failures w).1 !! i = Some a → 0 ≤ at_failures a ∧ (i = 0%nat → now ≤ at_time a).
Proof.
  revert now failures w i. induction turns as [|[pv took] turns IH]; intros now failures w i Hf Hi; [done|]. cbn in Hi.
  assert (0 ≤ (attempt pv failures w).1) as Hc.
  { unfold attempt, U32_MAX. destruct (provision_cert pv w) as [[] ?]; cbn; lia. }
  destruct (attempt pv failures w) as [failures1 w1]. cbn in Hc.
  specialize (IH (now + next_renewal_sleep now failures (wd_resolver w) + took) failures1 w1).
  destruct (run turns _ failures1 w1) as [times w2]. cbn in IH, Hi. destruct i as [|i].
  - injection Hi as <-. cbn. split; [done|]. intros _. unfold next_renewal_sleep.
    pose proof (failure_backoff_nonneg failures Hf). lia.
  - split; [by apply (IH i)|done].
Qed.

Definition paced (n : nat) (l : list Attempt) : Prop :=
  ∀ i a a', l !! i = Some a → l !! (i + n)%nat = Some a' →
    (∀ j b, (i ≤ j < i + n)%nat → l !! j = Some b → at_failed b = true) → 4500 ≤ at_time a' - at_time a.

(** Four failures of the loop in a row and the attempt after them take seventy-five minutes. *)
Lemma loop_paced turns now w : Forall (λ turn, 0 ≤ turn.2) turns → paced 4 (run turns now 0 w).1.
Proof.
  intros Htook i a a' Hi Hi' Hf. set (l := (run turns now 0 w).1) in *.
  assert (∀ j, (j ≤ 4)%nat → is_Some (l !! (i + j)%nat)) as Hin.
  { intros j Hj. apply lookup_lt_is_Some. apply lookup_lt_Some in Hi'. lia. }
  destruct (Hin 1%nat) as [b1 H_1]; [lia|]. destruct (Hin 2%nat) as [b2 H_2]; [lia|]. destruct (Hin 3%nat) as [b3 H_3]; [lia|].
  pose proof (Hf i a ltac:(lia) Hi) as F0. pose proof (Hf (i + 1)%nat b1 ltac:(lia) H_1) as F1.
  pose proof (Hf (i + 2)%nat b2 ltac:(lia) H_2) as F2. pose proof (Hf (i + 3)%nat b3 ltac:(lia) H_3) as F3.
  destruct (run_nonneg _ _ _ _ _ _ (Z.le_refl 0) Hi) as [Ha _].
  rewrite Nat.add_comm in H_1, H_2, H_3, Hi'.
  destruct (run_step _ _ _ _ _ _ _ Htook Hi H_1) as [E1 G1], (run_step _ _ _ _ _ _ _ Htook H_1 H_2) as [E2 G2],
    (run_step _ _ _ _ _ _ _ Htook H_2 H_3) as [E3 G3], (run_step _ _ _ _ _ _ _ Htook H_3 Hi') as [E4 G4].
  specialize (E1 F0). specialize (E2 F1). specialize (E3 F2). specialize (E4 F3).
  pose proof (failure_backoff_min (at_failures b1) 1). pose proof (failure_backoff_min (at_failures b2) 2).
  pose proof (failure_backoff_min (at_failures b3) 3). pose proof (failure_backoff_min (at_failures a') 4).
  unfold ACME_FAILURE_BACKOFF_BASE_SECS, U32_MAX in *. cbn in *. lia.
Qed.

Lemma paced_drop n k l : paced n l → paced n (drop k l).
Proof.
  intros Hl i a a'. rewrite !lookup_drop. intros Hi Hi' Hf. apply (Hl (k + i)%nat); [done|by rewrite <-Nat.add_assoc|].
  intros j b Hj Hb. apply (Hf (j - k)%nat); [lia|]. rewrite lookup_drop. by replace (k + (j - k))%nat with j by lia.
Qed.

(** One more attempt in front, at whatever time before the others. *)
Lemma paced_five l :
  paced 4 (drop 1 l) → (∀ i a a', l !! i = Some a → l !! S i = Some a' → at_time a ≤ at_time a') → paced 5 l.
Proof.
  intros Hl Hmono i a a' Hi Hi' Hf.
  assert (is_Some (l !! S i)) as [b Hb] by (apply lookup_lt_is_Some; apply lookup_lt_Some in Hi'; lia).
  pose proof (Hmono _ _ _ Hi Hb). assert (4500 ≤ at_time a' - at_time b); [|lia].
  apply (Hl i); rewrite ?lookup_drop; [done|by replace (1 + (i + 4))%nat with (i + 5)%nat by lia|].
  intros j c Hj Hc. rewrite lookup_drop in Hc. apply (Hf (1 + j)%nat); [lia|done].
Qed.

Lemma run_mono turns now w i a a' :
  Forall (λ turn, 0 ≤ turn.2) turns →
  (run turns now 0 w).1 !! i = Some a → (run turns now 0 w).1 !! S i = Some a' → at_time a ≤ at_time a'.
Proof.
  intros Htook Hi Hi'. destruct (run_step _ _ _ _ _ _ _ Htook Hi Hi') as [_ Hg].
  destruct (run_nonneg _ _ _ _ _ _ (Z.le_refl 0) Hi') as [Ha _]. pose proof (failure_backoff_nonneg _ Ha). lia.
Qed.

(** C32. Failing attempts to provision are paced: in the life of a process, five failed attempts in a
    row and the one after them take at least seventy-five minutes, so at most five of them,
    the number of failed validations that Let's Encrypt allows, fall in any one hour; leaving
    out the first attempt of the process, four and the one after them take as long, so at most
    four fall in an hour. *)
Theorem renewal_paced now now' pv turns w :
  now ≤ now' → Forall (λ turn, 0 ≤ turn.2) turns →
  paced 5 (task now now' pv turns w).1 ∧ paced 4 (drop 1 (task now now' pv turns w).1).
Proof.
  intros Hnow Htook. unfold task. set (fresh := match load_cached_cert _ with Some _ => _ | None => _ end).
  destruct (provision_initial_cert now now' pv w) as [[u|e] w1].
  - pose proof (loop_paced turns now' w1 Htook) as Hl. pose proof (run_mono turns now' w1) as Hm.
    pose proof (λ i a, run_nonneg turns now' 0 w1 i a (Z.le_refl 0)) as Hn.
    destruct (run turns now' 0 w1) as [times w2]. cbn [fst] in *. destruct fresh; cbn [app].
    + split; [|by apply paced_drop]. apply paced_five; [by apply paced_drop|]. intros i a a'. by apply Hm.
    + split; [|cbn [drop]; by rewrite drop_0]. apply paced_five; [cbn [drop]; by rewrite drop_0|].
      intros [|i] a a' Hi Hi'; cbn in Hi, Hi'; [|by eapply Hm].
      injection Hi as <-. cbn. destruct (Hn _ _ Hi') as [_ Hn']. specialize (Hn' eq_refl). lia.
  - assert (∀ n l, (length l ≤ 1)%nat → paced (S n) l) as Hshort.
    { intros n l Hlen i a a' _ Hi'. apply lookup_lt_Some in Hi'. lia. }
    cbn [fst]. split; apply Hshort; rewrite ?length_drop; destruct fresh; cbn; lia.
Qed.

(** *** The account *)

Lemma finalize_and_cache_accounts pv s w : wd_accounts (finalize_and_cache pv s w).2 = wd_accounts w.
Proof.
  unfold finalize_and_cache. destruct (obtain_chain pv) as [[chain key]|]; [|done]. by destruct (persist _ _ _ _).
Qed.

(** The file in the cache directory holds credentials. *)
Definition has_account (cu : Custody) : Prop :=
  ∃ s, load store cu = Ok (Some s) ∧ is_Some (account_credentials s).

Lemma attempt_account `{!AcmeJsonLaws} pv failures w :
  ac_barrel_state config = None → has_account (wd_custody w) →
  has_account (wd_custody (attempt pv failures w).2) ∧ wd_accounts (attempt pv failures w).2 = wd_accounts w.
Proof.
  intros Hbs (s & Hs & [c Hc]). unfold attempt, provision_cert. rewrite Hs. cbn [default id from_option].
  unfold get_or_create_account. rewrite Hc.
  destruct (_ ≫= _) as [s'|] eqn:Es; [|cbn; split; [by exists s; rewrite Hc|done]].
  apply result_bind_ok in Es as (_ & _ & (_ & _ & (_ & _ & [= <-])%result_bind_ok)%result_bind_ok).
  destruct (validate_order _ _) as [[] r]; [|cbn; split; [by exists s; rewrite Hc|done]].
  pose proof (finalize_and_cache_accounts pv s (with_resolver r w)) as Hacc.
  unfold finalize_and_cache in *. destruct (obtain_chain pv) as [[chain key]|]; [|cbn; split; [by exists s; rewrite Hc|done]].
  destruct (persist _ _ _ _) as [[] cu] eqn:Ep.
  - apply persisted_holds in Ep. unfold holds, restarted in Ep. unfold store, from_acme_config in Ep. rewrite Hbs in Ep.
    cbn. destruct (build_certified_key_from_pem _ _); cbn; (split; [|done]);
      (eexists; split; [unfold store, from_acme_config; rewrite Hbs; exact Ep|by cbn; rewrite Hc]).
  - apply persist_custody in Ep as [_ ->]. cbn. split; [by exists s; rewrite Hc|done].
Qed.

(** With the state in the cache directory, the loop never registers a second account: once the
    file holds one, every renewal uses it and every write keeps it, whether the renewals
    succeed or fail. *)
Theorem file_store_keeps_account `{!AcmeJsonLaws} turns now failures w :
  ac_barrel_state config = None → has_account (wd_custody w) →
  has_account (wd_custody (run turns now failures w).2) ∧ wd_accounts (run turns now failures w).2 = wd_accounts w.
Proof.
  intros Hbs. revert now failures w. induction turns as [|[pv took] turns IH]; intros now failures w Hw; [done|].
  cbn. destruct (attempt_account pv failures w Hbs Hw) as [Hw1 Ha]. destruct (attempt pv failures w) as [failures1 w1].
  specialize (IH (now + next_renewal_sleep now failures (wd_resolver w) + took) failures1 w1 Hw1).
  destruct (run turns _ failures1 w1) as [times w2]. cbn in *. by rewrite <-Ha.
Qed.

(** With Barrel custody it does: the injected variable keeps the value the process was started
    with, so a process started without a state registers an account at every attempt, even
    though each one is handed to the store command. *)
Theorem barrel_registers_every_time pv failures w b c :
  ac_barrel_state config = Some b → cu_env (wd_custody w) (bs_env_var b) = None →
  account_builder pv = Ok () → pv_create pv directory_url ("mailto:" +:+ ac_email config) = Ok c →
  wd_accounts (attempt pv failures w).2 = c :: wd_accounts w ∧
  cu_env (wd_custody (attempt pv failures w).2) (bs_env_var b) = None.
Proof.
  intros Hb He Hbuild Hc. unfold attempt, provision_cert.
  assert (load store (wd_custody w) = Ok None) as ->.
  { unfold store, from_acme_config. rewrite Hb. cbn. unfold load_from_env. by rewrite He. }
  cbn [default id from_option]. unfold get_or_create_account. cbn [AcmeSecretState_default account_credentials].
  rewrite Hbuild, Hc. cbn -[persist].
  destruct (persist store _ _ _) as [r cu] eqn:Ep. apply persist_custody in Ep as [Henv _].
  destruct r; cbn; [|by rewrite Henv]. destruct (validate_order _ _) as [[] r]; cbn; [|by rewrite Henv].
  unfold finalize_and_cache. destruct (obtain_chain pv) as [[chain key]|]; cbn -[persist]; [|by rewrite Henv].
  destruct (persist store _ _ _) as [r2 cu2] eqn:Ep2. apply persist_custody in Ep2 as [Henv2 _].
  destruct (_ ≫= _); cbn; by rewrite Henv2, Henv.
Qed.

(** A certificate that lives no longer than the renewal buffer is due the moment it is issued:
    with no failure to back off from, the loop orders the next one without any pause. *)
Lemma short_lived_cert_spins now r key :
  rv_cert r = Some key → time_until_expiry_from_certified now key ≤ ACME_RENEWAL_BUFFER_SECS →
  next_renewal_sleep now 0 r = 0.
Proof.
  intros Hk Hle. unfold next_renewal_sleep, time_until_renewal_from_certified, saturating_sub. rewrite Hk. cbn. lia.
Qed.
End acme.

(** ** Witnesses *)

(** A codec in binary digits satisfies the laws. *)
Definition ZERO : Ascii.ascii := Ascii.ascii_of_nat 48.
Definition ONE : Ascii.ascii := Ascii.ascii_of_nat 49.

Fixpoint pos_digits (p : positive) : string :=
  match p with
  | xH => "1"
  | xO p => String ZERO (pos_digits p)
  | xI p => String ONE (pos_digits p)
  end.

Fixpoint digits_pos (s : string) : option positive :=
  match s with
  | "" => None
  | "1" => Some xH
  | String c s => (if Ascii.eqb c ONE then xI else xO) <$> digits_pos s
  end.

Lemma digits_pos_digits p : digits_pos (pos_digits p) = Some p.
Proof. induction p as [p IH|p IH|]; [..|done]; cbn; rewrite ?IH; destruct p; done. Qed.

#[local] Instance demo_json : AcmeJson := {|
  to_vec s := Ok (pos_digits (encode (account_credentials s, cert_chain_pem s, key_pem s)));
  from_slice b :=
    match digits_pos b ≫= decode with
    | Some (a, c, k) => Ok {| account_credentials := a; cert_chain_pem := c; key_pem := k |}
    | None => Err "syntax"
    end;
|}.

#[local] Instance demo_json_laws : AcmeJsonLaws.
Proof.
  split. intros [a c k] b. cbn [to_vec demo_json]. intros <-%(inj Ok). split.
  - cbn [from_slice demo_json]. rewrite digits_pos_digits. cbn. by rewrite decode_encode.
  - by destruct (encode _).
Qed.

(** Certificates named by their end of validity. *)
#[local] Instance demo_pki : Pki := {|
  certificate_params _ := Ok ();
  self_signed names _ _ := Ok "self";
  serialize_request _ _ := Ok "csr";
  serialize_pem k := k;
  any_ecdsa_type k := Ok k;
  pem_certs c := Ok [c];
  pem_key k := Ok k;
  keys_match _ _ := Consistent;
  not_after c := if String.eqb c "quarter" then Ok 7776000 else if String.eqb c "week" then Ok 604800 else Err "der";
|}.

Definition demo_acme (barrel : option BarrelStateConfig) : AcmeTlsConfig :=
  {| ac_domains := ["blog.example.com"]; ac_email := "ops@example.com"; ac_ca_cert_path := None;
     ac_cache_dir := "/var/cache"; ac_staging := false; ac_directory_url := None; ac_directory_ca_cert := None;
     ac_barrel_state := barrel |}.

Definition demo_authorization (ready : result string unit) : Authorization :=
  {| az_status := AuthPending; az_challenge := true; az_domain := Some "blog.example.com";
     az_digest := repeat 7 32; az_key := Ok "ck"; az_ready := ready |}.

(** A store that works. *)
Definition demo_store : StoreEnv :=
  {| so_create_dir := Ok (); so_temp := Ok (); so_write := Ok (); so_flush := Ok (); so_rename := Ok ();
     so_command := Ok () |}.

Definition demo_provision (ready : result string unit) (chain : result string string) : Provision :=
  {| pv_builder _ := Ok (); pv_parse_credentials _ := Ok (); pv_restore _ := Ok (); pv_create _ _ := Ok "acct";
     pv_persist_account := demo_store; pv_order _ := Ok [Ok (demo_authorization ready)]; pv_ready := Ok OrderReady;
     pv_key := Ok "key"; pv_finalize _ := Ok (); pv_chain := chain; pv_persist_cert := demo_store |}.

Definition demo_world (file : option (result string string)) : World :=
  {| wd_custody := {| cu_file := file; cu_env _ := None; cu_stored := [] |}; wd_resolver := AcmeCertResolver_new;
     wd_accounts := []; wd_renewals := 0; wd_failures := 0 |}.

Definition demo_cert : CertifiedKey := {| ck_cert := ["quarter"]; ck_key := "key" |}.
Definition demo_served : World := with_resolver (set_cert demo_cert AcmeCertResolver_new) (demo_world None).

Lemma provision_survives_restart_witness :
  let w' := (provision_cert (demo_acme None) (demo_provision (Ok ()) (Ok "quarter")) (demo_world None)).2 in
  load_cached_cert (demo_acme None) (restarted (store (demo_acme None)) (wd_custody w')) = Some demo_cert ∧
  ∃ s, holds (demo_acme None) s (wd_custody w') ∧ is_Some (account_credentials s).
Proof.
  apply (provision_survives_restart (demo_acme None) (demo_provision (Ok ()) (Ok "quarter")) (demo_world None)).
  transitivity ((provision_cert (demo_acme None) (demo_provision (Ok ()) (Ok "quarter")) (demo_world None)).1,
                (provision_cert (demo_acme None) (demo_provision (Ok ()) (Ok "quarter")) (demo_world None)).2).
  - apply surjective_pairing.
  - f_equal.
Defined.

Lemma initial_cert_spec_witness :
  (provision_initial_cert (demo_acme None) 0 9 (demo_provision (Err "rate limited") (Ok "quarter")) (demo_world None)).1 =
    Err (Acme "failed to signal challenge ready: rate limited") ∧
  (provision_cert (demo_acme None) (demo_provision (Err "rate limited") (Ok "quarter")) (demo_world None)).1 =
    Err (Acme "failed to signal challenge ready: rate limited").
Proof.
  split; [vm_compute; reflexivity|].
  refine (proj1 (initial_cert_spec (demo_acme None) 0 9 (demo_provision (Err "rate limited") (Ok "quarter")) (demo_world None)
    (Err (Acme "failed to signal challenge ready: rate limited"))
    (provision_initial_cert (demo_acme None) 0 9 (demo_provision (Err "rate limited") (Ok "quarter")) (demo_world None)).2 _)).
  etransitivity; [apply surjective_pairing|]. f_equal.
Defined.

Lemma renewal_keeps_serving_witness :
  has_cert (wd_resolver (run (demo_acme None) [(demo_provision (Ok ()) (Err "down"), 5)] 0 0 demo_served).2) = true.
Proof. apply (renewal_keeps_serving (demo_acme None)). reflexivity. Defined.

Definition demo_outage : list (Provision * Z) := repeat (demo_provision (Ok ()) (Err "down"), 5) 5.

(** A cached certificate that is due, and an outage of the CA: startup serves the cached one and
    the loop tries at once. *)
Definition demo_due : World :=
  demo_world (Some (to_vec {| account_credentials := Some "acct"; cert_chain_pem := Some "quarter"; key_pem := Some "key" |})).

Definition demo_attempts (turns : list (Provision * Z)) : list Attempt :=
  (task (demo_acme None) 7000000 7000000 (demo_provision (Ok ()) (Err "down")) turns demo_due).1.

Lemma renewal_paced_witness :
  at_time <$> demo_attempts demo_outage = [7000000; 7000000; 7000305; 7000910; 7002115; 7004520] ∧
  paced 5 (demo_attempts demo_outage).
Proof.
  split; [vm_compute; reflexivity|].
  apply (renewal_paced (demo_acme None) 7000000 7000000 (demo_provision (Ok ()) (Err "down")) demo_outage demo_due).
  - lia.
  - repeat (apply Forall_cons_2; [cbn; lia|]). apply Forall_nil_2.
Defined.

(** A restart during an outage, with a certificate inside its renewal window: the attempt of
    startup is not counted by the loop, whose first attempt follows at once, and five attempts
    have failed thirty-five minutes after the start. *)
Example restart_first_hour_five :
  let attempts := demo_attempts (repeat (demo_provision (Ok ()) (Err "down"), 0) 4) in
  at_time <$> attempts = [7000000; 7000000; 7000300; 7000900; 7002100] ∧ forallb at_failed attempts = true.
Proof. vm_compute. done. Qed.

Definition demo_registered : World :=
  demo_world (Some (to_vec {| account_credentials := Some "acct"; cert_chain_pem := None; key_pem := None |})).

Lemma file_store_keeps_account_witness :
  wd_accounts (run (demo_acme None) demo_outage 0 0 demo_registered).2 = [].
Proof.
  apply (file_store_keeps_account (demo_acme None) demo_outage 0 0 demo_registered).
  - reflexivity.
  - exists {| account_credentials := Some "acct"; cert_chain_pem := None; key_pem := None |}.
    split; [vm_compute; reflexivity|by eexists].
Defined.

Definition demo_barrel : BarrelStateConfig := {| bs_env_var := "STATE"; bs_persist_command := ["store"] |}.

Lemma barrel_registers_every_time_witness :
  wd_accounts (attempt (demo_acme (Some demo_barrel)) (demo_provision (Ok ()) (Err "down")) 0 demo_served).2 = ["acct"].
Proof.
  apply (barrel_registers_every_time (demo_acme (Some demo_barrel)) (demo_provision (Ok ()) (Err "down")) 0 demo_served demo_barrel);
    reflexivity.
Defined.

(** Five failed renewals, five accounts, each of them handed to the store command. *)
Example barrel_outage_registers_five :
  let w := (run (demo_acme (Some demo_barrel)) demo_outage 0 0 demo_served).2 in
  wd_accounts w = repeat "acct" 5 ∧ length (cu_stored (wd_custody w)) = 5%nat.
Proof. vm_compute. done. Qed.

(** Three renewals that all succeed with one-week certificates fall on the same second. *)
Example weekly_certs_spin :
  (run (demo_acme None) (repeat (demo_provision (Ok ()) (Ok "week"), 0) 3) 0 0 demo_served).1 =
    repeat {| at_time := 5184000; at_failures := 0; at_failed := false |} 3.
Proof. vm_compute. reflexivity. Qed.

(** A run whose challenge could not be signalled ready has failed and left its challenge
    certificate in the resolver. *)
Example failed_challenge_left :
  let '(res, w) := provision_cert (demo_acme None) (demo_provision (Err "rate limited") (Ok "quarter")) demo_served in
  is_err res = true ∧
  resolve (Some [ACME_TLS_ALPN_PROTO]) (Some "blog.example.com") (wd_resolver w) =
    Some {| ck_cert := ["self"]; ck_key := "ck" |}.
Proof. vm_compute. done. Qed.
