(* ===== verification/Tls.v ===== *)
(** * Tls: [src/tls/certs.rs], [src/tls/reload.rs] with its two verifiers, and [src/startup/tls.rs]

    The certificates and trust anchors the process runs on: how they are read from files, the
    verifiers and resolvers that are swapped in place when the files change, the configurations
    built for each client-authentication policy, and how startup puts them together.  PEM, X.509
    and the verification of a chain are the libraries' ([Pki] and [TlsLib]); a file system is
    what reading each path answers at one moment. *)

From S2P Require Import Prelude Text Config Error Http Net Acl Handler Reload Lifecycle Acme.
Local Open Scope Z_scope.

(** What reading a file answers. *)
Definition Files : Type := string → result string string.

(** [rustls] and [webpki]: certificate revocation lists out of PEM, the parsing of one anchor
    by [RootCertStore::add], [CertifiedKey::from_der], and the two verifier builders, which may
    refuse what they are given. *)
Class TlsLib := {
  tl_provider : bool;
  tl_pem_crls : string → result string (list string);
  tl_root_add : string → result string unit;
  tl_from_der : list string → string → result string CertifiedKey;
  tl_client_builder : list string → list string → result string unit;
  tl_server_builder : list string → result string unit;
}.

(** [.map_err(|e| ReductionError::Config(format!("{what}: {e}")))]. *)
Definition config_of {A} (what : string) (r : result string A) : Result A :=
  match r with Ok a => Ok a | Err e => Err (Error.Config (what +:+ ": " +:+ e)) end.

(** A [WebPkiClientVerifier] and a [WebPkiServerVerifier]: what they were built with. *)
Record ClientVerifier := {
  cv_roots : list string;
  cv_crls : list string;
  cv_enforce_expiration : bool;
  cv_allow_unauthenticated : bool;
}.

Record ServerVerifier := { sv_roots : list string }.

Section tls.
  Context `{Pki, TlsLib}.

(** ** Reading files *)

Definition load_certs (fs : Files) (path : string) : Result (list string) :=
  bytes ← config_of ("failed to open cert file " +:+ path) (fs path);
  certs ← config_of ("failed to parse certs from " +:+ path) (pem_certs bytes);
  if decide (certs = []) then Err (Error.Config ("no certificates found in " +:+ path)) else Ok certs.

Definition load_private_key (fs : Files) (path : string) : Result string :=
  bytes ← config_of ("failed to open key file " +:+ path) (fs path);
  config_of ("failed to parse private key from " +:+ path) (pem_key bytes).

Fixpoint add_roots (certs store : list string) : Result (list string) :=
  match certs with
  | [] => Ok store
  | cert :: certs => _ ← config_of "failed to add CA cert" (tl_root_add cert); add_roots certs (store ++ [cert])
  end.

Definition load_ca_certs (fs : Files) (path : string) : Result (list string) :=
  certs ← load_certs fs path; add_roots certs [].

Definition load_crls (fs : Files) (path : string) : Result (list string) :=
  bytes ← config_of ("failed to open CRL file " +:+ path) (fs path);
  config_of ("failed to parse CRLs from " +:+ path) (tl_pem_crls bytes).

(** ** The client verifier *)

Definition build_client_verifier (roots crls : list string) (allow_unauthenticated : bool) : Result ClientVerifier :=
  _ ← config_of "failed to build client verifier" (tl_client_builder roots crls);
  Ok {| cv_roots := roots; cv_crls := crls; cv_enforce_expiration := negb (bool_decide (crls = []));
        cv_allow_unauthenticated := allow_unauthenticated |}.

Definition load_trust (fs : Files) (ca_cert_path : string) (crl_path : option string) (allow_unauthenticated : bool)
    : Result ClientVerifier :=
  roots ← load_ca_certs fs ca_cert_path;
  crls ← match crl_path with Some path => load_crls fs path | None => Ok [] end;
  build_client_verifier roots crls allow_unauthenticated.

Record ReloadingClientVerifier := {
  rcv_inner : ClientVerifier;
  rcv_ca_cert_path : string;
  rcv_crl_path : option string;
  rcv_allow_unauthenticated : bool;
}.

Definition new_with_policy (fs : Files) (ca_cert_path : string) (crl_path : option string) (allow_unauthenticated : bool)
    : Result ReloadingClientVerifier :=
  verifier ← load_trust fs ca_cert_path crl_path allow_unauthenticated;
  Ok {| rcv_inner := verifier; rcv_ca_cert_path := ca_cert_path; rcv_crl_path := crl_path;
        rcv_allow_unauthenticated := allow_unauthenticated |}.

Definition ReloadingClientVerifier_new (fs : Files) (ca_cert_path : string) (crl_path : option string)
    : Result ReloadingClientVerifier := new_with_policy fs ca_cert_path crl_path false.
Definition new_optional (fs : Files) (ca_cert_path : string) (crl_path : option string)
    : Result ReloadingClientVerifier := new_with_policy fs ca_cert_path crl_path true.

(** ** The server verifier *)

Definition load_server_trust (fs : Files) (ca_cert_path : string) : Result ServerVerifier :=
  roots ← load_ca_certs fs ca_cert_path;
  _ ← config_of "failed to build server verifier" (tl_server_builder roots);
  Ok {| sv_roots := roots |}.

Record ReloadingServerVerifier := {
  rsv_inner : ServerVerifier;
  rsv_ca_cert_path : string;
}.

Definition ReloadingServerVerifier_new (fs : Files) (ca_cert_path : string) : Result ReloadingServerVerifier :=
  verifier ← load_server_trust fs ca_cert_path;
  Ok {| rsv_inner := verifier; rsv_ca_cert_path := ca_cert_path |}.

(** ** The certificate resolver *)

Definition build_certified_key (fs : Files) (cert_path key_path : string) : Result CertifiedKey :=
  certs ← load_certs fs cert_path;
  key ← load_private_key fs key_path;
  if negb tl_provider then Err (Error.Config "no default crypto provider installed")
  else config_of "failed to build certified key" (tl_from_der certs key).

Record ReloadingCertResolver := {
  rcr_inner : CertifiedKey;
  rcr_cert_path : string;
  rcr_key_path : string;
}.

Definition ReloadingCertResolver_new (fs : Files) (cert_path key_path : string) : Result ReloadingCertResolver :=
  certified_key ← build_certified_key fs cert_path key_path;
  Ok {| rcr_inner := certified_key; rcr_cert_path := cert_path; rcr_key_path := key_path |}.

(** ** Hot swap

    The [Reloadable] trait: what a value is rebuilt from, and the cell it is swapped in. *)
End tls.

Class Reloadable (R V : Type) := {
  rl_load : R → Files → Result V;
  rl_current : R → V;
  rl_swap : V → R → R;
}.

Class ReloadableLaws R V `{Reloadable R V} := {
  rl_current_swap v r : rl_current (rl_swap v r) = v;
  rl_load_swap v r : rl_load (rl_swap v r) = rl_load r;
}.

(** [reload]: on any failure the previous value is kept. *)
Definition reload {R V} `{Reloadable R V} (fs : Files) (r : R) : Result unit * R :=
  match rl_load r fs with
  | Ok v => (Ok (), rl_swap v r)
  | Err e => (Err e, r)
  end.

Section reloadables.
  Context `{Pki, TlsLib}.

#[export] Instance client_verifier_reloadable : Reloadable ReloadingClientVerifier ClientVerifier := {|
  rl_load r fs := load_trust fs (rcv_ca_cert_path r) (rcv_crl_path r) (rcv_allow_unauthenticated r);
  rl_current := rcv_inner;
  rl_swap v r := {| rcv_inner := v; rcv_ca_cert_path := rcv_ca_cert_path r; rcv_crl_path := rcv_crl_path r;
                    rcv_allow_unauthenticated := rcv_allow_unauthenticated r |};
|}.

#[export] Instance server_verifier_reloadable : Reloadable ReloadingServerVerifier ServerVerifier := {|
  rl_load r fs := load_server_trust fs (rsv_ca_cert_path r);
  rl_current := rsv_inner;
  rl_swap v r := {| rsv_inner := v; rsv_ca_cert_path := rsv_ca_cert_path r |};
|}.

#[export] Instance cert_resolver_reloadable : Reloadable ReloadingCertResolver CertifiedKey := {|
  rl_load r fs := build_certified_key fs (rcr_cert_path r) (rcr_key_path r);
  rl_current := rcr_inner;
  rl_swap v r := {| rcr_inner := v; rcr_cert_path := rcr_cert_path r; rcr_key_path := rcr_key_path r |};
|}.

Definition ReloadingClientVerifier_reload (fs : Files) (r : ReloadingClientVerifier)
    : Result unit * ReloadingClientVerifier := reload fs r.
Definition ReloadingServerVerifier_reload (fs : Files) (r : ReloadingServerVerifier)
    : Result unit * ReloadingServerVerifier := reload fs r.
Definition ReloadingCertResolver_reload (fs : Files) (r : ReloadingCertResolver)
    : Result unit * ReloadingCertResolver := reload fs r.

#[export] Instance client_verifier_laws : ReloadableLaws ReloadingClientVerifier ClientVerifier.
Proof. by split. Qed.
#[export] Instance server_verifier_laws : ReloadableLaws ReloadingServerVerifier ServerVerifier.
Proof. by split. Qed.
#[export] Instance cert_resolver_laws : ReloadableLaws ReloadingCertResolver CertifiedKey.
Proof. by split. Qed.
End reloadables.

Definition ok_of {E A} (r : result E A) : option A := match r with Ok a => Some a | Err _ => None end.

(** ** The watchers *)

Definition CERT_RELOAD_DEBOUNCE_MS : Z := 300.
Definition TRUST_SIDE_SERVER : string := "server".
Definition TRUST_SIDE_CLIENT : string := "client".

Section watchers.
  Context `{Pki, TlsLib}.

Record Certs := {
  ce_server : ReloadingCertResolver;
  ce_client : option ReloadingCertResolver;
}.

Definition cert_trigger_paths (c : Certs) : list string :=
  [rcr_cert_path (ce_server c); rcr_key_path (ce_server c)] ++
  match ce_client c with Some r => [rcr_cert_path r; rcr_key_path r] | None => [] end.

Definition affects (ev : FsEvent) (r : ReloadingCertResolver) : bool :=
  existsb (λ p, String.eqb p (rcr_cert_path r) || String.eqb p (rcr_key_path r)) (fe_paths ev).

(** What a step of a watcher is: one of its debouncer's, or the next operation of a callback in
    the thread of its worker, given what its reads find. *)
Inductive WatchStep :=
  | Fs (s : FsStep)
  | Runs (thread : nat) (fs : Files).

(** A watcher at work: the callbacks that run, each with the operations it still has to do. *)
Record Watching (A O : Type) := {
  wg_debouncer : Debouncer;
  wg_value : A;
  wg_threads : list (list O);
}.

#[global] Arguments wg_debouncer {A O} _.
#[global] Arguments wg_value {A O} _.
#[global] Arguments wg_threads {A O} _.

Definition watch_start {A O} (a : A) : Watching A O :=
  {| wg_debouncer := Debouncer_new; wg_value := a; wg_threads := [] |}.

(** The watcher of [spawn_trailing_edge_watcher] around a callback: [begin] is what the callback
    does for an event, and [op] does one operation of it, with what it goes on to. *)
Definition watch_step {A O} (triggers : list string) (begin : FsEvent → A → list O) (op : Files → O → A → option O * A)
    (w : Watching A O) (step : WatchStep) : Watching A O :=
  let d := wg_debouncer w in
  match step with
  | Fs s =>
      let threads :=
        match s with
        | Called i => match db_chosen d !! i with Some (_, ev) => [begin ev (wg_value w)] | None => [] end
        | _ => []
        end in
      {| wg_debouncer := fs_step triggers d s; wg_value := wg_value w; wg_threads := wg_threads w ++ threads |}
  | Runs t fs =>
      match wg_threads w !! t with
      | Some (o :: rest) =>
          let '(next, a) := op fs o (wg_value w) in
          {| wg_debouncer := d; wg_value := a; wg_threads := <[t := option_list next ++ rest]> (wg_threads w) |}
      | _ => w
      end
  end.

(** The callback of [CertWatcher]: each side the event touches is loaded, and then swapped. *)
Inductive Side := ServerSide | ClientSide.

Inductive CertOp :=
  | LoadPair (side : Side)
  | SwapPair (side : Side) (key : CertifiedKey).

Definition on_cert_event (ev : FsEvent) (c : Certs) : list CertOp :=
  (if affects ev (ce_server c) then [LoadPair ServerSide] else []) ++
  match ce_client c with Some r => if affects ev r then [LoadPair ClientSide] else [] | None => [] end.

Definition side_resolver (side : Side) (c : Certs) : option ReloadingCertResolver :=
  match side with ServerSide => Some (ce_server c) | ClientSide => ce_client c end.

Definition cert_op (fs : Files) (o : CertOp) (c : Certs) : option CertOp * Certs :=
  match o with
  | LoadPair side => (r ← side_resolver side c; SwapPair side <$> ok_of (rl_load r fs), c)
  | SwapPair ServerSide k => (None, {| ce_server := rl_swap k (ce_server c); ce_client := ce_client c |})
  | SwapPair ClientSide k => (None, {| ce_server := ce_server c; ce_client := rl_swap k <$> ce_client c |})
  end.

Definition cert_watcher (c : Certs) (steps : list WatchStep) : Watching Certs CertOp :=
  foldl (watch_step (cert_trigger_paths c) on_cert_event cert_op) (watch_start c) steps.

(** The callback of [TrustWatcher], with the two counters of its side. *)
Inductive TrustOp (V : Type) :=
  | LoadTrust
  | SwapTrust (v : V).
#[global] Arguments LoadTrust {V}.
#[global] Arguments SwapTrust {V} v.

Definition on_trust_event {R V} (ev : FsEvent) (t : R * (Z * Z)) : list (TrustOp V) := [LoadTrust].

Definition trust_op {R V} `{Reloadable R V} (fs : Files) (o : TrustOp V) (t : R * (Z * Z))
    : option (TrustOp V) * (R * (Z * Z)) :=
  let '(r, (reloads, errors)) := t in
  match o with
  | LoadTrust =>
      match rl_load r fs with
      | Ok v => (Some (SwapTrust v), t)
      | Err _ => (None, (r, (reloads, errors + 1)))
      end
  | SwapTrust v => (None, (rl_swap v r, (reloads + 1, errors)))
  end.

Definition trust_watcher {R V} `{Reloadable R V} (trigger_paths : list string) (r : R) (steps : list WatchStep)
    : Watching (R * (Z * Z)) (TrustOp V) :=
  foldl (watch_step trigger_paths on_trust_event trust_op) (watch_start (r, (0, 0))) steps.

(** The verifier a trust watcher keeps. *)
Definition watched {R V} `{Reloadable R V} (trigger_paths : list string) (r : R) (steps : list WatchStep) : V :=
  rl_current (wg_value (trust_watcher trigger_paths r steps)).1.
End watchers.

(** ** The configurations *)

Inductive ClientAuth :=
  | NoClientAuth
  | VerifyClient (verifier : ReloadingClientVerifier).

Inductive ServerResolver :=
  | FromFiles (resolver : ReloadingCertResolver)
  | FromAcme.

(** [rustls::ServerConfig] with the resolver and the verifier it shares with the watchers. *)
Record ServerConfig := {
  sc_client_auth : ClientAuth;
  sc_resolver : ServerResolver;
  sc_alpn_protocols : list string;
}.

Inductive ClientTrust :=
  | NoRoots
  | VerifyServer (verifier : ReloadingServerVerifier).

Record ClientConfig := {
  cc_trust : ClientTrust;
  cc_resolver : option ReloadingCertResolver;
  cc_alpn_protocols : list string;
}.

(** Whether a peer that presents no certificate completes the handshake: no certificate is
    asked for, or the verifier lets it be missing. *)
Definition accepts_anonymous (c : ServerConfig) : bool :=
  match sc_client_auth c with
  | NoClientAuth => true
  | VerifyClient v => cv_allow_unauthenticated (rcv_inner v)
  end.

Definition ALPN_HTTP : list string := ["h2"; "http/1.1"].

Section configs.
  Context `{IpNetLib, Pki, TlsLib}.

(** The verifier a policy asks for. *)
Definition verifier_for_policy (fs : Files) (ca_cert_path : string) (crl_path : option string) (policy : ClientAuthPolicy)
    : Result ReloadingClientVerifier :=
  if is_mandatory policy then ReloadingClientVerifier_new fs ca_cert_path crl_path
  else new_optional fs ca_cert_path crl_path.

Definition build_server_config_for_policy (fs : Files) (cert_path key_path ca_cert_path : string)
    (crl_path : option string) (policy : ClientAuthPolicy) : Result (ServerConfig * ReloadingCertResolver) :=
  resolver ← ReloadingCertResolver_new fs cert_path key_path;
  if negb (builds_verifier policy) then
    Ok ({| sc_client_auth := NoClientAuth; sc_resolver := FromFiles resolver; sc_alpn_protocols := ALPN_HTTP |}, resolver)
  else
    verifier ← verifier_for_policy fs ca_cert_path crl_path policy;
    Ok ({| sc_client_auth := VerifyClient verifier; sc_resolver := FromFiles resolver; sc_alpn_protocols := ALPN_HTTP |},
        resolver).

Definition build_acme_server_config_for_policy (fs : Files) (ca_cert_path : option string) (policy : ClientAuthPolicy)
    : Result ServerConfig :=
  if negb (builds_verifier policy) then
    Ok {| sc_client_auth := NoClientAuth; sc_resolver := FromAcme; sc_alpn_protocols := ALPN_HTTP |}
  else
    match ca_cert_path with
    | None => Err (Error.Config ("ACME client_auth = " +:+ quoted "required" +:+ "/" +:+ quoted "optional" +:+
                                 " requires tls.server.acme.ca_cert_path"))
    | Some ca_cert_path =>
        verifier ← verifier_for_policy fs ca_cert_path None policy;
        Ok {| sc_client_auth := VerifyClient verifier; sc_resolver := FromAcme; sc_alpn_protocols := ALPN_HTTP |}
    end.

Definition build_acme_challenge_config : ServerConfig :=
  {| sc_client_auth := NoClientAuth; sc_resolver := FromAcme; sc_alpn_protocols := ["acme-tls/1"] |}.

Definition build_client_config (fs : Files) (cert_path key_path ca_cert_path : string) : Result ClientConfig :=
  resolver ← ReloadingCertResolver_new fs cert_path key_path;
  verifier ← ReloadingServerVerifier_new fs ca_cert_path;
  Ok {| cc_trust := VerifyServer verifier; cc_resolver := Some resolver; cc_alpn_protocols := ALPN_HTTP |}.

(** ** Startup *)

Definition empty_client_config : ClientConfig :=
  {| cc_trust := NoRoots; cc_resolver := None; cc_alpn_protocols := [] |}.

(** What the metrics exporter and the watchers of startup find when they are set up. *)
Record SetupEnv := {
  se_exporter : string → result string unit;
  se_config_watch : WatchEnv;
  se_client_trust_watch : WatchEnv;
  se_cert_watch : WatchEnv;
  se_trust_watch : WatchEnv;
}.

Definition init_metrics (env : SetupEnv) (otlp_endpoint : option string) : Result unit :=
  match otlp_endpoint with
  | None => Ok ()
  | Some endpoint =>
      match se_exporter env endpoint with Ok _ => Ok () | Err e => Err (Error.Config ("OTLP exporter: " +:+ e)) end
  end.

Definition ConfigWatcher_new (env : SetupEnv) (config_path : string) : Result Watcher :=
  spawn_trailing_edge_watcher (se_config_watch env) [config_path] "config" Fatal.

Definition CertWatcher_new (env : SetupEnv) (c : Certs) : Result Watcher :=
  spawn_trailing_edge_watcher (se_cert_watch env) (cert_trigger_paths c) "cert" Warn.

Definition TrustWatcher_new (env : WatchEnv) (trigger_paths : list string) : Result Watcher :=
  spawn_trailing_edge_watcher env trigger_paths "trust" Warn.

Record ClientTls := {
  ct_config : ClientConfig;
  ct_trust_watcher : option Watcher;
}.

Definition build_client_tls (env : SetupEnv) (fs : Files) (config : ReductionConfig) : Result ClientTls :=
  if negb (config_needs_client_tls config) then Ok {| ct_config := empty_client_config; ct_trust_watcher := None |}
  else
    match tls_client (tls config) with
    | None => Err (Error.Config ("a backend requires a TLS client identity but [tls.client] is absent " +:+
                                 "(should be rejected at validation)"))
    | Some identity =>
        c ← build_client_config fs (ti_cert_path identity) (ti_key_path identity) (ti_ca_cert_path identity);
        watcher ← TrustWatcher_new (se_client_trust_watch env) [ti_ca_cert_path identity];
        Ok {| ct_config := c; ct_trust_watcher := Some watcher |}
    end.

(** [st_renewal]: the renewal task runs, and its stop signal is to be bridged. *)
Record ServerTls := {
  st_config : ServerConfig;
  st_challenge_config : option ServerConfig;
  st_cert_watcher : option Watcher;
  st_trust_watcher : option Watcher;
  st_renewal : bool;
}.

(** No watcher when the policy builds no verifier. *)
Definition build_server_trust_watcher (env : SetupEnv) (c : ServerConfig) (trigger_paths : list string)
    : Result (option Watcher) :=
  match sc_client_auth c with
  | NoClientAuth => Ok None
  | VerifyClient _ => watcher ← TrustWatcher_new (se_trust_watch env) trigger_paths; Ok (Some watcher)
  end.

(** The files behind the trust of a manual identity. *)
Definition trust_paths (identity : TlsIdentity) : list string :=
  ti_ca_cert_path identity :: option_list (ti_crl_path identity).

Definition build_manual_server_tls (env : SetupEnv) (fs : Files) (identity : TlsIdentity) (policy : ClientAuthPolicy)
    (client_cert_resolver : option ReloadingCertResolver) : Result ServerTls :=
  '(cfg, resolver) ← build_server_config_for_policy fs (ti_cert_path identity) (ti_key_path identity)
                       (ti_ca_cert_path identity) (ti_crl_path identity) policy;
  cert_watcher ← CertWatcher_new env {| ce_server := resolver; ce_client := client_cert_resolver |};
  trust_watcher ← build_server_trust_watcher env cfg (trust_paths identity);
  Ok {| st_config := cfg; st_challenge_config := None; st_cert_watcher := Some cert_watcher;
        st_trust_watcher := trust_watcher; st_renewal := false |}.

(** The ACME side: [provision] is the initial provisioning, over the state of the custody. *)
Definition build_acme_server_tls (env : SetupEnv) (fs : Files) (acme : AcmeTlsConfig) (policy : ClientAuthPolicy)
    (provision : World → Result unit * World) (w : World) : Result ServerTls * World :=
  match (cfg ← build_acme_server_config_for_policy fs (ac_ca_cert_path acme) policy;
         trust_watcher ← build_server_trust_watcher env cfg (option_list (ac_ca_cert_path acme));
         Ok (cfg, trust_watcher)) with
  | Err e => (Err e, w)
  | Ok (cfg, trust_watcher) =>
      let '(provisioned, w) := provision w in
      ((_ ← provisioned;
        Ok {| st_config := cfg; st_challenge_config := Some build_acme_challenge_config; st_cert_watcher := None;
              st_trust_watcher := trust_watcher; st_renewal := true |}), w)
  end.

Definition build_server_tls (env : SetupEnv) (fs : Files) (config : ReductionConfig)
    (client_cert_resolver : option ReloadingCertResolver) (provision : AcmeTlsConfig → World → Result unit * World)
    (w : World) : Result ServerTls * World :=
  let policy := li_client_auth (listen config) in
  match tls_server (tls config) with
  | Manual identity => (build_manual_server_tls env fs identity policy client_cert_resolver, w)
  | Config.Acme acme => build_acme_server_tls env fs acme policy (provision acme) w
  end.

Record TlsSetup := {
  ts_config_watcher : Watcher;
  ts_client : ClientTls;
  ts_server : ServerTls;
}.

(** The client side is set up before the server side, whose watcher shares its resolver. *)
Definition build_tls_setup (env : SetupEnv) (fs : Files) (config_path : string) (config : ReductionConfig)
    (provision : AcmeTlsConfig → World → Result unit * World) (w : World) : Result TlsSetup * World :=
  match (_ ← init_metrics env (metrics_endpoint config);
         config_watcher ← ConfigWatcher_new env config_path;
         client ← build_client_tls env fs config;
         Ok (config_watcher, client)) with
  | Err e => (Err e, w)
  | Ok (config_watcher, client) =>
      let '(server, w) := build_server_tls env fs config (cc_resolver (ct_config client)) provision w in
      ((server ← server;
        Ok {| ts_config_watcher := config_watcher; ts_client := client; ts_server := server |}), w)
  end.
End configs.

(** ** Last known good *)

(** A cell reloaded from the files of several moments, one after the other. *)
Definition reloads {R V} `{Reloadable R V} (fss : list Files) (r : R) : R :=
  foldl (λ r fs, (reload fs r).2) r fss.

Lemma reload_current {R V} `{ReloadableLaws R V} fs (r : R) :
  rl_current (reload fs r).2 = default (rl_current r) (ok_of (rl_load r fs)) ∧ rl_load (reload fs r).2 = rl_load r.
Proof. unfold reload. destruct (rl_load r fs); cbn; [|done]. by rewrite rl_current_swap, rl_load_swap. Qed.

Lemma last_omap_cons {A B} (f : A → option B) x l :
  last (omap f (x :: l)) = match last (omap f l) with Some y => Some y | None => f x end.
Proof.
  assert (omap f (x :: l) = option_list (f x) ++ omap f l) as -> by (cbn; by destruct (f x)).
  rewrite last_app. destruct (last (omap f l)); [done|]. by destruct (f x).
Qed.

(** What a cell holds after any reloads: the last value that could be loaded. *)
Lemma reloads_current {R V} `{ReloadableLaws R V} fss (r : R) :
  rl_current (reloads fss r) = default (rl_current r) (last (omap (λ fs, ok_of (rl_load r fs)) fss)).
Proof.
  revert r. induction fss as [|fs fss IH]; intros r; [done|].
  destruct (reload_current fs r) as [Hc Hl]. unfold reloads. cbn [foldl].
  change (foldl _ ?x fss) with (reloads fss x). rewrite IH, Hc, Hl, last_omap_cons.
  by destruct (last _), (ok_of (rl_load r fs)).
Qed.

Section good.
  Context `{IpNetLib, Pki, TlsLib}.

Lemma add_roots_app certs st st' : add_roots certs st = Ok st' → st' = st ++ certs.
Proof.
  revert st. induction certs as [|c certs IH]; intros st; cbn.
  - intros [= <-]. by rewrite app_nil_r.
  - intros (_ & _ & ->%IH)%result_bind_ok. by rewrite <-app_assoc.
Qed.

Lemma load_ca_certs_nonempty fs path roots : load_ca_certs fs path = Ok roots → roots ≠ [].
Proof.
  unfold load_ca_certs, load_certs. intros (certs & (b & _ & (cs & _ & Hc)%result_bind_ok)%result_bind_ok & ->%add_roots_app)%result_bind_ok.
  cbn. destruct (decide (cs = [])); [done|]. by injection Hc as <-.
Qed.

Lemma load_trust_sound fs ca crl allow v :
  load_trust fs ca crl allow = Ok v → cv_roots v ≠ [] ∧ cv_allow_unauthenticated v = allow.
Proof.
  unfold load_trust, build_client_verifier.
  intros (roots & Hr%load_ca_certs_nonempty & (crls & _ & (_ & _ & <-%(inj Ok))%result_bind_ok)%result_bind_ok)%result_bind_ok.
  done.
Qed.

(** The revocation list of a verifier: what the configured file held, and whether it is enforced. *)
Definition crls_of (fs : Files) (crl : option string) (v : ClientVerifier) : Prop :=
  match crl with
  | None => cv_crls v = []
  | Some path => ∃ bytes, fs path = Ok bytes ∧ tl_pem_crls bytes = Ok (cv_crls v)
  end ∧ cv_enforce_expiration v = negb (bool_decide (cv_crls v = [])).

Lemma config_of_ok {A} what (r : result string A) a : config_of what r = Ok a → r = Ok a.
Proof. destruct r; cbn; [by intros [= ->]|done]. Qed.

Lemma load_trust_crls fs ca crl allow v : load_trust fs ca crl allow = Ok v → crls_of fs crl v.
Proof.
  unfold load_trust, build_client_verifier, load_crls, crls_of.
  intros (roots & _ & (crls & Hc & (_ & _ & <-%(inj Ok))%result_bind_ok)%result_bind_ok)%result_bind_ok. cbn.
  split; [|done]. destruct crl as [path|]; [|by injection Hc as <-].
  apply result_bind_ok in Hc as (bytes & Hb%config_of_ok & Hp%config_of_ok). eauto.
Qed.

Lemma load_server_trust_sound fs ca v : load_server_trust fs ca = Ok v → sv_roots v ≠ [].
Proof.
  unfold load_server_trust.
  by intros (roots & Hr%load_ca_certs_nonempty & (_ & _ & <-%(inj Ok))%result_bind_ok)%result_bind_ok.
Qed.

Lemma last_loaded {A} (f : Files → Result A) fs0 fss a :
  f fs0 = Ok a → Some (default a (last (omap (λ fs, ok_of (f fs)) fss))) = last (omap (λ fs, ok_of (f fs)) (fs0 :: fss)).
Proof.
  intros Hf. rewrite last_omap_cons, Hf. by destruct (last _).
Qed.

Lemma loaded_at {A} (f : Files → Result A) fss a :
  last (omap (λ fs, ok_of (f fs)) fss) = Some a → ∃ fs, fs ∈ fss ∧ f fs = Ok a.
Proof.
  intros Hl. apply last_Some_elem_of, list_elem_of_omap in Hl as (fs & Hin & Hok). exists fs. split; [done|].
  destruct (f fs); [by injection Hok as ->|done].
Qed.
Lemma client_reloads fs fss ca crl allow r :
  new_with_policy fs ca crl allow = Ok r →
  Some (rcv_inner (reloads fss r)) = last (omap (λ fs, ok_of (load_trust fs ca crl allow)) (fs :: fss)).
Proof.
  unfold new_with_policy. intros (v & Hv & <-%(inj Ok))%result_bind_ok. rewrite <-(last_loaded _ _ _ _ Hv). f_equal.
  pose proof (reloads_current fss (Build_ReloadingClientVerifier v ca crl allow)) as Hc. exact Hc.
Qed.

Lemma server_reloads fs fss ca r :
  ReloadingServerVerifier_new fs ca = Ok r →
  Some (rsv_inner (reloads fss r)) = last (omap (λ fs, ok_of (load_server_trust fs ca)) (fs :: fss)).
Proof.
  unfold ReloadingServerVerifier_new. intros (v & Hv & <-%(inj Ok))%result_bind_ok. rewrite <-(last_loaded _ _ _ _ Hv).
  f_equal. pose proof (reloads_current fss (Build_ReloadingServerVerifier v ca)) as Hc. exact Hc.
Qed.

(** ** Overlapping callbacks *)

(** What the reads of the callbacks found, in order. *)
Definition readings (steps : list WatchStep) : list Files :=
  omap (λ s, match s with Runs _ fs => Some fs | Fs _ => None end) steps.

(** An invariant of the value and of the operations in progress holds in every run. *)
Lemma watch_invariant {A O} triggers begin (op : Files → O → A → option O * A) (I : A → Prop) (J : O → Prop) fss steps :
  (∀ ev a, I a → Forall J (begin ev a)) →
  (∀ fs o a, fs ∈ fss → I a → J o → I (op fs o a).2 ∧ Forall J (option_list (op fs o a).1)) →
  ∀ w, readings steps ⊆ fss → I (wg_value w) → Forall (Forall J) (wg_threads w) →
  I (wg_value (foldl (watch_step triggers begin op) w steps)).
Proof.
  intros Hbegin Hop. induction steps as [|s steps IH]; intros w Hsub Hi Ht; [done|]. cbn [foldl].
  destruct s as [s|t fs]; cbn [watch_step].
  - apply IH; [done|done|]. cbn. apply Forall_app. split; [done|]. destruct s as [r|i|i]; [done|done|].
    destruct (db_chosen _ !! i) as [[g ev]|]; [|done]. apply Forall_singleton. by apply Hbegin.
  - destruct (wg_threads w !! t) as [[|o rest]|] eqn:Hth; [apply IH; [set_solver|done..]| |apply IH; [set_solver|done..]].
    pose proof (Forall_lookup_1 _ _ _ _ Ht Hth) as [Ho Hrest]%Forall_cons.
    destruct (Hop fs o (wg_value w)) as [Hi' Hn]; [apply Hsub; left|done|done|].
    destruct (op fs o (wg_value w)) as [next a]. apply IH; [set_solver|done|]. cbn.
    apply Forall_insert; [done|]. by apply Forall_app.
Qed.

(** Whatever callbacks overlap, the verifier is one that a load built from its own reads. *)
Lemma watched_loaded {R V} `{ReloadableLaws R V} triggers (r : R) fs0 steps :
  rl_load r fs0 = Ok (rl_current r) →
  ∃ fs, fs ∈ fs0 :: readings steps ∧ rl_load r fs = Ok (watched triggers r steps).
Proof.
  intros Hr. set (loaded v := ∃ fs, fs ∈ fs0 :: readings steps ∧ rl_load r fs = Ok v).
  enough (rl_load (wg_value (trust_watcher triggers r steps)).1 = rl_load r ∧ loaded (watched triggers r steps)) by tauto.
  apply (watch_invariant triggers on_trust_event trust_op
    (λ t, rl_load t.1 = rl_load r ∧ loaded (rl_current t.1))
    (λ o, match o with LoadTrust => True | SwapTrust v => loaded v end) (fs0 :: readings steps)).
  - intros ev a _. by apply Forall_singleton.
  - intros fs o [x [n e]] Hfs [Hl Hc] Ho. cbn in *. destruct o as [|v]; cbn.
    + rewrite Hl. destruct (rl_load r fs) eqn:E; cbn; [|done]. split; [done|]. apply Forall_singleton. by exists fs.
    + rewrite rl_load_swap, rl_current_swap. done.
  - set_solver.
  - split; [done|]. exists fs0. split; [left|done].
  - done.
Qed.

(** A callback that nothing overlaps reloads as [reload] does. *)
Lemma callback_alone {R V} `{Reloadable R V} triggers (w : Watching (R * (Z * Z)) (TrustOp V)) t fs fs' :
  wg_threads w !! t = Some [LoadTrust] →
  (wg_value (foldl (watch_step triggers on_trust_event trust_op) w [Runs t fs; Runs t fs'])).1 = (reload fs (wg_value w).1).2.
Proof.
  intros Ht. assert (t < length (wg_threads w))%nat as Hlt by by eapply lookup_lt_Some.
  cbn. rewrite Ht. unfold reload. destruct (wg_value w) as [r [n e]]. cbn. destruct (rl_load r fs) as [v|err]; cbn;
    by rewrite list_lookup_insert_eq.
Qed.

(** C14. Trust is only ever replaced by trust: whatever the CA bundle and the revocation list become
    (missing, empty, garbage, half written), and however the callbacks of the trust watcher
    overlap, the client verifier is at every moment one that a single load built from what it
    read; it never has an empty set of anchors, its policy on missing certificates never
    changes, and its revocation list is exactly what that load found in the configured file
    (none at all, and then no revocation is checked, when the file held none).  Reloads that
    do not overlap leave the last verifier that could be loaded.  The verifier of the backends
    is replaced by the same rule. *)
Theorem trust_last_known_good fs ca crl allow r fs' ca' r' triggers steps fss :
  new_with_policy fs ca crl allow = Ok r → ReloadingServerVerifier_new fs' ca' = Ok r' →
  (∃ fs1, fs1 ∈ fs :: readings steps ∧ load_trust fs1 ca crl allow = Ok (watched triggers r steps) ∧
     crls_of fs1 crl (watched triggers r steps)) ∧
  cv_roots (watched triggers r steps) ≠ [] ∧ cv_allow_unauthenticated (watched triggers r steps) = allow ∧
  Some (rcv_inner (reloads fss r)) = last (omap (λ fs, ok_of (load_trust fs ca crl allow)) (fs :: fss)) ∧
  (∃ fs1, fs1 ∈ fs' :: readings steps ∧ load_server_trust fs1 ca' = Ok (watched triggers r' steps)) ∧
  sv_roots (watched triggers r' steps) ≠ [] ∧
  Some (rsv_inner (reloads fss r')) = last (omap (λ fs, ok_of (load_server_trust fs ca')) (fs' :: fss)).
Proof.
  intros Hc Hs. pose proof (client_reloads _ fss _ _ _ _ Hc) as Hcl. pose proof (server_reloads _ fss _ _ Hs) as Hsl.
  unfold new_with_policy in Hc. apply result_bind_ok in Hc as (v & Hv & <-%(inj Ok)).
  unfold ReloadingServerVerifier_new in Hs. apply result_bind_ok in Hs as (v' & Hv' & <-%(inj Ok)).
  destruct (watched_loaded (V := ClientVerifier) triggers (Build_ReloadingClientVerifier v ca crl allow) fs steps) as (f1 & Hf1 & Hl1); [exact Hv|].
  destruct (watched_loaded (V := ServerVerifier) triggers (Build_ReloadingServerVerifier v' ca') fs' steps) as (f2 & Hf2 & Hl2); [exact Hv'|].
  cbn in Hl1, Hl2. pose proof (load_trust_crls _ _ _ _ _ Hl1). pose proof (load_trust_sound _ _ _ _ _ Hl1) as [??].
  pose proof (load_server_trust_sound _ _ _ Hl2). split_and!; eauto.
Qed.

(** ** The policy *)

Lemma verifier_for_policy_ok fs ca crl policy v :
  verifier_for_policy fs ca crl policy = Ok v → new_with_policy fs ca crl (negb (is_mandatory policy)) = Ok v.
Proof. unfold verifier_for_policy. by destruct (is_mandatory policy). Qed.

Lemma new_with_policy_allow fs fss ca crl allow v :
  new_with_policy fs ca crl allow = Ok v → cv_allow_unauthenticated (rcv_inner (reloads fss v)) = allow.
Proof.
  intros Hc%(client_reloads _ fss). by destruct (loaded_at _ _ _ (eq_sym Hc)) as (? & _ & []%load_trust_sound).
Qed.

(** A server configuration after the trust watcher has run any number of times. *)
Definition reloaded_config (fss : list Files) (c : ServerConfig) : ServerConfig :=
  {| sc_client_auth := match sc_client_auth c with
                       | NoClientAuth => NoClientAuth
                       | VerifyClient v => VerifyClient (reloads fss v)
                       end;
     sc_resolver := sc_resolver c; sc_alpn_protocols := sc_alpn_protocols c |}.

Lemma policy_config fs ca crl policy v fss :
  builds_verifier policy = true → verifier_for_policy fs ca crl policy = Ok v →
  cv_allow_unauthenticated (rcv_inner (reloads fss v)) = allows_anonymous policy.
Proof. intros Hb ->%verifier_for_policy_ok%(new_with_policy_allow _ fss). by destruct policy. Qed.

Lemma manual_policy fs cert key ca crl policy c fss :
  build_server_config_for_policy fs cert key ca crl policy = Ok c →
  accepts_anonymous (reloaded_config fss c.1) = allows_anonymous policy ∧ sc_alpn_protocols c.1 = ALPN_HTTP.
Proof.
  unfold build_server_config_for_policy, accepts_anonymous. intros (r & _ & Hc)%result_bind_ok.
  destruct (builds_verifier policy) eqn:Hb; cbn in Hc.
  - apply result_bind_ok in Hc as (v & Hv & <-%(inj Ok)). cbn. by rewrite (policy_config _ _ _ _ _ _ Hb Hv).
  - injection Hc as <-. by destruct policy.
Qed.

Lemma acme_policy fs ca policy c fss :
  build_acme_server_config_for_policy fs ca policy = Ok c →
  accepts_anonymous (reloaded_config fss c) = allows_anonymous policy ∧ sc_alpn_protocols c = ALPN_HTTP.
Proof.
  unfold build_acme_server_config_for_policy, accepts_anonymous.
  destruct (builds_verifier policy) eqn:Hb; cbn.
  - destruct ca as [ca|]; [|done]. intros (v & Hv & <-%(inj Ok))%result_bind_ok. cbn.
    by rewrite (policy_config _ _ _ _ _ _ Hb Hv).
  - intros [= <-]. by destruct policy.
Qed.

(** What a set-up that succeeds went through. *)
Lemma setup_server env fs config_path config provision w setup w' :
  build_tls_setup env fs config_path config provision w = (Ok setup, w') →
  ConfigWatcher_new env config_path = Ok (ts_config_watcher setup) ∧
  build_client_tls env fs config = Ok (ts_client setup) ∧
  build_server_tls env fs config (cc_resolver (ct_config (ts_client setup))) provision w = (Ok (ts_server setup), w').
Proof.
  unfold build_tls_setup. destruct (init_metrics _ _); [|done]. cbn.
  destruct (ConfigWatcher_new _ _); [|done]. cbn. destruct (build_client_tls _ _ _) as [client|]; [|done]. cbn.
  destruct (build_server_tls _ _ _ _ _ _) as [[s|] w1] eqn:Hs; [|done]. by intros [= <- <-].
Qed.

(** C15. The listener enforces the configured policy for as long as it runs: however the server was
    configured and however often its trust was reloaded, a client without a certificate
    completes the handshake exactly when the policy, as the request handler reads it, admits
    anonymous clients.  Application traffic is never negotiated on the configuration that
    answers ACME challenges, nor a challenge on the other one. *)
Theorem policy_enforced env fs config_path config provision w setup w' fss :
  build_tls_setup env fs config_path config provision w = (Ok setup, w') →
  let server := ts_server setup in
  accepts_anonymous (reloaded_config fss (st_config server)) = allows_anonymous (li_client_auth (listen config)) ∧
  (ACME_TLS_ALPN_PROTO ∉ sc_alpn_protocols (st_config server)) ∧
  ∀ c, st_challenge_config server = Some c → sc_alpn_protocols c = [ACME_TLS_ALPN_PROTO] ∧ sc_client_auth c = NoClientAuth.
Proof.
  intros (config_watcher & client & Hs)%setup_server. cbn zeta. revert Hs. generalize (ts_server setup). intros server.
  unfold build_server_tls, build_manual_server_tls, build_acme_server_tls.
  destruct (tls_server (tls config)) as [identity|acme].
  - intros [= ([c r] & [Ha Hl]%(manual_policy _ _ _ _ _ _ _ fss) & (cw & _ & (tw & _ & <-%(inj Ok))%result_bind_ok)%result_bind_ok)%result_bind_ok _].
    cbn in *. rewrite Hl. split_and!; [done|unfold ALPN_HTTP, ACME_TLS_ALPN_PROTO; set_solver|done].
  - destruct (build_acme_server_config_for_policy _ _ _) as [c|] eqn:Hc; [|done].
    apply (acme_policy _ _ _ _ fss) in Hc as [Ha Hl]. cbn.
    destruct (build_server_trust_watcher _ _ _); [|done]. cbn.
    destruct (provision acme w) as [[]]; [|done]. intros [= <- _]. cbn. rewrite Hl.
    split_and!; [done|unfold ALPN_HTTP, ACME_TLS_ALPN_PROTO; set_solver|by intros c' [= <-]].
Qed.

(** ** Startup errors *)

Lemma acme_config_err fs acme policy e :
  (builds_verifier policy = true → ac_ca_cert_path acme ≠ None) →
  build_acme_server_config_for_policy fs (ac_ca_cert_path acme) policy = Err e →
  ∃ ca, ac_ca_cert_path acme = Some ca ∧ verifier_for_policy fs ca None policy = Err e.
Proof.
  unfold build_acme_server_config_for_policy. intros Hca. destruct (builds_verifier policy); [|done]. cbn.
  destruct (ac_ca_cert_path acme) as [ca|]; [|by destruct (Hca eq_refl)].
  destruct (verifier_for_policy _ _ _ _) as [|e'] eqn:Hv; [done|]. intros [= <-]. by exists ca.
Qed.

(** A best-effort watcher fails to start only for want of notifications. *)
Definition no_notifications (env : WatchEnv) (context : string) (e : ReductionError) : Prop :=
  ∃ m, we_init env = Err m ∧ e = Error.Config (context +:+ " watcher init: " +:+ m).

(** What makes setting up the client side fail. *)
Definition client_failure (env : SetupEnv) (fs : Files) (config : ReductionConfig) (e : ReductionError) : Prop :=
  ∃ i, tls_client (tls config) = Some i ∧ config_needs_client_tls config = true ∧
    (build_client_config fs (ti_cert_path i) (ti_key_path i) (ti_ca_cert_path i) = Err e ∨
     no_notifications (se_client_trust_watch env) "trust" e).

(** What makes setting up the server side fail. *)
Definition server_failure (env : SetupEnv) (fs : Files) (config : ReductionConfig)
    (provision : AcmeTlsConfig → World → Result unit * World) (w : World) (e : ReductionError) : Prop :=
  let policy := li_client_auth (listen config) in
  (builds_verifier policy = true ∧ no_notifications (se_trust_watch env) "trust" e) ∨
  match tls_server (tls config) with
  | Manual i =>
      build_server_config_for_policy fs (ti_cert_path i) (ti_key_path i) (ti_ca_cert_path i) (ti_crl_path i) policy = Err e ∨
      no_notifications (se_cert_watch env) "cert" e
  | Config.Acme acme =>
      (∃ ca, ac_ca_cert_path acme = Some ca ∧ verifier_for_policy fs ca None policy = Err e) ∨
      (provision acme w).1 = Err e
  end.

Lemma client_err env fs config e :
  config_valid config → build_client_tls env fs config = Err e → client_failure env fs config e.
Proof.
  intros (_ & _ & _ & _ & _ & Hid & _). unfold build_client_tls, client_failure, config_needs_client_tls.
  destruct (existsb _ (c_backends config)) eqn:Hneeds; [|done]. cbn [negb].
  destruct (tls_client (tls config)) as [i|].
  - intros Hb. exists i. split_and!; [done|done|]. destruct (build_client_config _ _ _ _) as [c|] eqn:Hc; cbn in Hb.
    + right. destruct (TrustWatcher_new _ _) eqn:Hw; [done|]. injection Hb as <-. by apply warn_watcher_err in Hw.
    + left. by injection Hb as <-.
  - apply existsb_exists in Hneeds as (b & Hb%list_elem_of_In & Hn). by rewrite (Hid eq_refl b Hb) in Hn.
Qed.

Lemma trust_watcher_err env c paths e :
  build_server_trust_watcher env c paths = Err e →
  sc_client_auth c ≠ NoClientAuth ∧ no_notifications (se_trust_watch env) "trust" e.
Proof.
  unfold build_server_trust_watcher. destruct (sc_client_auth c); [done|].
  destruct (TrustWatcher_new _ _) eqn:Hw; [done|]. intros [= <-]. split; [done|]. by apply warn_watcher_err in Hw.
Qed.

Lemma manual_verifies fs cert key ca crl policy c :
  build_server_config_for_policy fs cert key ca crl policy = Ok c → sc_client_auth c.1 ≠ NoClientAuth → builds_verifier policy = true.
Proof.
  unfold build_server_config_for_policy. intros (r & _ & Hc)%result_bind_ok. destruct (builds_verifier policy); [done|].
  by injection Hc as <-.
Qed.

Lemma acme_verifies fs ca policy c :
  build_acme_server_config_for_policy fs ca policy = Ok c → sc_client_auth c ≠ NoClientAuth → builds_verifier policy = true.
Proof. unfold build_acme_server_config_for_policy. destruct (builds_verifier policy); [done|]. by intros [= <-]. Qed.

Lemma server_err env fs config resolver provision w e w' :
  config_valid config → build_server_tls env fs config resolver provision w = (Err e, w') →
  server_failure env fs config provision w e.
Proof.
  intros (_ & _ & _ & _ & _ & _ & Hacme & _). unfold build_server_tls, server_failure, build_manual_server_tls, build_acme_server_tls.
  destruct (tls_server (tls config)) as [i|acme] eqn:Hs.
  - destruct (build_server_config_for_policy _ _ _ _ _ _) as [[c r]|] eqn:Hc; cbn; [|intros [= <- _]; auto].
    destruct (CertWatcher_new _ _) as [cw|e'] eqn:Hw; cbn.
    + destruct (build_server_trust_watcher _ _ _) as [|e'] eqn:Ht; cbn; [done|]. intros [= <- _].
      apply trust_watcher_err in Ht as [Hv Hn]. left. split; [|done]. by eapply (manual_verifies _ _ _ _ _ _ (c, r)).
    + intros [= <- _]. right; right. by apply warn_watcher_err in Hw.
  - destruct (build_acme_server_config_for_policy _ _ _) as [c|e'] eqn:Hc; cbn.
    + destruct (build_server_trust_watcher _ _ _) as [|e'] eqn:Ht; cbn.
      * destruct (provision acme w) as [[]]; [done|]. intros [= <- _]. auto.
      * intros [= <- _]. apply trust_watcher_err in Ht as [Hv Hn]. left. split; [|done]. by eapply acme_verifies.
    + intros [= <- _]. right; left. apply acme_config_err in Hc; [done|]. by apply Hacme.
Qed.

(** C29. A validated configuration never trips over its own TLS sections: when the set-up of metrics,
    watchers and TLS fails, the metrics exporter could not be built; or the watch of the
    configuration file could not be set up; or the files of the client identity, of the server
    certificate or of the inbound trust could not be loaded; or the system has no file
    notifications for a watcher that is needed; or the initial ACME provisioning failed.  The
    two errors that startup reserves for configurations validation should have rejected are
    not among them. *)
Theorem validated_tls_setup env fs config_path config provision w e w' :
  validate config = Ok () → build_tls_setup env fs config_path config provision w = (Err e, w') →
  (∃ endpoint m, metrics_endpoint config = Some endpoint ∧ se_exporter env endpoint = Err m ∧
     e = Error.Config ("OTLP exporter: " +:+ m)) ∨
  ConfigWatcher_new env config_path = Err e ∨
  client_failure env fs config e ∨
  server_failure env fs config provision w e.
Proof.
  intros Hvalid%validate_ok_iff. unfold build_tls_setup, init_metrics.
  destruct (metrics_endpoint config) as [endpoint|]; [destruct (se_exporter env endpoint) as [|m] eqn:Hm|]; cbn;
    [|intros [= <- _]; left; eauto|];
    (destruct (ConfigWatcher_new env config_path); cbn; [|intros [= <- _]; by right; left]);
    (destruct (build_client_tls env fs config) as [cl|e'] eqn:Hcl; cbn;
       [|intros [= <- _]; right; right; left; by apply client_err]);
    (destruct (build_server_tls _ _ _ _ _ _) as [[s|e'] w1] eqn:Hs; [done|]); intros [= <- _];
    right; right; right; by eapply server_err.
Qed.

(** A deployment whose backends all speak cleartext sets up its client side whatever the files
    are: it reads none. *)
Lemma plaintext_reads_nothing env fs config :
  config_needs_client_tls config = false →
  build_client_tls env fs config = Ok {| ct_config := empty_client_config; ct_trust_watcher := None |}.
Proof. unfold build_client_tls. by intros ->. Qed.

(** ** The certificate watcher *)

Definition same_paths (r r' : ReloadingCertResolver) : Prop :=
  rcr_cert_path r' = rcr_cert_path r ∧ rcr_key_path r' = rcr_key_path r.

(** [r'] holds what [r] held, or a key loaded as a whole from one of the file systems. *)
Definition kept_or_loaded (fss : list Files) (r r' : ReloadingCertResolver) : Prop :=
  same_paths r r' ∧
  (rcr_inner r' = rcr_inner r ∨
   ∃ fs, fs ∈ fss ∧ build_certified_key fs (rcr_cert_path r) (rcr_key_path r) = Ok (rcr_inner r')).

Definition certs_ok (fss : list Files) (c c' : Certs) : Prop :=
  kept_or_loaded fss (ce_server c) (ce_server c') ∧
  match ce_client c, ce_client c' with
  | Some r, Some r' => kept_or_loaded fss r r'
  | None, None => True
  | _, _ => False
  end.

(** A pair that waits to be swapped in was loaded for its own side. *)
Definition pair_ok (fss : list Files) (c : Certs) (o : CertOp) : Prop :=
  match o with
  | LoadPair _ => True
  | SwapPair side k => ∃ r fs, side_resolver side c = Some r ∧ fs ∈ fss ∧
                         build_certified_key fs (rcr_cert_path r) (rcr_key_path r) = Ok k
  end.

Lemma side_paths fss c c' side r' :
  certs_ok fss c c' → side_resolver side c' = Some r' → ∃ r, side_resolver side c = Some r ∧ same_paths r r'.
Proof.
  intros [[Hp _] Hc]. destruct side; cbn.
  - intros [= <-]. eauto.
  - intros E. rewrite E in Hc. destruct (ce_client c) as [r|]; [|done]. destruct Hc as [? _]. eauto.
Qed.

Lemma cert_op_ok fss c fs o c' :
  fs ∈ fss → certs_ok fss c c' → pair_ok fss c o →
  certs_ok fss c (cert_op fs o c').2 ∧ Forall (pair_ok fss c) (option_list (cert_op fs o c').1).
Proof.
  intros Hfs Hc Ho. destruct o as [side|[] k]; cbn.
  - split; [done|]. destruct (side_resolver side c') as [r'|] eqn:Hr; cbn; [|done].
    destruct (build_certified_key fs _ _) eqn:Hb; cbn; [|done]. apply Forall_singleton.
    destruct (side_paths _ _ _ _ _ Hc Hr) as (r & Hr0 & Hp1 & Hp2). rewrite Hp1, Hp2 in Hb. by exists r, fs.
  - split; [|done]. destruct Hc as [[Hp _] Hcl], Ho as (r & fs' & [= <-] & Hin & Hk). split; [|done].
    split; [done|]. right. by exists fs'.
  - split; [|done]. destruct Hc as [Hs Hcl], Ho as (r & fs' & Hr & Hin & Hk). cbn in Hr. split; [done|]. cbn.
    rewrite Hr in *. destruct (ce_client c'); [|done]. cbn. destruct Hcl as [Hp _]. split; [done|]. right. by exists fs'.
Qed.

(** Whatever happens to the certificate files, and however the callbacks of the watcher overlap,
    the listener and the connection pool present a key that is whole: the one they started
    with, or a pair that one load read from both of its files and that fitted together; a
    failed reload leaves the other side and the previous key alone. *)
Theorem certs_always_whole c steps fss : readings steps ⊆ fss → certs_ok fss c (wg_value (cert_watcher c steps)).
Proof.
  intros Hin. apply (watch_invariant _ _ _ (certs_ok fss c) (pair_ok fss c) fss); [| |done| |done].
  - intros ev a _. unfold on_cert_event. apply Forall_app. split; [by destruct (affects _ _); repeat constructor|].
    destruct (ce_client a) as [r|]; [|done]. by destruct (affects _ _); repeat constructor.
  - intros fs o a Hfs Ha Ho. by apply cert_op_ok.
  - unfold certs_ok, kept_or_loaded, same_paths. cbn. destruct (ce_client c); naive_solver.
Qed.
End good.

(** ** First start

    [run] sets up TLS, and with it provisions the initial certificate, before [serve_transport]
    binds the listener that answers challenges.  [ca] is what the CA answers, given whether
    anything listens at the domain when it validates. *)
Section first_start.
  Context `{IpNetLib, AcmeJson, Pki, TlsLib}.

Definition startup_tls (ca : bool → Provision) (now now' : Z) (env : SetupEnv) (fs : Files) (config_path : string)
    (config : ReductionConfig) (w : World) : Result TlsSetup * World :=
  build_tls_setup env fs config_path config (λ acme, provision_initial_cert acme now now' (ca false)) w.

Lemma unvalidated_order_fails config pv r : pv_ready pv ≠ Ok OrderReady → is_err (validate_order config pv r).1 = true.
Proof.
  intros Hr. unfold validate_order. destruct (acme_err _ _) as [azs|]; [|done].
  destruct (take_challenges azs r) as [[] r']; [|done]. cbn.
  destruct (pv_ready pv) as [[]|]; [by destruct Hr|done..].
Qed.

Lemma unvalidated_provision_fails config pv w : pv_ready pv ≠ Ok OrderReady → is_err (provision_cert config pv w).1 = true.
Proof.
  intros Hr. unfold provision_cert. destruct (load _ _); [|done].
  destruct (get_or_create_account _ _ _ _) as [[s|] w']; [|done].
  pose proof (unvalidated_order_fails config pv (wd_resolver w') Hr).
  by destruct (validate_order _ _ _) as [[] r].
Qed.

(** A first start under ACME cannot succeed: with no certificate cached, and a CA that does not
    find an order ready when nothing listens at the domain, startup fails before the listener
    that would have answered the challenge is bound. *)
Theorem first_acme_start_fails ca now now' env fs config_path config acme w :
  tls_server (tls config) = Config.Acme acme → load_cached_cert acme (wd_custody w) = None →
  pv_ready (ca false) ≠ Ok OrderReady →
  is_err (startup_tls ca now now' env fs config_path config w).1 = true.
Proof.
  intros Hs Hc Hr. unfold startup_tls, build_tls_setup, build_server_tls, build_acme_server_tls.
  destruct (init_metrics _ _); [|done]. cbn. destruct (ConfigWatcher_new _ _); [|done]. cbn.
  destruct (build_client_tls env fs config) as [cl|]; [|done]. cbn. rewrite Hs.
  destruct (build_acme_server_config_for_policy _ _ _); [|done]. cbn.
  destruct (build_server_trust_watcher _ _ _); [|done]. cbn. unfold provision_initial_cert. rewrite Hc.
  pose proof (unvalidated_provision_fails acme (ca false) w Hr).
  by destruct (provision_cert acme (ca false) w) as [[] w'].
Qed.
End first_start.

(** ** Witnesses *)

#[local] Instance demo_pki : Pki := {|
  certificate_params _ := Ok ();
  self_signed _ _ _ := Ok "self";
  serialize_request _ _ := Ok "csr";
  serialize_pem k := k;
  any_ecdsa_type k := Ok k;
  pem_certs c := if decide (c = "") then Ok [] else Ok [c];
  pem_key k := Ok k;
  keys_match _ _ := Consistent;
  not_after _ := Ok 7776000;
|}.

#[local] Instance demo_tls_lib : TlsLib := {|
  tl_provider := true;
  tl_pem_crls c := if decide (c = "") then Ok [] else Ok [c];
  tl_root_add _ := Ok ();
  tl_from_der certs key := Ok {| ck_cert := certs; ck_key := key |};
  tl_client_builder _ _ := Ok ();
  tl_server_builder _ := Ok ();
|}.

(** Every file holds its own path and a version; or every file has been truncated. *)
Definition demo_files (version : string) : Files :=
  λ path, if decide (path = "gone") then Err "not found" else Ok (path +:+ version).
Definition demo_truncated : Files := λ path, Ok "".

(** A verifier with a revocation list. *)
Definition demo_revoking (version : string) : ClientVerifier :=
  {| cv_roots := ["ca" +:+ version]; cv_crls := ["crl" +:+ version]; cv_enforce_expiration := true;
     cv_allow_unauthenticated := false |}.
Definition demo_reloading : ReloadingClientVerifier :=
  {| rcv_inner := demo_revoking "1"; rcv_ca_cert_path := "ca"; rcv_crl_path := Some "crl"; rcv_allow_unauthenticated := false |}.

(** The callback for one event: it begins, loads from [fs], and swaps. *)
Definition demo_event (path : string) : list WatchStep :=
  [Fs (Notified (Ok {| fe_kind := Modify; fe_paths := [path] |})); Fs (Woken 0); Fs (Called 0)].
Definition demo_reload (t : nat) (fs : Files) : list WatchStep := [Runs t fs; Runs t fs].

Definition demo_trust_steps : list WatchStep :=
  demo_event "ca" ++ demo_reload 0 (demo_files "2") ++ demo_event "crl" ++ demo_reload 1 demo_truncated.

Lemma trust_last_known_good_witness :
  (∃ fs1, fs1 ∈ demo_files "1" :: readings demo_trust_steps ∧
     load_trust fs1 "ca" (Some "crl") false = Ok (watched ["ca"; "crl"] demo_reloading demo_trust_steps) ∧
     crls_of fs1 (Some "crl") (watched ["ca"; "crl"] demo_reloading demo_trust_steps)) ∧
  watched ["ca"; "crl"] demo_reloading demo_trust_steps = demo_revoking "2".
Proof.
  split; [|vm_compute; reflexivity].
  refine (proj1 (trust_last_known_good (demo_files "1") "ca" (Some "crl") false demo_reloading (demo_files "1") "ca"
    {| rsv_inner := {| sv_roots := ["ca1"] |}; rsv_ca_cert_path := "ca" |} ["ca"; "crl"] demo_trust_steps [] _ _));
    vm_compute; reflexivity.
Defined.

(** Callbacks overlap: the one of the first event has loaded the old files when the file is
    replaced; the one of the second loads and swaps the new ones in; the first then swaps the
    old ones back, and nothing is left to correct it. *)
Example overtaken_reload_stale :
  let steps := demo_event "ca" ++ [Runs 0 (demo_files "1")] ++ demo_event "ca" ++ demo_reload 1 (demo_files "2") ++
               [Runs 0 (demo_files "2")] in
  let w := trust_watcher ["ca"; "crl"] demo_reloading steps in
  watched ["ca"; "crl"] demo_reloading steps = demo_revoking "1" ∧ wg_threads w = [[]; []] ∧
  db_asleep (wg_debouncer w) = [] ∧ db_chosen (wg_debouncer w) = [].
Proof. vm_compute. done. Qed.

Definition demo_acme_world : World :=
  {| wd_custody := {| cu_file := None; cu_env _ := None; cu_stored := [] |}; wd_resolver := AcmeCertResolver_new;
     wd_accounts := []; wd_renewals := 0; wd_failures := 0 |}.

Definition demo_resolver (version : string) : ReloadingCertResolver :=
  {| rcr_inner := {| ck_cert := ["s.crt" +:+ version]; ck_key := "s.key" +:+ version |};
     rcr_cert_path := "s.crt"; rcr_key_path := "s.key" |}.

Definition demo_verifier : ReloadingClientVerifier :=
  {| rcv_inner := {| cv_roots := ["ca.crt1"]; cv_crls := []; cv_enforce_expiration := false; cv_allow_unauthenticated := false |};
     rcv_ca_cert_path := "ca.crt"; rcv_crl_path := None; rcv_allow_unauthenticated := false |}.

Definition demo_watch_env (init : result string unit) : WatchEnv :=
  {| we_init := init; we_parent := λ _, Some "/etc"; we_watch := λ _, Ok () |}.
Definition demo_setup_env (init : result string unit) : SetupEnv :=
  {| se_exporter := λ _, Ok (); se_config_watch := demo_watch_env (Ok ()); se_client_trust_watch := demo_watch_env (Ok ());
     se_cert_watch := demo_watch_env init; se_trust_watch := demo_watch_env (Ok ()) |}.

Definition demo_watcher (context : string) (triggers : list string) : Watcher :=
  {| wa_context := context; wa_triggers := triggers; wa_dirs := ["/etc"] |}.

Definition demo_server : ServerTls :=
  {| st_config := {| sc_client_auth := VerifyClient demo_verifier; sc_resolver := FromFiles (demo_resolver "1");
                     sc_alpn_protocols := ALPN_HTTP |};
     st_challenge_config := None; st_cert_watcher := Some (demo_watcher "cert" ["s.crt"; "s.key"; "s.crt"; "s.key"]);
     st_trust_watcher := Some (demo_watcher "trust" ["ca.crt"]); st_renewal := false |}.

Definition demo_client : ClientTls :=
  {| ct_config := {| cc_trust := VerifyServer {| rsv_inner := {| sv_roots := ["ca.crt1"] |}; rsv_ca_cert_path := "ca.crt" |};
                     cc_resolver := Some (demo_resolver "1"); cc_alpn_protocols := ALPN_HTTP |};
     ct_trust_watcher := Some (demo_watcher "trust" ["ca.crt"]) |}.

Definition demo_setup : TlsSetup :=
  {| ts_config_watcher := demo_watcher "config" ["c.toml"]; ts_client := demo_client; ts_server := demo_server |}.

Definition demo_provision (acme : AcmeTlsConfig) (w : World) : Result unit * World := (Ok (), w).

Lemma policy_enforced_witness :
  accepts_anonymous (reloaded_config [demo_truncated; demo_files "2"] (st_config demo_server)) = false.
Proof.
  refine (proj1 (policy_enforced (demo_setup_env (Ok ())) (demo_files "1") "c.toml" demo_new demo_provision demo_acme_world
    demo_setup demo_acme_world [demo_truncated; demo_files "2"] _)).
  vm_compute. reflexivity.
Defined.

Lemma validated_tls_setup_witness :
  (build_tls_setup (demo_setup_env (Err "no inotify")) (demo_files "1") "c.toml" demo_new demo_provision demo_acme_world).1 =
    Err (Error.Config "cert watcher init: no inotify") ∧
  ((∃ endpoint m, metrics_endpoint demo_new = Some endpoint ∧ Ok () = Err m ∧
      Error.Config "cert watcher init: no inotify" = Error.Config ("OTLP exporter: " +:+ m)) ∨
   ConfigWatcher_new (demo_setup_env (Err "no inotify")) "c.toml" = Err (Error.Config "cert watcher init: no inotify") ∨
   client_failure (demo_setup_env (Err "no inotify")) (demo_files "1") demo_new (Error.Config "cert watcher init: no inotify") ∨
   server_failure (demo_setup_env (Err "no inotify")) (demo_files "1") demo_new demo_provision demo_acme_world
     (Error.Config "cert watcher init: no inotify")).
Proof.
  split; [vm_compute; reflexivity|].
  apply (validated_tls_setup (demo_setup_env (Err "no inotify")) (demo_files "1") "c.toml" demo_new demo_provision
    demo_acme_world _ demo_acme_world).
  - vm_compute. reflexivity.
  - vm_compute. reflexivity.
Defined.

Definition demo_certs : Certs :=
  {| ce_server := demo_resolver "1";
     ce_client := Some {| rcr_inner := {| ck_cert := ["c.crt1"]; ck_key := "c.key1" |};
                          rcr_cert_path := "c.crt"; rcr_key_path := "c.key" |} |}.

(** Both certificates are replaced within one debounce window. *)
Definition demo_rotation : list WatchStep :=
  [Fs (Notified (Ok {| fe_kind := Modify; fe_paths := ["s.crt"] |})); Fs (Notified (Ok {| fe_kind := Modify; fe_paths := ["c.crt"] |}));
   Fs (Woken 0); Fs (Woken 0); Fs (Called 0)] ++ demo_reload 0 (demo_files "2").

Lemma certs_always_whole_witness : certs_ok [demo_files "2"] demo_certs (wg_value (cert_watcher demo_certs demo_rotation)).
Proof. apply certs_always_whole. change (readings demo_rotation) with [demo_files "2"; demo_files "2"]. set_solver. Defined.

(** The server certificate and the client certificate replaced together, with both files in
    place and no worker left: only the side of the last event has been reloaded, and the
    listener goes on serving the old certificate. *)
Example rotated_together_one_stale :
  let w := cert_watcher demo_certs demo_rotation in
  db_asleep (wg_debouncer w) = [] ∧ db_chosen (wg_debouncer w) = [] ∧ wg_threads w = [[]] ∧
  rcr_inner (ce_server (wg_value w)) = rcr_inner (demo_resolver "1") ∧
  rcr_inner <$> ce_client (wg_value w) = Some {| ck_cert := ["c.crt2"]; ck_key := "c.key2" |}.
Proof. vm_compute. done. Qed.

(** A revocation list truncated to nothing is read as no list: the verifier that replaces the
    enforcing one checks no revocation at all. *)
Example truncated_crl_disables_revocation :
  let fs crl := λ path : string, if decide (path = "crl.pem") then Ok crl else Ok "anchor" in
  cv_crls <$> ok_of (load_trust (fs "revoked") "ca" (Some "crl.pem") false) = Some ["revoked"] ∧
  cv_crls <$> ok_of (load_trust (fs "") "ca" (Some "crl.pem") false) = Some [].
Proof. vm_compute. done. Qed.
