(* ===== verification/TlsApi.v ===== *)
(** * TlsApi: the verifiers a handshake sees, and the builders kept for library users

    [src/tls/reload/client_verifier.rs] and [server_verifier.rs] hand rustls one object for the
    life of the process, which passes every question on to the verifier it holds at that
    moment.  [src/tls/certs.rs] also has builders that startup does not use: a server with fixed
    trust, the two servers with mandatory client certificates, and a client whose key is not in
    a file. *)

From S2P Require Import Prelude Text Config Error Http Net Acl Handler Reload Lifecycle Acme Tls.
Local Open Scope Z_scope.

Inductive TlsVersion := Tls12 | Tls13.

(** What a [WebPkiClientVerifier] and a [WebPkiServerVerifier] answer: about a chain, about a
    handshake signature of either protocol version, and about themselves. *)
Class WebPki := {
  wp_verify_client : ClientVerifier → string → list string → Z → result string unit;
  wp_verify_server : ServerVerifier → string → list string → string → string → Z → result string unit;
  wp_client_signature : ClientVerifier → TlsVersion → string → string → string → result string unit;
  wp_server_signature : ServerVerifier → TlsVersion → string → string → string → result string unit;
  wp_client_schemes : ClientVerifier → list Z;
  wp_server_schemes : ServerVerifier → list Z;
  wp_client_auth_mandatory : ClientVerifier → bool;
}.

(** [allow_unauthenticated] is documented to admit a client without a certificate; without it
    the builder makes one mandatory. *)
Class WebPkiLaws `{WebPki} := {
  wp_mandatory v : wp_client_auth_mandatory v = negb (cv_allow_unauthenticated v);
}.

Section api.
  Context `{IpNetLib, Pki, TlsLib, WebPki}.

(** ** Delegation *)

Definition verify_client_cert (r : ReloadingClientVerifier) (end_entity : string) (intermediates : list string) (now : Z)
    : result string unit :=
  wp_verify_client (rl_current r) end_entity intermediates now.

Definition verify_client_signature (r : ReloadingClientVerifier) (version : TlsVersion) (message cert dss : string)
    : result string unit :=
  wp_client_signature (rl_current r) version message cert dss.

Definition verify_server_cert (r : ReloadingServerVerifier) (end_entity : string) (intermediates : list string)
    (server_name ocsp_response : string) (now : Z) : result string unit :=
  wp_verify_server (rl_current r) end_entity intermediates server_name ocsp_response now.

Definition verify_server_signature (r : ReloadingServerVerifier) (version : TlsVersion) (message cert dss : string)
    : result string unit :=
  wp_server_signature (rl_current r) version message cert dss.

Definition supported_client_schemes (r : ReloadingClientVerifier) : list Z := wp_client_schemes (rl_current r).
Definition supported_server_schemes (r : ReloadingServerVerifier) : list Z := wp_server_schemes (rl_current r).

Definition client_auth_mandatory (r : ReloadingClientVerifier) : bool := wp_client_auth_mandatory (rl_current r).

(** [ResolvesServerCert] and [ResolvesClientCert] for the resolver. *)
Definition resolve (r : ReloadingCertResolver) : option CertifiedKey := Some (rl_current r).
Definition has_certs (r : ReloadingCertResolver) : bool := true.

(** ** Builders *)

Record StaticServerConfig := {
  ss_verifier : ClientVerifier;
  ss_resolver : ReloadingCertResolver;
  ss_alpn_protocols : list string;
}.

Definition build_server_config (fs : Files) (cert_path key_path ca_cert_path : string) : Result StaticServerConfig :=
  resolver ← ReloadingCertResolver_new fs cert_path key_path;
  roots ← load_ca_certs fs ca_cert_path;
  _ ← config_of "failed to build client verifier" (tl_client_builder roots []);
  Ok {| ss_verifier := {| cv_roots := roots; cv_crls := []; cv_enforce_expiration := false; cv_allow_unauthenticated := false |};
        ss_resolver := resolver; ss_alpn_protocols := ALPN_HTTP |}.

(** [verifier.ok_or_else(|| Config("required mTLS produced no client verifier"))] *)
Definition required_verifier (c : ServerConfig) : Result (ServerConfig * ReloadingClientVerifier) :=
  match sc_client_auth c with
  | VerifyClient v => Ok (c, v)
  | NoClientAuth => Err (Error.Config "required mTLS produced no client verifier")
  end.

Definition build_server_config_reloadable (fs : Files) (cert_path key_path ca_cert_path : string) (crl_path : option string)
    : Result (ServerConfig * ReloadingClientVerifier) :=
  '(c, _) ← build_server_config_for_policy fs cert_path key_path ca_cert_path crl_path Required; required_verifier c.

Definition build_acme_server_config (fs : Files) (ca_cert_path : string) : Result (ServerConfig * ReloadingClientVerifier) :=
  c ← build_acme_server_config_for_policy fs (Some ca_cert_path) Required; required_verifier c.

Definition build_client_config_with_resolver {R} (resolver : R) (fs : Files) (ca_cert_path : string)
    : Result (R * ReloadingServerVerifier * list string) :=
  verifier ← ReloadingServerVerifier_new fs ca_cert_path; Ok (resolver, verifier, ALPN_HTTP).

(** ** What a handshake sees *)

(** After any reloads a chain and a signature are judged by the verifier of the last files that
    could be read as a whole, which trusts at least one root, and a client certificate is
    demanded exactly under the policy of the start. *)
Lemma handshake_sees_last_good `{!WebPkiLaws} fs fss ca crl allow r :
  new_with_policy fs ca crl allow = Ok r →
  client_auth_mandatory (reloads fss r) = negb allow ∧
  ∃ v fs', fs' ∈ fs :: fss ∧ load_trust fs' ca crl allow = Ok v ∧ cv_roots v ≠ [] ∧
    (∀ leaf chain now, verify_client_cert (reloads fss r) leaf chain now = wp_verify_client v leaf chain now) ∧
    (∀ version m c d, verify_client_signature (reloads fss r) version m c d = wp_client_signature v version m c d).
Proof.
  intros Hr. split; [unfold client_auth_mandatory; rewrite wp_mandatory; cbn; by rewrite (new_with_policy_allow _ fss _ _ _ _ Hr)|].
  pose proof (client_reloads _ fss _ _ _ _ Hr) as Hl. destruct (loaded_at _ _ _ (eq_sym Hl)) as (fs' & Hin & Hv).
  exists (rcv_inner (reloads fss r)), fs'. split_and!; [done|done|by apply load_trust_sound in Hv as []|done..].
Qed.

(** ** The builders agree *)

(** Required client certificates always come with a verifier: the error the code guards against
    is unreachable. *)
Lemma required_builds fs cert key ca crl c :
  build_server_config_for_policy fs cert key ca crl Required = Ok c →
  ∃ v r, c = ({| sc_client_auth := VerifyClient v; sc_resolver := FromFiles r; sc_alpn_protocols := ALPN_HTTP |}, r) ∧
    ReloadingClientVerifier_new fs ca crl = Ok v ∧ ReloadingCertResolver_new fs cert key = Ok r.
Proof. intros (r & Hr & (v & Hv & <-%(inj Ok))%result_bind_ok)%result_bind_ok. by exists v, r. Qed.

(** The server with fixed trust and the reloadable one without a revocation list start with the
    same trust, the same certificate and the same protocols, and fail on the same files. *)
Theorem static_reloadable_equiv fs cert key ca s :
  build_server_config fs cert key ca = Ok s ↔
  ∃ c v, build_server_config_reloadable fs cert key ca None = Ok (c, v) ∧ rl_current v = ss_verifier s ∧
    sc_resolver c = FromFiles (ss_resolver s) ∧ sc_alpn_protocols c = ss_alpn_protocols s.
Proof.
  split.
  - unfold build_server_config. intros (r & Hr & (roots & Hroots & (u & Hu & <-%(inj Ok))%result_bind_ok)%result_bind_ok)%result_bind_ok.
    eexists _, _. unfold build_server_config_reloadable, build_server_config_for_policy, verifier_for_policy,
      ReloadingClientVerifier_new, new_with_policy, load_trust, build_client_verifier. cbn.
    rewrite Hr, Hroots. cbn. rewrite Hu. cbn. done.
  - intros (c & v & (c' & (v' & r & -> & Hv & Hr)%required_builds & [= <- <-])%result_bind_ok & Hcur & [= Hres] & Halpn).
    unfold build_server_config. rewrite Hr. unfold ReloadingClientVerifier_new, new_with_policy, load_trust, build_client_verifier in Hv.
    apply result_bind_ok in Hv as (w & (roots & Hroots & (crls & [= <-] & (u & Hu & <-%(inj Ok))%result_bind_ok)%result_bind_ok)%result_bind_ok & <-%(inj Ok)).
    cbn. rewrite Hroots. cbn. rewrite Hu. cbn in *. destruct s; cbn in *. by subst.
Qed.

(** ** An emptied revocation list *)

(** A revocation list in which no list is found, such as a file truncated by a write in
    progress, is read as no list at all: the reload succeeds and the verifier stops checking
    revocation, where an empty CA bundle would have kept the previous trust. *)
Theorem emptied_crl_disables_revocation fs fs' ca crl allow r roots bytes :
  new_with_policy fs ca (Some crl) allow = Ok r → load_ca_certs fs' ca = Ok roots → fs' crl = Ok bytes →
  tl_pem_crls bytes = Ok [] → is_ok (tl_client_builder roots []) = true →
  (reload fs' r).1 = Ok () ∧ cv_crls (rl_current (reload fs' r).2) = [].
Proof.
  intros (v & _ & <-%(inj Ok))%result_bind_ok Hroots Hfile Hpem Hb. unfold reload. cbn.
  unfold load_trust, load_crls. rewrite Hroots. cbn. rewrite Hfile. cbn. rewrite Hpem. cbn.
  unfold build_client_verifier. by destruct (tl_client_builder roots []).
Qed.
End api.

(** ** A concrete run *)

#[local] Existing Instances Tls.demo_pki Tls.demo_tls_lib.

(** Every file holds its own path, but the revocation list is being rewritten. *)
Definition demo_rewriting : Files := λ path, if decide (path = "crl") then Ok "" else demo_files "2" path.

(** A verifier that refuses revoked certificates accepts them after one reload at the wrong
    moment, and the reload reports success. *)
Example revocation_lost :
  let start := new_with_policy (demo_files "1") "ca" (Some "crl") false in
  (v ← start; Ok (cv_crls (rl_current v))) = Ok ["crl1"] ∧
  (v ← start; Ok ((reload demo_rewriting v).1, cv_crls (rl_current (reload demo_rewriting v).2))) = Ok (Ok (), []).
Proof. by vm_compute. Qed.
