(* ===== verification/QuicListener.v ===== *)
(** * QuicListener: [src/transport/quic.rs] and [src/transport/quic_listener.rs]

    The QUIC front door: the bounded handshakes, the connections with the identity each has
    proved, the streams waiting for their type byte, and the two channels they are routed to.
    The tasks of the listener are interleaved steps over its shared state. *)

From S2P Require Import Prelude Error Wire Net Identity Queue.
Local Open Scope Z_scope.

Definition STREAM_TYPE_HTTP : Z := 1.
Definition STREAM_TYPE_RAW : Z := 2.
Definition MAX_CONCURRENT_PENDING_HANDSHAKES : Z := 256.
Definition MAX_CONCURRENT_PENDING_STREAM_READS : Z := 64.
Definition DATA_IDLE_TIMEOUT_SECS : Z := 30.
Definition DATA_MAX_BIDI_STREAMS : Z := 100.
Definition DATA_UNI_STREAMS : Z := 0.
Definition DATA_RECEIVE_WINDOW_BYTES : Z := 8 * 1024 * 1024.

(** The halves of a stream the transport hands out: the connection they belong to, and the bytes
    the peer sends. *)
Record BiStream := {
  bi_conn : nat;
  bi_recv : list Z;
}.

Record QuicStream := {
  qs_halves : BiStream;
  qs_peer_identity : option PeerIdentity;
}.

Definition QuicStream_new (halves : BiStream) : QuicStream := {| qs_halves := halves; qs_peer_identity := None |}.
Definition with_peer_identity (identity : option PeerIdentity) (s : QuicStream) : QuicStream :=
  {| qs_halves := qs_halves s; qs_peer_identity := identity |}.

(** What the transport allows a peer. *)
Record TransportConfig := {
  tr_idle_timeout_secs : Z;
  tr_max_bidi_streams : Z;
  tr_max_uni_streams : Z;
  tr_receive_window : Z;
}.

(** [crypto] is the conversion of the TLS configuration. *)
Definition build_quic_server_config (crypto : result string unit) : Result TransportConfig :=
  match crypto with
  | Err e => Err (Config ("QUIC crypto config: " +:+ e))
  | Ok _ => Ok {| tr_idle_timeout_secs := DATA_IDLE_TIMEOUT_SECS; tr_max_bidi_streams := DATA_MAX_BIDI_STREAMS;
                  tr_max_uni_streams := DATA_UNI_STREAMS; tr_receive_window := DATA_RECEIVE_WINDOW_BYTES |}
  end.

Section listener.
  Context `{Semaphore}.

(** A connection: its peer, its permits, and the streams whose type byte is awaited. *)
Record QuicConn := {
  qc_addr : SocketAddr;
  qc_identity : option PeerIdentity;
  qc_pending_reads : Sem;
  qc_reading : list BiStream;
  qc_open : bool;
}.

(** [ql_incoming] are the handshakes under way; [ql_proved] records what every completed
    handshake established, in the order of the connections they made. *)
Record QuicListener := {
  ql_capacity : Z;
  ql_pending_handshakes : Sem;
  ql_incoming : list SocketAddr;
  ql_conns : list QuicConn;
  ql_stream : list (QuicStream * SocketAddr);
  ql_raw_stream : list (QuicStream * SocketAddr);
  ql_proved : list (SocketAddr * option PeerIdentity);
}.

Definition bind_with_token (channel_capacity : Z) : QuicListener :=
  {| ql_capacity := channel_capacity; ql_pending_handshakes := sem_new MAX_CONCURRENT_PENDING_HANDSHAKES;
     ql_incoming := []; ql_conns := []; ql_stream := []; ql_raw_stream := []; ql_proved := [] |}.

Definition with_conns (l : QuicListener) (conns : list QuicConn) : QuicListener :=
  {| ql_capacity := ql_capacity l; ql_pending_handshakes := ql_pending_handshakes l; ql_incoming := ql_incoming l;
     ql_conns := conns; ql_stream := ql_stream l; ql_raw_stream := ql_raw_stream l; ql_proved := ql_proved l |}.
Definition with_channels (l : QuicListener) (http raw : list (QuicStream * SocketAddr)) : QuicListener :=
  {| ql_capacity := ql_capacity l; ql_pending_handshakes := ql_pending_handshakes l; ql_incoming := ql_incoming l;
     ql_conns := ql_conns l; ql_stream := http; ql_raw_stream := raw; ql_proved := ql_proved l |}.
Definition with_reads (c : QuicConn) (permits : Sem) (reading : list BiStream) : QuicConn :=
  {| qc_addr := qc_addr c; qc_identity := qc_identity c; qc_pending_reads := permits; qc_reading := reading;
     qc_open := qc_open c |}.

(** The accept arm: at the cap the incoming connection is ignored. *)
Definition accept_incoming (remote_addr : SocketAddr) (l : QuicListener) : QuicListener :=
  match sem_try_acquire (ql_pending_handshakes l) with
  | None => l
  | Some permits =>
      {| ql_capacity := ql_capacity l; ql_pending_handshakes := permits; ql_incoming := ql_incoming l ++ [remote_addr];
         ql_conns := ql_conns l; ql_stream := ql_stream l; ql_raw_stream := ql_raw_stream l; ql_proved := ql_proved l |}
  end.

(** The end of the handshake at position [i]: [None] when it failed or timed out, and otherwise
    what reading the peer's certificate answers.  The permit is released either way. *)
Definition establish_connection (i : nat) (outcome : option (result string PeerIdentity)) (l : QuicListener)
    : QuicListener :=
  match ql_incoming l !! i with
  | None => l
  | Some remote_addr =>
      let l := {| ql_capacity := ql_capacity l; ql_pending_handshakes := sem_release (ql_pending_handshakes l);
                  ql_incoming := delete i (ql_incoming l); ql_conns := ql_conns l; ql_stream := ql_stream l;
                  ql_raw_stream := ql_raw_stream l; ql_proved := ql_proved l |} in
      match outcome with
      | None => l
      | Some extracted =>
          let identity := match extracted with Ok id => Some id | Err _ => None end in
          let conn := {| qc_addr := remote_addr; qc_identity := identity;
                         qc_pending_reads := sem_new MAX_CONCURRENT_PENDING_STREAM_READS; qc_reading := []; qc_open := true |} in
          {| ql_capacity := ql_capacity l; ql_pending_handshakes := ql_pending_handshakes l; ql_incoming := ql_incoming l;
             ql_conns := ql_conns l ++ [conn]; ql_stream := ql_stream l; ql_raw_stream := ql_raw_stream l;
             ql_proved := ql_proved l ++ [(remote_addr, identity)] |}
      end
  end.

(** A bidirectional stream accepted on connection [c]: at the cap it is reset. *)
Definition accept_bi (c : nat) (recv : list Z) (l : QuicListener) : QuicListener :=
  match ql_conns l !! c with
  | None => l
  | Some conn =>
      if negb (qc_open conn) then l
      else
        match sem_try_acquire (qc_pending_reads conn) with
        | None => l
        | Some permits =>
            let halves := {| bi_conn := c; bi_recv := recv |} in
            with_conns l (<[c := with_reads conn permits (qc_reading conn ++ [halves])]> (ql_conns l))
        end
  end.

(** The connection ends; the streams already accepted go on. *)
Definition connection_ended (c : nat) (l : QuicListener) : QuicListener :=
  match ql_conns l !! c with
  | None => l
  | Some conn =>
      with_conns l (<[c := {| qc_addr := qc_addr conn; qc_identity := qc_identity conn;
                              qc_pending_reads := qc_pending_reads conn; qc_reading := qc_reading conn;
                              qc_open := false |}]> (ql_conns l))
  end.

(** [mpsc::Sender::send]: blocked while the channel is full, lost when its receiver is gone. *)
Definition send (capacity : Z) (receiver : bool) (x : QuicStream * SocketAddr) (q : list (QuicStream * SocketAddr))
    : option (list (QuicStream * SocketAddr)) :=
  if negb receiver then Some q else if zlen q <? capacity then Some (q ++ [x]) else None.

(** Where a stream goes by its type byte. *)
Definition route_stream (type : Z) (receiver : bool) (x : QuicStream * SocketAddr) (l : QuicListener)
    : option QuicListener :=
  if type =? STREAM_TYPE_HTTP then
    (λ q, with_channels l q (ql_raw_stream l)) <$> send (ql_capacity l) receiver x (ql_stream l)
  else if type =? STREAM_TYPE_RAW then
    (λ q, with_channels l (ql_stream l) q) <$> send (ql_capacity l) receiver x (ql_raw_stream l)
  else Some l.

(** The task of stream [k] of connection [c] runs to its end, [late] when the byte did not come
    in time; [None] while it is blocked on a full channel.  The permit is released at the end. *)
Definition handle_bi_stream (c k : nat) (late receiver : bool) (l : QuicListener) : option QuicListener :=
  match ql_conns l !! c with
  | None => None
  | Some conn =>
      match qc_reading conn !! k with
      | None => None
      | Some halves =>
          let finished l :=
            with_conns l (<[c := with_reads conn (sem_release (qc_pending_reads conn)) (delete k (qc_reading conn))]> (ql_conns l)) in
          if late then Some (finished l)
          else
            match read_exact 1 (bi_recv halves) with
            | (Ok (type :: _), recv) =>
                let halves := {| bi_conn := bi_conn halves; bi_recv := recv |} in
                let stream := with_peer_identity (qc_identity conn) (QuicStream_new halves) in
                finished <$> route_stream type receiver (stream, qc_addr conn) l
            | _ => Some (finished l)
            end
      end
  end.

(** The HTTP server and the raw relay take the next stream. *)
Definition recv_http (l : QuicListener) : QuicListener := with_channels l (tail (ql_stream l)) (ql_raw_stream l).
Definition recv_raw (l : QuicListener) : QuicListener := with_channels l (ql_stream l) (tail (ql_raw_stream l)).

Inductive quic_step : QuicListener → QuicListener → Prop :=
  | qs_incoming addr l : quic_step l (accept_incoming addr l)
  | qs_established i outcome l : quic_step l (establish_connection i outcome l)
  | qs_accept_bi c recv l : quic_step l (accept_bi c recv l)
  | qs_ended c l : quic_step l (connection_ended c l)
  | qs_stream c k late receiver l l' : handle_bi_stream c k late receiver l = Some l' → quic_step l l'
  | qs_recv_http l : quic_step l (recv_http l)
  | qs_recv_raw l : quic_step l (recv_raw l).

Inductive quic_reachable (capacity : Z) : QuicListener → Prop :=
  | quic_start : quic_reachable capacity (bind_with_token capacity)
  | quic_next l l' : quic_reachable capacity l → quic_step l l' → quic_reachable capacity l'.

(** ** What the listener keeps *)

(** The permits of connection [i] and the streams it waits for, with what its handshake proved. *)
Definition conn_ok (proved : list (SocketAddr * option PeerIdentity)) (i : nat) (c : QuicConn) : Prop :=
  available_permits (qc_pending_reads c) + zlen (qc_reading c) = MAX_CONCURRENT_PENDING_STREAM_READS ∧
  0 ≤ available_permits (qc_pending_reads c) ∧ proved !! i = Some (qc_addr c, qc_identity c) ∧
  Forall (λ h, bi_conn h = i) (qc_reading c).

(** A queued stream carries the address and the identity that the handshake of the connection
    it was opened on established. *)
Definition vouched (proved : list (SocketAddr * option PeerIdentity)) (q : list (QuicStream * SocketAddr)) : Prop :=
  ∀ s addr, (s, addr) ∈ q → proved !! bi_conn (qs_halves s) = Some (addr, qs_peer_identity s).

Definition listener_ok (capacity : Z) (l : QuicListener) : Prop :=
  ql_capacity l = capacity ∧
  (available_permits (ql_pending_handshakes l) + zlen (ql_incoming l) = MAX_CONCURRENT_PENDING_HANDSHAKES ∧
   0 ≤ available_permits (ql_pending_handshakes l)) ∧
  length (ql_proved l) = length (ql_conns l) ∧
  (∀ i c, ql_conns l !! i = Some c → conn_ok (ql_proved l) i c) ∧
  (zlen (ql_stream l) ≤ capacity ∧ zlen (ql_raw_stream l) ≤ capacity) ∧
  vouched (ql_proved l) (ql_stream l) ∧ vouched (ql_proved l) (ql_raw_stream l).

Section laws.
  Context `{!SemaphoreLaws}.

Lemma taken_permit (s s' : Sem) :
  sem_try_acquire s = Some s' → 0 ≤ available_permits s → available_permits s' = available_permits s - 1 ∧ 0 ≤ available_permits s'.
Proof.
  intros Ht Hs. pose proof (try_acquire_some _ _ Ht). split; [done|].
  assert (available_permits s ≠ 0) by (intros E; apply try_acquire_none in E; congruence). lia.
Qed.

Lemma conn_ok_more proved p i c : conn_ok proved i c → conn_ok (proved ++ [p]) i c.
Proof. intros (? & ? & ? & ?). split_and!; [done..| |done]. by apply lookup_app_l_Some. Qed.

Lemma vouched_more proved p q : vouched proved q → vouched (proved ++ [p]) q.
Proof. intros Hq s addr Hin. apply lookup_app_l_Some. by apply Hq. Qed.

Lemma incoming_ok cap addr l : listener_ok cap l → listener_ok cap (accept_incoming addr l).
Proof.
  intros Hl. pose proof Hl as (Hc & [Hp Hn] & Hlen & Hconns & Hq & Hv). unfold accept_incoming.
  destruct (sem_try_acquire _) as [s|] eqn:Ht; [|done]. destruct (taken_permit _ _ Ht Hn).
  unfold listener_ok. cbn. rewrite zlen_app. change (zlen [addr]) with 1. split_and!; (done || lia || apply Hq || apply Hv).
Qed.

Lemma established_ok cap i outcome l : listener_ok cap l → listener_ok cap (establish_connection i outcome l).
Proof.
  intros Hl. pose proof Hl as (Hc & [Hp Hn] & Hlen & Hconns & [Hq1 Hq2] & Hv1 & Hv2). unfold establish_connection.
  destruct (ql_incoming l !! i) as [addr|] eqn:Hi; [|done].
  assert (zlen (delete i (ql_incoming l)) = zlen (ql_incoming l) - 1) as Hdel.
  { unfold zlen. rewrite length_delete by done. apply lookup_lt_Some in Hi. lia. }
  destruct outcome as [extracted|]; unfold listener_ok; cbn; rewrite available_release, Hdel.
  - split_and!; try (done || lia || by apply vouched_more); [by rewrite !length_app, Hlen|].
    intros j c [Hj|[Hj Hc']]%lookup_app_Some; [by apply conn_ok_more, Hconns|].
    apply list_lookup_singleton_Some in Hc' as [Hj' <-]. assert (j = length (ql_proved l)) as -> by lia.
    unfold conn_ok. cbn. rewrite available_new, list_lookup_middle by done. split_and!; done.
  - split_and!; (done || lia).
Qed.

Lemma conns_ok cap l c conn :
  listener_ok cap l → conn_ok (ql_proved l) c conn → listener_ok cap (with_conns l (<[c := conn]> (ql_conns l))).
Proof.
  intros (Hc & Hp & Hlen & Hconns & Hq) Hconn. do 2 (split; [done|]). split; [cbn; by rewrite length_insert|]. split; [|done].
  intros i x [(-> & -> & _)|[_ Hx]]%list_lookup_insert_Some; [done|]. by apply Hconns.
Qed.

Lemma conn_at cap l c conn : listener_ok cap l → ql_conns l !! c = Some conn → conn_ok (ql_proved l) c conn.
Proof. intros (_ & _ & _ & Hconns & _). apply Hconns. Qed.

Lemma accept_bi_ok cap c recv l : listener_ok cap l → listener_ok cap (accept_bi c recv l).
Proof.
  intros Hl. unfold accept_bi. destruct (ql_conns l !! c) as [conn|] eqn:Hc; [|done].
  destruct (negb _); [done|]. destruct (sem_try_acquire _) as [s|] eqn:Ht; [|done].
  destruct (conn_at _ _ _ _ Hl Hc) as (Hp & Hn & Hi & Hr). destruct (taken_permit _ _ Ht Hn).
  apply conns_ok; [done|]. unfold conn_ok. cbn. rewrite zlen_app. cbn [zlen]. change (zlen [_]) with 1.
  split_and!; try (done || lia). apply Forall_app. split; [done|]. by apply Forall_singleton.
Qed.

Lemma send_ok cap receiver x q q' proved :
  send cap receiver x q = Some q' → zlen q ≤ cap → vouched proved q → proved !! bi_conn (qs_halves x.1) = Some (x.2, qs_peer_identity x.1) →
  zlen q' ≤ cap ∧ vouched proved q'.
Proof.
  unfold send. intros Hs Hq Hv Hx. destruct receiver; cbn in Hs; [|by injection Hs as <-].
  destruct (Z.ltb_spec (zlen q) cap) as [Hlt|]; [|done]. injection Hs as <-. split.
  - rewrite zlen_app. change (zlen [x]) with 1. lia.
  - intros s addr [?|Hin]%elem_of_app; [by apply Hv|]. apply list_elem_of_singleton in Hin as <-. done.
Qed.

Lemma route_ok cap type receiver x l l' :
  listener_ok cap l → ql_proved l !! bi_conn (qs_halves x.1) = Some (x.2, qs_peer_identity x.1) → route_stream type receiver x l = Some l' →
  listener_ok cap l' ∧ ql_conns l' = ql_conns l ∧ ql_proved l' = ql_proved l.
Proof.
  intros Hl Hx. pose proof Hl as (Hc & Hp & Hlen & Hconns & [Hq1 Hq2] & Hv1 & Hv2). unfold route_stream. rewrite Hc.
  destruct (type =? _); [|destruct (type =? _); [|by intros [= <-]]];
    (destruct (send _ _ _ _) as [q|] eqn:Hs; [|done]); intros [= <-];
    (destruct (send_ok _ _ _ _ _ (ql_proved l) Hs) as [? ?]; [done..|]); (split; [|done]); do 4 (split; [done|]); by split_and!.
Qed.

Lemma stream_ok cap c k late receiver l l' :
  listener_ok cap l → handle_bi_stream c k late receiver l = Some l' → listener_ok cap l'.
Proof.
  intros Hl. unfold handle_bi_stream. destruct (ql_conns l !! c) as [conn|] eqn:Hc; [|done].
  destruct (qc_reading conn !! k) as [halves|] eqn:Hk; [|done]. pose proof (conn_at _ _ _ _ Hl Hc) as Hconn.
  assert (bi_conn halves = c) as Hh by (destruct Hconn as (_ & _ & _ & Hall); by eapply Forall_lookup_1 in Hall).
  assert (∀ proved, conn_ok proved c conn →
    conn_ok proved c (with_reads conn (sem_release (qc_pending_reads conn)) (delete k (qc_reading conn)))) as Hdone.
  { intros proved (Hp & Hn & ? & Hall). unfold conn_ok. cbn. rewrite available_release.
    unfold zlen in *. rewrite length_delete by done. apply lookup_lt_Some in Hk.
    split_and!; try (done || lia). by apply Forall_delete. }
  destruct late; [intros [= <-]; by apply conns_ok; [|apply Hdone]|].
  destruct (read_exact 1 _) as [[[|type rest]|e] recv']; try (intros [= <-]; by apply conns_ok; [|apply Hdone]).
  destruct (route_stream _ _ _ _) as [l1|] eqn:Hr; [|done]. intros [= <-].
  apply (route_ok cap) in Hr as (Hl1 & Hc1 & Hp1); [|done|cbn; rewrite Hh; apply Hconn].
  apply conns_ok; [done|]. rewrite Hp1. by apply Hdone.
Qed.

Lemma channels_ok cap l http raw :
  listener_ok cap l → http `sublist_of` ql_stream l → raw `sublist_of` ql_raw_stream l →
  listener_ok cap (with_channels l http raw).
Proof.
  intros (Hc & Hp & Hlen & Hconns & [Hq1 Hq2] & Hv1 & Hv2) Hh Hr.
  do 4 (split; [done|]). split; [split|split]; cbn.
  - apply sublist_length in Hh. unfold zlen in *. lia.
  - apply sublist_length in Hr. unfold zlen in *. lia.
  - intros s addr Hin. apply Hv1. by eapply elem_of_sublist.
  - intros s addr Hin. apply Hv2. by eapply elem_of_sublist.
Qed.

Lemma tail_sublist {A} (l : list A) : tail l `sublist_of` l.
Proof. destruct l; [done|]. by apply sublist_cons. Qed.

Lemma quic_step_ok cap l l' : quic_step l l' → listener_ok cap l → listener_ok cap l'.
Proof.
  intros Hs Hl. destruct Hs.
  - by apply incoming_ok.
  - by apply established_ok.
  - by apply accept_bi_ok.
  - unfold connection_ended. destruct (ql_conns l !! c) as [conn|] eqn:Hc; [|done].
    apply conns_ok; [done|]. apply (conn_at _ _ _ _ Hl Hc).
  - by eapply stream_ok.
  - apply channels_ok; [done|apply tail_sublist|done].
  - apply channels_ok; [done|done|apply tail_sublist].
Qed.

Lemma bind_ok capacity : 0 ≤ capacity → listener_ok capacity (bind_with_token capacity).
Proof.
  intros Hcap. unfold listener_ok. cbn. rewrite available_new. unfold vouched, MAX_CONCURRENT_PENDING_HANDSHAKES.
  split_and!; try done; set_solver.
Qed.

(** C18. However handshakes, connections and streams interleave, the front door stays bounded and
    honest: at most 256 handshakes are under way and every permit is accounted for, no
    connection has more than 64 streams waiting for their type byte, neither channel exceeds
    its capacity, every connection has the address and the identity its own handshake
    established, and every stream handed on carries those of the connection it was opened on,
    never another connection's. *)
Theorem quic_listener_invariant capacity l :
  0 ≤ capacity → quic_reachable capacity l →
  zlen (ql_incoming l) ≤ MAX_CONCURRENT_PENDING_HANDSHAKES ∧
  available_permits (ql_pending_handshakes l) = MAX_CONCURRENT_PENDING_HANDSHAKES - zlen (ql_incoming l) ∧
  (∀ i c, ql_conns l !! i = Some c →
     zlen (qc_reading c) ≤ MAX_CONCURRENT_PENDING_STREAM_READS ∧ ql_proved l !! i = Some (qc_addr c, qc_identity c)) ∧
  zlen (ql_stream l) ≤ capacity ∧ zlen (ql_raw_stream l) ≤ capacity ∧
  vouched (ql_proved l) (ql_stream l) ∧ vouched (ql_proved l) (ql_raw_stream l).
Proof.
  intros Hcap Hr. assert (listener_ok capacity l) as (_ & [Hp Hn] & _ & Hconns & [Hq1 Hq2] & Hv1 & Hv2).
  { induction Hr as [|l l' _ IH Hstep]; [by apply bind_ok|by eapply quic_step_ok]. }
  split_and!; [lia|lia| |done..]. intros i c (? & ? & Hi & _)%Hconns. split; [lia|done].
Qed.

End laws.

(** ** Routing *)

(** A stream that is not late is routed by its first byte and by nothing else: to the HTTP
    server for 1, to the raw relay for 2, and to neither for any other byte or none; the byte
    is consumed, the rest is left in place, and nothing else in the channels moves. *)
Theorem stream_routing c k l l' conn halves :
  handle_bi_stream c k false true l = Some l' → ql_conns l !! c = Some conn → qc_reading conn !! k = Some halves →
  let stream rest :=
    ({| qs_halves := {| bi_conn := bi_conn halves; bi_recv := rest |}; qs_peer_identity := qc_identity conn |}, qc_addr conn) in
  (ql_stream l', ql_raw_stream l') =
    match bi_recv halves with
    | 1 :: rest => (ql_stream l ++ [stream rest], ql_raw_stream l)
    | 2 :: rest => (ql_stream l, ql_raw_stream l ++ [stream rest])
    | _ => (ql_stream l, ql_raw_stream l)
    end.
Proof.
  unfold handle_bi_stream. intros Hs Hc Hk. rewrite Hc, Hk in Hs. cbn zeta. destruct (bi_recv halves) as [|type rest].
  - by injection Hs as <-.
  - cbn -[route_stream] in Hs. rewrite drop_0 in Hs. unfold route_stream, send, STREAM_TYPE_HTTP, STREAM_TYPE_RAW in Hs. cbn [negb] in Hs.
    destruct (Z.eqb_spec type 1) as [->|H1].
    { destruct (_ <? _); [|done]. by injection Hs as <-. }
    destruct (Z.eqb_spec type 2) as [->|H2].
    { destruct (_ <? _); [|done]. by injection Hs as <-. }
    injection Hs as <-. cbn. destruct type as [|[p|[p|p|]|]|p]; (done || lia).
Qed.
End listener.

(** ** Witnesses *)

Definition demo_peer : SocketAddr := {| sa_ip := V4 7; sa_port := 4433 |}.
Definition demo_device : PeerIdentity := {| common_name := "device-1"; spki_sha256 := [1; 2] |}.
Definition demo_other : PeerIdentity := {| common_name := "device-2"; spki_sha256 := [3; 4] |}.

(** Two devices of one address connect; the second opens a raw stream and one that never names
    its type. *)
Definition demo_accepted : QuicListener :=
  accept_bi 1 [] (accept_bi 1 [2; 0; 2; 100; 98] (establish_connection 0 (Some (Ok demo_device))
    (establish_connection 0 (Some (Ok demo_other)) (accept_incoming demo_peer
      (accept_incoming demo_peer (bind_with_token 8)))))).

Definition demo_routed : QuicListener := default demo_accepted (handle_bi_stream 1 0 false true demo_accepted).

Definition demo_raw_stream : QuicStream :=
  {| qs_halves := {| bi_conn := 1; bi_recv := [0; 2; 100; 98] |}; qs_peer_identity := Some demo_device |}.

Lemma quic_listener_invariant_witness :
  ql_raw_stream demo_routed = [(demo_raw_stream, demo_peer)] ∧
  ql_proved demo_routed = [(demo_peer, Some demo_other); (demo_peer, Some demo_device)] ∧
  vouched (ql_proved demo_routed) (ql_raw_stream demo_routed).
Proof.
  split; [reflexivity|]. split; [reflexivity|].
  apply (quic_listener_invariant 8 demo_routed); [lia|].
  apply (quic_next 8 demo_accepted); [|by apply (qs_stream 1 0 false true)].
  do 2 (eapply quic_next; [|apply qs_accept_bi]). do 2 (eapply quic_next; [|apply qs_established]).
  do 2 (eapply quic_next; [|apply qs_incoming]). apply quic_start.
Defined.

Lemma stream_routing_witness :
  (ql_stream demo_routed, ql_raw_stream demo_routed) = ([], [(demo_raw_stream, demo_peer)]).
Proof.
  refine (stream_routing 1 0 demo_accepted demo_routed
    (with_reads {| qc_addr := demo_peer; qc_identity := Some demo_device; qc_pending_reads := sem_new 64;
                   qc_reading := []; qc_open := true |} _
       [{| bi_conn := 1; bi_recv := [2; 0; 2; 100; 98] |}; {| bi_conn := 1; bi_recv := [] |}])
    {| bi_conn := 1; bi_recv := [2; 0; 2; 100; 98] |} _ _ _); reflexivity.
Defined.
