(* ===== verification/TunnelListener.v ===== *)
(** * TunnelListener: the accept loop of [src/tunnel/listener.rs]

    The endpoint the tunnel peers connect to: its transport contract, the accept rate limit and
    its sweep, and the budget of connections that have not registered yet.  What a connection
    does once it is accepted is in file Registration. *)

From S2P Require Import Prelude Text Error Net Acl Balancer Queue Registry Config Registration.
Local Open Scope Z_scope.

Definition TUNNEL_CLIENT_BIDI_STREAMS : Z := 4.
Definition TUNNEL_UNI_STREAMS : Z := 0.
Definition TUNNEL_RECEIVE_WINDOW_BYTES : Z := 8 * 1024 * 1024.

Record TunnelTransport := {
  tt_idle_secs : Z;
  tt_max_bidi_streams : Z;
  tt_max_uni_streams : Z;
  tt_receive_window : Z;
}.

Definition tunnel_transport_config (config : TunnelConfig) : Result TunnelTransport :=
  idle ← tunnel_idle_secs config;
  Ok {| tt_idle_secs := idle; tt_max_bidi_streams := TUNNEL_CLIENT_BIDI_STREAMS; tt_max_uni_streams := TUNNEL_UNI_STREAMS;
        tt_receive_window := TUNNEL_RECEIVE_WINDOW_BYTES |}.

(** The heartbeat timeout fires before the transport gives the connection up, whatever is
    configured. *)
Lemma heartbeat_before_idle config t :
  0 ≤ tc_heartbeat_timeout_secs config ≤ U64_MAX → tunnel_transport_config config = Ok t →
  tc_heartbeat_timeout_secs config < tt_idle_secs t.
Proof.
  intros Hhb (idle & Hidle & [= <-])%result_bind_ok. cbn. unfold tunnel_idle_secs in Hidle.
  assert (VARINT_MAX < U64_MAX) as Hmax by (vm_compute; reflexivity).
  revert Hidle. generalize dependent VARINT_MAX. intros vmax Hmax. case_match; [done|]. intros [= <-].
  unfold saturating_add, TUNNEL_IDLE_GRACE_SECS in *. lia.
Qed.

Section listener.
  Context `{Governor} `{Semaphore}.

(** [tn_registering] are the connections that hold a permit of the budget; [tn_incoming] and
    [tn_started] count the connections offered and those whose task was spawned. *)
Record TunnelListener := {
  tn_limiter : option KeyedLimiter;
  tn_pending : Sem;
  tn_registering : list SocketAddr;
  tn_metrics : list TunnelMetric;
  tn_accepting : bool;
  tn_incoming : Z;
  tn_started : Z;
}.

(** [run_tunnel_listener_inner] up to its loop; [crypto] and [bind] are what the QUIC library
    answers. *)
Definition run_tunnel_listener (crypto bind : result string unit) (config : TunnelConfig) : Result TunnelListener :=
  _ ← match crypto with Ok _ => Ok () | Err e => Err (Tunnel ("QUIC crypto config: " +:+ e)) end;
  _ ← tunnel_transport_config config;
  _ ← match bind with Ok _ => Ok () | Err e => Err (Tunnel ("tunnel bind: " +:+ e)) end;
  limiter ← match tc_max_accepts_per_second_per_ip config with
            | Some rps => Some <$> RateLimit_new rps
            | None => Ok None
            end;
  Ok {| tn_limiter := limiter; tn_pending := sem_new MAX_CONCURRENT_PENDING_REGISTRATIONS; tn_registering := [];
        tn_metrics := []; tn_accepting := true; tn_incoming := 0; tn_started := 0 |}.

Definition upd_listener (l : TunnelListener) (limiter : option KeyedLimiter) (pending : Sem) (registering : list SocketAddr)
    (metrics : list TunnelMetric) (incoming started : Z) : TunnelListener :=
  {| tn_limiter := limiter; tn_pending := pending; tn_registering := registering; tn_metrics := metrics;
     tn_accepting := tn_accepting l; tn_incoming := incoming; tn_started := started |}.

(** The accept arm: the rate limit, then the budget, then the task. *)
Definition accept_tunnel (now : Z) (remote_addr : SocketAddr) (l : TunnelListener) : TunnelListener :=
  let '(limited, limiter) :=
    match tn_limiter l with
    | Some lim => let '(r, lim) := rate_check now (sa_ip remote_addr) lim in (is_err r, Some lim)
    | None => (false, None)
    end in
  let incoming := tn_incoming l + 1 in
  if limited then
    upd_listener l limiter (tn_pending l) (tn_registering l) (AcceptsRateLimited :: tn_metrics l) incoming (tn_started l)
  else
    match sem_try_acquire (tn_pending l) with
    | None => upd_listener l limiter (tn_pending l) (tn_registering l)
                (RegistrationRejected REJECT_REASON_PENDING_CAP :: tn_metrics l) incoming (tn_started l)
    | Some pending => upd_listener l limiter pending (tn_registering l ++ [remote_addr]) (tn_metrics l) incoming
                        (tn_started l + 1)
    end.

(** The permit of connection [i] is dropped: it has registered, was rejected, or failed. *)
Definition registration_settled (i : nat) (l : TunnelListener) : TunnelListener :=
  match tn_registering l !! i with
  | None => l
  | Some _ => upd_listener l (tn_limiter l) (sem_release (tn_pending l)) (delete i (tn_registering l)) (tn_metrics l)
                (tn_incoming l) (tn_started l)
  end.

(** The sweep of the limiter. *)
Definition sweep_limiter (now : Z) (l : TunnelListener) : TunnelListener :=
  upd_listener l (retain_recent now <$> tn_limiter l) (tn_pending l) (tn_registering l) (tn_metrics l) (tn_incoming l)
    (tn_started l).

Definition stop_listener (l : TunnelListener) : TunnelListener :=
  {| tn_limiter := tn_limiter l; tn_pending := tn_pending l; tn_registering := tn_registering l; tn_metrics := tn_metrics l;
     tn_accepting := false; tn_incoming := tn_incoming l; tn_started := tn_started l |}.

Inductive tunnel_step : TunnelListener → TunnelListener → Prop :=
  | tn_accept now addr l : tn_accepting l = true → tunnel_step l (accept_tunnel now addr l)
  | tn_settled i l : tunnel_step l (registration_settled i l)
  | tn_sweep now l : tn_accepting l = true → is_Some (tn_limiter l) → tunnel_step l (sweep_limiter now l)
  | tn_stop l : tunnel_step l (stop_listener l).

Inductive tunnel_reachable (l0 : TunnelListener) : TunnelListener → Prop :=
  | tunnel_start : tunnel_reachable l0 l0
  | tunnel_next l l' : tunnel_reachable l0 l → tunnel_step l l' → tunnel_reachable l0 l'.

(** Every permit is free or held, and every connection was started or turned away for a
    counted reason. *)
Definition tunnel_listener_ok (config : TunnelConfig) (l : TunnelListener) : Prop :=
  available_permits (tn_pending l) + zlen (tn_registering l) = MAX_CONCURRENT_PENDING_REGISTRATIONS ∧
  0 ≤ available_permits (tn_pending l) ∧
  tn_incoming l = tn_started l + zlen (tn_metrics l) ∧
  (is_Some (tn_limiter l) ↔ is_Some (tc_max_accepts_per_second_per_ip config)).

Lemma accept_tunnel_ok `{!SemaphoreLaws} config now addr l :
  tunnel_listener_ok config l → tunnel_listener_ok config (accept_tunnel now addr l).
Proof.
  intros (Hp & Hn & Hc & Hl). unfold accept_tunnel.
  destruct (match tn_limiter l with Some lim => _ | None => (false, None) end) as [limited limiter] eqn:Hlim.
  assert (is_Some limiter ↔ is_Some (tc_max_accepts_per_second_per_ip config)) as Hl'.
  { rewrite <-Hl. destruct (tn_limiter l) as [lim|]; [destruct (rate_check _ _ _)|]; simplify_eq; naive_solver. }
  unfold tunnel_listener_ok. destruct limited; [|destruct (sem_try_acquire (tn_pending l)) as [s|] eqn:Hs];
    cbn; rewrite ?zlen_cons, ?zlen_app; [split_and!; (done || lia)| |split_and!; (done || lia)].
  pose proof (try_acquire_some _ _ Hs). change (zlen [addr]) with 1.
  assert (available_permits (tn_pending l) ≠ 0) by (intros E; apply try_acquire_none in E; congruence).
  split_and!; (done || lia).
Qed.

Lemma settled_ok `{!SemaphoreLaws} config i l :
  tunnel_listener_ok config l → tunnel_listener_ok config (registration_settled i l).
Proof.
  intros Hl. pose proof Hl as (Hp & Hn & Hc & Hlim). unfold registration_settled.
  destruct (tn_registering l !! i) eqn:Hi; [|done]. unfold tunnel_listener_ok. cbn. rewrite available_release.
  unfold zlen in *. rewrite length_delete by done. apply lookup_lt_Some in Hi. split_and!; (done || lia).
Qed.

(** The tunnel's front door stays bounded whatever its peers do: at most 128 connections are
    registering and no permit is lost, every connection offered was started or was turned away
    under a counted reason, and accepts are limited exactly when a limit is configured. *)
Theorem tunnel_listener_bounded `{!SemaphoreLaws} crypto bind config l0 l :
  run_tunnel_listener crypto bind config = Ok l0 → tunnel_reachable l0 l →
  zlen (tn_registering l) ≤ MAX_CONCURRENT_PENDING_REGISTRATIONS ∧ tunnel_listener_ok config l.
Proof.
  intros Hrun Hr. assert (tunnel_listener_ok config l) as Hl; [|split; [destruct Hl; lia|done]].
  induction Hr as [|l l' _ IH Hs].
  - unfold run_tunnel_listener in Hrun. apply result_bind_ok in Hrun as (_ & _ & (_ & _ & (_ & _ & Hrun)%result_bind_ok)%result_bind_ok).
    apply result_bind_ok in Hrun as (limiter & Hlim & [= <-]). unfold tunnel_listener_ok. cbn. rewrite available_new.
    split_and!; [done..|]. destruct (tc_max_accepts_per_second_per_ip config) as [rps|]; [|by simplify_eq].
    destruct (RateLimit_new rps); [|done]. by simplify_eq/=.
  - destruct Hs as [now addr l Ha|i l|now l Ha Hlim|l].
    + by apply accept_tunnel_ok.
    + by apply settled_ok.
    + destruct IH as (? & ? & ? & Hl). split_and!; [done..|]. cbn. by rewrite fmap_is_Some.
    + done.
Qed.
End listener.

(** ** A run *)

Definition demo_tunnel_peer : SocketAddr := {| sa_ip := V4 7; sa_port := 4433 |}.

Lemma tunnel_listener_bounded_witness :
  ∃ l0, run_tunnel_listener (Ok ()) (Ok ()) TunnelConfig_default = Ok l0 ∧
    zlen (tn_registering (accept_tunnel 0 demo_tunnel_peer l0)) ≤ 128.
Proof.
  eexists. split; [reflexivity|]. apply (tunnel_listener_bounded (Ok ()) (Ok ()) TunnelConfig_default _ _ eq_refl).
  eapply tunnel_next; [apply tunnel_start|]. by apply tn_accept.
Defined.
