(* ===== verification/TcpListener.v ===== *)
(** * TcpListener: [src/transport/tcp.rs]

    The TCP front door as interleaved steps: connections accepted off the socket, their
    handshakes, each in a task of its own, the channel of completed streams, and the identity
    read from a stream when the HTTP server takes it.  Peeking the ClientHello and the choice
    of the configuration are in file Lifecycle. *)

From S2P Require Import Prelude Error Net Identity Lifecycle.
Local Open Scope Z_scope.

Definition DEFAULT_CHANNEL_CAPACITY : Z := 256.

Section tcp_listener.
  Context `{X509}.

(** A completed TLS stream, by what the listener reads of it. *)
Record TlsStream := { ts_peer_certificates : option (list (list Z)) }.

(** [tl_handshaking] are the connections whose handshake runs; [tl_completed] records every
    handshake that completed under the mutual-TLS configuration. *)
Record TcpListener := {
  tl_capacity : Z;
  tl_challenge_config : bool;
  tl_handshaking : list SocketAddr;
  tl_stream : list (TlsStream * SocketAddr);
  tl_completed : list (TlsStream * SocketAddr);
}.

Definition bind_with_token (challenge_config : bool) (channel_capacity : Z) : TcpListener :=
  {| tl_capacity := channel_capacity; tl_challenge_config := challenge_config; tl_handshaking := [];
     tl_stream := []; tl_completed := [] |}.

(** One turn of [accept_connections] that accepts. *)
Definition accept_connection (peer_addr : SocketAddr) (l : TcpListener) : TcpListener :=
  {| tl_capacity := tl_capacity l; tl_challenge_config := tl_challenge_config l;
     tl_handshaking := tl_handshaking l ++ [peer_addr]; tl_stream := tl_stream l; tl_completed := tl_completed l |}.

(** The task of the handshake at position [i] runs to its end.  [hello] is the ALPN of its
    ClientHello, if it could be read, and [stream] what the handshake under the mutual-TLS
    configuration gives; [None] while the task is blocked on a full channel.  The receiver
    outlives the tasks: the server holds it. *)
Definition finish_handshake (i : nat) (late : bool) (hello : option (option (list string))) (stream : option TlsStream)
    (challenge : bool) (l : TcpListener) : option TcpListener :=
  match tl_handshaking l !! i with
  | None => None
  | Some peer_addr =>
      let finished streams completed :=
        {| tl_capacity := tl_capacity l; tl_challenge_config := tl_challenge_config l;
           tl_handshaking := delete i (tl_handshaking l); tl_stream := streams; tl_completed := completed |} in
      match run_handshake late hello (tl_challenge_config l) (bool_decide (is_Some stream)) challenge, stream with
      | Forwarded, Some tls =>
          if zlen (tl_stream l) <? tl_capacity l
          then Some (finished (tl_stream l ++ [(tls, peer_addr)]) ((tls, peer_addr) :: tl_completed l))
          else None
      | _, _ => Some (finished (tl_stream l) (tl_completed l))
      end
  end.

Definition connect_addr_from_stream (remote : SocketAddr) (stream : TlsStream) : SocketAddr * option PeerIdentity :=
  (remote, match from_tls_stream (ts_peer_certificates stream) with Ok id => Some id | Err _ => None end).

(** The HTTP server takes the next stream; it waits while there is none. *)
Definition accept (l : TcpListener) : option ((SocketAddr * option PeerIdentity) * TcpListener) :=
  match tl_stream l with
  | [] => None
  | (stream, addr) :: rest =>
      Some (connect_addr_from_stream addr stream,
            {| tl_capacity := tl_capacity l; tl_challenge_config := tl_challenge_config l;
               tl_handshaking := tl_handshaking l; tl_stream := rest; tl_completed := tl_completed l |})
  end.

Inductive tcp_step : TcpListener → TcpListener → Prop :=
  | ts_accepted addr l : tcp_step l (accept_connection addr l)
  | ts_handshake i late hello stream challenge l l' :
      finish_handshake i late hello stream challenge l = Some l' → tcp_step l l'
  | ts_taken l ca l' : accept l = Some (ca, l') → tcp_step l l'.

Inductive tcp_reachable (challenge_config : bool) (capacity : Z) : TcpListener → Prop :=
  | tcp_start : tcp_reachable challenge_config capacity (bind_with_token challenge_config capacity)
  | tcp_next l l' : tcp_reachable challenge_config capacity l → tcp_step l l' → tcp_reachable challenge_config capacity l'.

(** ** What the listener keeps *)

(** The channel holds at most its capacity, and only streams of completed handshakes. *)
Definition tcp_ok (capacity : Z) (l : TcpListener) : Prop :=
  tl_capacity l = capacity ∧ zlen (tl_stream l) ≤ capacity ∧ tl_stream l ⊆ tl_completed l.

Lemma finish_handshake_ok cap i late hello stream challenge l l' :
  tcp_ok cap l → finish_handshake i late hello stream challenge l = Some l' →
  tcp_ok cap l' ∧ tl_completed l ⊆ tl_completed l'.
Proof.
  intros (Hc & Hq & Hsub). unfold finish_handshake. destruct (tl_handshaking l !! i) as [addr|]; [|done].
  destruct (run_handshake _ _ _ _ _); [|intros [= <-]; by split_and!].
  destruct stream as [tls|]; [|intros [= <-]; by split_and!].
  destruct (Z.ltb_spec (zlen (tl_stream l)) (tl_capacity l)) as [Hlt|]; [|done]. intros [= <-].
  unfold tcp_ok. cbn. rewrite zlen_app. change (zlen [_]) with 1. split_and!; [done|lia|set_solver|set_solver].
Qed.

Lemma tcp_accept_ok cap l ca l' :
  tcp_ok cap l → accept l = Some (ca, l') →
  tcp_ok cap l' ∧ tl_completed l' = tl_completed l ∧
  ∃ stream addr, (stream, addr) ∈ tl_completed l ∧ ca = connect_addr_from_stream addr stream.
Proof.
  intros (Hc & Hq & Hsub). unfold accept. destruct (tl_stream l) as [|[stream addr] rest] eqn:Hs; [done|].
  intros [= <- <-]. unfold tcp_ok. cbn. unfold zlen in *. cbn [length] in *.
  split_and!; [done|lia|set_solver|done|]. exists stream, addr. split; [set_solver|done].
Qed.

Lemma tcp_step_ok cap l l' : tcp_step l l' → tcp_ok cap l → tcp_ok cap l' ∧ tl_completed l ⊆ tl_completed l'.
Proof.
  intros [addr l0|i late hello stream challenge l0 l1 Hf|l0 ca l1 Ha] Hl.
  - done.
  - by eapply finish_handshake_ok.
  - apply (tcp_accept_ok cap) in Ha as (? & -> & _); done.
Qed.

End tcp_listener.
