(* ===== verification/UdpListener.v ===== *)
(** * UdpListener: the listener of [src/ingress/udp.rs]

    Binding the sockets of a UDP ingress and spawning its workers.  The workers of a listener
    run in tasks of their own and share its counters and its breakers; each has its own
    limiter, batches, queues and writers (file Udp). *)

From S2P Require Import Prelude Error Net Lru Float64 Wire Circuit Acl Retry Balancer Pool IngressProtocol Udp.
Local Open Scope Z_scope.

(** What the operating system answers while a socket is set up. *)
Record SocketSetup := {
  so_new : result string unit;
  so_reuse_port : result string unit;
  so_nonblocking : result string unit;
  so_bind : result string unit;
  so_from_std : result string unit;
}.

Definition socket_err (what : string) (r : result string unit) : Result unit :=
  match r with Ok _ => Ok () | Err e => Err (Ingress (what +:+ ": " +:+ e)) end.

(** A receive buffer that cannot be sized is ignored. *)
Definition bind_worker_socket (addr : SocketAddr) (os : SocketSetup) : Result unit :=
  _ ← socket_err "create udp socket" (so_new os);
  _ ← socket_err "set SO_REUSEPORT" (so_reuse_port os);
  _ ← socket_err "set nonblocking" (so_nonblocking os);
  _ ← socket_err ("bind udp " +:+ addr_to_string addr) (so_bind os);
  socket_err "udp from_std" (so_from_std os).

(** On Linux; [available_parallelism] may fail. *)
Definition resolve_worker_count (available_parallelism : result string Z) (configured : Z) : Z :=
  Z.max 1 (if configured =? 0 then match available_parallelism with Ok p => p | Err _ => 1 end else configured).

Section listener.
  Context `{IpNetLib} `{Governor} `{Lru (BackendHealth * Z)} `{Codec Envelope}.
  Context (ln : f64 → f64).

Record UdpListener := {
  ul_counters : IngressCounters;
  ul_circuit : CircuitBreakers;
  ul_workers : list world;
}.

Record UdpIngressParams := {
  up_config : IngressConfig;
  up_backends : list BackendConfig;
  up_acl : AccessControl;
  up_requests_per_second : Z;
  up_circuit : CircuitBreakers;
  up_retry : RetryConfig;
  up_max_backends : Z;
}.

(** The loop over the workers [i .. i + n - 1]; a limiter is made for each. *)
Fixpoint spawn_workers (params : UdpIngressParams) (pool : BackendPool) (os : Z → SocketSetup) (n : nat) (i : Z)
    : Result (list world) :=
  match n with
  | O => Ok []
  | S n =>
      _ ← bind_worker_socket (ic_listen (up_config params)) (os i);
      limiter ← RateLimit_new (up_requests_per_second params);
      rest ← spawn_workers params pool os n (i + 1);
      Ok (spawn_worker (up_config params) (up_acl params) limiter pool (up_circuit params) (up_retry params)
            (Z.min i U16_MAX) :: rest)
  end.

Definition spawn_udp_ingress (params : UdpIngressParams) (available_parallelism : result string Z)
    (os : Z → SocketSetup) : Result UdpListener :=
  pool ← with_max (up_backends params) (up_max_backends params);
  workers ← spawn_workers params pool os
              (Z.to_nat (resolve_worker_count available_parallelism (ic_workers (up_config params)))) 0;
  Ok {| ul_counters := IngressCounters_new; ul_circuit := up_circuit params; ul_workers := workers |}.

(** A worker with the shared counters and breakers in place. *)
Definition share (c : IngressCounters) (cb : CircuitBreakers) (w : world) : world :=
  let u := wd_ingress w in
  {| wd_ingress := upd u (u_rate_limiter u) (u_batches u) (u_senders u) c; wd_writers := wd_writers w;
     wd_circuit := cb; wd_running := wd_running w; wd_lost := wd_lost w |}.

(** A step of worker [k] on the shared state. *)
Definition listener_step (k : nat) (ev : wevent) (l : UdpListener) : UdpListener :=
  match ul_workers l !! k with
  | None => l
  | Some w =>
      let w := wstep ln (share (ul_counters l) (ul_circuit l) w) ev in
      {| ul_counters := u_counters (wd_ingress w); ul_circuit := wd_circuit w; ul_workers := <[k := w]> (ul_workers l) |}
  end.

Inductive listener_reachable (l0 : UdpListener) : UdpListener → Prop :=
  | lr_start : listener_reachable l0 l0
  | lr_step k ev l : listener_reachable l0 l → listener_reachable l0 (listener_step k ev l).

(** ** The account of a listener *)

Definition sum_held (ws : list world) : Z := foldr (λ w, Z.add (held w)) 0 ws.

Lemma sum_held_insert ws k w w' : ws !! k = Some w → sum_held (<[k := w']> ws) = sum_held ws - held w + held w'.
Proof.
  unfold sum_held. revert k. induction ws as [|x ws IH]; intros [|k]; cbn; [done..| |].
  - intros [= ->]. lia.
  - intros Hk%IH. etrans; [exact (f_equal (Z.add (held x)) Hk)|]. lia.
Qed.

Lemma listener_step_balance k ev l :
  cong64 (balance (ul_counters (listener_step k ev l)) - sum_held (ul_workers (listener_step k ev l)))
         (balance (ul_counters l) - sum_held (ul_workers l)).
Proof.
  unfold listener_step. destruct (ul_workers l !! k) as [w|] eqn:Hk; [|reflexivity]. cbn.
  rewrite (sum_held_insert _ _ _ _ Hk).
  destruct (wstep_account ln (share (ul_counters l) (ul_circuit l) w) ev) as [j Hj]. exists j.
  unfold account in Hj. change (held (share _ _ w)) with (held w) in Hj. cbn in Hj. lia.
Qed.

Lemma spawn_workers_held params pool os n i ws : spawn_workers params pool os n i = Ok ws → sum_held ws = 0.
Proof.
  revert i ws. induction n as [|n IH]; intros i ws; cbn [spawn_workers]; [by intros [= <-]|].
  intros (x & _ & (limiter & _ & (rest & Hrest & [= <-])%result_bind_ok)%result_bind_ok)%result_bind_ok.
  cbn [sum_held foldr]. unfold sum_held in IH. rewrite (IH _ _ Hrest).
  by destruct (spawn_account (up_config params) (up_acl params) limiter pool (up_circuit params) (up_retry params)
    (Z.min i U16_MAX)) as [-> _].
Qed.

(** C23. No datagram is lost from sight, however many workers share the counters: between the
    steps of every interleaving of the workers of a listener and of their writers, each of
    which may be anywhere in the dial or the write of a batch, the datagrams received are those
    relayed, those dropped for a counted reason, those still buffered, queued or in the hands
    of a writer, and those a stopped writer left in its queue (all modulo the 64 bits of the
    counters).  Once nothing is held, the counters close exactly:
    received = relayed + dropped. *)
Theorem udp_listener_accounting params parallelism os l0 l :
  spawn_udp_ingress params parallelism os = Ok l0 → listener_reachable l0 l →
  let c := ul_counters l in
  cong64 (c_received c) (c_relayed c + drops c + sum_held (ul_workers l)) ∧
  (sum_held (ul_workers l) = 0 → wrap64 (c_received c) = wrap64 (c_relayed c + total_dropped c)).
Proof.
  intros (pool & _ & (ws & Hws%spawn_workers_held & [= <-])%result_bind_ok)%result_bind_ok Hr c.
  assert (cong64 (balance c - sum_held (ul_workers l)) 0) as [k Hk].
  { subst c. induction Hr as [|k ev l _ IH]; [|by rewrite listener_step_balance].
    cbn [ul_counters ul_workers]. rewrite Hws. by apply cong64_of_eq. }
  unfold balance in Hk. split; [exists k; lia|]. intros Hh. apply cong64_wrap. unfold total_dropped. cbn [dropped].
  rewrite wrap64_cong. exists k. unfold drops in Hk. lia.
Qed.

(** A listener that starts has its workers, at least one. *)
Theorem udp_listener_workers params parallelism os l :
  spawn_udp_ingress params parallelism os = Ok l →
  zlen (ul_workers l) = resolve_worker_count parallelism (ic_workers (up_config params)) ∧ ul_workers l ≠ [].
Proof.
  intros (pool & _ & (ws & Hws & [= <-])%result_bind_ok)%result_bind_ok. cbn.
  set (n := resolve_worker_count _ _) in *. assert (1 ≤ n) as Hn by (subst n; unfold resolve_worker_count; lia).
  assert (∀ m i ws, spawn_workers params pool os m i = Ok ws → length ws = m) as Hlen.
  { clear. induction m as [|m IH]; intros i ws; cbn [spawn_workers]; [by intros [= <-]|].
    intros (x & _ & (limiter & _ & (rest & Hrest & [= <-])%result_bind_ok)%result_bind_ok)%result_bind_ok.
    cbn. f_equal. by eapply IH. }
  apply Hlen in Hws. unfold zlen. rewrite Hws. split; [lia|]. intros ->. cbn in Hws. lia.
Qed.
End listener.

(** ** Runs *)

Definition demo_os : SocketSetup :=
  {| so_new := Ok (); so_reuse_port := Ok (); so_nonblocking := Ok (); so_bind := Ok (); so_from_std := Ok () |}.

Definition demo_params (workers rps : Z) : UdpIngressParams :=
  {| up_config := {| ic_id := "edge"; ic_protocol := ProtoUdp; ic_listen := ic_listen demo_ingress; ic_workers := workers;
                     ic_recv_buffer_bytes := 1024; ic_max_datagram_bytes := 64; ic_backend_ids := ["a"; "b"];
                     ic_batch_max_datagrams := 4; ic_batch_max_bytes := 128; ic_linger_ms := 20;
                     ic_queue_depth_per_backend := 2; ic_max_connections := None; ic_idle_timeout_secs := None |};
     up_backends := backends demo_pool; up_acl := AccessControl_new [] []; up_requests_per_second := rps;
     up_circuit := CircuitBreakers_new {| cfg_failure_threshold := 5; cfg_recovery_timeout_secs := 30;
                                          cfg_half_open_max_requests := 1 |};
     up_retry := {| max_retries := 3; base_delay_ms := 100; max_delay_ms := 1000; jitter_ms := 0 |};
     up_max_backends := 64 |}.

Definition demo_listener `{Governor} (workers rps : Z) : UdpListener :=
  match spawn_udp_ingress (demo_params workers rps) (Ok 8) (λ _, demo_os) with
  | Ok l => l
  | Err _ => {| ul_counters := IngressCounters_new; ul_circuit := up_circuit (demo_params workers rps); ul_workers := [] |}
  end.

(** One datagram for each of two workers. *)
Definition demo_two `{Governor} (rps : Z) : UdpListener :=
  listener_step demo_ln 1 demo_datagram (listener_step demo_ln 0 demo_datagram (demo_listener 2 rps)).

Lemma udp_listener_accounting_witness :
  c_received (ul_counters (demo_two 100)) = 2 ∧ sum_held (ul_workers (demo_two 100)) = 2 ∧
  cong64 (c_received (ul_counters (demo_two 100)))
    (c_relayed (ul_counters (demo_two 100)) + drops (ul_counters (demo_two 100)) + sum_held (ul_workers (demo_two 100))).
Proof.
  split; [vm_compute; reflexivity|]. split; [vm_compute; reflexivity|].
  apply (udp_listener_accounting demo_ln (demo_params 2 100) (Ok 8) (λ _, demo_os) (demo_listener 2 100)).
  - reflexivity.
  - apply lr_step, lr_step, lr_start.
Defined.

(** A limiter that admits each address as often as its limit says, and never again. *)
Definition strict_governor : Governor := {|
  KeyedLimiter := Z * list IpAddr;
  limiter_per_second n := (n, []);
  check_key _ key l :=
    if zlen (List.filter (λ k, bool_decide (k = key)) l.2) <? l.1 then (true, (l.1, key :: l.2)) else (false, l);
  limiter_retain_recent _ l := l;
  limiter_len l := zlen l.2;
|}.

(** The limit of an address holds per worker: with a limit of one a second, two datagrams of
    one address are both admitted when they reach different workers, and one is dropped when
    they reach the same. *)
Example limit_per_worker :
  let listener := demo_listener (H := strict_governor) 2 1 in
  let arrive k := listener_step (H0 := strict_governor) demo_ln k demo_datagram in
  dropped (ul_counters (arrive 1%nat (arrive 0%nat listener))) DropRateLimit = 0 ∧
  dropped (ul_counters (arrive 0%nat (arrive 0%nat listener))) DropRateLimit = 1.
Proof. split; vm_compute; reflexivity. Qed.
