(* ===== verification/HealthFeed.v ===== *)
(** * HealthFeed: [src/health/subscriber.rs] and [src/balancer/jitter.rs]

    The decoder of health broadcasts and the jitter on weights.  No other module of the program
    instantiates them; the health state they feed is in file Balancer. *)

From S2P Require Import Prelude Error Net Lru Float64 Wire Balancer.
Local Open Scope Z_scope.

(** ** The subscriber *)

Section subscriber.
  Context `{LruLaws (BackendHealth * Z)} `{Codec (list BackendHealth)}.

(** [None] when the decoder panics; a message that does not decode changes nothing. *)
Definition handle_message (now : Z) (data : list Z) (s : HealthState) : option HealthState :=
  match bc_decode data with
  | Decoded broadcast => Some (update now broadcast s)
  | DecodeError _ => Some s
  | DecodePanic => None
  end.

(** The messages in the order in which they arrive, each with its time. *)
Fixpoint handle_messages (msgs : list (Z * list Z)) (s : HealthState) : option HealthState :=
  match msgs with
  | [] => Some s
  | (now, data) :: msgs => s ← handle_message now data s; handle_messages msgs s
  end.

Definition reports (data : list Z) : list BackendHealth :=
  match bc_decode data with Decoded broadcast => broadcast | _ => [] end.

(** The reports about one backend. *)
Definition about (backend_id : string) (l : list BackendHealth) : list BackendHealth :=
  List.filter (λ h, String.eqb (bh_backend_id h) backend_id) l.

(** What [m] says about a backend is the last of [l], or what [m0] said if there is none. *)
Definition says_last (backend_id : string) (l : list BackendHealth) (m0 m : LruCache (BackendHealth * Z)) : Prop :=
  ∀ h t, lru_peek backend_id m = Some (h, t) →
    match last l with Some h' => h = h' | None => lru_peek backend_id m0 = Some (h, t) end.

Lemma update_says now broadcast s backend_id :
  says_last backend_id (about backend_id broadcast) (entries s) (entries (update now broadcast s)).
Proof.
  unfold update. cbn. generalize (entries s). induction broadcast as [|e broadcast IH] using rev_ind; intros m h t.
  - done.
  - rewrite foldl_app. cbn [foldl]. unfold about. rewrite List.filter_app. cbn [List.filter].
    destruct (String.eqb_spec (bh_backend_id e) backend_id) as [<-|Hne].
    + rewrite peek_put, last_snoc. by intros [= -> _].
    + rewrite app_nil_r. intros Hp%peek_put_ne; [|done]. by apply IH.
Qed.

Lemma says_trans b l l' m0 m1 m2 : says_last b l m0 m1 → says_last b l' m1 m2 → says_last b (l ++ l') m0 m2.
Proof.
  intros Hl Hl' h t Hp. specialize (Hl' h t Hp). rewrite last_app. destruct (last l'); [done|]. by apply Hl.
Qed.

(** Whatever messages arrive, decodable or not, the health state says of a backend what the last
    decodable report about that very backend said, and nothing about a backend that was
    never reported. *)
Theorem health_is_last_report msgs s backend_id h :
  handle_messages msgs HealthState_new = Some s → health_get s backend_id = Some h →
  last (about backend_id (concat (map (λ m, reports m.2) msgs))) = Some h.
Proof.
  assert (∀ s0, handle_messages msgs s0 = Some s →
    says_last backend_id (about backend_id (concat (map (λ m, reports m.2) msgs))) (entries s0) (entries s)) as Hall.
  { induction msgs as [|[now data] msgs IH]; intros s0; cbn [handle_messages map concat].
    - intros [= <-] h' t Hp. done.
    - intros (s1 & Hm & Hrest%IH)%bind_Some. cbn [snd]. unfold about. rewrite List.filter_app.
      eapply says_trans; [|exact Hrest]. revert Hm. unfold handle_message, reports.
      destruct (bc_decode data) as [broadcast|msg|]; [|intros [= <-]; by intros h' t|done].
      intros [= <-]. apply update_says. }
  intros Hs Hg. apply Hall in Hs. unfold health_get in Hg. apply fmap_Some in Hg as ([h' t] & Hp & ->).
  specialize (Hs h' t Hp). cbn [fst]. destruct (last _); [by rewrite Hs|]. cbn in Hs. by rewrite peek_new in Hs.
Qed.
End subscriber.

(** ** The jitter *)

(** [hash] is the output of the standard library's [DefaultHasher], whose algorithm is not
    specified, over the address, the backend and the constant. *)
Section jitter.
  Context (hash : IpAddr → string → Z).

Definition ip_jitter (client_ip : IpAddr) (backend_id : string) (factor : f64) : f64 :=
  let normalized := f64_div (f64_of_Z (hash client_ip backend_id)) (f64_of_Z U64_MAX) in
  f64_add f64_one (f64_mul factor (f64_sub (f64_mul (f64_of_Z 2) normalized) f64_one)).

(** [collect] into an [ArrayVec] panics when it is full. *)
Definition apply_jitter (client_ip : IpAddr) (backend_ids : list string) (base_weights : list f64) (jitter_factor : f64)
    : option (list f64) :=
  let weights := imap (λ i id, f64_mul (default f64_one (base_weights !! i)) (ip_jitter client_ip id jitter_factor)) backend_ids in
  if MAX_BACKENDS <? zlen weights then None else Some weights.

(** One weight per backend; a backend without a base weight counts as one; more backends than
    the hard cap panic. *)
Theorem apply_jitter_spec client_ip backend_ids base_weights factor :
  match apply_jitter client_ip backend_ids base_weights factor with
  | Some ws => zlen ws = zlen backend_ids ∧ zlen backend_ids ≤ MAX_BACKENDS ∧
      ∀ i id, backend_ids !! i = Some id →
        ws !! i = Some (f64_mul (default f64_one (base_weights !! i)) (ip_jitter client_ip id factor))
  | None => MAX_BACKENDS < zlen backend_ids
  end.
Proof.
  unfold apply_jitter, zlen. rewrite length_imap. destruct (Z.ltb_spec MAX_BACKENDS (Z.of_nat (length backend_ids))); [done|].
  rewrite length_imap. split_and!; [done..|]. intros i id Hi. rewrite list_lookup_imap, Hi. done.
Qed.
End jitter.
