(* ===== verification/EndToEnd.v ===== *)
(** * EndToEnd: the listener, the handler and the raw relay together

    [src/startup/serve.rs] hands the streams of the QUIC listener to the HTTP server and to the
    raw relay.  This file composes the models of the three: what a handler hands to a backend,
    and a system in which handshakes, streams, requests and the tasks that change the shared
    state interleave. *)

From Stdlib Require Import Ascii.
From S2P Require Import Prelude Text Error Net Http Lru Float64 Wire CacheControl Cache Circuit Acl Retry Router.
From S2P Require Import Identity Headers TunnelProtocol Balancer Queue Registry Pool Body Handler.
From S2P Require Import RawRelay QuicListener TcpListener.
Local Open Scope Z_scope.

(** ** What a front door promises *)

(** A listener, as the server and the raw relay see it: the streams they take from it, and what
    the handshakes behind it have established. *)
Class FrontDoor := {
  Door : Type;
  door_step : Door → Door → Prop;
  door_accept : Door → option ((SocketAddr * option PeerIdentity) * Door);
  door_accept_raw : Door → option ((QuicStream * SocketAddr) * Door);
  door_proved : Door → list (SocketAddr * option PeerIdentity);
}.

(** Nothing proved is forgotten, and a stream that is taken carries what one handshake proved. *)
Class FrontDoorLaws `{FrontDoor} := {
  door_ok : Door → Prop;
  door_step_ok d d' : door_step d d' → door_ok d → door_ok d' ∧ door_proved d ⊆ door_proved d';
  door_accept_ok d ca d' :
    door_accept d = Some (ca, d') → door_ok d → door_ok d' ∧ door_proved d' = door_proved d ∧ ca ∈ door_proved d;
  door_accept_raw_ok d s addr d' :
    door_accept_raw d = Some ((s, addr), d') → door_ok d →
    door_ok d' ∧ door_proved d' = door_proved d ∧ (addr, qs_peer_identity s) ∈ door_proved d;
}.

Section doors.
  Context `{SemaphoreLaws} `{X509}.

(** [ConnectAddr::connect_info] and [accept] of the QUIC listener. *)
Definition connect_info (x : QuicStream * SocketAddr) : SocketAddr * option PeerIdentity :=
  (x.2, qs_peer_identity x.1).

Definition quic_accept (l : QuicListener) : option ((SocketAddr * option PeerIdentity) * QuicListener) :=
  (λ x, (connect_info x, recv_http l)) <$> head (ql_stream l).

Definition quic_accept_raw (l : QuicListener) : option ((QuicStream * SocketAddr) * QuicListener) :=
  (λ x, (x, recv_raw l)) <$> head (ql_raw_stream l).

#[export] Instance quic_door : FrontDoor := {|
  Door := QuicListener; door_step := quic_step; door_accept := quic_accept; door_accept_raw := quic_accept_raw;
  door_proved := ql_proved;
|}.

Lemma quic_step_proved l l' : quic_step l l' → ql_proved l ⊆ ql_proved l'.
Proof.
  intros Hs. destruct Hs as [addr l|i outcome l|c recv l|c l|c k late receiver l l' Hb|l|l].
  - unfold accept_incoming. by destruct (sem_try_acquire _).
  - unfold establish_connection. destruct (ql_incoming l !! i); [|done]. destruct outcome; [|done]. cbn. set_solver.
  - unfold accept_bi. destruct (ql_conns l !! c); [|done]. destruct (negb _); [done|]. by destruct (sem_try_acquire _).
  - unfold connection_ended. by destruct (ql_conns l !! c).
  - revert Hb. unfold handle_bi_stream. destruct (ql_conns l !! c); [|done]. destruct (qc_reading _ !! k); [|done].
    destruct late; [by intros [= <-]|]. destruct (read_exact _ _) as [[[|type rest]|e] recv]; try (by intros [= <-]).
    unfold route_stream. destruct (type =? _); [|destruct (type =? _); [|by intros [= <-]]];
      (destruct (send _ _ _ _); [|done]); by intros [= <-].
  - done.
  - done.
Qed.

Lemma head_elem_of {A} (l : list A) x : head l = Some x → x ∈ l.
Proof. destruct l; [done|]. intros [= ->]. apply list_elem_of_here. Qed.

#[export, refine] Instance quic_door_laws : @FrontDoorLaws quic_door := {| door_ok := λ l : @Door quic_door, ∃ cap, listener_ok cap l |}.
Proof.
  - intros l l' Hs [cap Hl]. split; [|by apply quic_step_proved]. exists cap. by eapply quic_step_ok.
  - intros l ca l' Ha [cap Hl]. apply fmap_Some in Ha as ([s addr] & Hx%head_elem_of & [= -> ->]). split_and!; [|done|].
    + exists cap. apply (quic_step_ok cap l); [constructor|done].
    + destruct Hl as (_ & _ & _ & _ & _ & Hv & _). by eapply list_elem_of_lookup_2, Hv.
  - intros l s addr l' Ha [cap Hl]. apply fmap_Some in Ha as (x & Hx%head_elem_of & [= <- ->]). split_and!; [|done|].
    + exists cap. apply (quic_step_ok cap l); [constructor|done].
    + destruct Hl as (_ & _ & _ & _ & _ & _ & Hv). by eapply list_elem_of_lookup_2, Hv.
Defined.

(** The TCP listener has no raw streams. *)
#[export] Instance tcp_door : FrontDoor | 10 := {|
  Door := TcpListener; door_step := tcp_step; door_accept := TcpListener.accept; door_accept_raw := λ _, None;
  door_proved := λ l, map (λ x, connect_addr_from_stream x.2 x.1) (tl_completed l);
|}.

#[export, refine] Instance tcp_door_laws : @FrontDoorLaws tcp_door | 10 := {| door_ok := λ l : @Door tcp_door, ∃ cap, tcp_ok cap l |}.
Proof.
  - intros l l' Hs [cap Hl]. destruct (tcp_step_ok cap l l' Hs Hl) as [Hl' Hsub]. split; [by exists cap|].
    cbn. intros x (y & -> & Hy)%list_elem_of_fmap. apply list_elem_of_fmap. eauto.
  - intros l ca l' Ha [cap Hl]. destruct (tcp_accept_ok cap l ca l' Hl Ha) as (Hl' & E & stream & addr & Hin & ->).
    cbn. rewrite E. split_and!; [by exists cap|done|]. apply list_elem_of_fmap. by exists (stream, addr).
  - done.
Defined.
End doors.

Section end_to_end.
  Context `{Http} `{!Lru CachedResponse} `{!Lru (BackendHealth * Z)} `{IpNetLib} `{Governor}
    `{Semaphore} `{Zstd}.
  Context (ln : f64 → f64) (chunks : nat → list string * StreamEnd).

(** ** What a handler hands to a backend *)

(** The new sends of a run all satisfy [P]. *)
Definition grows (P : string * Request Body → Prop) (r r' : Run) : Prop :=
  ∃ new, sent (trace r') = new ++ sent (trace r) ∧ Forall P new.

Lemma grows_same P r r' : sent (trace r') = sent (trace r) → grows P r r'.
Proof. intros E. by exists []. Qed.

Lemma grows_trans P r r' r'' : grows P r r' → grows P r' r'' → grows P r r''.
Proof.
  intros (l & E & HF) (l' & E' & HF'). exists (l' ++ l). rewrite E', E, app_assoc.
  split; [done|]. by apply Forall_app.
Qed.

(** [x] is the request with the head [p], forwarded to a member of [pool] in the name of the
    client. *)
Definition forwarded (env : Env) (pool : BackendPool) (ip : IpAddr) (identity : option PeerIdentity) (p : Parts)
    (x : string * Request Body) : Prop :=
  ∃ backend attempt, backend ∈ backends pool ∧ x.1 = Balancer.id backend ∧
    req_method x.2 = pt_method p ∧ req_uri x.2 = pt_uri p ∧
    outbound_headers (pt_headers p) (Balancer.host backend) ip identity (ev_inject env attempt) = Ok (req_headers x.2).

Lemma select_and_gate_member now cx t r sel t' r' :
  select_and_gate ln now cx t r = (Ok sel, t', r') → sel_backend sel ∈ backends (cx_pool cx).
Proof.
  unfold select_and_gate, select_backend_excluding. cbv zeta.
  set (pf := λ b, connection_pressure _ _ _).
  assert (∀ excluded b, select_with_pressure_excluding ln now (cx_pool cx) (cx_client_ip cx) (health_rx (state r)) pf
    excluded = Some b → b ∈ backends (cx_pool cx)) as Hm by (intros *; apply select_member).
  destruct (match match select_with_pressure_excluding _ _ _ _ _ _ (failed_backends t) with Some b => _ | None => _ end
    with Ok b => Ok b | Err _ => _ end) as [backend|e] eqn:Hsel; [|done].
  assert (backend ∈ backends (cx_pool cx)) as Hin.
  { destruct (select_with_pressure_excluding _ _ _ _ _ _ (failed_backends t)) eqn:E1;
      [injection Hsel as <-; eauto|].
    destruct (select_with_pressure_excluding _ _ _ _ _ _ []) eqn:E2; [|done]. injection Hsel as <-. eauto. }
  destruct (try_acquire_conn_permit _ _) as [[[]|e] p]; [|done].
  destruct (check _ _ _) as [cb [[] guard]]; intros [= <- _ _]; done.
Qed.

Lemma run_attempt_grows env attempt cx replay t r out replay' t' r' :
  run_attempt ln chunks env attempt cx replay t r = (out, replay', t', r') →
  req_parts replay' = req_parts replay ∧
  grows (forwarded env (cx_pool cx) (cx_client_ip cx) (cx_identity cx) (req_parts replay)) r r'.
Proof.
  unfold run_attempt. destruct (select_and_gate _ _ cx t r) as [[[sel|[]] t1] r1] eqn:Hsel;
    pose proof (select_and_gate_trace _ _ _ _ _ _ _ _ Hsel) as [Hs _].
  2,3: intros [= <- <- <- <-]; split; [done|by apply grows_same].
  apply select_and_gate_member in Hsel as Hmem.
  destruct (build_retry_req replay) as [[req|] replay1] eqn:Hreq.
  2: { assert (replay1 = replay) as -> by (unfold build_retry_req in Hreq;
         destruct (body_bytes replay); [done|]; by destruct (streaming_body replay); simplify_eq).
       intros [= <- <- <- <-]. split; [done|]. apply grows_same.
       by rewrite (proj1 (drop_selected_trace sel r1)). }
  assert (req_parts replay1 = req_parts replay ∧ ∃ body, req = request_of (req_parts replay) body) as [Hp [body ->]].
  { unfold build_retry_req in Hreq. destruct (body_bytes replay); [|destruct (streaming_body replay); [|done]];
      simplify_eq; eauto. }
  destruct (forward_request _ _ _ _ _ _ r1) as [res r2] eqn:Hf. apply forward_request_trace in Hf as [Hf _].
  destruct (handle_response _ _ _ _ _ _ _ _ r2) as [[o t2] r3] eqn:Hh. apply handle_response_trace in Hh as [[Hh _] _].
  intros [= <- <- <- <-]. split; [done|].
  apply (grows_trans _ r r2).
  - destruct Hf as [Hf|(h & Hh' & Hf)]; [apply grows_same; congruence|].
    eexists [_]. split; [rewrite Hf, Hs; done|]. apply Forall_singleton. by exists (sel_backend sel), attempt.
  - apply grows_same. destruct o; rewrite ?(proj1 (drop_selected_trace sel r3)); done.
Qed.

Lemma retry_loop_grows env deadline budget cx fuel attempt replay t r out t' r' :
  retry_loop ln chunks env deadline budget cx fuel attempt replay t r = (out, t', r') →
  grows (forwarded env (cx_pool cx) (cx_client_ip cx) (cx_identity cx) (req_parts replay)) r r'.
Proof.
  revert attempt replay t r. induction fuel as [|fuel IH]; intros attempt replay t r; cbn [retry_loop].
  - intros [= <- <- <-]. by apply grows_same.
  - destruct (_ && _); [|intros [= <- <- <-]; by apply grows_same].
    destruct (run_attempt _ _ _ _ _ _ _ r) as [[[o replay1] t1] r1] eqn:Hrun.
    apply run_attempt_grows in Hrun as [Hp Hg]. destruct o; try by intros [= <- <- <-].
    intros Hl%IH. rewrite Hp in Hl. by eapply grows_trans.
Qed.

(** The head the replay keeps: the client's, but for the body fields of an inflated request. *)
Definition same_head (req : Request Body) (p : Parts) : Prop :=
  pt_method p = req_method req ∧ pt_uri p = req_uri req ∧
  (pt_headers p = req_headers req ∨ ∃ v, pt_headers p =
     hm_insert "content-length" v (hm_remove "content-encoding" (req_headers req))).

Lemma prepare_head req config rc zstd panicked replay n recorded :
  prepare_replay_body chunks req config rc zstd panicked = (Ready replay n, recorded) →
  same_head req (req_parts replay).
Proof.
  unfold prepare_replay_body.
  destruct (if zstd then _ else Ok req) as [req'|resp] eqn:Hreq; [|done]. intros Hready.
  assert (req_parts replay = {| pt_method := req_method req'; pt_uri := req_uri req'; pt_headers := req_headers req' |})
    as -> by (destruct (_ && _); [destruct (buffer_request_body _ _ _)|]; by simplify_eq).
  unfold same_head. cbn. destruct zstd; [|simplify_eq; auto]. unfold decompress_request in Hreq.
  destruct (collect _ _) as [b|[]]; try done. destruct (_ && _); [done|].
  destruct (decompress_bounded _ _); [|done]. simplify_eq/=. eauto.
Qed.

Lemma serve_grows env req ip identity neg info r served r' :
  serve ln chunks env req ip identity neg info r = (served, r') →
  grows (λ x, ∃ p, same_head req p ∧ forwarded env (ri_pool info) ip identity p x) r r'.
Proof.
  unfold serve. cbv zeta. destruct (prepare_replay_body _ _ _ _ _ _) as [[replay n|resp] recorded] eqn:Hp.
  - apply prepare_head in Hp. destruct (retry_loop _ _ _ _ _ _ _ _ _ _ _) as [[o t] r1] eqn:Hl.
    apply retry_loop_grows in Hl as (new & E & HF). cbn in E, HF. intros Hs. exists new.
    split; [|eapply Forall_impl; [exact HF|]; intros x Hx; by exists (req_parts replay)].
    destruct o as [|resp|resp conn ho]; [destruct (last_response t)|..]; by injection Hs as <- <-.
  - intros [= <- <-]. apply grows_same. by destruct recorded.
Qed.

(** The requests of a handler: each belongs to an admitted client and goes to its route's pool. *)
Lemma handler_grows env connect req r served r' :
  proxy_handler ln chunks env connect req r = (served, r') →
  grows (λ x, admitted (ev_start env) connect (state r) ∧ ∃ resolved p,
    resolve_backend_pool (reloadable (state r)) (uri_path (req_uri req)) = Ok resolved ∧ same_head req p ∧
    forwarded env (rr_pool resolved) (client_of connect).1 (client_of connect).2 p x) r r'.
Proof.
  intros [Hs|(neg & info & resolved & r3 & Hserve & Hs & _ & Hadm & Hres & Hpool)]%handler_serves;
    [by apply grows_same|].
  apply serve_grows in Hserve as (new & E & HF). exists new. split; [congruence|].
  eapply Forall_impl; [exact HF|]. intros x (p & Hh & Hf). split; [done|]. exists resolved, p. by rewrite Hpool.
Qed.

Section vouching.
  Context `{!HttpLaws}.

(** The fields an inflated request body rewrites. *)
Definition BODY_FIELDS : list string := ["content-length"; "content-encoding"].

(** What a forwarded request says of its origin: the proxy's statements and nothing else. *)
Definition origin_stated (host : string) (ip : IpAddr) (identity : option PeerIdentity) (h : HeaderMap) : Prop :=
  (∀ n v, (n, v) ∈ Headers.vouched host ip identity → get_all h n = [v]) ∧
  (∀ n, n ∈ SPOOFABLE → n ∉ (Headers.vouched host ip identity).*1 → get_all h n = []).

Lemma same_head_nominated req p :
  same_head req p → connection_nominated (pt_headers p) = connection_nominated (req_headers req).
Proof.
  intros (_ & _ & [->|[v ->]]); [done|]. unfold connection_nominated.
  by rewrite get_all_insert_ne, get_all_remove_ne.
Qed.

Lemma same_head_get_all req p n :
  same_head req p → n ∉ BODY_FIELDS → get_all (pt_headers p) n = get_all (req_headers req) n.
Proof.
  intros (_ & _ & [->|[v ->]]) Hn; [done|]. unfold BODY_FIELDS in Hn.
  rewrite !not_elem_of_cons in Hn. by rewrite get_all_insert_ne, get_all_remove_ne by naive_solver.
Qed.

(** Only trace fields are injected. *)
Definition injects_trace (env : Env) : Prop :=
  ∀ attempt k v, (k, v) ∈ ev_inject env attempt → to_ascii_lowercase k ∈ TRACE_FIELDS.

Lemma outbound_origin h host ip identity injected h' :
  (∀ k v, (k, v) ∈ injected → to_ascii_lowercase k ∈ TRACE_FIELDS) →
  outbound_headers h host ip identity injected = Ok h' → origin_stated host ip identity h'.
Proof.
  intros Hinj Ho. apply outbound_headers_vouched in Ho as (Hv & Hgone & _); [|done]. split; [done|].
  intros n Hn Hnv. apply Hgone; [apply elem_of_app; by left|]. apply not_elem_of_app. split; [done|].
  intros Ht. revert Hn. unfold SPOOFABLE, TRACE_FIELDS in *. rewrite !elem_of_cons, elem_of_nil in Ht.
  by destruct Ht as [->|[->|[]]]; rewrite !elem_of_cons, elem_of_nil; intros Hn; destruct_or! Hn.
Qed.

(** C7. Every request a handler hands to a backend belongs to an admitted client and states
    about its origin exactly what the proxy has proven.  It goes to a member of the pool that
    the longest matching route names, with the client's method and target; each vouched
    header (host, forwarded address, device name and key) has one value, the proxy's; the
    other origin claims, the connection-specific fields and those nominated in
    [Connection] are gone; and every other header is the client's, but for the length and the
    encoding of a body the proxy has inflated. *)
Theorem forwarded_requests_vouched env connect req r served r' :
  injects_trace env → proxy_handler ln chunks env connect req r = (served, r') →
  ∃ new, sent (trace r') = new ++ sent (trace r) ∧ ∀ b q, (b, q) ∈ new →
    admitted (ev_start env) connect (state r) ∧ ∃ resolved backend,
    resolve_backend_pool (reloadable (state r)) (uri_path (req_uri req)) = Ok resolved ∧
    backend ∈ backends (rr_pool resolved) ∧ b = Balancer.id backend ∧
    req_method q = req_method req ∧ req_uri q = req_uri req ∧
    origin_stated (Balancer.host backend) (client_of connect).1 (client_of connect).2 (req_headers q) ∧
    (∀ n, n ∈ HOP_BY_HOP_HEADERS ++ connection_nominated (req_headers req) →
          n ∉ (Headers.vouched (Balancer.host backend) (client_of connect).1 (client_of connect).2).*1 ++ TRACE_FIELDS →
          get_all (req_headers q) n = []) ∧
    (∀ n, n ∉ SPOOFABLE ++ HOP_BY_HOP_HEADERS ++ connection_nominated (req_headers req) →
          n ∉ "host" :: BODY_FIELDS ++ TRACE_FIELDS → get_all (req_headers q) n = get_all (req_headers req) n).
Proof.
  intros Hinj (new & E & HF)%handler_grows. exists new. split; [done|]. intros b q Hin.
  rewrite Forall_forall in HF. apply HF in Hin as (Hadm & resolved & p & Hres & Hhead & backend & attempt & Hb & Hid & Hm & Hu & Ho).
  cbn [fst snd] in *. pose proof (outbound_origin _ _ _ _ _ _ (Hinj attempt) Ho) as Horigin.
  apply outbound_headers_vouched in Ho as (_ & Hgone & Hkept); [|apply Hinj].
  rewrite (same_head_nominated req p Hhead) in *. pose proof Hhead as (Hm' & Hu' & _).
  split; [done|]. exists resolved, backend. split_and!; [done|done|done|congruence|congruence|done| |].
  - intros n Hn Hnv. apply Hgone; [apply elem_of_app; by right|done].
  - intros n Hn [Hhost [Hbody Htrace]%not_elem_of_app]%not_elem_of_cons.
    rewrite Hkept; [by apply (same_head_get_all req p)|done|by apply not_elem_of_cons].
Qed.

Lemma handler_origins env connect req r served r' :
  injects_trace env → proxy_handler ln chunks env connect req r = (served, r') →
  grows (λ x, admitted (ev_start env) connect (state r) ∧
              ∃ host, origin_stated host (client_of connect).1 (client_of connect).2 (req_headers x.2)) r r'.
Proof.
  intros Hinj (new & E & HF)%handler_grows. exists new. split; [done|]. eapply Forall_impl; [exact HF|].
  intros x (Hadm & resolved & p & _ & _ & backend & attempt & _ & _ & _ & _ & Ho). split; [done|].
  exists (Balancer.host backend). exact (outbound_origin _ _ _ _ _ _ (Hinj attempt) Ho).
Qed.

(** ** The edge *)

Section edge.
  Context {front : FrontDoor} {front_laws : FrontDoorLaws} (auth : ClientAuthPolicy) (raw_authz : RawRelayAuthz).

(** The front door, the shared state, the HTTP connections that were accepted and, over all
    requests and raw streams so far, what was done for them. *)
Record Edge := {
  ed_door : Door;
  ed_state : ProxyState;
  ed_conns : list (SocketAddr * option PeerIdentity);
  ed_trace : list Event;
  ed_raw_trace : list RawEvent;
}.

Definition with_door (e : Edge) (d : Door) : Edge :=
  {| ed_door := d; ed_state := ed_state e; ed_conns := ed_conns e; ed_trace := ed_trace e;
     ed_raw_trace := ed_raw_trace e |}.

(** The server takes a connection from the front door. *)
Definition edge_accept (ca : SocketAddr * option PeerIdentity) (d : Door) (e : Edge) : Edge :=
  {| ed_door := d; ed_state := ed_state e; ed_conns := ca :: ed_conns e; ed_trace := ed_trace e;
     ed_raw_trace := ed_raw_trace e |}.

(** A request on the connection [ca], until its response is gone. *)
Definition edge_request (env : Env) (ca : SocketAddr * option PeerIdentity) (req : Request Body) (e : Edge) : Edge :=
  let handled := proxy_handler ln chunks env (Some ca) req {| state := ed_state e; trace := ed_trace e |} in
  let r := complete handled.1 handled.2 in
  {| ed_door := ed_door e; ed_state := state r; ed_conns := ed_conns e; ed_trace := trace r;
     ed_raw_trace := ed_raw_trace e |}.

(** A raw stream from [addr], until its relay ends. *)
Definition edge_raw (env : RawEnv) (addr : SocketAddr) (active : Z) (d : Door) (e : Edge) : Edge :=
  let r := accept_raw ln env addr raw_authz active {| raw_state := ed_state e; raw_trace := ed_raw_trace e |} in
  {| ed_door := d; ed_state := raw_state r; ed_conns := ed_conns e; ed_trace := ed_trace e;
     ed_raw_trace := raw_trace r |}.

(** The other tasks: reloads, sweeps, the tunnel. *)
Definition edge_other (s : ProxyState) (e : Edge) : Edge :=
  {| ed_door := ed_door e; ed_state := s; ed_conns := ed_conns e; ed_trace := ed_trace e;
     ed_raw_trace := ed_raw_trace e |}.

(** The policy is fixed at startup: no task writes [client_auth]. *)
Inductive edge_step : Edge → Edge → Prop :=
  | es_door e d : door_step (ed_door e) d → edge_step e (with_door e d)
  | es_accept e ca d : door_accept (ed_door e) = Some (ca, d) → edge_step e (edge_accept ca d e)
  | es_request e env ca req :
      ca ∈ ed_conns e → injects_trace env → client_auth (ed_state e) = auth → edge_step e (edge_request env ca req e)
  | es_raw e env s addr active d :
      door_accept_raw (ed_door e) = Some ((s, addr), d) → re_identity env = qs_peer_identity s →
      re_stream env = bi_recv (qs_halves s) → edge_step e (edge_raw env addr active d e)
  | es_other e s : client_auth s = auth → edge_step e (edge_other s e).

Inductive edge_reachable (d : Door) (s : ProxyState) : Edge → Prop :=
  | edge_start : edge_reachable d s {| ed_door := d; ed_state := s; ed_conns := []; ed_trace := []; ed_raw_trace := [] |}
  | edge_next e e' : edge_reachable d s e → edge_step e e' → edge_reachable d s e'.

(** A request of a client whose handshake the door has seen. *)
Definition sent_for (proved : list (SocketAddr * option PeerIdentity)) (x : string * Request Body) : Prop :=
  ∃ addr identity host, (addr, identity) ∈ proved ∧ (auth = Required → is_Some identity) ∧
    origin_stated host (sa_ip addr) identity (req_headers x.2).

Definition piped_for (proved : list (SocketAddr * option PeerIdentity)) (x : PeerIdentity * string * BackendConfig) : Prop :=
  (∃ addr, (addr, Some x.1.1) ∈ proved) ∧ raw_is_allowed raw_authz x.1.2 x.1.1 = true.

Definition edge_ok (e : Edge) : Prop :=
  door_ok (ed_door e) ∧ ed_conns e ⊆ door_proved (ed_door e) ∧
  Forall (sent_for (door_proved (ed_door e))) (sent (ed_trace e)) ∧
  Forall (piped_for (door_proved (ed_door e))) (pipes (ed_raw_trace e)).

Lemma sent_for_mono proved proved' x : proved ⊆ proved' → sent_for proved x → sent_for proved' x.
Proof. intros Hsub (addr & identity & host & ? & ? & ?). exists addr, identity, host. split_and!; [by apply Hsub|done..]. Qed.

Lemma piped_for_mono proved proved' x : proved ⊆ proved' → piped_for proved x → piped_for proved' x.
Proof. intros Hsub ((addr & ?) & ?). split; [exists addr; by apply Hsub|done]. Qed.

(** The door moves on; what was proved before still holds. *)
Lemma edge_ok_door e d :
  edge_ok e → door_ok d → door_proved (ed_door e) ⊆ door_proved d → edge_ok (with_door e d).
Proof.
  intros (_ & Hc & Hs & Hp) Hd Hsub. split_and!; cbn; [done|by etrans| |].
  - eapply Forall_impl; [exact Hs|]. intros x. by apply sent_for_mono.
  - eapply Forall_impl; [exact Hp|]. intros x. by apply piped_for_mono.
Qed.

Lemma complete_sent served r : sent (trace (complete served r)) = sent (trace r).
Proof.
  unfold complete, drop_guards. destruct (sv_guards served) as [[g t]|]; [|done].
  destruct (rg_conn g), (rg_half_open g); done.
Qed.

Lemma edge_request_ok e env ca req :
  edge_ok e → ca ∈ ed_conns e → injects_trace env → client_auth (ed_state e) = auth →
  edge_ok (edge_request env ca req e).
Proof.
  intros (Hd & Hc & Hs & Hp) Hca Hinj Hauth. unfold edge_request.
  destruct (proxy_handler _ _ _ _ _ _) as [served r'] eqn:Hh.
  apply handler_origins in Hh as (new & E & HF); [|done]. split_and!; cbn; [done..| |done].
  rewrite complete_sent, E. apply Forall_app. split; [|done].
  eapply Forall_impl; [exact HF|]. intros x ((_ & _ & _ & Hi) & host & Ho).
  destruct ca as [addr identity]. exists addr, identity, host. split_and!; [by apply Hc| |done].
  cbn in Hi. intros ->. rewrite Hauth in Hi. by destruct identity.
Qed.

Lemma edge_raw_ok e env s addr active d :
  edge_ok e → door_accept_raw (ed_door e) = Some ((s, addr), d) → re_identity env = qs_peer_identity s →
  edge_ok (edge_raw env addr active d e).
Proof.
  intros He Ha Hid. destruct (door_accept_raw_ok _ _ _ _ Ha (proj1 He)) as (Hd & Hsame & Hin).
  assert (edge_ok (with_door e d)) as (_ & Hc & Hs & Hp) by (apply edge_ok_door; [done..|by rewrite Hsame]).
  cbn in Hc, Hs, Hp. unfold edge_raw. set (r := accept_raw _ _ _ _ _ _).
  split_and!; cbn; [done..|]. subst r. unfold accept_raw. destruct (_ <=? active); [done|].
  destruct (handle_raw_stream _ _ _ _ _) as [res r'] eqn:Hr. apply raw_stream_pipes in Hr as (ps & Hps & Hauth).
  assert (Forall (piped_for (door_proved d)) (pipes (raw_trace r'))) as Hall.
  { rewrite Hps. apply Forall_app. split; [|done]. apply Forall_forall. intros x Hx.
    destruct (Hauth x Hx) as (_ & _ & Hi & _ & _ & Hallow). split; [|done]. exists addr. rewrite Hsame.
    rewrite <-Hi, Hid. done. }
  by destruct res.
Qed.

Lemma edge_step_ok e e' : edge_step e e' → edge_ok e → edge_ok e'.
Proof.
  intros Hs He. pose proof He as (Hd & Hc & Hsent & Hpipes).
  destruct Hs as [e d Hs|e ca d Ha|e env ca req Hca Hinj Hauth|e env s addr active d Ha Hid _|e s _].
  - destruct (door_step_ok _ _ Hs Hd). by apply edge_ok_door.
  - destruct (door_accept_ok _ _ _ Ha Hd) as (Hd' & Hsame & Hin).
    split_and!; cbn; [done|rewrite Hsame; set_solver|by rewrite Hsame..].
  - by apply edge_request_ok.
  - by eapply edge_raw_ok.
  - done.
Qed.

(** C6. However handshakes, connections, requests, raw streams and the tasks that change the
    shared state interleave, identity is end to end: every request any backend has received
    states the address and the identity that one completed handshake proved, and no other
    (with mutual TLS required, always an identity); and every raw pipe ran for an identity
    that a handshake proved and that the allow list of its backend contains. *)
Theorem edge_identity d s e :
  door_ok d → edge_reachable d s e →
  Forall (sent_for (door_proved (ed_door e))) (sent (ed_trace e)) ∧
  Forall (piped_for (door_proved (ed_door e))) (pipes (ed_raw_trace e)).
Proof.
  intros Hd Hr. assert (edge_ok e) as (_ & _ & ?); [|done].
  induction Hr as [|e e' _ IH Hs]; [|by eapply edge_step_ok]. split_and!; cbn; [done|set_solver|done|done].
Qed.
End edge.
End vouching.
End end_to_end.

(** ** Witnesses *)

(** A client that claims to be someone else. *)
Definition demo_spoofing : Request Body :=
  Build_Request "GET" {| uri_path := "/a"; uri_path_and_query := None |} demo_request_headers (Bytes "b").

Definition demo_forwarding : Served * Run :=
  proxy_handler demo_ln demo_chunks (demo_env 200 []) demo_client demo_spoofing (demo_run 2).

Lemma demo_trace_only status headers : injects_trace (demo_env status headers).
Proof. intros attempt k v Hin. by apply elem_of_nil in Hin. Qed.

Lemma forwarded_requests_vouched_witness :
  length (sent (trace demo_forwarding.2)) = 1%nat ∧
  Forall (λ bq, let h := req_headers bq.2 in
    get_all h HEADER_X_FORWARDED_FOR = ["0.0.0.7"] ∧ get_all h HEADER_CLIENT_ID = ["edge-7"] ∧
    get_all h "x-debug" = [] ∧ get_all h "accept" = ["text/plain"]) (sent (trace demo_forwarding.2)).
Proof.
  split; [vm_compute; reflexivity|].
  destruct (forwarded_requests_vouched demo_ln demo_chunks (demo_env 200 []) demo_client demo_spoofing (demo_run 2)
    demo_forwarding.1 demo_forwarding.2 (demo_trace_only 200 []) (surjective_pairing _)) as (new & E & Hall).
  apply Forall_forall. intros [b q] Hin. rewrite E, app_nil_r in Hin.
  destruct (Hall b q Hin) as (_ & resolved & backend & _ & _ & _ & _ & _ & [Hv _] & Hgone & Hkept).
  split_and!; [apply Hv; by_decide..| |].
  - apply Hgone; by_decide.
  - cbn [snd]. rewrite Hkept by by_decide. vm_compute. reflexivity.
Defined.

(** A device has completed its handshake and opened an HTTP stream and a raw stream for the
    pool "p". *)
Definition demo_opened : QuicListener :=
  accept_bi 0 [2; 0; 1; 112] (accept_bi 0 [1; 71] (establish_connection 0 (Some (Ok demo_identity))
    (accept_incoming demo_remote (QuicListener.bind_with_token 8)))).
Definition demo_typed : QuicListener := default demo_opened (handle_bi_stream 0 0 false true demo_opened).
Definition demo_front : QuicListener := default demo_typed (handle_bi_stream 0 0 false true demo_typed).

Lemma demo_front_ok : ∃ cap, listener_ok cap demo_front.
Proof.
  exists 8. apply (quic_step_ok 8 demo_typed); [by apply (qs_stream 0 0 false true)|].
  apply (quic_step_ok 8 demo_opened); [by apply (qs_stream 0 0 false true)|].
  do 2 (eapply quic_step_ok; [apply qs_accept_bi|]). eapply quic_step_ok; [apply qs_established|].
  eapply quic_step_ok; [apply qs_incoming|]. by apply bind_ok.
Qed.

(** The server takes the HTTP stream, the request above is served on it, and the raw stream is
    relayed. *)
Definition demo_edge_start : Edge (front := quic_door) :=
  {| ed_door := demo_front : @Door quic_door; ed_state := demo_state 2; ed_conns := []; ed_trace := [];
     ed_raw_trace := [] |}.
Definition demo_edge_accepted : Edge (front := quic_door) :=
  edge_accept (front := quic_door) (demo_remote, Some demo_identity) (recv_http demo_front) demo_edge_start.
Definition demo_edge_served : Edge (front := quic_door) :=
  edge_request demo_ln demo_chunks (demo_env 200 []) (demo_remote, Some demo_identity) demo_spoofing demo_edge_accepted.
Definition demo_edge : Edge (front := quic_door) :=
  edge_raw (front := quic_door) demo_ln demo_raw_authz demo_raw_env demo_remote 0 (recv_raw (recv_http demo_front))
    demo_edge_served.

Lemma demo_edge_counts : length (sent (ed_trace demo_edge)) = 1%nat ∧ length (pipes (ed_raw_trace demo_edge)) = 1%nat.
Proof. vm_compute. done. Qed.

Lemma demo_edge_reachable :
  edge_reachable (front := quic_door) demo_ln demo_chunks Required demo_raw_authz demo_front (demo_state 2) demo_edge.
Proof.
  apply (edge_next _ _ _ _ _ _ demo_edge_served).
  2: { apply (es_raw _ _ _ _ demo_edge_served demo_raw_env {| qs_halves := {| bi_conn := 0; bi_recv := [0; 1; 112] |}; qs_peer_identity := Some demo_identity |}
         demo_remote 0 (recv_raw (recv_http demo_front))); reflexivity. }
  apply (edge_next _ _ _ _ _ _ demo_edge_accepted).
  2: { apply es_request; [apply list_elem_of_here|apply demo_trace_only|reflexivity]. }
  apply (edge_next _ _ _ _ _ _ demo_edge_start); [apply edge_start|]. by apply es_accept.
Qed.

Lemma edge_identity_witness :
  (length (sent (ed_trace demo_edge)) = 1%nat ∧ length (pipes (ed_raw_trace demo_edge)) = 1%nat) ∧
  Forall (sent_for Required (door_proved (ed_door demo_edge))) (sent (ed_trace demo_edge)) ∧
  Forall (piped_for demo_raw_authz (door_proved (ed_door demo_edge))) (pipes (ed_raw_trace demo_edge)).
Proof.
  split; [exact demo_edge_counts|].
  exact (edge_identity (front := quic_door) demo_ln demo_chunks Required demo_raw_authz demo_front (demo_state 2) demo_edge
    demo_front_ok demo_edge_reachable).
Defined.
