(* ===== verification/Startup.v ===== *)
(** * Startup: [src/startup/mod.rs], [src/startup/background.rs] and [src/startup/serve.rs]

    The process from its configuration to the serving of requests, and from the shutdown signal
    to its end: every long-lived part is built from the operations of its own file, in the order
    in which [run] builds them, and the first failure ends the startup. *)

From S2P Require Import Prelude Text Error Net Http Lru Float64 Wire Cache Circuit Acl Retry Router Identity.
From S2P Require Import Headers TunnelProtocol Balancer Queue Registry Pool Body Handler IngressProtocol Udp UdpListener.
From S2P Require Import Relay TcpIngress Config Reload Acme Lifecycle Tls QuicListener.
Local Open Scope Z_scope.

Section startup.
  Context `{Http} `{!Lru CachedResponse} `{!Lru (BackendHealth * Z)} `{IpNetLib} `{Governor}
          `{Semaphore} `{Zstd} `{Pki} `{TlsLib}.

(** ** The rate-limiter sweep *)

Definition swept_count (before after : Z) : Z := saturating_sub before after.

(** One turn of [spawn_ratelimit_gc]: the store at the two looks (other tasks may check
    addresses in between), and the count it reports. *)
Definition gc_turn (now : Z) (await : KeyedLimiter → KeyedLimiter) (l : KeyedLimiter) : Z * KeyedLimiter :=
  let before := rate_len l in
  let l := await (retain_recent now l) in
  (swept_count before (rate_len l), l).

(** The count never underflows, whatever the other tasks insert. *)
Lemma gc_turn_bounds now await l : 0 ≤ rate_len l → 0 ≤ (gc_turn now await l).1.
Proof. intros Hl. unfold gc_turn, swept_count, saturating_sub. cbn. lia. Qed.

(** ** The log of a startup *)

(** What is running, and the announcement of readiness. *)
Inductive Started :=
  | Watching (context : string) (triggers : list string)
  | AcmeRenewal
  | AcmeShutdownBridge
  | ConfigReloadTask (revocation_path : option string)
  | RateLimitGc (interval_secs : Z)
  | UdpIngressTask (entry : IngressConfig) (listener : UdpListener)
  | TcpIngressTask (entry : IngressConfig) (pool : BackendPool) (idle_timeout : Z) (listener : TcpIngress)
  | RedirectTask (listen : SocketAddr) (to_host : string)
  | TunnelListenerTask (listen : SocketAddr) (control_plane_health : bool)
  | RevocationSweepTask
  | HealthEndpointTask (listen : SocketAddr)
  | Ready
  | RawRelayTask (authz : RawRelayAuthz)
  | HttpServer (transport : TransportKind) (listen : SocketAddr).

(** A computation that starts things and may fail; what was started before stays started. *)
Definition boot (A : Type) : Type := list Started → Result A * list Started.

#[export] Instance boot_ret : MRet boot := λ A a log, (Ok a, log).
#[export] Instance boot_bind : MBind boot := λ A B f m log,
  match m log with (Ok a, log) => f a log | (Err e, log) => (Err e, log) end.

Definition start (t : Started) : boot unit := λ log, (Ok (), log ++ [t]).
Definition lift {A} (r : Result A) : boot A := λ log, (r, log).

(** What the operating system, the files and the network answer. *)
Record StartEnv := {
  sn_setup : SetupEnv;
  sn_revocation_file : Result RevocationSet;
  sn_revocation_watch : WatchEnv;
  sn_parallelism : result string Z;
  sn_udp : string → Z → SocketSetup;
  sn_bind_tcp : SocketAddr → result string unit;
  sn_quic_crypto : result string unit;
  sn_bind_quic : SocketAddr → result string unit;
  sn_warm_nets : string → list Net;
  sn_warm_await : ConnPool → ConnPool;
}.

Definition io_err (r : result string unit) : Result unit := match r with Ok _ => Ok () | Err e => Err (Io e) end.

(** ** [background.rs] *)

Definition RevocationWatcher_new (env : StartEnv) (path : string) : Result Watcher :=
  spawn_trailing_edge_watcher (sn_revocation_watch env) [path] "revocation" Warn.

(** Seeds the denylist; a watcher that cannot start is not fatal, and no denylist is empty. *)
Definition setup_revocation_watcher (env : StartEnv) (config : ReductionConfig) : boot RevocationSet :=
  match tc_revocation_path (tunnel config) with
  | None => mret RevocationSet_default
  | Some path =>
      initial ← lift (load_initial path (sn_revocation_file env));
      _ ← match RevocationWatcher_new env path with
          | Ok w => start (Watching (wa_context w) (wa_triggers w))
          | Err _ => mret ()
          end;
      mret initial
  end.

Definition ingress_backends (config : ReductionConfig) (entry : IngressConfig) : list BackendConfig :=
  List.filter (λ b, existsb (λ i, String.eqb i (Balancer.id b)) (ic_backend_ids entry)) (c_backends config).

(** The pool the ingress listeners share; the registry only when tunneling is on. *)
Definition ingress_pool (config : ReductionConfig) (tunnel_registry : option TunnelRegistry) : ConnPool :=
  let pool := with_pool_config ConnPool_new (h2_connections_per_backend (proxy config)) (max_idle_quic (proxy config))
                (pc_h2_stream_window (proxy config)) (pc_h2_conn_window (proxy config)) in
  match tunnel_registry with Some registry => with_tunnel_registry pool registry | None => pool end.

Definition spawn_ingress (env : StartEnv) (config : ReductionConfig) (shared : Shared) (entry : IngressConfig)
    : boot unit :=
  match ic_protocol entry with
  | ProtoUdp =>
      l ← lift (spawn_udp_ingress
                  {| up_config := entry; up_backends := ingress_backends config entry;
                     up_acl := AccessControl_new (acc_allow (access config)) (acc_deny (access config));
                     up_requests_per_second := rl_requests_per_second (ratelimit config);
                     up_circuit := sh_circuit shared; up_retry := retry config;
                     up_max_backends := bc_max_backends (balancer config) |}
                  (sn_parallelism env) (sn_udp env (ic_id entry)));
      start (UdpIngressTask entry l)
  | ProtoTcp =>
      '(pool, idle, t) ← lift (spawn_tcp_ingress (sn_bind_tcp env (ic_listen entry)) entry (ingress_backends config entry)
                                 (bc_max_backends (balancer config)) (rl_requests_per_second (ratelimit config)) shared);
      start (TcpIngressTask entry pool idle t)
  end.

Fixpoint spawn_each (env : StartEnv) (config : ReductionConfig) (shared : Shared) (entries : list IngressConfig)
    : boot unit :=
  match entries with
  | [] => mret ()
  | entry :: entries => _ ← spawn_ingress env config shared entry; spawn_each env config shared entries
  end.

Definition spawn_ingress_listeners (env : StartEnv) (config : ReductionConfig) (tunnel_registry : option TunnelRegistry)
    : boot unit :=
  match ingress config with
  | [] => mret ()
  | entries =>
      spawn_each env config
        {| sh_conn_pool := ingress_pool config tunnel_registry;
           sh_circuit := CircuitBreakers_new (circuit_breaker config) |} entries
  end.

Definition spawn_http_redirect (env : StartEnv) (c : HttpRedirectConfig) : boot unit :=
  if negb (hr_enabled c) then mret ()
  else _ ← lift (io_err (sn_bind_tcp env (hr_listen c))); start (RedirectTask (hr_listen c) (hr_to_host c)).

(** The listener binds in its own task: a failure there is logged. *)
Definition spawn_tunnel_listener (config : ReductionConfig) : boot unit :=
  if negb (tc_enabled (tunnel config)) then mret ()
  else
    match tc_listen_address (tunnel config) with
    | None => mret ()
    | Some addr =>
        _ ← start (TunnelListenerTask addr (tc_control_plane_health (tunnel config)));
        start RevocationSweepTask
    end.

(** Returns the state with the pool warmed up. *)
Definition spawn_background_tasks (env : StartEnv) (config : ReductionConfig) (s : ProxyState) (registry : TunnelRegistry)
    : boot ProxyState :=
  _ ← start (ConfigReloadTask (tc_revocation_path (tunnel config)));
  _ ← start (RateLimitGc (rl_retain_interval_secs (ratelimit config)));
  _ ← spawn_ingress_listeners env config (if tc_enabled (tunnel config) then Some registry else None);
  _ ← spawn_http_redirect env (http_redirect config);
  _ ← spawn_tunnel_listener config;
  mret (with_conn_pool s (warm_up (conn_pool s) (sn_warm_nets env) (sn_warm_await env) (c_backends config))).

(** ** [mod.rs] and [serve.rs] *)

Definition spawn_health_endpoint (env : StartEnv) (c : HealthEndpointConfig) : boot unit :=
  if negb (he_enabled c) then mret ()
  else _ ← lift (io_err (sn_bind_tcp env (he_listen c))); start (HealthEndpointTask (he_listen c)).

(** Up to the serving loop; the raw relay is spawned over QUIC only. *)
Definition serve_transport (env : StartEnv) (config : ReductionConfig) (raw_relay_authz : RawRelayAuthz) : boot unit :=
  let addr := li_address (listen config) in
  match li_transport (listen config) with
  | Tcp =>
      _ ← lift (io_err (sn_bind_tcp env addr));
      start (HttpServer Tcp addr)
  | Quic =>
      _ ← lift (build_quic_server_config (sn_quic_crypto env));
      _ ← lift (match sn_bind_quic env addr with Ok _ => Ok () | Err e => Err (Transport ("QUIC bind: " +:+ e)) end);
      _ ← start (RawRelayTask raw_relay_authz);
      start (HttpServer Quic addr)
  end.

(** What a set-up of TLS that succeeded leaves running, in the order in which it was started; one
    that fails drops the watchers it had made. *)
Definition watching (w : Watcher) : Started := Watching (wa_context w) (wa_triggers w).

Definition setup_started (setup : TlsSetup) : list Started :=
  let server := ts_server setup in
  [watching (ts_config_watcher setup)] ++
  option_list (watching <$> ct_trust_watcher (ts_client setup)) ++
  option_list (watching <$> st_cert_watcher server) ++
  option_list (watching <$> st_trust_watcher server) ++
  (if st_renewal server then [AcmeRenewal] else []).

Definition start_setup (setup : TlsSetup) : boot unit := λ log, (Ok (), log ++ setup_started setup).

Definition bridge_acme_shutdown (acme : bool) : boot unit := if acme then start AcmeShutdownBridge else mret ().

(** [run] up to the serving loop; [provision] is the initial ACME provisioning. *)
Definition run (env : StartEnv) (fs : Files) (provision : AcmeTlsConfig → Acme.World → Result unit * Acme.World) (w : Acme.World)
    (config_path : string) (config : ReductionConfig) : boot ProxyState :=
  setup ← lift (build_tls_setup (sn_setup env) fs config_path config provision w).1;
  _ ← start_setup setup;
  balancing ← lift (build_balancing config);
  _ ← bridge_acme_shutdown (st_renewal (ts_server setup));
  let registry := TunnelRegistry_new (tc_max_sessions_per_backend (tunnel config)) in
  revocation ← setup_revocation_watcher env config;
  let s := build_proxy_state config registry revocation false balancing in
  s ← spawn_background_tasks env config s registry;
  _ ← spawn_health_endpoint env (health_endpoint config);
  authz ← lift (RawRelayAuthz_new (raw_relay_authz config) (bal_configured_backend_ids balancing));
  _ ← start Ready;
  _ ← serve_transport env config authz;
  mret s.

(** The end of [run], after the server has returned: the sessions are shut down, the drain lasts
    at most what the outcome leaves it, and the pool is closed. *)
Definition finish (config : ReductionConfig) (outcome : ShutdownOutcome) (registry : TunnelRegistry) (pool : ConnPool)
    : Z * list nat * TunnelRegistry * ConnPool :=
  let '(closed, registry) := shutdown_all registry in
  (residual_drain outcome (from_secs (bc_drain_timeout_secs (balancer config))), closed, registry, (drain pool).2).

(** ** What a startup that succeeds has started *)

































(** ** A startup that fails *)

(** [m] starts no server. *)
Definition serverless {A} (m : boot A) : Prop :=
  ∀ log t addr, HttpServer t addr ∈ (m log).2 → HttpServer t addr ∈ log.

Lemma serverless_bind {A B} (m : boot A) (f : A → boot B) :
  serverless m → (∀ a, serverless (f a)) → serverless (m ≫= f).
Proof.
  intros Hm Hf log t addr. unfold mbind, boot_bind. specialize (Hm log t addr).
  destruct (m log) as [[a|e] log1]; [|done]. intros Hin%Hf. by apply Hm.
Qed.

Lemma serverless_lift {A} (r : Result A) : serverless (lift r).
Proof. by intros log t addr. Qed.

Lemma serverless_start x : (∀ t addr, x ≠ HttpServer t addr) → serverless (start x).
Proof. intros Hx log t addr. cbn. rewrite elem_of_app, list_elem_of_singleton. intros [?|E]; [done|]. by destruct (Hx t addr). Qed.

Lemma background_serverless env config s registry : serverless (spawn_background_tasks env config s registry).
Proof.
  assert (∀ shared entries, serverless (spawn_each env config shared entries)) as Heach.
  { intros shared entries. induction entries as [|i entries IH]; [by intros log t addr|]. apply serverless_bind; [|done].
    unfold spawn_ingress. destruct (ic_protocol i); (apply serverless_bind; [apply serverless_lift|]).
    - intros l. by apply serverless_start.
    - intros [[pool idle] t]. by apply serverless_start. }
  unfold spawn_background_tasks. repeat (apply serverless_bind; [|intros []]); try (by apply serverless_start).
  - unfold spawn_ingress_listeners. destruct (ingress config); [by intros log t addr|apply Heach].
  - unfold spawn_http_redirect. destruct (negb _); [by intros log t addr|].
    apply serverless_bind; [apply serverless_lift|]. intros []. by apply serverless_start.
  - unfold spawn_tunnel_listener. destruct (negb _); [by intros log t addr|].
    destruct (tc_listen_address _); [|by intros log t addr].
    apply serverless_bind; [by apply serverless_start|]. intros []. by apply serverless_start.
  - by intros log t addr.
Qed.

Lemma health_serverless env c : serverless (spawn_health_endpoint env c).
Proof.
  unfold spawn_health_endpoint. destruct (negb _); [by intros log t addr|].
  apply serverless_bind; [apply serverless_lift|]. intros []. by apply serverless_start.
Qed.

Lemma serve_err env config authz log e log' :
  serve_transport env config authz log = (Err e, log') → log' = log.
Proof.
  unfold serve_transport, mbind, boot_bind. destruct (li_transport _).
  - destruct (io_err _); by intros [= _ <-].
  - cbn. destruct (build_quic_server_config _); [|by intros [= _ <-]]. destruct (sn_bind_quic _ _); by intros [= _ <-].
Qed.

Lemma revocation_serverless env config : serverless (setup_revocation_watcher env config).
Proof.
  unfold setup_revocation_watcher. destruct (tc_revocation_path _); [|by intros log t addr].
  apply serverless_bind; [apply serverless_lift|]. intros r. apply serverless_bind; [|intros []; by intros log t addr].
  destruct (RevocationWatcher_new _ _); [by apply serverless_start|by intros log t addr].
Qed.

Lemma setup_serverless setup : serverless (start_setup setup).
Proof.
  intros log t addr. cbn -[setup_started]. rewrite elem_of_app. intros [?|Hin]; [done|]. unfold setup_started in Hin.
  destruct (ct_trust_watcher _), (st_cert_watcher _), (st_trust_watcher _), (st_renewal _); cbn in Hin; set_solver.
Qed.

(** [m] fails before any server is started. *)
Definition fails_serverless {A} (m : boot A) : Prop :=
  ∀ log e log' t addr, m log = (Err e, log') → HttpServer t addr ∈ log' → HttpServer t addr ∈ log.

Lemma fails_bind {A B} (m : boot A) (f : A → boot B) :
  serverless m → (∀ a, fails_serverless (f a)) → fails_serverless (m ≫= f).
Proof.
  intros Hm Hf log e log' t addr. unfold mbind, boot_bind. specialize (Hm log t addr).
  destruct (m log) as [[a|e1] log1]; cbn in Hm; [|intros [= <- <-]; apply Hm].
  intros Hfa Hin. by apply Hm, (Hf a log1 e log').
Qed.

(** A startup that fails serves nothing: whatever fails, the server was not started. *)
Theorem startup_fails_closed env fs provision w config_path config e log :
  run env fs provision w config_path config [] = (Err e, log) → ∀ t addr, HttpServer t addr ∉ log.
Proof.
  intros Hrun t addr Hin. assert (fails_serverless (run env fs provision w config_path config)) as Hf.
  2: { by apply (Hf _ _ _ t addr Hrun), elem_of_nil in Hin. }
  unfold run. apply fails_bind; [apply serverless_lift|]. intros setup. apply fails_bind; [apply setup_serverless|]. intros [].
  apply fails_bind; [apply serverless_lift|]. intros bal. apply fails_bind.
  { unfold bridge_acme_shutdown. destruct (st_renewal _); [by apply serverless_start|by intros ???]. }
  intros []. apply fails_bind; [apply revocation_serverless|]. intros rev. apply fails_bind; [apply background_serverless|].
  intros s. apply fails_bind; [apply health_serverless|]. intros []. apply fails_bind; [apply serverless_lift|].
  intros authz. apply fails_bind; [by apply serverless_start|]. intros [] l e' l' t' addr'. unfold mbind, boot_bind.
  destruct (serve_transport env config authz l) as [[[]|e1] l1] eqn:Hs; [done|]. intros [= _ <-]. by apply serve_err in Hs as ->.
Qed.

(** Once the server has returned, no session and no pooled connection is left, and a shutdown
    that was forced waits no longer. *)
Theorem finish_closes config outcome registry pool wait closed registry' pool' :
  finish config outcome registry pool = (wait, closed, registry', pool') →
  sessions registry' = ∅ ∧ tcp_h2 pool' = ∅ ∧ quic_idle pool' = ∅ ∧ quic_endpoint pool' ≠ Some false ∧
  (∀ s, s ∈ all_sessions registry → ts_connection s ∈ closed) ∧ (outcome = ForcedTimeout → wait = 0).
Proof.
  unfold finish, shutdown_all. intros [= <- <- <- <-]. split_and!; [done..| | |].
  - cbn. by destruct (quic_endpoint pool) as [[]|].
  - intros s Hs. apply list_elem_of_fmap. eauto.
  - by intros ->.
Qed.
End startup.

(** ** Witnesses *)

Definition demo_entry (protocol : IngressProto) (port : Z) : IngressConfig :=
  {| ic_id := "in"; ic_protocol := protocol; ic_listen := {| sa_ip := V4 0x7f000001; sa_port := port |}; ic_workers := 2;
     ic_recv_buffer_bytes := 1024; ic_max_datagram_bytes := 64; ic_backend_ids := ["q"]; ic_batch_max_datagrams := 4;
     ic_batch_max_bytes := 128; ic_linger_ms := 20; ic_queue_depth_per_backend := 2; ic_max_connections := None;
     ic_idle_timeout_secs := None |}.

Definition demo_quic_backend : BackendConfig :=
  {| Balancer.id := "q"; Balancer.pool := "b"; address := demo_addr 12; Balancer.host := "q"; weight := f64_one;
     transport := Quic; scheme := Https; max_connections := 8; wakeable := false |}.

(** A deployment with a UDP and a TCP ingress, a tunnel and a denylist, over QUIC. *)
Definition demo_deployment : ReductionConfig :=
  let c := demo_new in
  {| listen := {| li_address := demo_addr 1; li_transport := Quic; li_client_auth := Required |};
     tls := tls c; c_backends := demo_quic_backend :: c_backends c; c_routes := c_routes c; balancer := balancer c;
     proxy := proxy c; compression := compression c; health := health c; access := access c; ratelimit := ratelimit c;
     metrics_endpoint := None; circuit_breaker := circuit_breaker c; c_timeouts := c_timeouts c; retry := retry c;
     tracing := tracing c;
     tunnel := {| tc_enabled := true; tc_listen_address := Some (demo_addr 2); tc_heartbeat_timeout_secs := 45;
                  tc_allowed_backend_ids := []; tc_max_sessions_per_backend := 8; tc_registration_timeout_secs := 10;
                  tc_control_channel_capacity := 16; tc_revocation_path := Some "revoked.toml";
                  tc_max_total_sessions := None; tc_max_accepts_per_second_per_ip := None; tc_control_plane_health := false |};
     cache := cache c; raw_relay_authz := []; ingress := [demo_entry ProtoUdp 514; demo_entry ProtoTcp 515];
     http_redirect := http_redirect c; health_endpoint := health_endpoint c |}.

Definition demo_denylist : RevocationSet := {| rs_spki := ∅; rs_backend_ids := {["lost"]} |}.

Definition demo_start_env (bind_quic : result string unit) : StartEnv :=
  {| sn_setup := demo_setup_env (Ok ()); sn_revocation_watch := demo_watch_env (Ok ()); sn_revocation_file := Ok demo_denylist; sn_parallelism := Ok 8; sn_udp := λ _ _, demo_os; sn_bind_tcp := λ _, Ok ();
     sn_quic_crypto := Ok (); sn_bind_quic := λ _, bind_quic; sn_warm_nets := λ _, []; sn_warm_await := λ p, p |}.

#[local] Existing Instances demo_pki demo_tls_lib.

Definition demo_startup (bind_quic : result string unit) : Result ProxyState * list Started :=
  run (demo_start_env bind_quic) (demo_files "1") demo_provision demo_acme_world "c.toml" demo_deployment [].




Definition failure {A} (r : Result A) : option ReductionError := match r with Ok _ => None | Err e => Some e end.

Lemma demo_bind_fails : failure (demo_startup (Err "in use")).1 = Some (Transport "QUIC bind: in use").
Proof. vm_compute. reflexivity. Qed.

Lemma startup_fails_closed_witness :
  ∀ t addr, HttpServer t addr ∉ (demo_startup (Err "in use")).2.
Proof.
  apply (startup_fails_closed (demo_start_env (Err "in use")) (demo_files "1") demo_provision demo_acme_world "c.toml" demo_deployment
    (Transport "QUIC bind: in use")).
  change (demo_startup (Err "in use") = (Err (Transport "QUIC bind: in use"), (demo_startup (Err "in use")).2)).
  pose proof demo_bind_fails as E. destruct (demo_startup (Err "in use")) as [[s|e] log]; [done|].
  cbn in E. by injection E as ->.
Defined.

(** Readiness is announced before the socket is bound: a startup whose listener cannot bind has
    already told its probes that it is ready. *)
Example ready_before_bound :
  failure (demo_startup (Err "in use")).1 = Some (Transport "QUIC bind: in use") ∧
  match last (demo_startup (Err "in use")).2 with Some Ready => True | _ => False end.
Proof. split; vm_compute; done. Qed.
