(* ===== verification/Ledger.v ===== *)
(** * Ledger: the limits that requests share

    The queue slots and the connection permits are handed out by shared counters and owned by
    guards.  [balanced origin published depth s G] says that the counters of the state [s] and
    the guards [G] alive agree: every queue has as many slots left as its depth minus the
    guards out, and what is left of a backend's permits together with the guards out is the
    capacity its counter was created with, of which [origin] holds.  Each operation that takes,
    refuses or returns a guard keeps the two in step, whoever owns the other guards and
    whatever the circuit breakers say. *)

From S2P Require Import Prelude Text Error Net Http Lru Float64 CacheControl Cache Circuit Acl Retry Router.
From S2P Require Import Identity Headers Balancer Queue Registry Pool Body Handler.
Local Open Scope Z_scope.

(** ** Counting guards *)

Fixpoint slots (l : nat) (G : list Resource) : Z :=
  match G with
  | [] => 0
  | RQueue _ l' :: G => (if decide (l' = l) then 1 else 0) + slots l G
  | _ :: G => slots l G
  end.

Fixpoint conns (b : string) (G : list Resource) : Z :=
  match G with
  | [] => 0
  | RConn b' :: G => (if decide (b' = b) then 1 else 0) + conns b G
  | _ :: G => conns b G
  end.

#[export] Instance slots_perm l : Proper ((≡ₚ) ==> eq) (slots l).
Proof. induction 1 as [|[] | [] []|]; cbn; try lia; congruence. Qed.

#[export] Instance conns_perm b : Proper ((≡ₚ) ==> eq) (conns b).
Proof. induction 1 as [|[] | [] []|]; cbn; try lia; congruence. Qed.

Lemma slots_nonneg l G : 0 ≤ slots l G.
Proof. induction G as [|[] G IH]; cbn; [lia..|case_decide; lia|lia|lia]. Qed.

Lemma conns_nonneg b G : 0 ≤ conns b G.
Proof. induction G as [|[] G IH]; cbn; [lia..|case_decide; lia|lia]. Qed.

Section ledger.
  Context `{Http} `{!Lru CachedResponse} `{!Lru (BackendHealth * Z)} `{IpNetLib} `{Governor}
          `{Semaphore} `{!SemaphoreLaws} `{Zstd}.
  Context (ln : f64 → f64) (origin : string → Z → Prop) (published : BackendConfig → Prop) (depth : Z).

(** ** The invariant *)

(** The backends of a pool come from a configuration. *)
Definition pool_within (p : BackendPool) : Prop :=
  ∀ b, b ∈ backends p → published b ∧ 0 ≤ max_connections b.

Definition queue_live (s : ProxyState) (x : Resource) : Prop :=
  match x with RQueue _ l => (l < length (q_arcs (queues s)))%nat | _ => True end.

Definition conn_live (s : ProxyState) (x : Resource) : Prop :=
  match x with RConn b => is_Some (conn_limits (conn_pool s) !! b) | _ => True end.

Record queues_ok (s : ProxyState) (G : list Resource) : Prop := {
  qo_depth : default_queue_depth s = depth ∧ 0 ≤ depth;
  qo_index b l : q_index (queues s) !! b = Some l → (l < length (q_arcs (queues s)))%nat;
  qo_slots l q : q_arcs (queues s) !! l = Some q →
    available_permits (semaphore q) + slots l G = depth ∧ 0 ≤ available_permits (semaphore q);
  qo_live : Forall (queue_live s) G;
}.

(** A counter is created with the limit of the backend that asks first, and stays. *)
Record limits_ok (s : ProxyState) (G : list Resource) : Prop := {
  lo_conns b sem : conn_limits (conn_pool s) !! b = Some sem →
    origin b (available_permits sem + conns b G) ∧ 0 ≤ available_permits sem;
  lo_fresh k : published k → conn_limits (conn_pool s) !! Balancer.id k = None →
    origin (Balancer.id k) (max_connections k);
  lo_live : Forall (conn_live s) G;
  lo_pools : map_Forall (λ _, pool_within) (backend_pools (reloadable s));
}.

Definition balanced (s : ProxyState) (G : list Resource) : Prop :=
  queues_ok s G ∧ limits_ok s G.

#[export] Instance balanced_perm s : Proper ((≡ₚ) ==> iff) (balanced s).
Proof.
  assert (∀ G G', G ≡ₚ G' → balanced s G → balanced s G') as Himp.
  { intros G G' E ([Hd Hi Hs Hl] & [Hc Hf Hcl Hps]). split_and!; split; try done.
    - intros l q Hq. rewrite <-E. by apply Hs.
    - by rewrite <-E.
    - intros b sem Hb. rewrite <-E. by apply Hc.
    - by rewrite <-E. }
  intros G G' E. split; by apply Himp.
Qed.

(** What the invariant reads of a state. *)
Definition same_counters (s s' : ProxyState) : Prop :=
  queues s' = queues s ∧ default_queue_depth s' = default_queue_depth s ∧
  conn_limits (conn_pool s') = conn_limits (conn_pool s) ∧
  reloadable s' = reloadable s.

Lemma balanced_same s s' G : same_counters s s' → balanced s G → balanced s' G.
Proof.
  intros (Eq & Ed & El & Er) ([Hd Hi Hs Hl] & [Hc Hf Hcl Hps]). unfold queue_live, conn_live in *.
  split_and!; split; rewrite ?Eq, ?Ed, ?El, ?Er; unfold queue_live, conn_live; rewrite ?Eq, ?El; done.
Qed.

Lemma pool_balanced s p G :
  balanced s G → conn_limits p = conn_limits (conn_pool s) → balanced (with_conn_pool s p) G.
Proof. intros HB Hp. by apply (balanced_same s). Qed.

(** ** Queue slots *)

Lemma slots_fresh s G : Forall (queue_live s) G → slots (length (q_arcs (queues s))) G = 0.
Proof.
  induction 1 as [|[] G Hx _ IH]; cbn in *; try done. rewrite decide_False by lia. lia.
Qed.

Lemma queues_with s qs G :
  queues_ok (with_queues s qs) G → limits_ok s G → balanced (with_queues s qs) G.
Proof. intros HQ []. split; [done|]. by split. Qed.

Lemma queue_entry_balanced s b l qs G :
  balanced s G → queue_entry (default_queue_depth s) b (queues s) = (l, qs) →
  balanced (with_queues s qs) G ∧ (l < length (q_arcs qs))%nat.
Proof.
  intros ([Hd Hi Hs Hl] & HL). unfold queue_entry.
  destruct (q_index (queues s) !! b) as [l0|] eqn:Hb; intros [= <- <-].
  { split; [|by eapply Hi]. by apply queues_with. }
  cbn [q_arcs]. rewrite length_app. cbn [length]. split; [|lia]. apply queues_with; [|done].
  split; cbn; [done| | |].
  - intros b' l'. rewrite length_app. cbn.
    destruct (decide (b' = b)) as [->|Hne]; [rewrite lookup_insert_eq; intros [= <-]; lia|].
    rewrite lookup_insert_ne by done. intros ?%Hi. lia.
  - intros l' q [Hq|[Hlen Hq]]%lookup_app_Some; [by apply Hs|].
    apply list_lookup_singleton_Some in Hq as [Hz <-]. cbn. rewrite available_new.
    replace l' with (length (q_arcs (queues s))) by lia. rewrite slots_fresh by done. lia.
  - eapply Forall_impl; [exact Hl|]. intros []; cbn; try done. rewrite length_app. cbn. lia.
Qed.

Lemma acquire_slot_balanced s b l r qs G :
  balanced s G → (l < length (q_arcs (queues s)))%nat → acquire_slot l (queues s) = (r, qs) →
  balanced (with_queues s qs) (match r with Ok _ => RQueue b l :: G | Err _ => G end).
Proof.
  intros ([Hd Hi Hs Hl] & HL) Hlt. unfold acquire_slot.
  destruct (lookup_lt_is_Some_2 _ _ Hlt) as [q Hq].
  rewrite (list_lookup_total_correct _ _ _ Hq). destruct (Hs l q Hq) as [Ha Hn].
  unfold try_acquire. destruct (sem_try_acquire (semaphore q)) as [sem|] eqn:Hsem; intros [= <- <-].
  - assert (available_permits (semaphore q) ≠ 0) by (intros E; apply try_acquire_none in E; congruence).
    apply try_acquire_some in Hsem.
    destruct HL as [Hc Hf Hcl Hps]. apply queues_with; [|split; [done|done|by constructor|done]].
    split; cbn; [done|intros b' l' ?%Hi; by rewrite length_insert| |].
    + intros l' q' [[<- [<- _]]|[Hne Hq']]%list_lookup_insert_Some; cbn.
      * rewrite decide_True by done. lia.
      * rewrite decide_False by done. by apply Hs.
    + constructor; cbn; [by rewrite length_insert|]. eapply Forall_impl; [exact Hl|].
      intros []; cbn; try done. by rewrite length_insert.
  - rewrite list_insert_id by done. by apply queues_with.
Qed.

Lemma release_slot_balanced s b l G :
  balanced s (RQueue b l :: G) → balanced (with_queues s (release_slot l (queues s))) G.
Proof.
  intros ([Hd Hi Hs [Hlt Hl]%Forall_cons] & [Hc Hf [_ Hcl]%Forall_cons Hps]).
  apply queues_with; [|done]. split; cbn; [done|intros b' l' ?%Hi; by rewrite length_alter| |].
  - intros l' q'. destruct (decide (l' = l)) as [->|Hne].
    + rewrite list_lookup_alter_eq. intros (q & Hq & ->)%fmap_Some. destruct (Hs l q Hq) as [Ha Hn].
      cbn in *. rewrite decide_True in Ha by done. rewrite available_release. lia.
    + rewrite list_lookup_alter_ne by done. intros Hq. destruct (Hs l' q' Hq) as [Ha Hn].
      cbn in Ha. rewrite decide_False in Ha by done. lia.
  - eapply Forall_impl; [exact Hl|]. intros []; cbn; try done. by rewrite length_alter.
Qed.

(** ** Connection permits *)

Lemma conns_absent s b G : Forall (conn_live s) G → conn_limits (conn_pool s) !! b = None → conns b G = 0.
Proof.
  intros HG Hb. induction HG as [|[] G Hx _ IH]; cbn in *; try done.
  case_decide as E; [|lia]. subst. rewrite Hb in Hx. by destruct Hx.
Qed.

(** The limits after [b] got the semaphore [sem]. *)
Lemma limits_insert s b sem p G G' :
  balanced s G → conn_limits p = <[b := sem]> (conn_limits (conn_pool s)) →
  (∀ b', b' ≠ b → conns b' G' = conns b' G) → origin b (available_permits sem + conns b G') →
  0 ≤ available_permits sem → (∀ l, slots l G' = slots l G) → Forall (queue_live s) G' →
  Forall (λ x, x = RConn b ∨ conn_live s x) G' → balanced (with_conn_pool s p) G'.
Proof.
  intros ([Hd Hi Hs Hl] & [Hc Hf Hcl Hps]) Ep Hother Hb Hn Hslots HQ HC. split_and!; split; cbn; try done.
  - intros l q Hq. rewrite Hslots. by apply Hs.
  - rewrite Ep. intros b' sem'. destruct (decide (b' = b)) as [->|Hne].
    + rewrite lookup_insert_eq. by intros [= <-].
    + rewrite lookup_insert_ne by done. rewrite Hother by done. apply Hc.
  - rewrite Ep. intros k Hk [Hnone _]%lookup_insert_None. by apply Hf.
  - eapply Forall_impl; [exact HC|]. intros x Hx. destruct x; cbn; try done. rewrite Ep.
    destruct (decide (backend = b)) as [->|Hne]; [rewrite lookup_insert_eq; eauto|].
    rewrite lookup_insert_ne by done. destruct Hx as [[= ->]|Hx]; done.
Qed.

Lemma conn_permit_balanced s backend r p G :
  balanced s G → published backend → 0 ≤ max_connections backend →
  try_acquire_conn_permit (conn_pool s) backend = (r, p) →
  balanced (with_conn_pool s p) (match r with Ok _ => RConn (Balancer.id backend) :: G | Err _ => G end).
Proof.
  intros HB Hpub Hpos. pose proof HB as ([_ _ _ Hl] & [Hc Hf Hcl Hps]). unfold try_acquire_conn_permit.
  set (b := Balancer.id backend) in *.
  set (sem := default (sem_new (max_connections backend)) (conn_limits (conn_pool s) !! b)).
  assert (origin b (available_permits sem + conns b G) ∧ 0 ≤ available_permits sem) as [Ha Hn].
  { subst sem. destruct (conn_limits (conn_pool s) !! b) as [sem|] eqn:Hb; cbn; [by apply Hc|].
    rewrite available_new, (conns_absent s), Z.add_0_r by done. split; [by apply Hf|done]. }
  assert (Forall (λ x, x = RConn b ∨ conn_live s x) G) as HC by (eapply Forall_impl; [exact Hcl|]; auto).
  destruct (sem_try_acquire sem) as [sem'|] eqn:Hsem; intros [= <- <-].
  - assert (available_permits sem ≠ 0) by (intros E; apply try_acquire_none in E; congruence).
    apply try_acquire_some in Hsem. eapply limits_insert; [done|cbn; by rewrite insert_insert_eq|..]; cbn.
    + intros b' Hne. by rewrite decide_False.
    + rewrite decide_True by done.
      by replace (available_permits sem' + (1 + conns b G)) with (available_permits sem + conns b G) by lia.
    + lia.
    + done.
    + by constructor.
    + constructor; auto.
  - eapply limits_insert; try done.
Qed.

Lemma drop_conn_balanced s b G :
  balanced s (RConn b :: G) → balanced (with_conn_pool s (drop_conn_permit (conn_pool s) b)) G.
Proof.
  intros HB. pose proof HB as ([_ _ _ [_ Hl]%Forall_cons] & [Hc _ [[sem Hb] Hcl]%Forall_cons _]).
  destruct (Hc b sem Hb) as [Ha Hn]. cbn in Ha. rewrite decide_True in Ha by done.
  apply (limits_insert s b (sem_release sem) _ (RConn b :: G)); [done|..]; cbn; rewrite ?available_release; try done; try lia.
  - apply map_eq. intros b'. destruct (decide (b' = b)) as [->|Hne].
    + by rewrite lookup_alter_eq, Hb, lookup_insert_eq.
    + by rewrite lookup_alter_ne, lookup_insert_ne.
  - intros b' Hne. by rewrite decide_False.
  - by replace (available_permits sem + 1 + conns b G) with (available_permits sem + (1 + conns b G)) by lia.
  - eapply Forall_impl; [exact Hcl|]. auto.
Qed.

(** The pool keeps its permits whatever it does with its connections. *)
Lemma connect_tcp_limits p net backend : conn_limits (connect_tcp_h2 p net backend).2 = conn_limits p.
Proof. unfold connect_tcp_h2. by case_match. Qed.

Lemma acquire_tcp_limits p net backend : conn_limits (acquire_tcp p net backend).2 = conn_limits p.
Proof.
  assert (conn_limits (reuse_pooled_h2 p net (address backend) (host backend)).2 = conn_limits p) as E
    by (unfold reuse_pooled_h2; cbv zeta; repeat case_match; done).
  unfold acquire_tcp. destruct (reuse_pooled_h2 _ _ _ _) as [[link|] p1]; [done|].
  pose proof (connect_tcp_limits p1 net backend) as E1. destruct (connect_tcp_h2 _ _ _). cbn in *. congruence.
Qed.

Lemma take_or_connect_limits p net backend : conn_limits (take_or_connect_quic p net backend).2 = conn_limits p.
Proof.
  unfold take_or_connect_quic, take_quic, connect_quic, get_or_init_quic_endpoint.
  repeat (case_match; simplify_eq/=); done.
Qed.

Lemma acquire_start_limits p net backend : conn_limits (acquire_start p net backend).2 = conn_limits p.
Proof.
  unfold acquire_start. pose proof (acquire_tcp_limits p net backend) as Et.
  pose proof (take_or_connect_limits p net backend) as Eq.
  destruct (acquire_tcp p net backend), (take_or_connect_quic p net backend) as [[]];
    unfold acquire_tunnel, open_tunnel_stream; repeat (case_match; simplify_eq/=); done.
Qed.

Lemma acquire_finish_limits p net net' backend conn :
  conn_limits (acquire_finish p net net' backend conn).2 = conn_limits p.
Proof. unfold acquire_finish, put_quic. repeat case_match; simplify_eq/=; done. Qed.

Lemma acquire_limits p net net' await backend :
  (∀ q, conn_limits (await q) = conn_limits q) → conn_limits (acquire p net net' await backend).2 = conn_limits p.
Proof.
  intros Hawait. rewrite acquire_split. pose proof (acquire_start_limits p net backend) as E.
  destruct (acquire_start p net backend) as [[sender|conn] q]; [done|]. rewrite acquire_finish_limits, Hawait. done.
Qed.

Lemma warm_dials_limits p nets backend n : conn_limits (warm_dials p nets backend n) = conn_limits p.
Proof.
  revert p nets. induction n as [|n IH]; intros p [|net nets]; cbn; try done.
  pose proof (connect_tcp_limits p net backend) as E. destruct (connect_tcp_h2 p net backend) as [[] q]; [|done].
  by rewrite IH.
Qed.

Lemma warm_up_limits p nets await bs :
  (∀ q, conn_limits (await q) = conn_limits q) → conn_limits (warm_up p nets await bs) = conn_limits p.
Proof.
  intros Hawait. unfold warm_up. revert p. induction bs as [|b bs IH]; intros p; cbn [foldl]; [done|]. rewrite IH.
  destruct (transport b); [destruct (is_plaintext _); [done|apply warm_dials_limits]|].
  destruct (nets (Balancer.id b)); [done|]. by apply acquire_limits.
Qed.

Lemma drain_limits p addrs : conn_limits (drain_backends p addrs).2 = conn_limits p.
Proof.
  unfold drain_backends. assert (∀ acc, conn_limits (foldl drain_one acc addrs).2 = conn_limits acc.2) as E; [|apply E].
  induction addrs as [|a addrs IH]; intros [closed q]; cbn [foldl]; [done|]. rewrite IH. unfold drain_one. by case_match.
Qed.

(** ** Probes and breakers *)

(** The circuit breakers and the probes out are none of the ledger's counters. *)
Lemma circuits_balanced s cb G : balanced s G → balanced (with_circuits s cb) G.
Proof. by apply balanced_same. Qed.

Lemma probe_balanced s o G : balanced s (option_list (RProbe <$> o) ++ G) ↔ balanced s G.
Proof.
  destruct o as [g|]; [|done]. cbn.
  split; intros ([Hd Hi Hs Hl] & [Hc Hf Hcl Hps]); (split_and!; split; try done);
    try (by apply Forall_cons in Hl as []); try (by apply Forall_cons in Hcl as []); by constructor.
Qed.

(** ** The operations of the handler *)

(** The guards of an attempt, in the order in which they are dropped with it. *)
Definition sel_guards (sel : Selected) : list Resource :=
  option_list (RProbe <$> sel_half_open sel) ++ [RConn (Balancer.id (sel_backend sel))].

Lemma drop_probe_balanced o r G :
  balanced (state r) (option_list (RProbe <$> o) ++ G) → balanced (state (drop_probe o r)) G.
Proof. intros HB. apply (proj1 (probe_balanced _ _ _)) in HB. destruct o as [g|]; [exact (circuits_balanced (state r) _ G HB)|done]. Qed.

Lemma drop_selected_balanced sel r G :
  balanced (state r) (sel_guards sel ++ G) → balanced (state (drop_selected sel r)) G.
Proof. unfold sel_guards. rewrite <-(assoc (++)). intros HB%drop_probe_balanced. by apply drop_conn_balanced. Qed.

Lemma route_balanced path r res r' G :
  balanced (state r) G → route_and_admit path r = (res, r') →
  balanced (state r')
    (match res with Ok info => RQueue (ri_backend_id info) (ri_queue_permit info) :: G | Err _ => G end).
Proof.
  intros HB. unfold route_and_admit. destruct (resolve_backend_pool _ _) as [resolved|response]; cbv zeta.
  2: { intros [= <- <-]. done. }
  set (r1 := backend_label _ r). assert (balanced (state r1) G) as HB1 by (by apply (balanced_same (state r))).
  clearbody r1. clear HB. destruct (queue_entry _ _ _) as [l qs] eqn:Hq.
  destruct (queue_entry_balanced _ _ _ _ _ HB1 Hq) as [HB2 Hlt].
  destruct (acquire_slot l qs) as [res1 qs1] eqn:Ha.
  pose proof (acquire_slot_balanced (with_queues (state r1) qs) (rr_backend_id resolved) l res1 qs1 G HB2 Hlt Ha) as HB3.
  destruct res1; intros [= <- <-]; exact HB3.
Qed.

Lemma select_excluding_member now p ip s excluded b : select_backend_excluding ln now p ip s excluded = Ok b → b ∈ backends p.
Proof. unfold select_backend_excluding. destruct (select_with_pressure_excluding _ _ _ _ _ _ _) eqn:E; [|done].
  intros [= <-]. by eapply select_member. Qed.

Lemma gate_balanced now cx t r res t' r' G :
  balanced (state r) G → pool_within (cx_pool cx) → select_and_gate ln now cx t r = (res, t', r') →
  balanced (state r') (match res with Ok sel => sel_guards sel ++ G | Err _ => G end).
Proof.
  intros HB Hpool. unfold select_and_gate. cbv zeta.
  destruct (match select_backend_excluding _ _ _ _ _ (failed_backends t) with Ok b => Ok b | Err _ => _ end)
    as [backend|e] eqn:Hsel; [|by intros [= <- <- <-]].
  assert (backend ∈ backends (cx_pool cx)) as [Hpub Hpos]%Hpool.
  { destruct (select_backend_excluding _ _ _ _ _ (failed_backends t)) eqn:E;
      [injection Hsel as <-|]; by eapply select_excluding_member. }
  set (r1 := record _ _). assert (balanced (state r1) G) as HB1 by (by apply (balanced_same (state r))).
  clearbody r1. destruct (try_acquire_conn_permit _ backend) as [permit p] eqn:Hp.
  pose proof (conn_permit_balanced _ _ _ _ _ HB1 Hpub Hpos Hp) as HB2. destruct permit as [[]|e]; [|by intros [= <- <- <-]].
  set (r2 := emit _ _). change (balanced (state r2) (RConn (Balancer.id backend) :: G)) in HB2. clearbody r2.
  destruct (check _ now _) as [cb [st guard]] eqn:Hck. pose proof (circuits_balanced _ cb _ HB2) as HB3.
  destruct st; intros [= <- <- <-].
  - exact HB3.
  - by apply drop_conn_balanced.
  - unfold sel_guards. cbn [sel_half_open sel_backend]. rewrite <-(assoc (++)). apply (proj2 (probe_balanced _ _ _)). by destruct guard.
Qed.
End ledger.
