(* ===== verification/Inflight.v ===== *)
(** * Inflight: the requests of the proxy as concurrent tasks

    File Handler follows one request and lets the other tasks act at its awaits through
    functions of the environment.  Here every request is a task that can be resumed: [Await]
    is the future of [proxy_handler] suspended at one of its awaits, with the guards it owns,
    and [resume] runs it to its next one.  Any number of tasks share one [ProxyState]; they
    interleave at their awaits, and a task whose client goes away is dropped where it stands.

    A task resumed in an environment is a run of [proxy_handler], it has a bounded number of
    awaits, and it owns at every one of them the guards the counters of file Ledger account
    for; file Traffic puts the tasks together. *)

From S2P Require Import Prelude Text Error Net Http Lru Float64 CacheControl Cache Circuit Acl Retry Router.
From S2P Require Import Identity Headers Balancer Queue Registry Pool Body Handler Config Reload Ledger.
Local Open Scope Z_scope.

Section inflight.
  Context `{Http} `{!Lru CachedResponse} `{!Lru (BackendHealth * Z)} `{IpNetLib} `{Governor}
          `{Semaphore} `{Zstd}.
  Context (ln : f64 → f64) (chunks : nat → list string * StreamEnd).

(** ** A suspended request *)

(** The locals of [proxy_handler] inside its retry loop, in the middle of [tp_attempt];
    [tp_fuel] attempts are left after it. *)
Record Trip := {
  tp_cx : RequestCtx;
  tp_info : RouteInfo;
  tp_deadline : Z;
  tp_budget : Z;
  tp_fuel : nat;
  tp_attempt : Z;
  tp_replay : ReplayBody;
  tp_retry : RetryState;
}.

(** The awaits: reading the body, the pool, a QUIC stream, the answer of the backend, a wake-up,
    the backoff and the body of an answer to be stored. *)
Inductive Await :=
  | AwBody (req : Request Body) (client_ip : IpAddr) (identity : option PeerIdentity)
      (negotiation : CacheNegotiation) (info : RouteInfo)
  | AwDial (t : Trip) (sel : Selected) (req : Request Body)
  | AwOpen (t : Trip) (sel : Selected) (req : Request Body) (conn : Link)
  | AwSend (t : Trip) (sel : Selected)
  | AwPark (t : Trip) (sel : Selected) (wake_secs : Z)
  | AwSleep (t : Trip) (sel : Selected) (delay : Z) (retry : RetryState)
  | AwCollect (t : Trip) (sel : Selected) (response : Response Body) (directives : CacheDirectives).

(** What a task does next: wait, or answer; a streamed answer takes the guards along. *)
Inductive Next :=
  | Wait (a : Await)
  | Respond (response : Response OutBody)
  | Stream (response : Response OutBody) (guards : ResponseGuards) (idle_timeout : Z).

(** ** Between the awaits *)

Definition respond (info : RouteInfo) (response : Response OutBody) (r : Run) : Next * Run :=
  (Respond response, (leave (ri_backend_id info) (ri_queue_permit info) (answer response) r).2).

Definition exhausted (info : RouteInfo) (t : RetryState) (r : Run) : Next * Run :=
  let b := ri_backend_id info in
  match last_response t with
  | Some response =>
      (Stream (Build_Response (res_status response) (res_headers response) (Plain (res_body response)))
         {| rg_queue := b; rg_queue_permit := ri_queue_permit info; rg_conn := None; rg_half_open := None |}
         (ri_response_idle_timeout info), record_completion (res_status response) b r)
  | None => respond info (error_response 502 "backend error") (record_completion 502 b r)
  end.

(** The loop up to the first attempt that gets hold of a backend. *)
Fixpoint loop_head (env : Env) (deadline budget : Z) (cx : RequestCtx) (info : RouteInfo) (fuel : nat) (attempt : Z)
    (replay : ReplayBody) (t : RetryState) (r : Run) : Next * Run :=
  match fuel with
  | O => exhausted info t r
  | S fuel =>
      let now := ev_now env attempt in
      if (now <=? deadline) && (budget <? deadline - now) then
        match select_and_gate ln now cx t r with
        | (Err SkipBreak, t, r) => exhausted info t r
        | (Err SkipContinue, t, r) => loop_head env deadline budget cx info fuel (attempt + 1) replay t r
        | (Ok sel, t, r) =>
            match build_retry_req replay with
            | (None, _) => exhausted info t (drop_selected sel r)
            | (Some req, replay) =>
                (Wait (AwDial {| tp_cx := cx; tp_info := info; tp_deadline := deadline; tp_budget := budget;
                                 tp_fuel := fuel; tp_attempt := attempt; tp_replay := replay; tp_retry := t |}
                         sel req), r)
            end
        end
      else exhausted info t r
  end.

(** The end of an attempt. *)
Definition ended (env : Env) (t : Trip) (sel : Selected) (outcome : AttemptOutcome) (retry : RetryState) (r : Run)
    : Next * Run :=
  let info := tp_info t in
  match outcome with
  | Continue => loop_head env (tp_deadline t) (tp_budget t) (tp_cx t) info (tp_fuel t) (tp_attempt t + 1)
                  (tp_replay t) retry (drop_selected sel r)
  | Break => exhausted info retry (drop_selected sel r)
  | Return response => respond info response (drop_selected sel r)
  | StreamOut response conn half_open =>
      (Stream response {| rg_queue := ri_backend_id info; rg_queue_permit := ri_queue_permit info;
                          rg_conn := Some conn; rg_half_open := half_open |} (ri_response_idle_timeout info), r)
  end.

(** [handle_response] up to its awaits. *)
Definition forwarded (env : Env) (t : Trip) (sel : Selected) (result : Result (Response Body)) (r : Run) : Next * Run :=
  let cx := tp_cx t in
  let attempt := tp_attempt t in
  let b := Balancer.id (sel_backend sel) in
  let sleep retry r := (Wait (AwSleep t sel (backoff_delay (ev_random env) attempt (retry_config (state r))) retry), r) in
  let failed := with_failed (tp_retry t) (mark_failed (failed_backends (tp_retry t)) b) in
  match result with
  | Err e =>
      if wakeable (sel_backend sel) && is_transport_miss e then
        (Wait (AwPark t sel (wake_timeout_secs (proxy_config (state r)))), r)
      else
        let r := record (RetryAttempts b (attempt + 1) "error") (fail_backend (ev_done env attempt) b r) in
        if attempt + 1 <? cx_max_attempts cx then sleep (with_last_error failed (error_to_string e)) r
        else ended env t sel (Return (error_response 502 "backend error")) (tp_retry t)
               (record_completion 502 (cx_backend_id cx) r)
  | Ok response =>
      let status := res_status response in
      let retryable := is_retryable_status status in
      let r := if retryable
               then record (RetryAttempts b (attempt + 1) "retryable_status") (fail_backend (ev_done env attempt) b r)
               else r in
      if retryable && (attempt + 1 <? cx_max_attempts cx) then sleep (with_last_response failed response) r
      else
        let r :=
          if (500 <=? status) && (status <=? 599) then fail_backend (ev_done env attempt) b r
          else on_state (λ s, with_circuits s (record_success (circuit_breakers s) b)) r in
        let directives := from_response response in
        if should_cache_response cx (state r) response directives then (Wait (AwCollect t sel response directives), r)
        else
          let r := record_completion status (cx_backend_id cx) r in
          ended env t sel (StreamOut (maybe_compress response (accepts_zstd (cx_negotiation cx)) directives
                                        (compression_config (state r))) b (sel_half_open sel)) (tp_retry t) r
  end.

(** [forward_request] once the pool has answered. *)
Definition sending (env : Env) (t : Trip) (sel : Selected) (req : Request Body) (sender : Result HttpSender) (r : Run)
    : Next * Run :=
  match (_ ← sender;
         outbound_headers (req_headers req) (Balancer.host (sel_backend sel)) (cx_client_ip (tp_cx t))
           (cx_identity (tp_cx t)) (ev_inject env (tp_attempt t))) with
  | Err e => forwarded env t sel (Err e) r
  | Ok headers =>
      (Wait (AwSend t sel),
       emit (Sent (Balancer.id (sel_backend sel)) (Build_Request (req_method req) (req_uri req) headers (req_body req))) r)
  end.

(** ** Resuming *)

Definition start (env : Env) (connect : option (SocketAddr * option PeerIdentity)) (req : Request Body) (r : Run)
    : Next * Run :=
  match admit_client connect (state r) with
  | Reject response => (Respond response, r)
  | Proceed client_ip identity =>
      let r := emit (Took RActive) r in
      match reject_before_routing (ev_start env) client_ip identity r with
      | (Some response, r) => (Respond response, drop_active r)
      | (None, r) =>
          match negotiate_cache (ev_start env) req identity r with
          | (Hit response, r) => (Respond response, drop_active r)
          | (Miss negotiation, r) =>
              match route_and_admit (uri_path (req_uri req)) r with
              | (Err response, r) => (Respond response, drop_active r)
              | (Ok info, r) => (Wait (AwBody req client_ip identity negotiation info), r)
              end
          end
      end
  end.

Definition resume_body (env : Env) (req : Request Body) (client_ip : IpAddr) (identity : option PeerIdentity)
    (negotiation : CacheNegotiation) (info : RouteInfo) (r : Run) : Next * Run :=
  let b := ri_backend_id info in
  let s := state r in
  match prepare_replay_body chunks req (proxy_config s) (retry_config s) (request_is_zstd negotiation)
          (ev_panicked env) with
  | (Body.Respond response, recorded) =>
      respond info response (match recorded with Some status => record_completion status b r | None => r end)
  | (Ready replay max_attempts, _) =>
      loop_head env (ev_start env + ri_request_timeout info) (from_secs (connect_secs (timeouts s)))
        {| cx_pool := ri_pool info; cx_client_ip := client_ip; cx_identity := identity;
           cx_backend_id := b; cx_cache_identity := default "" (cache_identity_hex negotiation);
           cx_max_attempts := max_attempts; cx_negotiation := negotiation |}
        info (Z.to_nat max_attempts) 0 replay RetryState_new r
  end.

Definition resume (env : Env) (a : Await) (r : Run) : Next * Run :=
  match a with
  | AwBody req client_ip identity negotiation info => resume_body env req client_ip identity negotiation info r
  | AwDial t sel req =>
      let '(dial, p) := acquire_start (conn_pool (state r)) (ev_net env (tp_attempt t)) (sel_backend sel) in
      let r := on_state (λ s, with_conn_pool s p) r in
      match dial with
      | Dialled sender => sending env t sel req sender r
      | Opening conn => (Wait (AwOpen t sel req conn), r)
      end
  | AwOpen t sel req conn =>
      let '(sender, p) := acquire_finish (conn_pool (state r)) (ev_net env (tp_attempt t))
                            (ev_net_back env (tp_attempt t)) (sel_backend sel) conn in
      sending env t sel req sender (on_state (λ s, with_conn_pool s p) r)
  | AwSend t sel =>
      forwarded env t sel
        (match timed_err "send request" "send request" (ev_send env (tp_attempt t)) with
         | Err e => Err e
         | Ok (status, headers, n) =>
             Ok (Build_Response status (strip_hop_by_hop_headers headers)
                   (LimitedBody (Body.Stream n) (max_response_body_bytes (proxy_config (state r)))))
         end) r
  | AwPark t sel wake_secs =>
      if ev_parked env (tp_attempt t) then ended env t sel Continue (tp_retry t) r
      else ended env t sel (Return (wake_timeout_response wake_secs)) (tp_retry t)
             (record_completion 503 (cx_backend_id (tp_cx t)) r)
  | AwSleep t sel delay retry => ended env t sel Continue retry r
  | AwCollect t sel response directives =>
      let cx := tp_cx t in
      let status := res_status response in
      let parts := req_parts (tp_replay t) in
      match collect chunks (res_body response) with
      | Err _ =>
          ended env t sel (Return (error_response 502 "failed to read response")) (tp_retry t)
            (record_completion status (cx_backend_id cx) r)
      | Ok bytes =>
          let key := {| key_method := pt_method parts; key_path := cache_path (pt_uri parts);
                        key_identity := cx_cache_identity cx |} in
          let '(_, c) := cache_put (ev_done env (tp_attempt t)) key status (res_headers response) bytes directives
                           (response_cache (state r)) in
          let r := record_completion status (cx_backend_id cx) (on_state (λ s, with_cache s c) r) in
          ended env t sel (Return (maybe_compress (Build_Response status (res_headers response) (Bytes bytes))
                                     (accepts_zstd (cx_negotiation cx)) directives (compression_config (state r))))
            (tp_retry t) r
      end
  end.

(** ** A task alone with its environment *)

(** What the environment of [proxy_handler] does at an await. *)
Definition await_at (env : Env) (a : Await) : ProxyState → ProxyState :=
  match a with
  | AwBody _ _ _ _ _ => ev_body_await env
  | AwDial t _ _ => ev_dial_await env (tp_attempt t)
  | AwOpen t _ _ _ => ev_open_await env (tp_attempt t)
  | AwSend t _ => ev_send_await env (tp_attempt t)
  | AwPark t _ _ => ev_park_await env (tp_attempt t)
  | AwSleep t _ delay _ => ev_sleep_await env (tp_attempt t) delay
  | AwCollect t _ _ _ => ev_collect_await env (tp_attempt t)
  end.

Definition streamed (response : Response OutBody) (g : ResponseGuards) (idle_timeout : Z) : Served :=
  {| sv_response := response; sv_guards := Some (g, idle_timeout) |}.

(** Resuming a task until it has answered, the environment acting at every await. *)
Inductive finishes (env : Env) : Next * Run → Served * Run → Prop :=
  | fin_respond response r : finishes env (Respond response, r) (answer response, r)
  | fin_stream response g idle r : finishes env (Stream response g idle, r) (streamed response g idle, r)
  | fin_wait a r out : finishes env (resume env a (on_state (await_at env a) r)) out → finishes env (Wait a, r) out.

(** What [serve] does with the end of its loop. *)
Definition after_loop (info : RouteInfo) (x : LoopEnd * RetryState * Run) : Served * Run :=
  let b := ri_backend_id info in
  let queue := ri_queue_permit info in
  match x with
  | (Returned response, _, r) => leave b queue (answer response) r
  | (Streamed response conn half_open, _, r) =>
      (streamed response {| rg_queue := b; rg_queue_permit := queue; rg_conn := Some conn; rg_half_open := half_open |}
         (ri_response_idle_timeout info), r)
  | (Exhausted, t, r) =>
      match last_response t with
      | Some response =>
          (streamed (Build_Response (res_status response) (res_headers response) (Plain (res_body response)))
             {| rg_queue := b; rg_queue_permit := queue; rg_conn := None; rg_half_open := None |}
             (ri_response_idle_timeout info), record_completion (res_status response) b r)
      | None => leave b queue (answer (error_response 502 "backend error")) (record_completion 502 b r)
      end
  end.

(** What [run_attempt] and the loop do with the outcome of [handle_response]. *)
Definition after_attempt (env : Env) (t : Trip) (sel : Selected) (x : AttemptOutcome * RetryState * Run) : Served * Run :=
  let '(outcome, retry, r) := x in
  let r := match outcome with StreamOut _ _ _ => r | _ => drop_selected sel r end in
  after_loop (tp_info t)
    match outcome with
    | Continue => retry_loop ln chunks env (tp_deadline t) (tp_budget t) (tp_cx t) (tp_fuel t) (tp_attempt t + 1)
                    (tp_replay t) retry r
    | Break => (Exhausted, retry, r)
    | Return response => (Returned response, retry, r)
    | StreamOut response conn half_open => (Streamed response conn half_open, retry, r)
    end.

Lemma exhausted_finishes env info t r : finishes env (exhausted info t r) (after_loop info (Exhausted, t, r)).
Proof. unfold exhausted, after_loop. destruct (last_response t); constructor. Qed.

Section attempt.
  Context (env : Env) (t : Trip) (sel : Selected).
Let attempt := tp_attempt t.
Let cx := tp_cx t.

  (** The later attempts of the trip finish as the loop does. *)
  Hypothesis Hlater : ∀ replay retry r,
    finishes env (loop_head env (tp_deadline t) (tp_budget t) cx (tp_info t) (tp_fuel t) (attempt + 1) replay retry r)
      (after_loop (tp_info t)
         (retry_loop ln chunks env (tp_deadline t) (tp_budget t) cx (tp_fuel t) (attempt + 1) replay retry r)).

Lemma ended_finishes outcome retry r :
  finishes env (ended env t sel outcome retry r) (after_attempt env t sel (outcome, retry, r)).
Proof.
  destruct outcome; cbn [ended after_attempt]; [apply Hlater|apply exhausted_finishes|constructor|constructor].
Qed.

Lemma forwarded_finishes result r :
  finishes env (forwarded env t sel result r)
    (after_attempt env t sel
       (handle_response chunks env attempt cx sel result (req_parts (tp_replay t)) (tp_retry t) r)).
Proof.
  unfold forwarded, handle_response, handle_forward_error, park_for_wake, retry_later. cbv zeta. fold cx attempt.
  destruct result as [response|e].
  - set (r0 := if is_retryable_status _ then _ else _).
    destruct (_ && (attempt + 1 <? _)).
    { apply fin_wait. apply (ended_finishes Continue). }
    unfold finish_attempt. cbv zeta. set (r1 := if (500 <=? _) && _ then _ else _).
    destruct (should_cache_response _ _ _ _); [|apply ended_finishes].
    apply fin_wait. cbn [resume await_at]. unfold store_and_respond. fold cx attempt.
    destruct (collect _ _); [|apply ended_finishes].
    cbv zeta. destruct (cache_put _ _ _ _ _ _ _) as [u c]. apply ended_finishes.
  - destruct (_ && _); [|destruct (_ <? _)].
    + apply fin_wait. cbn [resume await_at]. fold attempt. destruct (ev_parked env attempt); apply ended_finishes.
    + apply fin_wait. apply (ended_finishes Continue).
    + apply ended_finishes.
Qed.

Lemma dialing_finishes req r :
  finishes env (Wait (AwDial t sel req), r)
    (after_attempt env t sel
       (let '(result, r) := forward_request env attempt req (sel_backend sel) (cx_identity cx) (cx_client_ip cx) r in
        handle_response chunks env attempt cx sel result (req_parts (tp_replay t)) (tp_retry t) r)).
Proof.
  assert (∀ sender r, finishes env (sending env t sel req sender r)
    (after_attempt env t sel
       (let '(result, r) :=
          match (_ ← sender; outbound_headers (req_headers req) (Balancer.host (sel_backend sel)) (cx_client_ip cx)
                   (cx_identity cx) (ev_inject env attempt)) with
          | Err e => (Err e, r)
          | Ok headers =>
              let out := Build_Request (req_method req) (req_uri req) headers (req_body req) in
              let r := on_state (ev_send_await env attempt) (emit (Sent (Balancer.id (sel_backend sel)) out) r) in
              match timed_err "send request" "send request" (ev_send env attempt) with
              | Err e => (Err e, r)
              | Ok (status, headers, n) =>
                  (Ok (Build_Response status (strip_hop_by_hop_headers headers)
                         (LimitedBody (Body.Stream n) (max_response_body_bytes (proxy_config (state r))))), r)
              end
          end in
        handle_response chunks env attempt cx sel result (req_parts (tp_replay t)) (tp_retry t) r))) as Hsend.
  { intros sender r'. unfold sending. fold cx attempt. destruct (_ ≫= _) as [h|e]; [|apply forwarded_finishes].
    apply fin_wait. cbn [resume await_at]. fold attempt.
    destruct (timed_err _ _ _) as [[[status h'] n]|e]; apply forwarded_finishes. }
  apply fin_wait. unfold forward_request, acquire_shared. cbn [resume await_at]. cbv zeta. fold attempt.
  destruct (acquire_start _ _ _) as [[sender|conn] p]; [apply Hsend|]. apply fin_wait. cbn [resume await_at].
  fold attempt. destruct (acquire_finish _ _ _ _ _) as [sender q]. apply Hsend.
Qed.
End attempt.

Lemma loop_finishes env deadline budget cx info fuel attempt replay t r :
  finishes env (loop_head env deadline budget cx info fuel attempt replay t r)
    (after_loop info (retry_loop ln chunks env deadline budget cx fuel attempt replay t r)).
Proof.
  revert attempt replay t r. induction fuel as [|fuel IH]; intros attempt replay t r; cbn [loop_head retry_loop].
  { apply exhausted_finishes. }
  destruct (_ && _); [|apply exhausted_finishes]. unfold run_attempt.
  destruct (select_and_gate _ _ _ _ _) as [[[sel|[]] t1] r1]; [|apply exhausted_finishes|apply IH].
  destruct (build_retry_req replay) as [[req|] replay1]; [|apply exhausted_finishes].
  pose proof (dialing_finishes env {| tp_cx := cx; tp_info := info; tp_deadline := deadline; tp_budget := budget;
    tp_fuel := fuel; tp_attempt := attempt; tp_replay := replay1; tp_retry := t1 |} sel (IH (attempt + 1)) req r1) as Hd.
  cbn [tp_attempt tp_cx tp_replay tp_retry] in Hd.
  destruct (forward_request _ _ _ _ _ _ _) as [result r2].
  destruct (handle_response _ _ _ _ _ _ _ _ _) as [[outcome t2] r3]. by destruct outcome.
Qed.

Lemma start_finishes env connect req r :
  finishes env (start env connect req r) (proxy_handler ln chunks env connect req r).
Proof.
  unfold start, proxy_handler. destruct (admit_client _ _) as [response|ip identity]; [constructor|]. cbv zeta.
  destruct (reject_before_routing _ _ _ _) as [[response|] r1]; [constructor|].
  destruct (negotiate_cache _ _ _ _) as [[response|neg] r2]; [constructor|].
  destruct (route_and_admit _ _) as [[info|response] r3]; [|constructor].
  apply fin_wait. cbn [resume await_at]. unfold resume_body, serve. cbv zeta.
  destruct (prepare_replay_body _ _ _ _ _ _) as [[replay n|response] recorded]; [|constructor]. apply loop_finishes.
Qed.

Lemma finishes_unique env x out out' : finishes env x out → finishes env x out' → out = out'.
Proof. intros Hx. revert out'. induction Hx; intros out' Hy; inversion Hy; subst; auto. Qed.

(** ** A task among others *)

(** The awaits of a request in the order in which it reaches them. *)
Definition await_rank (a : Await) : Z :=
  match a with
  | AwBody _ _ _ _ _ => 0
  | AwDial t _ _ => 4 * tp_attempt t + 1
  | AwOpen t _ _ _ => 4 * tp_attempt t + 2
  | AwSend t _ => 4 * tp_attempt t + 3
  | AwPark t _ _ | AwSleep t _ _ _ | AwCollect t _ _ _ => 4 * tp_attempt t + 4
  end.

(** A task resumed in whatever state the others have left: [seen] lists, with the rank of the
    await, the states it was resumed in. *)
Inductive interleaved (env : Env) : Next * Run → list (Z * ProxyState) → Served * Run → Prop :=
  | il_respond response r : interleaved env (Respond response, r) [] (answer response, r)
  | il_stream response g idle r : interleaved env (Stream response g idle, r) [] (streamed response g idle, r)
  | il_wait a r s seen out :
      interleaved env (resume env a (set_state r s)) seen out →
      interleaved env (Wait a, r) ((await_rank a, s) :: seen) out.

Fixpoint recall (seen : list (Z * ProxyState)) (k : Z) (s : ProxyState) : ProxyState :=
  match seen with
  | [] => s
  | (k', s') :: seen => if k =? k' then s' else recall seen k s
  end.

(** The environment that does at each await what the others did. *)
Definition amid (env : Env) (seen : list (Z * ProxyState)) : Env :=
  {| ev_start := ev_start env; ev_panicked := ev_panicked env; ev_body_await := recall seen 0;
     ev_now := ev_now env; ev_done := ev_done env; ev_net := ev_net env; ev_net_back := ev_net_back env;
     ev_dial_await n := recall seen (4 * n + 1); ev_open_await n := recall seen (4 * n + 2);
     ev_inject := ev_inject env; ev_send := ev_send env; ev_send_await n := recall seen (4 * n + 3);
     ev_parked := ev_parked env; ev_park_await n := recall seen (4 * n + 4);
     ev_collect_await n := recall seen (4 * n + 4); ev_random := ev_random env;
     ev_sleep_await n _ := recall seen (4 * n + 4) |}.

Lemma await_amid env seen a s : await_at (amid env seen) a s = recall seen (await_rank a) s.
Proof. by destruct a. Qed.

Lemma loop_head_amid env seen deadline budget cx info fuel attempt replay t r :
  loop_head (amid env seen) deadline budget cx info fuel attempt replay t r =
  loop_head env deadline budget cx info fuel attempt replay t r.
Proof.
  revert attempt replay t r. induction fuel as [|fuel IH]; intros attempt replay t r; cbn [loop_head]; [done|].
  change (ev_now (amid env seen)) with (ev_now env). destruct (_ && _); [|done].
  destruct (select_and_gate _ _ _ _ _) as [[[sel|[]] t1] r1]; [done|done|apply IH].
Qed.

Lemma ended_amid env seen t sel outcome retry r :
  ended (amid env seen) t sel outcome retry r = ended env t sel outcome retry r.
Proof. destruct outcome; [apply loop_head_amid|done..]. Qed.

Lemma forwarded_amid env seen t sel result r :
  forwarded (amid env seen) t sel result r = forwarded env t sel result r.
Proof.
  unfold forwarded. cbv zeta. change (ev_done (amid env seen)) with (ev_done env).
  change (ev_random (amid env seen)) with (ev_random env).
  destruct result; repeat case_match; try done; apply ended_amid.
Qed.

Lemma sending_amid env seen t sel req sender r :
  sending (amid env seen) t sel req sender r = sending env t sel req sender r.
Proof.
  unfold sending. change (ev_inject (amid env seen)) with (ev_inject env). case_match; [done|apply forwarded_amid].
Qed.

Lemma resume_amid env seen a r : resume (amid env seen) a r = resume env a r.
Proof.
  destruct a; cbn [resume].
  - unfold resume_body. cbv zeta. change (ev_panicked (amid env seen)) with (ev_panicked env).
    case_match. case_match; [apply loop_head_amid|done].
  - change (ev_net (amid env seen)) with (ev_net env). case_match. case_match; [apply sending_amid|done].
  - change (ev_net (amid env seen)) with (ev_net env). change (ev_net_back (amid env seen)) with (ev_net_back env).
    case_match. apply sending_amid.
  - apply forwarded_amid.
  - change (ev_parked (amid env seen)) with (ev_parked env). case_match; apply ended_amid.
  - apply ended_amid.
  - cbv zeta. change (ev_done (amid env seen)) with (ev_done env). case_match; [case_match|]; apply ended_amid.
Qed.

(** Ranks grow along a task. *)
Lemma exhausted_rank info t r a r' : exhausted info t r ≠ (Wait a, r').
Proof. unfold exhausted, respond. by destruct (last_response t). Qed.

Lemma loop_head_rank env deadline budget cx info fuel attempt replay t r a r' :
  loop_head env deadline budget cx info fuel attempt replay t r = (Wait a, r') → 4 * attempt + 1 ≤ await_rank a.
Proof.
  revert attempt replay t r. induction fuel as [|fuel IH]; intros attempt replay t r; cbn [loop_head];
    [by intros ?%exhausted_rank|].
  destruct (_ && _); [|by intros ?%exhausted_rank].
  destruct (select_and_gate _ _ _ _ _) as [[[sel|[]] t1] r1]; [|by intros ?%exhausted_rank|intros ?%IH; lia].
  destruct (build_retry_req replay) as [[req|] replay1]; [|by intros ?%exhausted_rank].
  intros [= <- <-]. cbn. lia.
Qed.

Lemma ended_rank env t sel outcome retry r a r' :
  ended env t sel outcome retry r = (Wait a, r') → 4 * tp_attempt t + 5 ≤ await_rank a.
Proof. destruct outcome; cbn; [intros ?%loop_head_rank; lia|by intros ?%exhausted_rank|done..]. Qed.

Lemma forwarded_rank env t sel result r a r' :
  forwarded env t sel result r = (Wait a, r') → 4 * tp_attempt t + 4 ≤ await_rank a.
Proof.
  unfold forwarded. cbv zeta. destruct result; repeat case_match; try (intros [= <- <-]; cbn; lia);
    intros ?%ended_rank; lia.
Qed.

Lemma sending_rank env t sel req sender r a r' :
  sending env t sel req sender r = (Wait a, r') → 4 * tp_attempt t + 3 ≤ await_rank a.
Proof. unfold sending. case_match; [intros [= <- <-]; cbn; lia|intros ?%forwarded_rank; lia]. Qed.

Lemma resume_rank env a r a' r' : resume env a r = (Wait a', r') → await_rank a < await_rank a'.
Proof.
  destruct a; cbn [resume await_rank].
  - unfold resume_body. cbv zeta. destruct (prepare_replay_body _ _ _ _ _ _) as [[] ?]; [|done].
    intros ?%loop_head_rank. lia.
  - destruct (acquire_start _ _ _) as [[] ?]; [intros ?%sending_rank; lia|intros [= <- <-]; cbn; lia].
  - destruct (acquire_finish _ _ _ _ _). intros ?%sending_rank. lia.
  - intros ?%forwarded_rank. lia.
  - destruct (ev_parked _ _); intros ?%ended_rank; lia.
  - intros ?%ended_rank. lia.
  - cbv zeta. destruct (collect _ _); [destruct (cache_put _ _ _ _ _ _ _)|]; intros ?%ended_rank; lia.
Qed.

Lemma interleaved_ranks env x seen out :
  interleaved env x seen out →
  NoDup seen.*1 ∧ Forall (λ k, match x.1 with Wait a => await_rank a ≤ k | _ => False end) seen.*1.
Proof.
  induction 1 as [| |a r s seen out _ [Hnd IH]]; [by repeat constructor..|]. cbn.
  assert (Forall (λ k, await_rank a < k) seen.*1) as Hlt.
  { destruct (resume env a (set_state r s)) as [[a'|response|response g idle] r1] eqn:Hres; cbn in IH.
    - apply resume_rank in Hres. eapply Forall_impl; [done|]. cbn. lia.
    - by eapply Forall_impl.
    - by eapply Forall_impl. }
  rewrite Forall_forall in Hlt. split.
  - constructor; [intros Hin%Hlt; lia|done].
  - constructor; [lia|]. apply Forall_forall. intros k Hk%Hlt. lia.
Qed.

Lemma recall_elem seen k s s0 : NoDup seen.*1 → (k, s) ∈ seen → recall seen k s0 = s.
Proof.
  induction seen as [|[k' s'] seen IH]; [set_solver|]. cbn. intros [Hk Hnd]%NoDup_cons [[= <- <-]|Hin]%elem_of_cons.
  - by rewrite Z.eqb_refl.
  - destruct (Z.eqb_spec k k') as [<-|]; [|by apply IH]. destruct Hk. by apply (list_elem_of_fmap_2 fst _ (k, s)).
Qed.

Lemma interleaved_finishes env all x seen out :
  NoDup all.*1 → seen ⊆ all → interleaved env x seen out → finishes (amid env all) x out.
Proof.
  intros Hnd Hsub Hi. induction Hi as [| |a r s seen out _ IH]; [constructor..|].
  apply fin_wait. rewrite resume_amid. unfold on_state. rewrite await_amid.
  rewrite (recall_elem _ _ s); [|done|set_solver]. apply IH. set_solver.
Qed.

Lemma interleaved_handler env connect req r seen out :
  interleaved env (start env connect req r) seen out →
  proxy_handler ln chunks (amid env seen) connect req r = out.
Proof.
  intros Hi. eapply finishes_unique; [apply start_finishes|].
  apply (interleaved_finishes env seen _ seen); [by apply interleaved_ranks in Hi as []|done|done].
Qed.

(** ** Every task ends *)

(** The attempts of the trip, which do not change along it. *)
Definition trip_attempts (t : Trip) : Z := tp_attempt t + Z.of_nat (tp_fuel t) + 1.

Definition await_trip (a : Await) : option Trip :=
  match a with
  | AwBody _ _ _ _ _ => None
  | AwDial t _ _ | AwOpen t _ _ _ | AwSend t _ | AwPark t _ _ | AwSleep t _ _ _ | AwCollect t _ _ _ => Some t
  end.

(** [a] is an await of a trip of [n] attempts. *)
Definition within_attempts (n : Z) (a : Await) : Prop :=
  match await_trip a with Some t => trip_attempts t = n | None => False end.

Lemma rank_within n a : within_attempts n a → await_rank a ≤ 4 * n.
Proof. unfold within_attempts, trip_attempts. destruct a; cbn; [done|intros <-; lia..]. Qed.

Lemma loop_head_within env deadline budget cx info fuel attempt replay t r a r' :
  loop_head env deadline budget cx info fuel attempt replay t r = (Wait a, r') →
  within_attempts (attempt + Z.of_nat fuel) a.
Proof.
  revert attempt replay t r. induction fuel as [|fuel IH]; intros attempt replay t r; cbn [loop_head];
    [by intros ?%exhausted_rank|].
  destruct (_ && _); [|by intros ?%exhausted_rank].
  destruct (select_and_gate _ _ _ _ _) as [[[sel|[]] t1] r1]; [|by intros ?%exhausted_rank|].
  - destruct (build_retry_req replay) as [[req|] replay1]; [|by intros ?%exhausted_rank].
    intros [= <- <-]. unfold within_attempts, trip_attempts. cbn. lia.
  - intros Hw%IH. by replace (attempt + Z.of_nat (S fuel)) with (attempt + 1 + Z.of_nat fuel) by lia.
Qed.

Lemma ended_within env t sel outcome retry r a r' :
  ended env t sel outcome retry r = (Wait a, r') → within_attempts (trip_attempts t) a.
Proof.
  destruct outcome; cbn; [intros Hw%loop_head_within|by intros ?%exhausted_rank|done..].
  unfold trip_attempts. by replace (tp_attempt t + Z.of_nat (tp_fuel t) + 1) with (tp_attempt t + 1 + Z.of_nat (tp_fuel t)) by lia.
Qed.

Lemma forwarded_within env t sel result r a r' :
  forwarded env t sel result r = (Wait a, r') → within_attempts (trip_attempts t) a.
Proof.
  unfold forwarded. cbv zeta. destruct result; repeat case_match; try (by intros [= <- <-]); apply ended_within.
Qed.

Lemma sending_within env t sel req sender r a r' :
  sending env t sel req sender r = (Wait a, r') → within_attempts (trip_attempts t) a.
Proof. unfold sending. case_match; [by intros [= <- <-]|apply forwarded_within]. Qed.

Lemma resume_within env a r a' r' n :
  within_attempts n a → resume env a r = (Wait a', r') → within_attempts n a'.
Proof.
  unfold within_attempts at 1. destruct a; cbn [resume await_trip]; [done|intros <-..].
  - destruct (acquire_start _ _ _) as [[] ?]; [apply sending_within|by intros [= <- <-]].
  - destruct (acquire_finish _ _ _ _ _). apply sending_within.
  - apply forwarded_within.
  - destruct (ev_parked _ _); apply ended_within.
  - apply ended_within.
  - cbv zeta. destruct (collect _ _); [destruct (cache_put _ _ _ _ _ _ _)|]; apply ended_within.
Qed.

(** The states a task is resumed in are the first ones of the schedule [σ]. *)
Definition scheduled (σ : nat → ProxyState) (seen : list (Z * ProxyState)) : Prop :=
  seen.*2 = σ <$> seq 0 (length seen).

Lemma scheduled_cons σ k seen : scheduled (λ i, σ (S i)) seen → scheduled σ ((k, σ 0%nat) :: seen).
Proof.
  unfold scheduled. cbn. intros ->. f_equal. rewrite <-fmap_S_seq, <-list_fmap_compose. done.
Qed.

(** Resumed again and again, in any states, a task of [n] attempts answers. *)
Lemma trip_ends env n a r σ :
  within_attempts n a →
  ∃ seen out, interleaved env (Wait a, r) seen out ∧ scheduled σ seen ∧ zlen seen ≤ 4 * n - await_rank a + 1.
Proof.
  remember (Z.to_nat (4 * n - await_rank a)) as m eqn:Hm. revert a r σ Hm.
  induction (lt_wf m) as [m _ IH]. intros a r σ -> Hw. pose proof (rank_within n a Hw) as Hrank.
  destruct (resume env a (set_state r (σ 0%nat))) as [nx r1] eqn:Hres.
  assert (∃ seen out, interleaved env (nx, r1) seen out ∧ scheduled (λ i, σ (S i)) seen ∧ zlen seen ≤ 4 * n - await_rank a)
    as (seen & out & Hi & Hs & Hlen).
  { destruct nx as [a'|response|response g idle].
    - pose proof (resume_rank _ _ _ _ _ Hres). pose proof (resume_within _ _ _ _ _ _ Hw Hres) as Hw'.
      pose proof (rank_within n a' Hw').
      destruct (IH (Z.to_nat (4 * n - await_rank a'))%nat ltac:(lia) a' r1 (λ i, σ (S i)) eq_refl Hw')
        as (seen & out & Hi & Hs & Hlen). exists seen, out. split_and!; [done|done|lia].
    - exists [], (answer response, r1). split_and!; [apply il_respond|done|change (0 ≤ 4 * n - await_rank a); lia].
    - exists [], (streamed response g idle, r1). split_and!; [apply il_stream|done|change (0 ≤ 4 * n - await_rank a); lia]. }
  exists ((await_rank a, σ 0%nat) :: seen), out. split_and!; [|by apply scheduled_cons|rewrite zlen_cons; lia].
  apply il_wait. by rewrite Hres.
Qed.

(** The attempts a request may make when its body has been read in the state [s]. *)
Definition attempts_bound (s : ProxyState) : Z := Z.max 1 (wrap32 (max_retries (retry_config s) + 1)).

Lemma body_within env req ip identity neg info r a r' :
  resume_body env req ip identity neg info r = (Wait a, r') →
  ∃ n, within_attempts n a ∧ n ≤ attempts_bound (state r).
Proof.
  unfold resume_body. cbv zeta. destruct (prepare_replay_body _ _ _ _ _ _) as [[replay n|response] recorded] eqn:Hp; [|done].
  intros Hw%loop_head_within. apply prepare_attempts in Hp as (req' & -> & _). eexists. split; [exact Hw|].
  unfold attempts_bound, attempts_for. destruct (retries_permitted _ _); [|lia].
  pose proof (wrap32_range (max_retries (retry_config (state r)) + 1)). lia.
Qed.

Lemma task_ends env a r σ : ∃ seen out, interleaved env (Wait a, r) seen out ∧ scheduled σ seen.
Proof.
  destruct (await_trip a) as [t|] eqn:Ht.
  { destruct (trip_ends env (trip_attempts t) a r σ) as (seen & out & Hi & Hs & _); [|by exists seen, out].
    unfold within_attempts. by rewrite Ht. }
  destruct a as [req ip identity neg info| | | | | |]; try done.
  destruct (resume env (AwBody req ip identity neg info) (set_state r (σ 0%nat))) as [nx r1] eqn:Hres.
  assert (∃ seen out, interleaved env (nx, r1) seen out ∧ scheduled (λ i, σ (S i)) seen) as (seen & out & Hi & Hs).
  { destruct nx as [a'|response|response g idle].
    - destruct (body_within _ _ _ _ _ _ _ _ _ Hres) as (n & Hw & _).
      destruct (trip_ends env n a' r1 (λ i, σ (S i)) Hw) as (seen & out & Hi & Hs & _). by exists seen, out.
    - exists [], (answer response, r1). split; [apply il_respond|done].
    - exists [], (streamed response g idle, r1). split; [apply il_stream|done]. }
  exists ((0, σ 0%nat) :: seen), out. split; [|by apply scheduled_cons].
  apply (il_wait env (AwBody req ip identity neg info)). by rewrite Hres.
Qed.

Lemma interleaved_length env n x seen out :
  interleaved env x seen out →
  match x.1 with
  | Wait a => within_attempts n a → zlen seen ≤ 4 * n - await_rank a + 1
  | _ => zlen seen = 0
  end.
Proof.
  induction 1 as [| |a r s seen out _ IH]; [done..|]. cbn. intros Hw. rewrite zlen_cons.
  pose proof (rank_within n a Hw). destruct (resume env a (set_state r s)) as [[a'|response|response g idle] r1] eqn:Hres; cbn in IH.
  - pose proof (resume_rank _ _ _ _ _ Hres). specialize (IH (resume_within _ _ _ _ _ _ Hw Hres)). lia.
  - lia.
  - lia.
Qed.

(** One resumption for the body and four for each attempt. *)
Definition few_resumptions (seen : list (Z * ProxyState)) : Prop :=
  match seen with [] => True | (_, s) :: later => zlen later ≤ 4 * attempts_bound s end.

Lemma start_few env connect req r seen out :
  interleaved env (start env connect req r) seen out → few_resumptions seen.
Proof.
  unfold start. destruct (admit_client _ _) as [response|ip identity]; [by inversion 1|]. cbv zeta.
  destruct (reject_before_routing _ _ _ _) as [[response|] r1]; [by inversion 1|].
  destruct (negotiate_cache _ _ _ _) as [[response|neg] r2]; [by inversion 1|].
  destruct (route_and_admit _ _) as [[info|response] r3]; [|by inversion 1].
  inversion 1 as [| |a r' s later out' Hi]; subst. cbn [resume] in Hi. cbn.
  destruct (resume_body _ _ _ _ _ _ _) as [nx r4] eqn:Hres. pose proof (interleaved_length env (attempts_bound s) _ _ _ Hi) as Hlen.
  assert (0 < attempts_bound s) by (unfold attempts_bound; lia). destruct nx as [a|response|response g idle]; cbn in Hlen; [|lia..].
  pose proof Hres as Hb. apply body_within in Hb as (n & Hw & Hn). cbn [state set_state] in Hn.
  assert (0 < await_rank a) by (apply (resume_rank env (AwBody req ip identity neg info) _ _ _ Hres)).
  pose proof (interleaved_length env n _ _ _ Hi) as Hlen'. cbn in Hlen'. specialize (Hlen' Hw). lia.
Qed.

(** ** What a task has sent *)

Lemma exhausted_sent info t r : sent (trace (exhausted info t r).2) = sent (trace r).
Proof. unfold exhausted. by destruct (last_response t). Qed.

Lemma loop_head_sent env deadline budget cx info fuel attempt replay t r :
  sent (trace (loop_head env deadline budget cx info fuel attempt replay t r).2) = sent (trace r).
Proof.
  revert attempt replay t r. induction fuel as [|fuel IH]; intros attempt replay t r; cbn [loop_head];
    [apply exhausted_sent|].
  destruct (_ && _); [|apply exhausted_sent].
  destruct (select_and_gate _ _ _ _ _) as [[res t1] r1] eqn:Hg. apply select_and_gate_trace in Hg as [Hg _].
  rewrite <-Hg. destruct res as [sel|[]]; [|apply exhausted_sent|apply IH].
  destruct (build_retry_req replay) as [[req|] replay1]; [done|].
  by rewrite exhausted_sent, (proj1 (drop_selected_trace sel r1)).
Qed.

Lemma ended_sent env t sel outcome retry r : sent (trace (ended env t sel outcome retry r).2) = sent (trace r).
Proof.
  destruct outcome; cbn [ended]; [rewrite loop_head_sent|rewrite exhausted_sent| |done]; apply drop_selected_trace.
Qed.

Lemma forwarded_sent env t sel result r : sent (trace (forwarded env t sel result r).2) = sent (trace r).
Proof.
  unfold forwarded. cbv zeta. destruct result; repeat case_match; try done; by rewrite ended_sent.
Qed.

Lemma sending_sent env t sel req sender r :
  sent (trace r) `suffix_of` sent (trace (sending env t sel req sender r).2).
Proof. unfold sending. case_match; [by apply suffix_cons_r|by rewrite forwarded_sent]. Qed.

Lemma resume_sent env a r : sent (trace r) `suffix_of` sent (trace (resume env a r).2).
Proof.
  destruct a; cbn [resume].
  - unfold resume_body. cbv zeta. destruct (prepare_replay_body _ _ _ _ _ _) as [[] []]; rewrite ?loop_head_sent; done.
  - destruct (acquire_start _ _ _) as [[] ?]; [|done]. apply (sending_sent env t sel req sender (on_state _ r)).
  - destruct (acquire_finish _ _ _ _ _) as [sender p]. apply (sending_sent env t sel req sender (on_state _ r)).
  - by rewrite forwarded_sent.
  - destruct (ev_parked _ _); by rewrite ended_sent.
  - by rewrite ended_sent.
  - cbv zeta. destruct (collect _ _); [destruct (cache_put _ _ _ _ _ _ _)|]; by rewrite ended_sent.
Qed.

Lemma interleaved_sent env x seen out :
  interleaved env x seen out → sent (trace x.2) `suffix_of` sent (trace out.2).
Proof.
  induction 1 as [| |a r s seen out _ IH]; [done..|]. etrans; [|exact IH]. apply (resume_sent env a (set_state r s)).
Qed.

Lemma start_sent env connect req r : sent (trace (start env connect req r).2) = sent (trace r).
Proof.
  unfold start. destruct (admit_client _ _) as [response|ip identity]; [done|]. cbv zeta.
  destruct (reject_before_routing _ _ _ _) as [o r1] eqn:Hr. apply reject_quiet in Hr as [[E1 _] _].
  destruct o as [response|]; [exact E1|].
  destruct (negotiate_cache _ _ _ _) as [d r2] eqn:Hn. apply negotiate_quiet in Hn as [[E2 _] _].
  destruct d as [response|neg]; [exact (eq_trans E2 E1)|].
  destruct (route_and_admit _ r2) as [res r3] eqn:Hroute. apply route_trace in Hroute as [E3 _].
  cbn in E1. destruct res; cbn; congruence.
Qed.

(** The first thing a request waits for is its body. *)
Lemma start_seen env connect req r seen out :
  interleaved env (start env connect req r) seen out →
  match seen with [] => sent (trace out.2) = sent (trace r) | (k, _) :: _ => k = 0 end.
Proof.
  intros Hi. pose proof (start_sent env connect req r) as E. unfold start in *.
  destruct (admit_client _ _) as [response|ip identity]; [by inversion Hi; subst|]. cbv zeta in *.
  destruct (reject_before_routing _ _ _ _) as [[response|] r1]; [by inversion Hi; subst|].
  destruct (negotiate_cache _ _ _ _) as [[response|neg] r2]; [by inversion Hi; subst|].
  destruct (route_and_admit _ _) as [[info|response] r3]; by inversion Hi; subst.
Qed.

(** ** The guards of a task *)

Definition route_guards (info : RouteInfo) : list Resource :=
  [RQueue (ri_backend_id info) (ri_queue_permit info); RActive].

(** What a suspended future owns, in the order in which it is dropped with it. *)
Definition held (a : Await) : list Resource :=
  match a with
  | AwBody _ _ _ _ info => route_guards info
  | AwDial t sel _ | AwOpen t sel _ _ | AwSend t sel | AwPark t sel _ | AwSleep t sel _ _ | AwCollect t sel _ _ =>
      sel_guards sel ++ route_guards (tp_info t)
  end.

Definition stream_held (g : ResponseGuards) : list Resource :=
  RActive :: RQueue (rg_queue g) (rg_queue_permit g) :: option_list (RConn <$> rg_conn g) ++
  option_list (RProbe <$> rg_half_open g).

Definition next_held (nx : Next) : list Resource :=
  match nx with Wait a => held a | Respond _ => [] | Stream _ g _ => stream_held g end.

Context `{!SemaphoreLaws} (origin : string → Z → Prop) (published : BackendConfig → Prop) (depth : Z).

Definition await_pool (a : Await) : BackendPool :=
  match a with
  | AwBody _ _ _ _ info => ri_pool info
  | AwDial t _ _ | AwOpen t _ _ _ | AwSend t _ | AwPark t _ _ | AwSleep t _ _ _ | AwCollect t _ _ _ => cx_pool (tp_cx t)
  end.

(** The task has gone on to [x] and the ledger is balanced, [G] being the guards of the others. *)
Definition lands (G : list Resource) (x : Next * Run) : Prop :=
  balanced origin published depth (state x.2) (next_held x.1 ++ G) ∧
  match x.1 with Wait a => pool_within published (await_pool a) | _ => True end.

Lemma balanced_active s G : balanced origin published depth s (RActive :: G) ↔ balanced origin published depth s G.
Proof.
  split; intros ([Hd Hi Hs Hl] & [Hc Hf Hcl Hps]); (split_and!; split; try done);
    try (by apply Forall_cons in Hl as []); try (by apply Forall_cons in Hcl as []); by constructor.
Qed.

Lemma respond_lands info response r G :
  balanced origin published depth (state r) (route_guards info ++ G) → lands G (respond info response r).
Proof. intros HB%release_slot_balanced. split; [|done]. exact (proj1 (balanced_active _ _) HB). Qed.

Lemma exhausted_lands info t r G :
  balanced origin published depth (state r) (route_guards info ++ G) → lands G (exhausted info t r).
Proof.
  intros HB. unfold exhausted. destruct (last_response t); [|by apply respond_lands].
  split; [|done]. cbn. rewrite (Permutation_swap (RQueue _ _)). exact HB.
Qed.

Lemma loop_lands env deadline budget cx info fuel attempt replay t r G :
  balanced origin published depth (state r) (route_guards info ++ G) → pool_within published (cx_pool cx) →
  lands G (loop_head env deadline budget cx info fuel attempt replay t r).
Proof.
  intros HB Hpool. revert attempt replay t r HB. induction fuel as [|fuel IH]; intros attempt replay t r HB; cbn [loop_head].
  { by apply exhausted_lands. }
  destruct (_ && _); [|by apply exhausted_lands].
  destruct (select_and_gate _ _ _ _ _) as [[res t1] r1] eqn:Hg. eapply (gate_balanced ln origin published depth) in Hg; [|done..].
  destruct res as [sel|[]]; [|by apply exhausted_lands|by apply IH].
  destruct (build_retry_req replay) as [[req|] replay1]; [|by apply exhausted_lands, drop_selected_balanced].
  split; [|done]. cbn. by rewrite <-(assoc (++)).
Qed.

Section landing.
  Context (env : Env) (t : Trip) (sel : Selected) (G : list Resource).
  Hypothesis Hpool : pool_within published (cx_pool (tp_cx t)).
Let owned := sel_guards sel ++ route_guards (tp_info t) ++ G.

(** A streamed outcome takes along the guards of its attempt. *)
Definition own_guards (outcome : AttemptOutcome) : Prop :=
  match outcome with
  | StreamOut _ conn half_open => conn = Balancer.id (sel_backend sel) ∧ half_open = sel_half_open sel
  | _ => True
  end.

Lemma ended_lands outcome retry r :
  balanced origin published depth (state r) owned → own_guards outcome → lands G (ended env t sel outcome retry r).
Proof.
  intros HB Hown. destruct outcome as [| |response|response conn half_open]; cbn [ended].
  - by apply loop_lands; [apply drop_selected_balanced|].
  - by apply exhausted_lands, drop_selected_balanced.
  - by apply respond_lands, drop_selected_balanced.
  - destruct Hown as [-> ->]. split; [|done]. cbn [next_held fst snd stream_held rg_queue rg_queue_permit rg_conn rg_half_open].
    revert HB. apply balanced_perm. unfold owned, sel_guards, route_guards. cbn. solve_Permutation.
Qed.

Lemma waits a r : held a = sel_guards sel ++ route_guards (tp_info t) → await_pool a = cx_pool (tp_cx t) →
  balanced origin published depth (state r) owned → lands G (Wait a, r).
Proof. intros Hh Hp HB. split; cbn; [rewrite Hh, <-(assoc (++)); exact HB|by rewrite Hp]. Qed.

Lemma forwarded_lands result r : balanced origin published depth (state r) owned → lands G (forwarded env t sel result r).
Proof.
  intros HB. unfold forwarded. cbv zeta. destruct result as [response|e].
  - set (r0 := if is_retryable_status _ then _ else _).
    assert (balanced origin published depth (state r0) owned) as HB0 by (subst r0; destruct (is_retryable_status _); [by apply (circuits_balanced _ _ _ (state r))|done]).
    clearbody r0. destruct (_ && (_ <? _)); [by apply waits|].
    set (r1 := if (500 <=? _) && _ then _ else _).
    assert (balanced origin published depth (state r1) owned) as HB1
      by (subst r1; destruct (_ && _); by apply (circuits_balanced _ _ _ (state r0))).
    clearbody r1. destruct (should_cache_response _ _ _ _); [by apply waits|by apply ended_lands].
  - destruct (_ && _); [by apply waits|].
    set (r0 := record _ _). assert (balanced origin published depth (state r0) owned) as HB0 by (by apply (circuits_balanced _ _ _ (state r))).
    clearbody r0.
    destruct (_ <? _); [by apply waits|by apply ended_lands].
Qed.

Lemma sending_lands req sender r : balanced origin published depth (state r) owned → lands G (sending env t sel req sender r).
Proof. intros HB. unfold sending. destruct (_ ≫= _); [by apply waits|by apply forwarded_lands]. Qed.
End landing.

Lemma resume_lands env a r G :
  balanced origin published depth (state r) (held a ++ G) → pool_within published (await_pool a) → lands G (resume env a r).
Proof.
  intros HB Hpool. destruct a as [req ip identity neg info|t sel req|t sel req conn|t sel|t sel w|t sel d retry|t sel response dir];
    cbn [resume held await_pool] in *; rewrite <-?(assoc (++)) in HB.
  - unfold resume_body. cbv zeta. destruct (prepare_replay_body _ _ _ _ _ _) as [[replay n|response] recorded].
    + by apply loop_lands.
    + apply respond_lands. by destruct recorded.
  - pose proof (acquire_start_limits (conn_pool (state r)) (ev_net env (tp_attempt t)) (sel_backend sel)) as E.
    destruct (acquire_start _ _ _) as [[sender|conn] p]; cbn [snd] in E.
    + by apply sending_lands, pool_balanced.
    + by apply (waits t sel), pool_balanced.
  - pose proof (acquire_finish_limits (conn_pool (state r)) (ev_net env (tp_attempt t)) (ev_net_back env (tp_attempt t))
      (sel_backend sel) conn) as E.
    destruct (acquire_finish _ _ _ _ _) as [sender p]. by apply sending_lands, pool_balanced.
  - by apply forwarded_lands.
  - destruct (ev_parked _ _); by apply ended_lands.
  - by apply ended_lands.
  - cbv zeta. destruct (collect _ _); [|by apply ended_lands]. destruct (cache_put _ _ _ _ _ _ _) as [u c].
    apply ended_lands; [done| |done]. by apply (balanced_same origin published depth (state r)).
Qed.

(** Admission and the cache leave the counters and the routing alone. *)
Lemma reject_same now ip identity r o r' :
  reject_before_routing now ip identity r = (o, r') →
  same_counters (state r) (state r').
Proof. unfold reject_before_routing. repeat case_match; by intros [= <- <-]. Qed.

Lemma negotiate_same now req identity r o r' :
  negotiate_cache now req identity r = (o, r') →
  same_counters (state r) (state r').
Proof.
  unfold negotiate_cache, try_serve_from_cache. cbv zeta. destruct (negb _); [by intros [= <- <-]|].
  destruct (cache_get _ _ _) as [[hit|] c]; by intros [= <- <-].
Qed.

Lemma start_lands env connect req r G :
  balanced origin published depth (state r) G → lands G (start env connect req r).
Proof.
  intros HB. pose proof HB as (_ & [_ _ _ Hpools]). unfold start. destruct (admit_client _ _) as [response|ip identity]; [done|]. cbv zeta.
  destruct (reject_before_routing _ _ _ _) as [o r1] eqn:Hr. apply reject_same in Hr as Hs1.
  apply (balanced_same _ _ _ _ _ _ Hs1) in HB. destruct o as [response|]; [done|].
  destruct (negotiate_cache _ _ _ _) as [d r2] eqn:Hn. apply negotiate_same in Hn as Hs2.
  apply (balanced_same _ _ _ _ _ _ Hs2) in HB. destruct d as [response|neg]; [done|].
  destruct (route_and_admit _ r2) as [res r3] eqn:Hroute. pose proof (route_balanced origin published depth _ _ _ _ _ HB Hroute) as HB3.
  destruct res as [info|response]; [|done]. split.
  - cbn. rewrite Permutation_swap. by apply balanced_active.
  - apply route_resolved in Hroute as (resolved & Hres & Hp). cbn. destruct Hs1 as (_ & _ & _ & Hrl1), Hs2 as (_ & _ & _ & Hrl2).
    rewrite <-Hp. rewrite Hrl2, Hrl1 in Hres.
    unfold resolve_backend_pool in Hres. destruct (match_route _ _) as [[m|]|]; [|done..].
    destruct (backend_pools _ !! _) as [p|] eqn:Hb; [|done]. injection Hres as <-. by apply Hpools in Hb.
Qed.
End inflight.
