(* ===== verification/Traffic.v ===== *)
(** * Traffic: every task of the proxy on one shared state

    The proxy under load: requests arrive, run from await to await (file Inflight), stream
    their answers and end or are dropped when a client goes away; raw relays hold connection
    permits of the same backends; the configuration is reloaded and removed backends are
    drained.  All of them act on one [ProxyState], one atomic step at a time, in any order. *)

From S2P Require Import Prelude Text Error Net Http Lru Float64 CacheControl Cache Circuit Acl Retry Router.
From S2P Require Import Identity Headers Balancer Queue Registry Pool Body Handler Config Reload.
From S2P Require Import EndToEnd Ledger Inflight.
Local Open Scope Z_scope.

Section traffic.
  Context `{Http} `{!Lru CachedResponse} `{!Lru (BackendHealth * Z)} `{IpNetLib} `{Governor}
          `{Semaphore} `{Zstd}.
  Context (ln : f64 → f64) (chunks : nat → list string * StreamEnd).

(** ** The system *)

(** A request as it arrived, with the states it has been resumed in. *)
Record Ticket := {
  tk_env : Env;
  tk_connect : option (SocketAddr * option PeerIdentity);
  tk_req : Request Body;
  tk_arrival : ProxyState;
  tk_seen : list (Z * ProxyState);
}.

Definition saw (q : Ticket) (k : Z) (s : ProxyState) : Ticket :=
  {| tk_env := tk_env q; tk_connect := tk_connect q; tk_req := tk_req q; tk_arrival := tk_arrival q;
     tk_seen := tk_seen q ++ [(k, s)] |}.

Record Task := {
  ta_ticket : Ticket;
  ta_await : Await;
  ta_trace : list Event;
}.

(** [px_raw] are the connection permits of raw relays; [px_answered] remembers what each
    request was answered, with its run, and [px_configured] the backends of every
    configuration so far. *)
Record Traffic := {
  px_state : ProxyState;
  px_tasks : list Task;
  px_streams : list ResponseGuards;
  px_raw : list string;
  px_reload : ReloadTask;
  px_answered : list (Ticket * (Served * Run));
  px_configured : list BackendConfig;
}.

Definition with_state (px : Traffic) (s : ProxyState) : Traffic :=
  {| px_state := s; px_tasks := px_tasks px; px_streams := px_streams px; px_raw := px_raw px;
     px_reload := px_reload px; px_answered := px_answered px;
     px_configured := px_configured px |}.

Definition with_tasks (px : Traffic) (ts : list Task) : Traffic :=
  {| px_state := px_state px; px_tasks := ts; px_streams := px_streams px; px_raw := px_raw px;
     px_reload := px_reload px; px_answered := px_answered px;
     px_configured := px_configured px |}.

(** A task that has run to [nx] goes on waiting, or has answered. *)
Definition place (q : Ticket) (x : Next * Run) (px : Traffic) : Traffic :=
  let r := x.2 in
  match x.1 with
  | Wait a =>
      {| px_state := state r; px_tasks := {| ta_ticket := q; ta_await := a; ta_trace := trace r |} :: px_tasks px;
         px_streams := px_streams px; px_raw := px_raw px; px_reload := px_reload px; px_answered := px_answered px;
     px_configured := px_configured px |}
  | Respond response =>
      {| px_state := state r; px_tasks := px_tasks px; px_streams := px_streams px; px_raw := px_raw px;
         px_reload := px_reload px; px_answered := (q, (answer response, r)) :: px_answered px;
     px_configured := px_configured px |}
  | Stream response g idle =>
      {| px_state := state r; px_tasks := px_tasks px; px_streams := g :: px_streams px; px_raw := px_raw px;
         px_reload := px_reload px; px_answered := (q, (streamed response g idle, r)) :: px_answered px;
     px_configured := px_configured px |}
  end.

(** Dropping a suspended future drops its locals, the innermost first: the fields of
    [Selected] in their order while it is one value, the locals of [handle_response] in the
    reverse order of their declaration. *)
Definition drop_future (a : Await) (r : Run) : Run :=
  let drop_route info r := drop_active (drop_queue (ri_backend_id info) (ri_queue_permit info) r) in
  match a with
  | AwBody _ _ _ _ info => drop_route info r
  | AwDial t sel _ | AwOpen t sel _ _ | AwSend t sel =>
      drop_route (tp_info t) (drop_probe (sel_half_open sel) (drop_conn (Balancer.id (sel_backend sel)) r))
  | AwPark t sel _ | AwSleep t sel _ _ | AwCollect t sel _ _ => drop_route (tp_info t) (drop_selected sel r)
  end.

(** What the unsigned type of the setting says. *)
Definition unsigned_limit (b : BackendConfig) : Prop := 0 ≤ max_connections b.

(** A raw relay may have read its pool before the latest reload.  The other tasks may do
    whatever they like with the rest of the state, the circuit breakers included. *)
Inductive traffic_step : Traffic → Traffic → Prop :=
  | tr_arrive px env connect req :
      let s := px_state px in
      traffic_step px
        (place {| tk_env := env; tk_connect := connect; tk_req := req; tk_arrival := s; tk_seen := [] |}
           (start env connect req {| state := s; trace := [] |}) px)
  | tr_resume px q a tr ts1 ts2 :
      px_tasks px = ts1 ++ {| ta_ticket := q; ta_await := a; ta_trace := tr |} :: ts2 →
      traffic_step px
        (place (saw q (await_rank a) (px_state px))
           (resume ln chunks (tk_env q) a {| state := px_state px; trace := tr |}) (with_tasks px (ts1 ++ ts2)))
  | tr_cancel px q a tr ts1 ts2 :
      px_tasks px = ts1 ++ {| ta_ticket := q; ta_await := a; ta_trace := tr |} :: ts2 →
      traffic_step px
        (with_state (with_tasks px (ts1 ++ ts2)) (state (drop_future a {| state := px_state px; trace := tr |})))
  | tr_body_end px g gs1 gs2 :
      px_streams px = gs1 ++ g :: gs2 →
      traffic_step px
        {| px_state := state (drop_guards g {| state := px_state px; trace := [] |}); px_tasks := px_tasks px;
           px_streams := gs1 ++ gs2; px_raw := px_raw px; px_reload := px_reload px; px_answered := px_answered px;
           px_configured := px_configured px |}
  | tr_raw_take px backend p r :
      backend ∈ px_configured px → try_acquire_conn_permit (conn_pool (px_state px)) backend = (r, p) →
      traffic_step px
        {| px_state := with_conn_pool (px_state px) p; px_tasks := px_tasks px; px_streams := px_streams px;
           px_raw := match r with Ok _ => Balancer.id backend :: px_raw px | Err _ => px_raw px end;
           px_reload := px_reload px; px_answered := px_answered px;
           px_configured := px_configured px |}
  | tr_raw_drop px b bs1 bs2 :
      px_raw px = bs1 ++ b :: bs2 →
      traffic_step px
        {| px_state := with_conn_pool (px_state px) (drop_conn_permit (conn_pool (px_state px)) b);
           px_tasks := px_tasks px; px_streams := px_streams px; px_raw := bs1 ++ bs2;
           px_reload := px_reload px; px_answered := px_answered px;
           px_configured := px_configured px |}
  | tr_reload px c rev nets removed t s :
      Forall unsigned_limit (c_backends c) →
      apply_config_reload c rev nets (λ p, p) (px_reload px) (px_state px) = (removed, t, s) →
      traffic_step px
        {| px_state := s; px_tasks := px_tasks px; px_streams := px_streams px; px_raw := px_raw px;
           px_reload := t; px_answered := px_answered px;
           px_configured := c_backends c ++ px_configured px |}
  | tr_drain px removed : traffic_step px (with_state px (run_backend_drain removed (px_state px)))
  | tr_other px s :
      same_counters (px_state px) s → traffic_step px (with_state px s).

Definition traffic_start (bs : list BackendConfig) (s : ProxyState) (t : ReloadTask) : Traffic :=
  {| px_state := s; px_tasks := []; px_streams := []; px_raw := []; px_reload := t; px_answered := [];
     px_configured := bs |}.

Inductive traffic_reachable (px0 : Traffic) : Traffic → Prop :=
  | traffic_init : traffic_reachable px0 px0
  | traffic_next px px' : traffic_reachable px0 px → traffic_step px px' → traffic_reachable px0 px'.

(** The configurations only add up. *)
Lemma configured_step px px' : traffic_step px px' → px_configured px ⊆ px_configured px'.
Proof.
  destruct 1 as [px env connect req s|px q a tr ts1 ts2 _| | | | |px c rev nets removed t s _ _| |]; cbn; try done.
  - by destruct (start _ _ _ _) as [[]].
  - by destruct (resume _ _ _ _ _) as [[]].
  - intros b Hb. apply elem_of_app. by right.
Qed.

Lemma configured_reachable px px' : traffic_reachable px px' → px_configured px ⊆ px_configured px'.
Proof. induction 1 as [|px1 px2 _ IH Hstep%configured_step]; [done|by etrans]. Qed.

Lemma configured_unsigned px px' :
  traffic_reachable px px' → Forall unsigned_limit (px_configured px) → Forall unsigned_limit (px_configured px').
Proof.
  intros Hr Hnn. induction Hr as [|px1 px2 _ IH Hstep]; [done|].
  destruct Hstep as [px1 env connect req s|px1 q a tr ts1 ts2 _| | | | |px1 c rev nets removed t s Hc _| |]; cbn; try done.
  - by destruct (start _ _ _ _) as [[]].
  - by destruct (resume _ _ _ _ _) as [[]].
  - by apply Forall_app.
Qed.

(** ** Every request is a run of the handler *)

(** However task [ta] goes on, it is the request of its ticket that does; before its first
    await is over it has sent nothing. *)
Definition on_course (ta : Task) : Prop :=
  let q := ta_ticket ta in
  (tk_seen q = [] → sent (ta_trace ta) = []) ∧
  ∀ s seen out, interleaved ln chunks (tk_env q) (Wait (ta_await ta), {| state := s; trace := ta_trace ta |}) seen out →
    interleaved ln chunks (tk_env q) (start (tk_env q) (tk_connect q) (tk_req q) {| state := tk_arrival q; trace := [] |})
      (tk_seen q ++ seen) out.

(** An answer is that of the request resumed in the states it saw. *)
Definition handled (an : Ticket * (Served * Run)) : Prop :=
  let '(q, out) := an in
  interleaved ln chunks (tk_env q) (start (tk_env q) (tk_connect q) (tk_req q) {| state := tk_arrival q; trace := [] |})
    (tk_seen q) out.

Definition courses_ok (px : Traffic) : Prop :=
  Forall on_course (px_tasks px) ∧ Forall handled (px_answered px).

Lemma place_courses q x px :
  (tk_seen q = [] → sent (trace x.2) = []) →
  (∀ seen out, interleaved ln chunks (tk_env q) x seen out →
    interleaved ln chunks (tk_env q) (start (tk_env q) (tk_connect q) (tk_req q) {| state := tk_arrival q; trace := [] |})
      (tk_seen q ++ seen) out) →
  courses_ok px → courses_ok (place q x px).
Proof.
  intros Hnil Hx [Ht Ha]. destruct x as [[a|response|response g idle] r]; cbn.
  - split; [|done]. constructor; [|done]. split; [done|]. intros s seen out Hi. apply Hx. inversion Hi; subst. by apply il_wait.
  - split; [done|]. constructor; [|done]. cbn. rewrite <-(app_nil_r (tk_seen q)). apply Hx. constructor.
  - split; [done|]. constructor; [|done]. cbn. rewrite <-(app_nil_r (tk_seen q)). apply Hx. constructor.
Qed.

Lemma courses_step px px' : courses_ok px → traffic_step px px' → courses_ok px'.
Proof.
  intros Hok. destruct 1 as [px env connect req s|px q a tr ts1 ts2 E|px q a tr ts1 ts2 E| | | | | |]; try exact Hok.
  - apply place_courses; [|done|done]. intros _. apply (start_sent env connect req).
  - destruct Hok as [Ht Ha]. rewrite E in Ht. apply Forall_app in Ht as [Ht1 [[_ Hq] Ht2]%Forall_cons].
    apply place_courses; [intros Hnil; cbn in Hnil; by destruct (app_cons_not_nil _ _ _ (eq_sym Hnil))| |split; [by apply Forall_app|done]].
    intros seen out Hi. cbn. rewrite <-app_assoc. apply (Hq (px_state px)). cbn. by apply il_wait.
  - destruct Hok as [Ht Ha]. rewrite E in Ht. apply Forall_app in Ht as [Ht1 [Hq Ht2]%Forall_cons].
    split; [by apply Forall_app|done].
Qed.

Lemma courses_reachable bs s t px : traffic_reachable (traffic_start bs s t) px → courses_ok px.
Proof. induction 1 as [|px px' _ IH Hstep]; [by repeat constructor|by eapply courses_step]. Qed.

(** What a request may have had sent on its behalf: no more copies than the attempts the retry
    settings gave it once its body was there, none before, and each to the pool its path was
    routed to when it arrived. *)
Definition sends_ok (q : Ticket) (tr : list Event) : Prop :=
  let retryable := retries_permitted (req_method (tk_req q)) (req_headers (tk_req q)) in
  (sends tr ≤ match tk_seen q with
              | [] => 0
              | (_, s) :: _ => Z.to_nat (attempts_for retryable (retry_config s))
              end)%nat ∧
  ∀ b out, (b, out) ∈ sent tr →
    admitted (ev_start (tk_env q)) (tk_connect q) (tk_arrival q) ∧ ∃ resolved backend,
    resolve_backend_pool (reloadable (tk_arrival q)) (uri_path (req_uri (tk_req q))) = Ok resolved ∧
    backend ∈ backends (rr_pool resolved) ∧ b = Balancer.id backend ∧
    req_method out = req_method (tk_req q) ∧ req_uri out = req_uri (tk_req q).

Lemma finished_sends `{!HttpLaws} q seen tr out :
  (tk_seen q = [] → sent tr = []) → sent tr `suffix_of` sent (trace out.2) →
  interleaved ln chunks (tk_env q) (start (tk_env q) (tk_connect q) (tk_req q) {| state := tk_arrival q; trace := [] |})
    (tk_seen q ++ seen) out →
  sends_ok q tr.
Proof.
  intros Hnil Hsuf Hi. apply start_seen in Hi as Hfirst. apply interleaved_handler in Hi. destruct out as [served r'].
  pose proof (handler_sends _ _ _ _ _ _ _ _ Hi) as (s0 & _ & Hsends).
  apply handler_grows in Hi as (new & E & HF). cbn in Hsuf, E. rewrite app_nil_r in E. split.
  - unfold sends in *. destruct (tk_seen q) as [|[k s] later]; [by rewrite Hnil|]. cbn in Hfirst. subst k.
    apply suffix_length in Hsuf. cbn in Hsends. lia.
  - intros b out Hin. assert ((b, out) ∈ new) as Hnew by (rewrite <-E; destruct Hsuf as [l ->]; apply elem_of_app; by right).
    rewrite Forall_forall in HF. apply HF in Hnew as (Hadm & resolved & p & Hres & (Hm & Hu & _) & backend & attempt & Hb & Hid & Hm' & Hu' & _).
    split; [done|]. exists resolved, backend. cbn in *. split_and!; [done|done|done|congruence|congruence].
Qed.

(** C5. Under load a request reaches a backend at most as often as the retry settings allow, and
    only where it belongs.  Whatever the other tasks do between its awaits, and whether it has
    been answered or is still in flight: a request whose body has not been read has sent
    nothing; one that is not idempotent and has no idempotency key is sent at most once, any
    other at most as often as the settings it found allow attempts; nothing is sent for a
    client that was not admitted on arrival; and every copy carries the client's method and
    target to a member of the pool that its path named on arrival, although reloads may have
    changed the routing since. *)
Theorem sends_bounded_under_load `{!HttpLaws} bs s t px :
  traffic_reachable (traffic_start bs s t) px →
  Forall (λ ta, sends_ok (ta_ticket ta) (ta_trace ta)) (px_tasks px) ∧
  Forall (λ an : Ticket * (Served * Run), sends_ok an.1 (trace an.2.2)) (px_answered px).
Proof.
  intros [Ht Ha]%courses_reachable. split.
  - eapply Forall_impl; [exact Ht|]. intros ta [Hnil Hta].
    destruct (task_ends ln chunks (tk_env (ta_ticket ta)) (ta_await ta) {| state := px_state px; trace := ta_trace ta |}
      (λ _, px_state px)) as (seen & out & Hi & _).
    apply (finished_sends _ seen _ out); [done| |by eapply Hta]. exact (interleaved_sent _ _ _ _ _ _ Hi).
  - eapply Forall_impl; [exact Ha|]. intros [q out] Hq. cbn in *. apply (finished_sends q [] _ out); [|done|by rewrite app_nil_r].
    intros E. rewrite E in Hq. exact (start_seen _ _ _ _ _ _ _ _ Hq).
Qed.

(** C35. Every request ends.  A task in flight, resumed again and again in whatever states [σ] the
    others leave, answers after finitely many resumptions: over its whole life at most one for
    its body and four for each attempt its retry limit allows. *)
Theorem requests_terminate bs s t px :
  traffic_reachable (traffic_start bs s t) px →
  Forall (λ ta, ∀ σ, ∃ seen out,
    interleaved ln chunks (tk_env (ta_ticket ta)) (Wait (ta_await ta), {| state := px_state px; trace := ta_trace ta |}) seen out ∧
    scheduled σ seen ∧ few_resumptions (tk_seen (ta_ticket ta) ++ seen)) (px_tasks px).
Proof.
  intros [Ht _]%courses_reachable. eapply Forall_impl; [exact Ht|]. intros ta [_ Hta] σ.
  destruct (task_ends ln chunks (tk_env (ta_ticket ta)) (ta_await ta) {| state := px_state px; trace := ta_trace ta |} σ)
    as (seen & out & Hi & Hs). exists seen, out. split_and!; [done|done|]. eapply (start_few ln chunks), (Hta _ _ _ Hi).
Qed.

(** ** The shared limits *)

(** Every guard alive. *)
Definition traffic_guards (px : Traffic) : list Resource :=
  (px_tasks px ≫= held ∘ ta_await) ++ (px_streams px ≫= stream_held) ++ (RConn <$> px_raw px).

Section ledger.
  Context `{!SemaphoreLaws} (origin : string → Z → Prop) (published : BackendConfig → Prop) (depth : Z).

Definition traffic_ok (px : Traffic) : Prop :=
  balanced origin published depth (px_state px) (traffic_guards px) ∧
  Forall (λ ta, pool_within published (await_pool (ta_await ta))) (px_tasks px).

Lemma place_ok q x px :
  lands origin published depth (traffic_guards px) x → Forall (λ ta, pool_within published (await_pool (ta_await ta))) (px_tasks px) →
  traffic_ok (place q x px).
Proof.
  intros [HB Hw] Ht. destruct x as [[a|response|response g idle] r]; cbn in *; (split; [|by try constructor]).
  - unfold traffic_guards. cbn. by rewrite <-(assoc (++)).
  - done.
  - revert HB. apply balanced_perm. unfold traffic_guards. cbn. solve_Permutation.
Qed.

(** Taking a task out of the list. *)
Lemma tasks_split px ta ts1 ts2 :
  traffic_ok px → px_tasks px = ts1 ++ ta :: ts2 →
  balanced origin published depth (px_state px) (held (ta_await ta) ++ traffic_guards (with_tasks px (ts1 ++ ts2))) ∧
  pool_within published (await_pool (ta_await ta)) ∧
  Forall (λ ta, pool_within published (await_pool (ta_await ta))) (ts1 ++ ts2).
Proof.
  intros [HB Ht] E. rewrite E in Ht. apply Forall_app in Ht as [Ht1 [Hta Ht2]%Forall_cons].
  split_and!; [|done|by apply Forall_app]. revert HB. apply balanced_perm. unfold traffic_guards. rewrite E. cbn.
  rewrite !bind_app. cbn. solve_Permutation.
Qed.

Lemma drop_route_balanced info r G :
  balanced origin published depth (state r) (route_guards info ++ G) →
  balanced origin published depth (state (drop_active (drop_queue (ri_backend_id info) (ri_queue_permit info) r))) G.
Proof. intros HB%release_slot_balanced. exact (proj1 (balanced_active _ _ _ _ _) HB). Qed.

Lemma drop_future_balanced a r G : balanced origin published depth (state r) (held a ++ G) → balanced origin published depth (state (drop_future a r)) G.
Proof.
  intros HB. destruct a as [req ip identity neg info|t sel req|t sel req conn|t sel|t sel w|t sel d retry|t sel response dir];
    cbn [held] in HB; rewrite <-?(assoc (++)) in HB; apply drop_route_balanced;
    [done| | | |by apply drop_selected_balanced..].
  all: apply drop_probe_balanced, drop_conn_balanced; revert HB; apply balanced_perm; unfold sel_guards; solve_Permutation.
Qed.

Lemma drop_guards_balanced g r G :
  balanced origin published depth (state r) (stream_held g ++ G) → balanced origin published depth (state (drop_guards g r)) G.
Proof.
  intros HB. unfold drop_guards. cbv zeta. apply drop_probe_balanced.
  cbn in HB. apply (proj1 (balanced_active _ _ _ _ _)) in HB.
  apply (release_slot_balanced origin published depth) in HB. rewrite <-(assoc (++)) in HB.
  destruct (rg_conn g); [by apply drop_conn_balanced|done].
Qed.

Lemma forget_balanced ids s G : balanced origin published depth s G → balanced origin published depth (forget_pools ids s) G.
Proof.
  unfold forget_pools. revert s. induction ids as [|i ids IH]; intros s HB; cbn [foldl]; [done|]. apply IH.
  refine (circuits_balanced _ _ _ (with_queues s _) _ _ _).
  destruct HB as ([Hd Hi Hs Hl] & HL). apply queues_with; [|done]. split; cbn; try done.
  intros b l [_ Hb]%lookup_delete_Some. by eapply Hi.
Qed.

Lemma reload_balanced c rev nets t s removed t' s' G :
  Forall (λ b, published b ∧ 0 ≤ max_connections b) (c_backends c) → apply_config_reload c rev nets (λ p, p) t s = (removed, t', s') →
  balanced origin published depth s G → balanced origin published depth s' G.
Proof.
  intros Hc Happly HB. unfold apply_config_reload in Happly.
  set (s1 := match rev with Some file => _ | None => s end) in Happly.
  assert (balanced origin published depth s1 G) as HB1 by (apply (balanced_same origin published depth s); [by destruct rev|done]). clearbody s1.
  destruct (build_backend_pools c) as [pools|e] eqn:Hpools; [|by injection Happly as <- <- <-].
  assert (balanced origin published depth (set_reloadable s1 (reloadable_of c pools) (revocation s1)) G) as HB2.
  { destruct HB1 as (HQ & [Hl Hf Hlive _]). split; [by destruct HQ|]. split; [done|done|done|].
    intros k p Hk b Hb. apply build_backend_pools_ok in Hpools as [Hok _]. destruct (Hok k p Hk) as [E _].
    rewrite E in Hb. apply elem_of_members in Hb as [Hb _]. rewrite Forall_forall in Hc. by apply Hc. }
  cbn in Happly.
  destruct (routing_changed c t); injection Happly as <- <- <-;
    (apply pool_balanced; [apply forget_balanced|by apply warm_up_limits]); [|done].
  by apply (balanced_same origin published depth (set_reloadable s1 (reloadable_of c pools) (revocation s1))).
Qed.

Lemma traffic_step_ok px px' :
  traffic_ok px → traffic_step px px' → (∀ b, b ∈ px_configured px' → published b ∧ 0 ≤ max_connections b) →
  traffic_ok px'.
Proof.
  intros Hok. destruct 1 as [px env connect req s|px q a tr ts1 ts2 E|px q a tr ts1 ts2 E|px g gs1 gs2 E|px backend p r Hb E
    |px b bs1 bs2 E|px c rev nets removed t s Hc E|px removed|px s E]; intros Hpub.
  - apply place_ok; [|apply Hok]. apply start_lands, Hok.
  - destruct (tasks_split _ _ _ _ Hok E) as (HB & Hp & Ht). apply place_ok; [|done]. by apply resume_lands.
  - destruct (tasks_split _ _ _ _ Hok E) as (HB & Hp & Ht). split; [|done]. by apply drop_future_balanced.
  - destruct Hok as [HB Ht]. split; [|done]. apply drop_guards_balanced. revert HB. apply balanced_perm.
    unfold traffic_guards. rewrite E. cbn. rewrite !bind_app. cbn. solve_Permutation.
  - destruct Hok as [HB Ht]. split; [|done]. destruct (Hpub backend Hb) as [Hp Hpos].
    pose proof (conn_permit_balanced origin published depth _ _ _ _ _ HB Hp Hpos E) as HB1. destruct r; [|exact HB1].
    revert HB1. apply balanced_perm. unfold traffic_guards. cbn. solve_Permutation.
  - destruct Hok as [HB Ht]. split; [|done]. apply drop_conn_balanced. revert HB. apply balanced_perm.
    unfold traffic_guards. rewrite E. cbn. rewrite !fmap_app. cbn. solve_Permutation.
  - destruct Hok as [HB Ht]. split; [|done]. eapply reload_balanced; [|done..]. apply Forall_forall. intros b Hb.
    apply Hpub. cbn. apply elem_of_app. by left.
  - destruct Hok as [HB Ht]. split; [|done]. apply pool_balanced; [done|apply drain_limits].
  - destruct Hok as [HB Ht]. split; [|done]. by eapply (balanced_same origin published depth).
Qed.

Lemma traffic_reachable_ok px px' :
  traffic_ok px → traffic_reachable px px' → (∀ b, b ∈ px_configured px' → published b ∧ 0 ≤ max_connections b) →
  traffic_ok px'.
Proof.
  intros Hok. induction 1 as [|px1 px2 _ IH Hstep]; [done|]. intros Hpub. apply (traffic_step_ok px1); [|done|done].
  apply IH. intros b Hb. apply Hpub. by apply (configured_step _ _ Hstep).
Qed.
End ledger.

(** Once [b] has a counter, what is left of it and what is out add up to the same number for
    good. *)
Lemma counter_pinned `{!SemaphoreLaws} origin published depth px b sem :
  traffic_ok origin published depth px → conn_limits (conn_pool (px_state px)) !! b = Some sem →
  traffic_ok (λ b' n, b' = b → n = available_permits sem + conns b (traffic_guards px)) (λ _, True) depth px.
Proof.
  intros [([Hd Hi Hs Hl] & [Hc Hf Hcl Hps]) Ht] Hb.
  assert (∀ p, pool_within published p → pool_within (λ _, True) p) as Hw by (intros p Hp k Hk; split; [done|by apply Hp]).
  split; [split; split; try done|].
  - intros b' sem' Hb'. split; [|by destruct (Hc b' sem' Hb')]. intros ->. by simplify_eq.
  - intros k _ Hk Hid. congruence.
  - intros i p Hp. by apply Hw, (Hps i).
  - eapply Forall_impl; [exact Ht|]. intros ta. apply Hw.
Qed.

Lemma counter_kept `{!SemaphoreLaws} origin published depth px px' b sem :
  traffic_ok origin published depth px → Forall unsigned_limit (px_configured px) → traffic_reachable px px' →
  conn_limits (conn_pool (px_state px)) !! b = Some sem →
  ∃ sem', conn_limits (conn_pool (px_state px')) !! b = Some sem' ∧ 0 ≤ available_permits sem' ∧
    available_permits sem' + conns b (traffic_guards px') = available_permits sem + conns b (traffic_guards px).
Proof.
  intros Hok Hnn Hr Hb. apply (counter_pinned _ _ _ _ b sem) in Hok; [|done].
  pose proof (configured_unsigned _ _ Hr Hnn) as Hnn'. rewrite Forall_forall in Hnn'.
  apply (traffic_reachable_ok _ _ _ _ px') in Hok as [(_ & [Hc Hf _ _]) _]; [|done|intros k Hk; split; [done|exact (Hnn' k Hk)]].
  destruct (conn_limits (conn_pool (px_state px')) !! b) as [sem'|] eqn:Hb'.
  - destruct (Hc b sem' Hb') as [E Hpos]. exists sem'. split_and!; [done|done|by apply E].
  - pose proof (λ n, Hf {| Balancer.id := b; pool := ""; address := {| sa_ip := V4 0; sa_port := 0 |}; Balancer.host := ""; weight := f64_one;
      transport := Tcp; scheme := Https; max_connections := n; wakeable := false |} I Hb' eq_refl) as E.
    cbn in E. pose proof (E 0). pose proof (E 1). lia.
Qed.

(** ** The proxy under load *)

(** The proxy as startup builds it. *)
Definition traffic_from (c : ReductionConfig) (registry : TunnelRegistry) (rev : RevocationSet) (bal : Balancing)
    (t : ReloadTask) : Traffic :=
  traffic_start (c_backends c) (build_proxy_state c registry rev false bal) t.

(** What the unsigned types of the settings say. *)
Definition unsigned_config (c : ReductionConfig) : Prop :=
  Forall unsigned_limit (c_backends c) ∧ 0 ≤ bc_queue_depth (balancer c).

(** The limit is one that a configuration sets for the backend. *)
Definition configured_limit (bs : list BackendConfig) (b : string) (n : Z) : Prop :=
  ∃ k, k ∈ bs ∧ Balancer.id k = b ∧ max_connections k = n.

Lemma traffic_from_ok `{!SemaphoreLaws} c registry rev bal t bs :
  unsigned_config c → build_balancing c = Ok bal → c_backends c ⊆ bs →
  traffic_ok (configured_limit bs) (.∈ bs) (bc_queue_depth (balancer c)) (traffic_from c registry rev bal t).
Proof.
  intros [Hb Hd] Hbal Hsub. split; [|constructor]. cbn.
  destruct (build_balancing_pools c bal Hbal) as (pools & Hpools & Hrl).
  split; split; cbn; try done.
  - intros b sem Hl. exfalso. by destruct (tc_enabled (tunnel c)); cbn in Hl; rewrite lookup_empty in Hl.
  - intros k Hk _. by exists k.
  - rewrite Hrl. intros i p Hk b Hin. apply build_backend_pools_ok in Hpools as [Hok _].
    destruct (Hok i p Hk) as [E _]. rewrite E in Hin. apply elem_of_members in Hin as [Hin _].
    rewrite Forall_forall in Hb. split; [by apply Hsub|by apply Hb].
Qed.

Lemma traffic_from_reachable `{!SemaphoreLaws} c registry rev bal t px :
  unsigned_config c → build_balancing c = Ok bal → traffic_reachable (traffic_from c registry rev bal t) px →
  traffic_ok (configured_limit (px_configured px)) (.∈ px_configured px) (bc_queue_depth (balancer c)) px ∧
  Forall unsigned_limit (px_configured px).
Proof.
  intros Hc Hbal Hr. pose proof (configured_unsigned _ _ Hr (proj1 Hc)) as Hnn. split; [|done].
  apply (traffic_reachable_ok _ _ _ (traffic_from c registry rev bal t)); [|done|].
  - apply traffic_from_ok; [done|done|]. exact (configured_reachable _ _ Hr).
  - intros b Hb. rewrite Forall_forall in Hnn. split; [done|exact (Hnn b Hb)].
Qed.

(** C4. The limits hold under load and nothing leaks.  However requests, streams, raw relays,
    reloads and drains interleave, wherever a client goes away and whatever the breakers do,
    every queue, also one a reload has unlinked, has admitted at most the depth of the startup
    configuration and has exactly the rest left.  Every backend for which a permit was ever
    asked has one limit, which some configuration set for it: it has at most that many
    connections in use and exactly the rest left, now and in every later state, so that a
    reload that sets another limit changes nothing.  Once nothing is in flight every slot and
    every permit is back. *)
Theorem limits_hold_under_load `{!SemaphoreLaws} c registry rev bal t px :
  unsigned_config c → build_balancing c = Ok bal → traffic_reachable (traffic_from c registry rev bal t) px →
  let s := px_state px in
  let G := traffic_guards px in
  let depth := bc_queue_depth (balancer c) in
  (∀ l q, q_arcs (queues s) !! l = Some q →
    available_permits (semaphore q) = depth - slots l G ∧ 0 ≤ slots l G ≤ depth) ∧
  (∀ b sem, conn_limits (conn_pool s) !! b = Some sem →
    ∃ n, configured_limit (px_configured px) b n ∧ available_permits sem = n - conns b G ∧ 0 ≤ conns b G ≤ n ∧
    ∀ px', traffic_reachable px px' → ∃ sem', conn_limits (conn_pool (px_state px')) !! b = Some sem' ∧
      available_permits sem' = n - conns b (traffic_guards px') ∧ 0 ≤ conns b (traffic_guards px') ≤ n) ∧
  (px_tasks px = [] → px_streams px = [] → px_raw px = [] →
    (∀ l q, q_arcs (queues s) !! l = Some q → available_permits (semaphore q) = depth) ∧
    (∀ b sem, conn_limits (conn_pool s) !! b = Some sem →
      configured_limit (px_configured px) b (available_permits sem))).
Proof.
  intros Hcfg Hbal Hr. cbv zeta.
  destruct (traffic_from_reachable c registry rev bal t px Hcfg Hbal Hr) as [Hok Hnn].
  pose proof Hok as [([Hd Hi Hs Hl] & [Hc _ _ _]) _]. split_and!.
  - intros l q Hq. destruct (Hs l q Hq). pose proof (slots_nonneg l (traffic_guards px)). lia.
  - intros b sem Hb. destruct (Hc b sem Hb) as [Hn Hpos]. pose proof (conns_nonneg b (traffic_guards px)).
    eexists. split; [exact Hn|]. split_and!; [lia..|]. intros px' Hr'.
    destruct (counter_kept _ _ _ _ _ _ _ Hok Hnn Hr' Hb) as (sem' & Hb' & Hpos' & E).
    pose proof (conns_nonneg b (traffic_guards px')). exists sem'. split_and!; [done|lia..].
  - intros Et Es Er. assert (traffic_guards px = []) as E by (unfold traffic_guards; by rewrite Et, Es, Er).
    rewrite E in *. split; [intros l q Hq; destruct (Hs l q Hq) as [Ha _]; cbn in Ha; lia|].
    intros b sem Hb. destruct (Hc b sem Hb) as [Ha _]. cbn in Ha. by rewrite Z.add_0_r in Ha.
Qed.
End traffic.

(** ** A run *)

(** Steps as functions: a request arrives; the task at the head of the list is resumed or
    dropped. *)
Definition arrive (method : string) (px : Traffic) : Traffic :=
  place {| tk_env := demo_env 200 []; tk_connect := demo_client; tk_req := demo_req method; tk_arrival := px_state px; tk_seen := [] |}
    (start (demo_env 200 []) demo_client (demo_req method) {| state := px_state px; trace := [] |}) px.

Definition resume_head (px : Traffic) : Traffic :=
  match px_tasks px with
  | [] => px
  | ta :: ts =>
      place (saw (ta_ticket ta) (await_rank (ta_await ta)) (px_state px))
        (resume demo_ln demo_chunks (tk_env (ta_ticket ta)) (ta_await ta) {| state := px_state px; trace := ta_trace ta |})
        (with_tasks px ts)
  end.

Definition cancel_head (px : Traffic) : Traffic :=
  match px_tasks px with
  | [] => px
  | ta :: ts => with_state (with_tasks px ts) (state (drop_future (ta_await ta) {| state := px_state px; trace := ta_trace ta |}))
  end.

(** A reload to the configuration [c]. *)
Definition reload_to (c : ReductionConfig) (px : Traffic) : Traffic :=
  let x := apply_config_reload c None (λ _, []) (λ p, p) (px_reload px) (px_state px) in
  {| px_state := x.2; px_tasks := px_tasks px; px_streams := px_streams px; px_raw := px_raw px;
     px_reload := x.1.2; px_answered := px_answered px; px_configured := c_backends c ++ px_configured px |}.

Section demo.
  Context (px0 px : Traffic) (Hr : traffic_reachable demo_ln demo_chunks px0 px).

Lemma arrive_reachable method : traffic_reachable demo_ln demo_chunks px0 (arrive method px).
Proof. eapply traffic_next; [exact Hr|]. apply tr_arrive. Qed.

Lemma resume_head_reachable : traffic_reachable demo_ln demo_chunks px0 (resume_head px).
Proof.
  unfold resume_head. destruct (px_tasks px) as [|[q a tr] ts] eqn:E; [done|]. eapply traffic_next; [exact Hr|].
  by apply (tr_resume _ _ px q a tr [] ts).
Qed.

Lemma cancel_head_reachable : traffic_reachable demo_ln demo_chunks px0 (cancel_head px).
Proof.
  unfold cancel_head. destruct (px_tasks px) as [|[q a tr] ts] eqn:E; [done|]. eapply traffic_next; [exact Hr|].
  by apply (tr_cancel _ _ px q a tr [] ts).
Qed.

Lemma reload_to_reachable c :
  Forall unsigned_limit (c_backends c) → traffic_reachable demo_ln demo_chunks px0 (reload_to c px).
Proof.
  intros Hc. eapply traffic_next; [exact Hr|]. unfold reload_to.
  apply (tr_reload _ _ px c None (λ _, []) (apply_config_reload c None (λ _, []) (λ p, p) (px_reload px) (px_state px)).1.1);
    [done|]. by destruct (apply_config_reload _ _ _ _ _ _) as [[]].
Qed.
End demo.

Definition demo_idle : Traffic :=
  traffic_from demo_old (TunnelRegistry_new 8) RevocationSet_default (demo_bal demo_old)
    {| prev_routes := c_routes demo_old; prev_backends := c_backends demo_old |}.

(** Two requests are in flight, the second of which has a backend. *)
Definition demo_busy : Traffic := resume_head (arrive "GET" (arrive "POST" demo_idle)).

Lemma demo_busy_reachable : traffic_reachable demo_ln demo_chunks demo_idle demo_busy.
Proof. apply resume_head_reachable. do 2 apply arrive_reachable. apply traffic_init. Qed.

Lemma demo_old_unsigned : unsigned_config demo_old.
Proof. split; [|by vm_compute]. repeat constructor; by vm_compute. Qed.

(** The same backends, each with a limit of 2. *)
Definition demo_lowered : ReductionConfig :=
  let lower b := {| Balancer.id := Balancer.id b; pool := pool b; address := address b; Balancer.host := Balancer.host b;
                    weight := weight b; transport := transport b; scheme := scheme b; max_connections := 2;
                    wakeable := wakeable b |} in
  demo_config (lower <$> c_backends demo_old) (c_routes demo_old).

Lemma limits_hold_under_load_witness :
  slots 0 (traffic_guards demo_busy) = 2 ∧ conns "a1" (traffic_guards demo_busy) = 1 ∧
  conn_limits (conn_pool (px_state demo_busy)) !! "a1" = Some 7 ∧
  (∃ n, configured_limit (px_configured demo_busy) "a1" n ∧ 7 = n - 1 ∧
    ∃ sem', conn_limits (conn_pool (px_state (reload_to demo_lowered demo_busy))) !! "a1" = Some sem' ∧
      available_permits sem' = n - conns "a1" (traffic_guards (reload_to demo_lowered demo_busy))) ∧
  slots 0 (traffic_guards (cancel_head demo_busy)) = 1 ∧ conns "a1" (traffic_guards (cancel_head demo_busy)) = 0 ∧
  conn_limits (conn_pool (px_state (cancel_head demo_busy))) !! "a1" = Some 8.
Proof.
  assert (conn_limits (conn_pool (px_state demo_busy)) !! "a1" = Some 7) as Hb by (vm_compute; reflexivity).
  split_and!; [vm_compute; reflexivity|vm_compute; reflexivity|exact Hb| |vm_compute; reflexivity..].
  destruct (limits_hold_under_load demo_ln demo_chunks demo_old (TunnelRegistry_new 8) RevocationSet_default
    (demo_bal demo_old) {| prev_routes := c_routes demo_old; prev_backends := c_backends demo_old |} demo_busy
    demo_old_unsigned demo_bal_ok demo_busy_reachable) as (_ & Hconns & _).
  destruct (Hconns "a1" 7 Hb) as (n & Hn & Ha & _ & Hlater). exists n. split_and!; [exact Hn|exact Ha|].
  destruct (Hlater (reload_to demo_lowered demo_busy)) as (sem' & Hs & He & _).
  - apply reload_to_reachable; [apply traffic_init|]. repeat constructor; by vm_compute.
  - exists sem'. split; [exact Hs|exact He].
Defined.

(** The second request is answered while the first still waits. *)
Definition demo_answered : Traffic := resume_head (resume_head (resume_head demo_busy)).

Lemma demo_answered_reachable : traffic_reachable demo_ln demo_chunks demo_idle demo_answered.
Proof. do 3 apply resume_head_reachable. apply demo_busy_reachable. Qed.

Lemma sends_bounded_under_load_witness :
  map (λ an : Ticket * (Served * Run), sends (trace an.2.2)) (px_answered demo_answered) = [1%nat] ∧
  map (λ ta, sends (ta_trace ta)) (px_tasks demo_answered) = [0%nat] ∧
  Forall (λ an : Ticket * (Served * Run), sends_ok an.1 (trace an.2.2)) (px_answered demo_answered).
Proof.
  split; [vm_compute; reflexivity|]. split; [vm_compute; reflexivity|].
  exact (proj2 (sends_bounded_under_load demo_ln demo_chunks _ _ _ demo_answered demo_answered_reachable)).
Defined.

Lemma requests_terminate_witness :
  length (px_tasks demo_busy) = 2%nat ∧
  Forall (λ ta, ∀ σ, ∃ seen out,
    interleaved demo_ln demo_chunks (tk_env (ta_ticket ta))
      (Wait (ta_await ta), {| state := px_state demo_busy; trace := ta_trace ta |}) seen out ∧
    scheduled σ seen ∧ few_resumptions (tk_seen (ta_ticket ta) ++ seen)) (px_tasks demo_busy).
Proof.
  split; [vm_compute; reflexivity|].
  exact (requests_terminate demo_ln demo_chunks _ _ _ demo_busy demo_busy_reachable).
Defined.

(** ** A woken request *)

(** The only backend is asleep: its first connection is refused, and it is up when the wake-up
    has been waited for. *)
Definition cold_backend : BackendConfig :=
  {| id := "a"; pool := "p"; address := demo_addr 11; Balancer.host := "a"; weight := f64_one; transport := Tcp;
     scheme := Https; max_connections := 8; wakeable := true |}.

Definition cold_state : ProxyState :=
  set_reloadable (demo_state 2)
    {| router := router (reloadable (demo_state 2)); backend_pools := {["p" := {| backends := [cold_backend] |}]};
       rl_acl := rl_acl (reloadable (demo_state 2)) |} RevocationSet_default.

Definition refused_net : Net :=
  {| nt_closed := nt_closed demo_net; nt_is_ready := nt_is_ready demo_net; nt_ready := nt_ready demo_net;
     nt_tcp := Answer (Err "refused"); nt_server_name := nt_server_name demo_net; nt_tls := nt_tls demo_net;
     nt_http1 := nt_http1 demo_net; nt_http2 := nt_http2 demo_net; nt_quic_crypto := nt_quic_crypto demo_net;
     nt_quic_bind := nt_quic_bind demo_net; nt_quic_connect := nt_quic_connect demo_net; nt_quic := nt_quic demo_net;
     nt_open_bi := nt_open_bi demo_net; nt_open := nt_open demo_net; nt_write := nt_write demo_net |}.

Definition waking_env : Env :=
  {| ev_start := 0; ev_panicked := false; ev_body_await s := s; ev_now _ := 0; ev_done _ := 1;
     ev_net n := if n =? 0 then refused_net else demo_net; ev_net_back _ := demo_net; ev_dial_await _ s := s;
     ev_open_await _ s := s; ev_inject _ := []; ev_send _ := Answer (Ok (200, [], 0%nat)); ev_send_await _ s := s;
     ev_parked _ := true; ev_park_await _ s := s; ev_collect_await _ s := s; ev_random _ := 0; ev_sleep_await _ _ s := s |}.

(** A request that is parked and released once its backend is up is answered by it only if it
    has an attempt left: a GET is, a POST, which has one attempt, is answered 502 although its
    wake-up succeeded and nothing was sent. *)
Example woken_post_fails :
  let run method := proxy_handler demo_ln demo_chunks waking_env demo_client (demo_req method)
                      {| state := cold_state; trace := [] |} in
  (res_status (sv_response (run "GET").1), sends (trace (run "GET").2)) = (200, 1%nat) ∧
  (res_status (sv_response (run "POST").1), sends (trace (run "POST").2)) = (502, 0%nat).
Proof. split; vm_compute; reflexivity. Qed.
